(* ===== verification/_CoqProject ===== *)
-Q . S2P
Prelude.v
Constants.v
Errors.v
UdpProto.v
Packet.v
Runtime.v
Stream.v
StreamInv.v
StreamCtrl.v
StreamSend.v
StreamTimer.v
StreamAck.v
StreamRecv.v
StreamDriver.v
StreamSpec.v
StreamLiveness.v
StreamLimits.v
StreamTurn.v
StreamPeer.v
Socket.v
SocketSpec.v
Network.v
NetworkSpec.v
NetworkPump.v
NetworkDelivery.v
NetworkClose.v
NetworkEnd.v
Mesh.v
MeshSpec.v
MeshRefine.v
Cmsg.v
CmsgSpec.v
Unix.v
UnixLinux.v
UnixSpec.v
UnixRecvSpec.v
Fallback.v
Datagram.v
DatagramRecv.v
Mutex.v
Handles.v
