(* ===== verification/Prelude.v ===== *)
(** * async-udx: a verification of the UDX transport

    UDX is a reliable, ordered stream protocol over UDP.  The repository is the
    crate [async-udx] ([src/src/]) and the datagram layer [udx-udp]
    ([src/udx-udp/src/]) that it sends through.

    ** The program

    A [UdxSocket] owns a UDP socket and a driver task; [connect] adds a
    [UdxStream], with a driver task of its own.  A stream cuts what is written
    into packets, keeps them until they are acknowledged, retransmits them on
    timeouts within a congestion window, and reassembles what arrives.  It hands
    packet sets to the socket over a channel ([EventOutgoing]); the socket turns
    them into transmits for the datagram layer, and routes received datagrams by
    stream id into the channel of their stream ([EventIncoming]).  The datagram
    layer batches system calls, attaches control messages (congestion codepoint,
    segment size, addresses), and retries or translates errors of the kernel.

    ** Files and what they model

    - [Prelude]: outcomes of Rust code (return, panic, out of fuel), the state
      monad [Act] with its weakest precondition [wp], loops, machine integers,
      record updates, automation.
    - [Constants], [Errors]: [constants.rs], [error.rs].
    - [UdpProto]: [proto.rs] and [lib.rs] of the datagram layer: [Transmit],
      [EcnCodepoint], [RecvMeta], the rate limit of error logging.
    - [Packet]: [packet.rs]: the header codec, packets with their atomic flags,
      packet sets.  An [Arc<Packet>] is a location in a store, so that the
      table, the queue and the packet sets of the socket share it.
    - [Runtime]: the events and the world shared by streams and socket.
    - [Stream]: [stream.rs]: [UdxStreamInner] with one definition per method.
      [StreamInv] is its invariant; [StreamCtrl], [StreamSend], [StreamTimer],
      [StreamAck], [StreamRecv], [StreamDriver] are the lemmas of each group of
      methods; [StreamSpec] has the contracts, [StreamLiveness] progress and the
      silent peer, [StreamLimits] the behaviour that the comments do not
      announce, [StreamTurn] the effect of one poll of the driver on a
      stream that has not failed, [StreamPeer] what each operation means for
      the stream at the other end and for other streams of the same host, and
      what a call of [poll_read] takes and returns ([Reading]).
    - [Socket]: [socket.rs]; [SocketSpec] its contracts.
    - [Network]: two endpoints and the network between them, a transition
      system whose steps are the operations of [Stream] and [Socket];
      [NetworkSpec] its invariant and what it shows;
      [NetworkPump] and [NetworkDelivery] the schedule that delivers everything;
      [NetworkClose] closing after the delivery;
      [NetworkEnd] an END packet that overtakes data.
    - [Mesh]: any number of hosts, each with one socket that all of its streams
      share, and connections between them that are opened at any time;
      [MeshSpec] its invariant and what it shows, [MeshRefine] the refinement of
      a bundle of byte pipes.
    - [Cmsg]: [cmsg.rs]; [CmsgSpec] its properties and the layout of 64-bit
      Linux.
    - [Unix]: [unix.rs], for every target ([Target] is what [cfg] selects);
      [UnixLinux] the parameters of Linux; [UnixSpec] sending, [UnixRecvSpec]
      receiving and setup.
    - [Fallback]: [fallback.rs].
    - [Datagram]: the interface between socket and datagram layer for sending,
      its two implementations, and the socket over either; [DatagramRecv] the
      same for receiving.
    - [Mutex]: [mutex.rs], both variants; [Handles] the handles [UdxStream] and
      [UdxSocket], which lock it around the methods of the inner structs.

    A definition has the name of the function or type it models; where two
    files have the same name, the socket's carries the prefix [socket_], and a
    field carries a letter for its struct ([s_] for [UdxStreamInner], [k_] for
    [UdxSocketInner], [p_], [h_], [i_], [t_]).  A method with [&mut self] is an
    action on its struct and on what it shares with others.  One definition is
    one critical section: every entry point of the source holds its mutex for
    its whole run.

    ** What is shown

    - Many streams ([MeshSpec], [MeshRefine]): streams that share sockets,
      queues and the store of packets are each as reliable as if they were
      alone, leave each other's state and packets alone, and together refine
      independent byte pipes.
    - End to end ([NetworkSpec]): over a network that loses, duplicates,
      delays and reorders, what reads take from a stream is a prefix of what was
      written; unacknowledged payloads are kept; no reachable operation panics;
      and the tables, counters and states of a stream agree with each other.
    - Reading: a call of [poll_read] may put bytes into its buffer and still
      return [Pending] or an error ([StreamLimits]), and then its caller loses
      them.  So two things are counted: what reads took from the stream, and what
      they returned.  The first is always a prefix of what was written; the
      second is a part of it in the right order, and equal to the first when all
      buffers have room for [UDX_MAX_DATA_SIZE] bytes.
    - Delivery ([NetworkDelivery]): from every reachable state in which both
      endpoints are up, the network can carry all that was written to its
      reader, so no history of losses leads into a state that is stuck.  The
      run that shows it lets both sides catch up, fires the retransmission
      timer once, and then repeats rounds of one packet and its answer.
    - Closing ([NetworkClose]): after such a run the side can close its stream;
      two polls of its driver later the close future is resolved, and nothing
      that was written is lost.
    - The end ([NetworkEnd]): an END packet that overtakes data ends the stream
      of its receiver within two polls, and the data can never be read.
    - Progress ([StreamLiveness]): when the first missing packet and its answer
      get through, both sides move; a stream with a silent peer times out after
      at most eight expiries of its timer; and its driver does not complete
      after that.
    - The stream ([StreamSpec]): every sequence of operations with arbitrary
      packets is free of panics and overflows and keeps the invariant, and each
      operation has a contract for all of its branches.  [update_rtt] equals the
      formulas of RFC 6298.
    - The socket ([SocketSpec]): routing, the order of transmissions, the life
      of its driver.
    - The codec ([Packet]): headers round-trip, decoding accepts exactly the
      well-formed buffers, and segmentation inverts the concatenation.
    - The datagram layer: control messages round-trip inside of their buffer
      and always fit it; sending and receiving on every answer of the kernel;
      setup; the fallback; and the composition with the socket in both
      directions ([Datagram], [DatagramRecv]), proved against the laws of
      interfaces that both layers satisfy.
    - The mutex and the handles ([Mutex], [Handles]): any sequence of calls on
      the handle of a stream is safe, and with lock tracking it gives the same
      answers and leaves the last twenty owners in the log.
    - Deviations ([StreamLimits], parts of [SocketSpec]): selective
      acknowledgements ignore their last range, an acknowledgement above the
      sequence number is applied, small reads return pending, and others.

    ** Integers, bounds and fuel

    Integers are [Z] with their range written out.  [Profile] is the build: the
    switch for overflow checks (an overflow panics with them and wraps around
    without), and the platform, which decides the batch size of the datagram
    layer (32 messages or one); the theorems hold for all builds.  [Room n b] says that the 32-bit sequence numbers
    and 64-bit counters have room for [n] more packets and [b] more bytes; the
    source has no wrap-around of sequence numbers, so a theorem about more than
    2^32 packets would be false.  Clock readings are at most [CLOCK_BOUND], 2^88
    ns, far beyond the range in which [Duration] arithmetic is exact.  The fuel
    of a loop is computed from its data where the source's loop is bounded by it
    (the length of a buffer, of a queue, of an interval); a result [NoFuel] is
    never accepted by a theorem, so every theorem that an operation returns is
    also one that its loops end.  Loops over answers of the kernel end with the
    script of answers.

    ** Parameters

    Code outside of the repository enters as a class with laws, each with an
    instance that satisfies them: [AtomicInstant] (time stamps of packets),
    [ReadBuf] (tokio), [KernelGso] (segmentation by the kernel), [CmsgAbi] (the
    [CMSG_] macros), [Libc] (constants and layouts of [libc] and [socket2]; the
    source reads a [SocketAddr] from the bytes of a [sockaddr], which is the
    law [name_addr] relies on).  What tokio's channels and timers, the clock and
    the system calls answer is a script given to the operation, so that the
    theorems hold for all answers.

    ** Not modelled

    Debug formatting and log output (a log line is at most a boolean or a new
    time stamp); [tokio::spawn], the scheduler and the mutual exclusion of [parking_lot] (operations are steps,
    in any order); resolving addresses in [bind]; the crate roots, which only
    declare modules; tests, benchmarks, examples and the end-to-end program,
    which use the library.  Fairness: that a
    network which delivers infinitely often delivers everything in the end is
    not stated, since every timeout brings the stream nearer to giving up; what
    is stated is that delivery is possible from every state of two endpoints.
    In [Network] and [Mesh] a socket lives as long as its streams, as it does
    unless its driver has failed with an I/O error and all of its handles are
    gone; what a closed channel to the socket does to a stream is in the
    definitions of [Stream].  That a bound UDP socket knows its own address is
    taken for granted ([local_addr().unwrap()] in [process_packet] and
    [connect], whose values only reach the log).
    In [Mesh] an end is connected once; what a second [connect] with an id that
    is in use does is shown in [SocketSpec]. *)

From Stdlib Require Export ZArith Lia Strings.Byte.
From stdpp Require Export base gmap list strings.

Local Open Scope Z_scope.

(** ** Outcomes of Rust code

    [Ret] is a normal return.  [Panic] is an unwinding panic, with its cause.
    [NoFuel] marks a loop whose iteration bound was too small; no theorem of
    the library accepts it as a result. *)
Inductive panic :=
  | ArithmeticOverflow
  | DivisionByZero
  | OutOfBounds
  | UnwrapFailed
  | AssertionFailed
  | CapacityOverflow
  | Unimplemented
  | ExplicitPanic.

Inductive outcome (A : Type) :=
  | Ret (a : A)
  | Panic (why : panic)
  | NoFuel.
Arguments Ret {A} _.
Arguments Panic {A} _.
Arguments NoFuel {A}.

#[export] Instance outcome_ret : MRet outcome := fun A a => Ret a.
#[export] Instance outcome_bind : MBind outcome := fun A B f m =>
  match m with
  | Ret a => f a
  | Panic w => Panic w
  | NoFuel => NoFuel
  end.

(** [Result<T, E>] and [std::task::Poll<T>]. *)
Inductive result (A E : Type) :=
  | Ok (a : A)
  | Err (e : E).
Arguments Ok {A E} _.
Arguments Err {A E} _.

Inductive poll (A : Type) :=
  | Ready (a : A)
  | Pending.
Arguments Ready {A} _.
Arguments Pending {A}.

(** ** Actions: state passing with panics

    A method with receiver [&mut self] (and whatever else it can reach) is an
    [Act S A]: it reads and replaces a state of type [S] and returns an [A],
    panics, or runs out of fuel. *)
Definition Act (S A : Type) : Type := S -> outcome (A * S).

#[export] Instance act_ret {S} : MRet (Act S) := fun A a s => Ret (a, s).
#[export] Instance act_bind {S} : MBind (Act S) := fun A B f m s =>
  match m s with
  | Ret (a, s') => f a s'
  | Panic w => Panic w
  | NoFuel => NoFuel
  end.

Definition get {S} : Act S S := fun s => Ret (s, s).
Definition gets {S A} (f : S -> A) : Act S A := fun s => Ret (f s, s).
Definition modify {S} (f : S -> S) : Act S unit := fun s => Ret (tt, f s).
Definition lift {S A} (o : outcome A) : Act S A := fun s =>
  match o with
  | Ret a => Ret (a, s)
  | Panic w => Panic w
  | NoFuel => NoFuel
  end.

Definition out_of_fuel {S A} : Act S A := fun _ => NoFuel.

(** Weakest precondition for total correctness: the action returns, without a
    panic and within its fuel, and its result and final state satisfy [Q]. *)
Definition wp {S A} (m : Act S A) (Q : A -> S -> Prop) (s : S) : Prop :=
  match m s with
  | Ret (a, s') => Q a s'
  | _ => False
  end.

(** ** Control flow *)

(** What one iteration of a [loop]/[for] body decides. *)
Inductive flow (R : Type) :=
  | Continue
  | Break (r : R).
Arguments Continue {R}.
Arguments Break {R} _.

(** [for i in a..b { body }]; [None] when the range is exhausted, [Some r] when
    an iteration left the loop with [r]. *)
Fixpoint for_upto {S R} (n : nat) (i : Z) (body : Z -> Act S (flow R)) : Act S (option R) :=
  match n with
  | O => mret None
  | Datatypes.S n' =>
      r ← body i;
      match r with
      | Continue => for_upto n' (i + 1) body
      | Break x => mret (Some x)
      end
  end.

Definition for_range {S R} (a b : Z) (body : Z -> Act S (flow R)) : Act S (option R) :=
  for_upto (Z.to_nat (b - a)) a body.

(** [while cond { body }], at most [n] iterations. *)
Fixpoint while_loop {S} (n : nat) (cond : S -> bool) (body : Act S unit) : Act S unit :=
  fun s =>
  if cond s then
    match n with
    | O => NoFuel
    | Datatypes.S n' => (body ≫= fun _ => while_loop n' cond body) s
    end
  else Ret (tt, s).

(** [loop { body }], at most [n] iterations. *)
Fixpoint loop {S R} (n : nat) (body : Act S (flow R)) : Act S R :=
  match n with
  | O => out_of_fuel
  | Datatypes.S n' =>
      r ← body;
      match r with
      | Continue => loop n' body
      | Break x => mret x
      end
  end.

(** ** Machine integers

    Unsigned integers are [Z] values kept inside their width.  [+=], [-=] and
    friends panic on overflow when the crate is built with overflow checks
    (the dev and test profiles) and wrap otherwise (the release profile).  The
    build is a parameter of every definition that does arithmetic; it also
    selects the implementation of the datagram layer, by which the size of its
    batches depends on the platform. *)
Class Profile := mk_Profile {
  overflow_checks : bool;
  batching : bool;          (* [recvmmsg] and [sendmmsg], not single messages *)
}.

Definition u8_modulus : Z := 2 ^ 8.
Definition u32_modulus : Z := 2 ^ 32.
Definition usize_modulus : Z := 2 ^ 64.
Definition U32_MAX : Z := u32_modulus - 1.

Section arithmetic.
Context `{Profile}.

Definition narrow (modulus r : Z) : outcome Z :=
  if (0 <=? r) && (r <? modulus) then Ret r
  else if overflow_checks then Panic ArithmeticOverflow
  else Ret (r mod modulus).

Definition u32_add (a b : Z) : outcome Z := narrow u32_modulus (a + b).
Definition u32_sub (a b : Z) : outcome Z := narrow u32_modulus (a - b).
Definition usize_add (a b : Z) : outcome Z := narrow usize_modulus (a + b).
Definition usize_sub (a b : Z) : outcome Z := narrow usize_modulus (a - b).
Definition usize_mul (a b : Z) : outcome Z := narrow usize_modulus (a * b).

End arithmetic.

(** [usize] division panics on zero in every profile. *)
Definition usize_div (a b : Z) : outcome Z :=
  if b =? 0 then Panic DivisionByZero else Ret (a / b).

Definition usize_saturating_sub (a b : Z) : Z := Z.max 0 (a - b).

(** [Option::unwrap]. *)
Definition unwrap {A} (o : option A) : outcome A :=
  match o with
  | Some a => Ret a
  | None => Panic UnwrapFailed
  end.

(** ** Durations and instants of [std::time], in nanoseconds

    [Duration] holds a [u64] of seconds and the nanoseconds below one second;
    its operators panic beyond that in every profile.  [Instant] holds an
    [i64] of seconds. *)
Definition DURATION_MAX : Z := 2 ^ 64 * 10 ^ 9 - 1.
Definition INSTANT_MAX : Z := 2 ^ 63 * 10 ^ 9 - 1.

Definition from_millis (ms : Z) : Z := ms * 10 ^ 6.

Definition duration_checked (d : Z) : outcome Z :=
  if (0 <=? d) && (d <=? DURATION_MAX) then Ret d else Panic ArithmeticOverflow.
Definition duration_add (a b : Z) : outcome Z := duration_checked (a + b).
Definition duration_sub (a b : Z) : outcome Z := duration_checked (a - b).
Definition duration_mul (k d : Z) : outcome Z := duration_checked (k * d).
Definition duration_div (d k : Z) : outcome Z :=
  if k =? 0 then Panic DivisionByZero else Ret (d / k).

Definition instant_checked_add (t d : Z) : option Z :=
  if t + d <=? INSTANT_MAX then Some (t + d) else None.

(** ** Bytes *)

Definition byte_of_Z (z : Z) : byte :=
  match Byte.of_N (Z.to_N (z mod 256)) with
  | Some b => b
  | None => Byte.x00
  end.

Definition Z_of_byte (b : byte) : Z := Z.of_N (Byte.to_N b).

#[export] Instance byte_eq_decision : EqDecision byte := Byte.byte_eq_dec.

(** [len l] is the [usize] length of a slice. *)
Definition len {A} (l : list A) : Z := Z.of_nat (length l).

(** [&l[a..b]]: panics unless [a <= b <= l.len()]. *)
Definition slice {A} (l : list A) (a b : Z) : outcome (list A) :=
  if (0 <=? a) && (a <=? b) && (b <=? len l)
  then Ret (take (Z.to_nat (b - a)) (drop (Z.to_nat a) l))
  else Panic OutOfBounds.

(** [l[i]]. *)
Definition index {A} (l : list A) (i : Z) : outcome A :=
  if 0 <=? i then
    match l !! Z.to_nat i with
    | Some a => Ret a
    | None => Panic OutOfBounds
    end
  else Panic OutOfBounds.

(** [l[i] = v]. *)
Definition set_index {A} (l : list A) (i : Z) (v : A) : outcome (list A) :=
  if (0 <=? i) && (i <? len l) then Ret (<[Z.to_nat i := v]> l) else Panic OutOfBounds.

(** [dst[a..b].copy_from_slice(src)]: panics unless the range lies in [dst] and
    has the length of [src]. *)
Definition copy_from_slice {A} (dst : list A) (a b : Z) (src : list A) : outcome (list A) :=
  if (0 <=? a) && (a <=? b) && (b <=? len dst) && (len src =? b - a)
  then Ret (take (Z.to_nat a) dst ++ src ++ drop (Z.to_nat b) dst)
  else Panic OutOfBounds.

(** [u32::to_le_bytes] and [u32::from_le_bytes]. *)
Definition u32_to_le_bytes (v : Z) : list byte :=
  [byte_of_Z v; byte_of_Z (Z.shiftr v 8); byte_of_Z (Z.shiftr v 16); byte_of_Z (Z.shiftr v 24)].

Definition u32_from_le_bytes (a b c d : byte) : Z :=
  Z.lor (Z_of_byte a)
    (Z.lor (Z.shiftl (Z_of_byte b) 8)
      (Z.lor (Z.shiftl (Z_of_byte c) 16) (Z.shiftl (Z_of_byte d) 24))).

(** ** Field update

    [r <| f := v |>] is the record [r] with field [f] replaced, and
    [r <| f ::= g |>] with [g] applied to it.  A record type takes part by
    giving its eta expansion as an [Eta] instance; the update of each field is
    computed from it. *)
Class Eta (R : Type) := eta_expand : R -> R.

Class FieldUpdate {R T} (field : R -> T) := update_field : (T -> T) -> R -> R.

Ltac derive_field_update field :=
  lazymatch type of field with
  | ?R -> ?T =>
      let e := constr:(_ : Eta R) in
      let e' := eval red in e in
      lazymatch eval pattern field in e' with
      | ?F _ => exact (fun (g : T -> T) => F (fun r : R => g (field r)))
      end
  end.

#[export] Hint Extern 0 (FieldUpdate ?f) => derive_field_update f : typeclass_instances.

Arguments update_field {R T} field {_} _ _ /.

Declare Scope udx_scope.
Notation "r <| f ::= g |>" := (update_field f g r)
  (at level 1, left associativity, format "r  <| f  ::=  g |>") : udx_scope.
Notation "r <| f := v |>" := (update_field f (fun _ => v) r)
  (at level 1, left associativity, format "r  <| f  :=  v |>") : udx_scope.
Open Scope udx_scope.

(** * Lemmas *)

(** ** Weakest preconditions *)

Section wp_rules.
Context {S : Type}.
Implicit Types (s : S).

Lemma wp_ret {A} (a : A) (Q : A -> S -> Prop) s : Q a s -> wp (mret a) Q s.
Proof. done. Qed.

Lemma wp_bind {A B} (m : Act S A) (f : A -> Act S B) Q s :
  wp m (fun a s' => wp (f a) Q s') s -> wp (m ≫= f) Q s.
Proof. unfold wp, mbind, act_bind. by destruct (m s) as [[a s']| |]. Qed.

Lemma wp_get (Q : S -> S -> Prop) s : Q s s -> wp get Q s.
Proof. done. Qed.

Lemma wp_gets {A} (f : S -> A) (Q : A -> S -> Prop) s : Q (f s) s -> wp (gets f) Q s.
Proof. done. Qed.

Lemma wp_modify (f : S -> S) (Q : unit -> S -> Prop) s : Q tt (f s) -> wp (modify f) Q s.
Proof. done. Qed.

Lemma wp_lift {A} (o : outcome A) a (Q : A -> S -> Prop) s :
  o = Ret a -> Q a s -> wp (lift o) Q s.
Proof. by intros ->. Qed.

Lemma wp_mono {A} (m : Act S A) (Q Q' : A -> S -> Prop) s :
  wp m Q s -> (forall a s', Q a s' -> Q' a s') -> wp m Q' s.
Proof. unfold wp. destruct (m s) as [[a s']| |]; naive_solver. Qed.

Lemma wp_and {A} (m : Act S A) (Q Q' : A -> S -> Prop) s :
  wp m Q s -> wp m Q' s -> wp m (fun a s' => Q a s' /\ Q' a s') s.
Proof. unfold wp. destruct (m s) as [[a s']| |]; naive_solver. Qed.

Lemma wp_elim {A} (m : Act S A) Q s :
  wp m Q s -> exists a s', m s = Ret (a, s') /\ Q a s'.
Proof. unfold wp. destruct (m s) as [[a s']| |]; naive_solver. Qed.

(** The result of an action is what running it gives. *)
Lemma wp_run_eq {A} (m : Act S A) Q s :
  wp m Q s -> wp m (fun a s' => Q a s' /\ m s = Ret (a, s')) s.
Proof. unfold wp. by destruct (m s) as [[a s']| |]. Qed.

Lemma bind_ret_inv {A B} (m : Act S A) (f : A -> Act S B) s b s' :
  (m ≫= f) s = Ret (b, s') -> exists a s1, m s = Ret (a, s1) /\ f a s1 = Ret (b, s').
Proof. unfold mbind, act_bind. destruct (m s) as [[a s1]| |]; try done. by exists a, s1. Qed.

Lemma wp_intro {A} (m : Act S A) (Q : A -> S -> Prop) s a s' :
  m s = Ret (a, s') -> Q a s' -> wp m Q s.
Proof. unfold wp. by intros ->. Qed.

Lemma wp_for_upto {R} (I : Z -> S -> Prop) (body : Z -> Act S (flow R)) Q n i s :
  I i s ->
  (forall j s1, i <= j < i + Z.of_nat n -> I j s1 ->
     wp (body j) (fun r s2 => match r with
                              | Continue => I (j + 1) s2
                              | Break x => Q (Some x) s2
                              end) s1) ->
  (forall s1, I (i + Z.of_nat n) s1 -> Q None s1) ->
  wp (for_upto n i body) Q s.
Proof.
  revert i s. induction n as [|n IH]; intros i s HI Hbody Hexit; cbn [for_upto].
  - apply wp_ret, Hexit. by rewrite Z.add_0_r.
  - apply wp_bind. eapply wp_mono; [apply Hbody; [lia|done]|].
    intros [|x] s2 H2; cbn in *; [|by apply wp_ret].
    apply IH; [done| |].
    + intros j s1 Hj. apply Hbody. lia.
    + intros s1. replace (i + 1 + Z.of_nat n) with (i + Z.of_nat (Datatypes.S n)) by lia.
      apply Hexit.
Qed.

(** A [for] loop over [a..b] with invariant [I]. *)
Lemma wp_for_range {R} (I : Z -> S -> Prop) (body : Z -> Act S (flow R)) Q a b s :
  I a s ->
  (forall j s1, a <= j < b -> I j s1 ->
     wp (body j) (fun r s2 => match r with
                              | Continue => I (j + 1) s2
                              | Break x => Q (Some x) s2
                              end) s1) ->
  (forall s1, I (Z.max a b) s1 -> Q None s1) ->
  wp (for_range a b body) Q s.
Proof.
  intros HI Hbody Hexit. unfold for_range. eapply wp_for_upto; [done| |].
  - intros j s1 Hj. apply Hbody. lia.
  - intros s1. replace (a + _) with (Z.max a b) by lia. apply Hexit.
Qed.

(** A [while] loop with invariant [I] and a variant [m] bounded by the fuel. *)
Lemma wp_while (I : S -> Prop) (m : S -> nat) cond (body : Act S unit) (Q : unit -> S -> Prop) n s :
  I s -> (m s <= n)%nat ->
  (forall s1, I s1 -> cond s1 = true ->
     (0 < m s1)%nat /\ wp body (fun _ s2 => I s2 /\ (m s2 < m s1)%nat) s1) ->
  (forall s1, I s1 -> cond s1 = false -> Q tt s1) ->
  wp (while_loop n cond body) Q s.
Proof.
  intros HI Hm Hbody Hexit. revert s HI Hm.
  induction n as [|n IH]; intros s HI Hm; unfold wp; cbn [while_loop];
    destruct (cond s) eqn:Hc; try by apply Hexit.
  - destruct (Hbody s HI Hc). lia.
  - destruct (Hbody s HI Hc) as [_ Hb]. apply (wp_bind body). eapply wp_mono; [exact Hb|].
    intros [] s2 [HI2 Hm2]. apply IH; [done|lia].
Qed.

(** A [loop] whose body either leaves with [Q] or goes on with a smaller variant. *)
Lemma wp_loop {R} (I : S -> Prop) (m : S -> nat) (body : Act S (flow R)) (Q : R -> S -> Prop) n s :
  I s -> (m s < n)%nat ->
  (forall s1, I s1 ->
     wp body (fun r s2 => match r with
                          | Continue => I s2 /\ (m s2 < m s1)%nat
                          | Break x => Q x s2
                          end) s1) ->
  wp (loop n body) Q s.
Proof.
  intros HI Hm Hbody. revert s HI Hm.
  induction n as [|n IH]; intros s HI Hm; [lia|]. cbn [loop].
  apply wp_bind. eapply wp_mono; [by apply Hbody|].
  intros [|x] s2 H2; cbn in *; [|by apply wp_ret].
  destruct H2. apply IH; [done|lia].
Qed.

End wp_rules.

(** Runs the straight-line part of an action: sequencing, reads and writes. *)
Ltac wp_step :=
  lazymatch goal with
  | |- wp (_ ≫= _) _ _ => apply wp_bind
  | |- wp (mret _) _ _ => apply wp_ret
  | |- wp get _ _ => apply wp_get
  | |- wp (gets _) _ _ => apply wp_gets
  | |- wp (modify _) _ _ => apply wp_modify
  | |- wp (if ?b then _ else _) _ _ => let E := fresh "E" in destruct b eqn:E
  end.
Ltac wp_run := repeat (wp_step; cbv beta).

(** ** Arithmetic *)

(** Turns boolean comparisons in the context into propositions. *)
Ltac b2p :=
  repeat match goal with
  | H : (_ && _) = true |- _ => apply andb_prop in H as [? ?]
  | H : (_ && _) = false |- _ => apply andb_false_iff in H
  | H : (_ || _) = false |- _ => apply orb_false_elim in H as [? ?]
  | H : (_ || _) = true |- _ => apply orb_true_iff in H
  | H : negb _ = true |- _ => apply negb_true_iff in H
  | H : negb _ = false |- _ => apply negb_false_iff in H
  | H : (_ <? _) = true |- _ => apply Z.ltb_lt in H
  | H : (_ <? _) = false |- _ => apply Z.ltb_ge in H
  | H : (_ <=? _) = true |- _ => apply Z.leb_le in H
  | H : (_ <=? _) = false |- _ => apply Z.leb_gt in H
  | H : (_ =? _) = true |- _ => apply Z.eqb_eq in H
  | H : (_ =? _) = false |- _ => apply Z.eqb_neq in H
  end.

Section arithmetic_lemmas.
Context `{Profile}.

Lemma narrow_fits m r : 0 <= r < m -> narrow m r = Ret r.
Proof.
  intros [? ?]. unfold narrow.
  by rewrite (proj2 (Z.leb_le 0 r)), (proj2 (Z.ltb_lt r m)) by lia.
Qed.

(** Within the width the profile does not matter. *)
Lemma u32_add_fits a b : 0 <= a + b < u32_modulus -> u32_add a b = Ret (a + b).
Proof. apply narrow_fits. Qed.
Lemma u32_sub_fits a b : 0 <= a - b < u32_modulus -> u32_sub a b = Ret (a - b).
Proof. apply narrow_fits. Qed.
Lemma usize_add_fits a b : 0 <= a + b < usize_modulus -> usize_add a b = Ret (a + b).
Proof. apply narrow_fits. Qed.
Lemma usize_sub_fits a b : 0 <= a - b < usize_modulus -> usize_sub a b = Ret (a - b).
Proof. apply narrow_fits. Qed.
Lemma usize_mul_fits a b : 0 <= a * b < usize_modulus -> usize_mul a b = Ret (a * b).
Proof. apply narrow_fits. Qed.

End arithmetic_lemmas.

Lemma duration_checked_fits d : 0 <= d <= DURATION_MAX -> duration_checked d = Ret d.
Proof.
  intros [? ?]. unfold duration_checked.
  by rewrite (proj2 (Z.leb_le 0 d)), (proj2 (Z.leb_le d DURATION_MAX)) by lia.
Qed.

Lemma instant_checked_add_fits t d :
  t + d <= INSTANT_MAX -> instant_checked_add t d = Some (t + d).
Proof. intros ?. unfold instant_checked_add. by rewrite (proj2 (Z.leb_le _ _)). Qed.

(** ** Bytes and slices *)

Lemma Z_of_byte_range b : 0 <= Z_of_byte b < 256.
Proof. unfold Z_of_byte. pose proof (Byte.to_N_bounded b). lia. Qed.

Lemma Z_of_byte_of_Z z : Z_of_byte (byte_of_Z z) = z mod 256.
Proof.
  unfold Z_of_byte, byte_of_Z.
  pose proof (Z.mod_pos_bound z 256 ltac:(lia)) as Hb.
  destruct (Byte.of_N (Z.to_N (z mod 256))) as [b|] eqn:E.
  - apply Byte.to_of_N in E. rewrite E. lia.
  - apply Byte.of_N_None_iff in E. lia.
Qed.

Lemma Z_of_byte_inj a b : Z_of_byte a = Z_of_byte b -> a = b.
Proof.
  unfold Z_of_byte. intros E%N2Z.inj.
  pose proof (Byte.of_to_N a). pose proof (Byte.of_to_N b). congruence.
Qed.

Lemma byte_of_Z_of_byte b : byte_of_Z (Z_of_byte b) = b.
Proof.
  apply Z_of_byte_inj. rewrite Z_of_byte_of_Z.
  apply Z.mod_small, Z_of_byte_range.
Qed.

Lemma lor_shiftl_add a b n : 0 <= n -> 0 <= a < 2 ^ n -> Z.lor a (Z.shiftl b n) = a + b * 2 ^ n.
Proof.
  intros Hn Ha. rewrite <- Z.shiftl_mul_pow2 by done. symmetry.
  rewrite <- Z.lxor_lor, Z.add_nocarry_lxor; try done.
  all: apply Z.bits_inj_0; intros i; rewrite Z.land_spec;
    destruct (Z_lt_dec i 0) as [|Hi]; [by rewrite !Z.testbit_neg_r|].
  all: destruct (Z_lt_dec i n) as [Hlt|Hge];
    [rewrite Z.shiftl_spec_low by done; apply andb_false_r|].
  all: destruct (decide (a = 0)) as [->|]; [by rewrite Z.testbit_0_l|].
  all: rewrite (Z.bits_above_log2 a i); [done|lia|].
  all: apply Z.lt_le_trans with n; [apply Z.log2_lt_pow2; lia|lia].
Qed.

Lemma u32_from_le_bytes_sum a b c d :
  u32_from_le_bytes a b c d =
  Z_of_byte a + Z_of_byte b * 2 ^ 8 + Z_of_byte c * 2 ^ 16 + Z_of_byte d * 2 ^ 24.
Proof.
  unfold u32_from_le_bytes.
  pose proof (Z_of_byte_range a). pose proof (Z_of_byte_range b).
  pose proof (Z_of_byte_range c). pose proof (Z_of_byte_range d).
  replace (Z.shiftl (Z_of_byte d) 24) with (Z.shiftl (Z.shiftl (Z_of_byte d) 8) 16)
    by (rewrite Z.shiftl_shiftl; [done|lia]).
  rewrite <- (Z.shiftl_lor _ _ 16), (lor_shiftl_add (Z_of_byte c)) by lia.
  replace (Z.shiftl (Z_of_byte c + Z_of_byte d * 2 ^ 8) 16)
    with (Z.shiftl (Z.shiftl (Z_of_byte c + Z_of_byte d * 2 ^ 8) 8) 8)
    by (rewrite Z.shiftl_shiftl; [done|lia]).
  rewrite <- Z.shiftl_lor, (lor_shiftl_add (Z_of_byte b)) by lia.
  rewrite lor_shiftl_add by lia. lia.
Qed.

Lemma u32_from_le_bytes_range a b c d : 0 <= u32_from_le_bytes a b c d < u32_modulus.
Proof.
  rewrite u32_from_le_bytes_sum. unfold u32_modulus.
  pose proof (Z_of_byte_range a). pose proof (Z_of_byte_range b).
  pose proof (Z_of_byte_range c). pose proof (Z_of_byte_range d). lia.
Qed.

(** Decoding inverts encoding on [u32] values. *)
Lemma u32_le_bytes_roundtrip v :
  0 <= v < u32_modulus ->
  u32_from_le_bytes (byte_of_Z v) (byte_of_Z (Z.shiftr v 8))
    (byte_of_Z (Z.shiftr v 16)) (byte_of_Z (Z.shiftr v 24)) = v.
Proof.
  intros Hv. rewrite u32_from_le_bytes_sum, !Z_of_byte_of_Z, !Z.shiftr_div_pow2 by lia.
  unfold u32_modulus in Hv. Z.div_mod_to_equations. lia.
Qed.

(** ... and encoding inverts decoding on every four bytes. *)
Lemma u32_le_bytes_onto a b c d : u32_to_le_bytes (u32_from_le_bytes a b c d) = [a; b; c; d].
Proof.
  unfold u32_to_le_bytes. rewrite u32_from_le_bytes_sum, !Z.shiftr_div_pow2 by lia.
  pose proof (Z_of_byte_range a). pose proof (Z_of_byte_range b).
  pose proof (Z_of_byte_range c). pose proof (Z_of_byte_range d).
  repeat f_equal; apply Z_of_byte_inj; rewrite Z_of_byte_of_Z;
    Z.div_mod_to_equations; lia.
Qed.

Lemma len_nonneg {A} (l : list A) : 0 <= len l.
Proof. unfold len. lia. Qed.
Lemma len_nil {A} : len (@nil A) = 0.
Proof. done. Qed.
Lemma len_cons {A} (x : A) l : len (x :: l) = 1 + len l.
Proof. unfold len. cbn [length]. lia. Qed.
Lemma len_app {A} (l k : list A) : len (l ++ k) = len l + len k.
Proof. unfold len. rewrite length_app. lia. Qed.
Lemma len_take {A} n (l : list A) : 0 <= n -> len (take (Z.to_nat n) l) = Z.min n (len l).
Proof. unfold len. rewrite length_take. lia. Qed.
Lemma len_drop {A} n (l : list A) : 0 <= n -> len (drop (Z.to_nat n) l) = Z.max 0 (len l - n).
Proof. unfold len. rewrite length_drop. lia. Qed.
Lemma len_replicate {A} n (x : A) : len (replicate n x) = Z.of_nat n.
Proof. unfold len. by rewrite length_replicate. Qed.
Lemma len_0 {A} (l : list A) : len l = 0 -> l = [].
Proof. destruct l; [done|]. rewrite len_cons. pose proof (len_nonneg l). lia. Qed.

Lemma slice_fits {A} (l : list A) a b :
  0 <= a <= b -> b <= len l ->
  slice l a b = Ret (take (Z.to_nat (b - a)) (drop (Z.to_nat a) l)).
Proof.
  intros [? ?] ?. unfold slice.
  by rewrite (proj2 (Z.leb_le 0 a)), (proj2 (Z.leb_le a b)), (proj2 (Z.leb_le b _)) by lia.
Qed.

Create HintDb udx discriminated.
#[export] Hint Resolve len_nonneg Z_of_byte_range : udx.

Create Rewrite HintDb udx_len.
#[export] Hint Rewrite @len_nil @len_cons @len_app @len_replicate : udx_len.

Lemma index_fits {A} (l : list A) i x : 0 <= i -> l !! Z.to_nat i = Some x -> index l i = Ret x.
Proof. intros Hi Hx. unfold index. by rewrite (proj2 (Z.leb_le 0 i) Hi), Hx. Qed.

Lemma set_index_fits {A} (l : list A) i v :
  0 <= i < len l -> set_index l i v = Ret (<[Z.to_nat i := v]> l).
Proof.
  intros [? ?]. unfold set_index.
  by rewrite (proj2 (Z.leb_le 0 i)), (proj2 (Z.ltb_lt i _)) by lia.
Qed.

Lemma copy_from_slice_fits {A} (dst : list A) a b src :
  0 <= a <= b -> b <= len dst -> len src = b - a ->
  copy_from_slice dst a b src =
  Ret (take (Z.to_nat a) dst ++ src ++ drop (Z.to_nat b) dst).
Proof.
  intros [? ?] ? E. unfold copy_from_slice.
  by rewrite (proj2 (Z.leb_le 0 a)), (proj2 (Z.leb_le a b)), (proj2 (Z.leb_le b _)),
    (proj2 (Z.eqb_eq _ _) E) by lia.
Qed.

(** Solves length side conditions of the slice lemmas. *)
Ltac solve_len :=
  autorewrite with udx_len in *;
  repeat match goal with
  | |- context [len ?l] => is_var l; pose proof (len_nonneg l); generalize dependent (len l); intros
  end; try lia.

(** Evaluates [Z.to_nat] of literals, which [cbn] keeps folded. *)
Ltac eval_to_nat :=
  repeat match goal with
  | |- context [Z.to_nat ?k] =>
      let v := eval vm_compute in (Z.to_nat k) in
      lazymatch v with O => idtac | Datatypes.S _ => idtac end;
      change (Z.to_nat k) with v
  end.
