(* ===== verification/Constants.v ===== *)
(** The protocol constants of [src/src/constants.rs].

    Header type bits, size limits, and the flag words inherited from libudx.
    [Duration] constants are in nanoseconds. *)

From S2P Require Import Prelude.

Local Open Scope Z_scope.

Definition UDX_HEADER_DATA : Z := 1.
Definition UDX_HEADER_END : Z := 2.
Definition UDX_HEADER_SACK : Z := 4.
Definition UDX_HEADER_MESSAGE : Z := 8.
Definition UDX_HEADER_DESTROY : Z := 16.
Definition UDX_MAX_TRANSMITS : Z := 5.
Definition UDX_CLOCK_GRANULARITY_MS : Z := from_millis 20.
Definition UDX_HEADER_SIZE : Z := 20.
Definition UDX_MAX_DATA_SIZE : Z := 1380.
Definition UDX_MAGIC_BYTE : Z := 255.
Definition UDX_VERSION : Z := 1.
Definition UDX_DEFAULT_TTL : Z := 64.
Definition UDX_MSS : Z := 1460.
Definition UDX_MTU : Z := 1400.
Definition UDX_DATA_MTU : Z := UDX_MTU - UDX_HEADER_SIZE.
Definition UDX_SOCKET_RECEIVING : Z := 1.
Definition UDX_SOCKET_BOUND : Z := 2.
Definition UDX_SOCKET_CLOSING : Z := 4.
Definition UDX_SOCKET_CLOSING_HANDLES : Z := 8.
Definition UDX_PACKET_STREAM_STATE : Z := 1.
Definition UDX_PACKET_STREAM_WRITE : Z := 2.
Definition UDX_PACKET_STREAM_SEND : Z := 4.
Definition UDX_PACKET_STREAM_DESTROY : Z := 8.
Definition UDX_PACKET_SEND : Z := 16.
Definition UDX_PACKET_CALLBACK : Z := Z.lor (Z.lor UDX_PACKET_STREAM_SEND UDX_PACKET_STREAM_DESTROY) UDX_PACKET_SEND.
Definition UDX_PACKET_FREE_ON_SEND : Z := Z.lor UDX_PACKET_STREAM_STATE UDX_PACKET_STREAM_DESTROY.
Definition UDX_HEADER_DATA_OR_END : Z := Z.lor UDX_HEADER_DATA UDX_HEADER_END.
Definition UDX_STREAM_CONNECTED : Z := 1.
Definition UDX_STREAM_RECEIVING : Z := 2.
Definition UDX_STREAM_READING : Z := 4.
Definition UDX_STREAM_ENDING : Z := 8.
Definition UDX_STREAM_ENDING_REMOTE : Z := 16.
Definition UDX_STREAM_ENDED : Z := 32.
Definition UDX_STREAM_ENDED_REMOTE : Z := 64.
Definition UDX_STREAM_DESTROYING : Z := 128.
Definition UDX_STREAM_DESTROYED : Z := 256.
Definition UDX_STREAM_DESTROYED_REMOTE : Z := 512.
Definition UDX_STREAM_CLOSED : Z := 1024.
Definition UDX_STREAM_ALL_DESTROYED : Z := Z.lor UDX_STREAM_DESTROYED UDX_STREAM_DESTROYED_REMOTE.
Definition UDX_STREAM_ALL_ENDED : Z := Z.lor UDX_STREAM_ENDED UDX_STREAM_ENDED_REMOTE.
Definition UDX_STREAM_DEAD : Z := Z.lor (Z.lor UDX_STREAM_ALL_DESTROYED UDX_STREAM_DESTROYING) UDX_STREAM_CLOSED.
Definition UDX_STREAM_SHOULD_READ : Z := Z.lor UDX_STREAM_ENDED_REMOTE UDX_STREAM_DEAD.
Definition UDX_STREAM_READ : Z := 0.
Definition UDX_STREAM_SHOULD_END : Z := Z.lor (Z.lor UDX_STREAM_ENDING UDX_STREAM_ENDED) UDX_STREAM_DEAD.
Definition UDX_STREAM_END : Z := UDX_STREAM_ENDING.
Definition UDX_STREAM_SHOULD_END_REMOTE : Z := Z.lor (Z.lor UDX_STREAM_ENDED_REMOTE UDX_STREAM_DEAD) UDX_STREAM_ENDING_REMOTE.
Definition UDX_STREAM_END_REMOTE : Z := UDX_STREAM_ENDING_REMOTE.

(** The header a stream puts before its data, and the largest payload it
    cuts from a write, fill one datagram of [UDX_MTU] bytes exactly. *)
Lemma UDX_MTU_split : UDX_HEADER_SIZE + UDX_MAX_DATA_SIZE = UDX_MTU.
Proof. reflexivity. Qed.
