(* ===== verification/Errors.v ===== *)
(** Errors: [src/src/error.rs] and the part of [std::io::Error] it uses. *)

From S2P Require Import Prelude.

Local Open Scope string_scope.

(** The [io::ErrorKind]s that the crate names, plus one for all others. *)
Inductive ErrorKind :=
  | PermissionDenied
  | ConnectionReset
  | BrokenPipe
  | WouldBlock
  | InvalidData
  | TimedOut
  | Interrupted
  | UnexpectedEof
  | OtherKind.

#[export] Instance ErrorKind_eq_dec : EqDecision ErrorKind.
Proof. solve_decision. Defined.

(** [io::Error]: its kind, what [Display] prints for it, and the OS error
    number when it was made from one. *)
Record io_error := mk_io_error {
  ioe_kind : ErrorKind;
  ioe_display : string;
  ioe_raw_os_error : option Z;
}.

(** [io::Error::new(kind, msg)]. *)
Definition io_error_new (kind : ErrorKind) (msg : string) : io_error :=
  mk_io_error kind msg None.

(** What [Display] prints for [io::Error::from(kind)]. *)
Definition kind_description (k : ErrorKind) : string :=
  match k with
  | PermissionDenied => "permission denied"
  | ConnectionReset => "connection reset"
  | BrokenPipe => "broken pipe"
  | WouldBlock => "operation would block"
  | InvalidData => "invalid data"
  | TimedOut => "timed out"
  | Interrupted => "operation interrupted"
  | UnexpectedEof => "unexpected end of file"
  | OtherKind => "other error"
  end.

Record UdxError := mk_UdxError {
  ue_kind : ErrorKind;
  ue_reason : string;
}.

#[export] Instance UdxError_eq_dec : EqDecision UdxError.
Proof. solve_decision. Defined.

Definition UdxError_new (kind : ErrorKind) (reason : string) : UdxError :=
  mk_UdxError kind reason.

(** [impl fmt::Display for UdxError]. *)
Definition UdxError_display (e : UdxError) : string :=
  kind_description (ue_kind e) +:+ " " +:+ ue_reason e.

Definition close_graceful : UdxError := UdxError_new ConnectionReset "".
Definition closed_by_remote : UdxError := UdxError_new UnexpectedEof "".

(** [impl From<io::Error> for UdxError] (and from a reference to one). *)
Definition UdxError_from_io (e : io_error) : UdxError :=
  UdxError_new (ioe_kind e) (ioe_display e).

(** [impl From<UdxError> for io::Error]. *)
Definition io_error_from_Udx (e : UdxError) : io_error :=
  io_error_new (ue_kind e) (ue_reason e).

(** The error a stream stores comes back unchanged to the caller that reads or
    writes it: the conversion to [io::Error] loses neither kind nor reason. *)
Lemma UdxError_io_roundtrip e : UdxError_from_io (io_error_from_Udx e) = e.
Proof. by destruct e. Qed.
