(* ===== verification/UdpProto.v ===== *)
(** The datagram layer's interface: [udx-udp/src/proto.rs] and
    [udx-udp/src/lib.rs].

    Socket addresses are the values of [std::net]; the address octets are
    bytes in network order. *)

From S2P Require Import Prelude.

Local Open Scope Z_scope.

Inductive IpAddr :=
  | IpV4 (octets : list byte)
  | IpV6 (octets : list byte).

Inductive SocketAddr :=
  | SocketAddrV4 (ip : list byte) (port : Z)
  | SocketAddrV6 (ip : list byte) (port flowinfo scope_id : Z).

#[export] Instance IpAddr_eq_dec : EqDecision IpAddr.
Proof. solve_decision. Defined.
#[export] Instance SocketAddr_eq_dec : EqDecision SocketAddr.
Proof. solve_decision. Defined.

Definition is_ipv4 (a : SocketAddr) : bool :=
  match a with SocketAddrV4 _ _ => true | SocketAddrV6 _ _ _ _ => false end.

(** Explicit congestion notification codepoint. *)
Inductive EcnCodepoint := Ect0 | Ect1 | Ce.

#[export] Instance EcnCodepoint_eq_dec : EqDecision EcnCodepoint.
Proof. solve_decision. Defined.

(** The discriminants of the [repr(u8)] enum ([x as libc::c_int]). *)
Definition EcnCodepoint_bits (e : EcnCodepoint) : Z :=
  match e with Ect0 => 2 | Ect1 => 1 | Ce => 3 end.

Definition from_bits (x : Z) : option EcnCodepoint :=
  match Z.land x 3 with
  | 2 => Some Ect0
  | 1 => Some Ect1
  | 3 => Some Ce
  | _ => None
  end.

(** An outgoing datagram, or several of equal size for segmentation offload. *)
Record Transmit := mk_Transmit {
  t_destination : SocketAddr;
  t_ecn : option EcnCodepoint;
  t_contents : list byte;
  t_segment_size : option Z;
  t_src_ip : option IpAddr;
}.

(** [Transmit::num_segments]; a zero segment size divides by zero. *)
Definition num_segments (t : Transmit) : outcome Z :=
  match t_segment_size t with
  | None => Ret 1
  | Some size => usize_div (len (t_contents t)) size
  end.

Record RecvMeta := mk_RecvMeta {
  m_addr : SocketAddr;
  m_len : Z;
  m_ecn : option EcnCodepoint;
  m_dst_ip : option IpAddr;
}.

(** [impl Default for RecvMeta]: the unspecified IPv6 address, port 0. *)
Definition RecvMeta_default : RecvMeta :=
  mk_RecvMeta (SocketAddrV6 (replicate 16 Byte.x00) 0 0 0) 0 None None.

(** Log at most one I/O error per minute. *)
Definition IO_ERROR_LOG_INTERVAL : Z := 60 * 10 ^ 9.

(** [log_sendmsg_error] at time [now]: the new [last_send_error] and whether a
    warning is written.  [saturating_duration_since] is zero for a later
    instant. *)
Definition log_sendmsg_error (now last_send_error : Z) : Z * bool :=
  if Z.max 0 (now - last_send_error) >? IO_ERROR_LOG_INTERVAL
  then (now, true)
  else (last_send_error, false).

(** Codepoints survive the trip through the two ECN bits of a traffic class
    byte, whatever its upper six bits are. *)
Lemma from_bits_EcnCodepoint_bits e dscp :
  from_bits (Z.lor (EcnCodepoint_bits e) (Z.shiftl dscp 2)) = Some e.
Proof.
  unfold from_bits.
  rewrite Z.land_lor_distr_l, (Z.land_comm (Z.shiftl dscp 2)).
  assert (Z.land 3 (Z.shiftl dscp 2) = 0) as ->.
  { change 3 with (Z.ones 2). rewrite Z.land_comm, Z.land_ones by done.
    rewrite Z.shiftl_mul_pow2 by done. apply Z.mod_mul. done. }
  rewrite Z.lor_0_r. by destruct e.
Qed.
