(* ===== verification/Packet.v ===== *)
(** Packets: [src/src/packet.rs].

    The wire header and its codec, the outgoing packet with its atomic flags,
    the packet set handed to the socket for (segmented) transmission, and the
    incoming packet.  An [Arc<Packet>] is a location in a store of packets, so
    that the stream's retransmission table, its send queue and the sets queued
    in the socket share one packet and see each other's flag updates. *)

From S2P Require Import Prelude Constants Errors UdpProto.

Local Open Scope Z_scope.

(** ** The [atomic_instant::AtomicInstant] cell

    A cell that is empty or holds an instant.  [ai_now t] is the content after
    [set_now()] at clock reading [t], [ai_elapsed c t] the result of
    [elapsed()] at clock reading [t]. *)
Class AtomicInstant := {
  instant_cell : Type;
  ai_empty : instant_cell;
  ai_is_empty : instant_cell -> bool;
  ai_now : Z -> instant_cell;
  ai_elapsed : instant_cell -> Z -> Z;
}.

Class AtomicInstantLaws (AI : AtomicInstant) : Prop := {
  ai_is_empty_empty : ai_is_empty ai_empty = true;
  ai_is_empty_now t : ai_is_empty (ai_now t) = false;
  ai_elapsed_range c t : ai_is_empty c = false -> 0 <= ai_elapsed c t <= Z.max 0 t;
}.

(** ** Datagrams outside of streams *)

Record Dgram := mk_Dgram {
  dg_buf : list byte;
  dg_dest : SocketAddr;
}.

Definition Dgram_new (dest : SocketAddr) (buf : list byte) : Dgram := mk_Dgram buf dest.

Definition into_transmit (d : Dgram) : Transmit :=
  mk_Transmit (dg_dest d) None (dg_buf d) None None.

(** ** The header *)

Record Header := mk_Header {
  h_typ : Z;
  h_data_offset : Z;
  h_stream_id : Z;
  h_recv_win : Z;
  h_seq : Z;
  h_ack : Z;
}.

#[export] Instance Header_eq_dec : EqDecision Header.
Proof. solve_decision. Defined.

(** [read_u32_le]: [try_into().unwrap()] panics unless there are four bytes. *)
Definition read_u32_le (buf : list byte) : outcome Z :=
  match buf with
  | [a; b; c; d] => Ret (u32_from_le_bytes a b c d)
  | _ => Panic UnwrapFailed
  end.

Definition read_u32_at (buf : list byte) (a b : Z) : outcome Z :=
  bs ← slice buf a b; read_u32_le bs.

(** The guard of [Header::from_bytes], with its short-circuit order. *)
Definition bad_header (buf : list byte) : outcome bool :=
  if len buf <? UDX_HEADER_SIZE then Ret true else
  b0 ← index buf 0;
  if negb (Z_of_byte b0 =? UDX_MAGIC_BYTE) then Ret true else
  b1 ← index buf 1;
  Ret (negb (Z_of_byte b1 =? UDX_VERSION)).

Definition from_bytes (buf : list byte) : outcome (result Header io_error) :=
  bad ← bad_header buf;
  if (bad : bool) then Ret (Err (io_error_new InvalidData "Bad header")) else
  b2 ← index buf 2;
  b3 ← index buf 3;
  local_id ← read_u32_at buf 4 8;
  recv_win ← read_u32_at buf 8 12;
  seq ← read_u32_at buf 12 16;
  ack ← read_u32_at buf 16 20;
  Ret (Ok (mk_Header (Z_of_byte b2) (Z_of_byte b3) local_id recv_win seq ack)).

(** [self.typ as u8] and [self.data_offset as u8] keep the low byte. *)
Definition encode (h : Header) (buf : list byte) : outcome (bool * list byte) :=
  if len buf <? UDX_HEADER_SIZE then Ret (false, buf) else
  buf ← set_index buf 0 (byte_of_Z UDX_MAGIC_BYTE);
  buf ← set_index buf 1 (byte_of_Z UDX_VERSION);
  buf ← copy_from_slice buf 2 3 [byte_of_Z (h_typ h)];
  buf ← copy_from_slice buf 3 4 [byte_of_Z (h_data_offset h)];
  buf ← copy_from_slice buf 4 8 (u32_to_le_bytes (h_stream_id h));
  buf ← copy_from_slice buf 8 12 (u32_to_le_bytes (h_recv_win h));
  buf ← copy_from_slice buf 12 16 (u32_to_le_bytes (h_seq h));
  buf ← copy_from_slice buf 16 20 (u32_to_le_bytes (h_ack h));
  Ret (true, buf).

(** ** Outgoing packets *)

Inductive PacketBuf :=
  | Data (vec : list byte)
  | HeaderOnly (array : list byte).

Definition as_slice (b : PacketBuf) : list byte :=
  match b with Data vec => vec | HeaderOnly array => array end.
Definition with_mut_slice (b : PacketBuf) (v : list byte) : PacketBuf :=
  match b with Data _ => Data v | HeaderOnly _ => HeaderOnly v end.
Definition PacketBuf_len (b : PacketBuf) : Z := len (as_slice b).
Definition into_vec (b : PacketBuf) : list byte :=
  match b with Data buf => buf | HeaderOnly buf => buf end.

(** A shared packet's location in the store of packets. *)
Abbreviation loc := nat (only parsing).

Section packets.
Context `{Profile} `{AtomicInstant}.

Record Packet := mk_Packet {
  p_waiting : bool;
  p_skip : bool;
  p_time_sent : instant_cell;
  p_transmits : Z;
  p_dest : SocketAddr;
  p_header : Header;
  p_buf : PacketBuf;
}.

#[export] Instance Packet_eta : Eta Packet := fun p =>
  mk_Packet (p_waiting p) (p_skip p) (p_time_sent p) (p_transmits p)
    (p_dest p) (p_header p) (p_buf p).

Definition Packet_new (dest : SocketAddr) (header : Header) (body : list byte) : outcome Packet :=
  buf ← (if len body =? 0 then Ret (HeaderOnly (replicate 20 Byte.x00))
         else n ← usize_add UDX_HEADER_SIZE (len body);
              Ret (Data (replicate (Z.to_nat n) Byte.x00)));
  hdr ← slice (as_slice buf) 0 UDX_HEADER_SIZE;
  '(_, hdr) ← encode header hdr;
  v ← copy_from_slice (as_slice buf) 0 UDX_HEADER_SIZE hdr;
  v ← (if len body =? 0 then Ret v
       else copy_from_slice v UDX_HEADER_SIZE (len v) body);
  Ret (mk_Packet false false ai_empty 0 dest header (with_mut_slice buf v)).

Definition Packet_seq (p : Packet) : Z := h_seq (p_header p).
Definition Packet_len (p : Packet) : Z := PacketBuf_len (p_buf p).
Definition Packet_data_len (p : Packet) : Z :=
  usize_saturating_sub (PacketBuf_len (p_buf p)) UDX_HEADER_SIZE.

Definition Packet_to_transmit (p : Packet) : Transmit :=
  mk_Transmit (p_dest p) None (as_slice (p_buf p)) None None.

(** [impl From<Packet> for Transmit]. *)
Definition Transmit_from_Packet (p : Packet) : Transmit :=
  mk_Transmit (p_dest p) None (into_vec (p_buf p)) None None.

(** *** Shared packets

    The store of [Arc<Packet>] allocations; a location is an index into it and
    stays valid for ever (deallocation is not observable). *)
Abbreviation Store := (list Packet) (only parsing).
Inductive PacketRef :=
  | Owned (p : Packet)
  | Shared (l : loc).

(** [Arc::new]. *)
Definition arc_new (st : Store) (p : Packet) : Store * loc := (st ++ [p], length st).

(** [Deref]: an [Arc] always points to its packet; a location outside of the
    store, which no [Arc] is, is reported as an out-of-bounds access. *)
Definition deref_loc (st : Store) (l : loc) : outcome Packet :=
  match st !! l with
  | Some p => Ret p
  | None => Panic OutOfBounds
  end.

Definition deref (st : Store) (r : PacketRef) : outcome Packet :=
  match r with
  | Owned p => Ret p
  | Shared l => deref_loc st l
  end.

(** *** Packet sets *)

Record PacketSet := mk_PacketSet {
  ps_dest : SocketAddr;
  ps_segment_size : option Z;
  ps_packets : list PacketRef;
}.

Definition PacketSet_new (dest : SocketAddr) (packets : list PacketRef) (segment_size : Z)
  : PacketSet := mk_PacketSet dest (Some segment_size) packets.

Definition PacketSet_len (s : PacketSet) : Z := len (ps_packets s).

Definition iter_shared (s : PacketSet) : list loc :=
  omap (fun r => match r with Shared l => Some l | Owned _ => None end) (ps_packets s).

(** [Vec::with_capacity] refuses more than [isize::MAX] bytes. *)
Definition vec_with_capacity (size : Z) : outcome unit :=
  if size <? 2 ^ 63 then Ret tt else Panic CapacityOverflow.

(** The buffer loop of [PacketSet::to_transmit]. *)
Fixpoint put_packets (st : Store) (buf : list byte) (packets : list PacketRef)
  : outcome (list byte) :=
  match packets with
  | [] => Ret buf
  | r :: rest =>
      packet ← deref st r;
      put_packets st
        (if p_skip packet then buf else buf ++ as_slice (p_buf packet)) rest
  end.

Definition to_transmit (st : Store) (s : PacketSet) : outcome Transmit :=
  match ps_segment_size s with
  | None =>
      if negb (len (ps_packets s) =? 1) then Panic AssertionFailed else
      r ← unwrap (head (ps_packets s));
      packet ← deref st r;
      Ret (Packet_to_transmit packet)
  | Some segment_size =>
      let segments := len (ps_packets s) in
      size ← usize_mul segments segment_size;
      _ ← vec_with_capacity size;
      buf ← put_packets st [] (ps_packets s);
      Ret (mk_Transmit (ps_dest s) None buf
             (if segments =? 1 then None else Some segment_size) None)
  end.

End packets.

(** ** Incoming packets *)

Record IncomingPacket := mk_IncomingPacket {
  i_header : Header;
  i_buf : list byte;
  i_read_offset : Z;
  i_from : SocketAddr;
}.

#[export] Instance IncomingPacket_eta : Eta IncomingPacket := fun p =>
  mk_IncomingPacket (i_header p) (i_buf p) (i_read_offset p) (i_from p).

Definition i_ack (p : IncomingPacket) : Z := h_ack (i_header p).
Definition i_seq (p : IncomingPacket) : Z := h_seq (i_header p).
Definition has_type (p : IncomingPacket) (typ : Z) : bool :=
  negb (Z.land (h_typ (i_header p)) typ =? 0).
Definition i_data_len (p : IncomingPacket) : Z := len (i_buf p).

(** * Properties *)

(** ** The header codec *)

(** The twenty bytes a header stands for on the wire. *)
Definition header_bytes (h : Header) : list byte :=
  [byte_of_Z UDX_MAGIC_BYTE; byte_of_Z UDX_VERSION;
   byte_of_Z (h_typ h); byte_of_Z (h_data_offset h)]
  ++ u32_to_le_bytes (h_stream_id h) ++ u32_to_le_bytes (h_recv_win h)
  ++ u32_to_le_bytes (h_seq h) ++ u32_to_le_bytes (h_ack h).

(** The values the fields of a header can have on the wire. *)
Definition wire_header (h : Header) : Prop :=
  0 <= h_typ h < 256 /\ 0 <= h_data_offset h < 256 /\
  0 <= h_stream_id h < u32_modulus /\ 0 <= h_recv_win h < u32_modulus /\
  0 <= h_seq h < u32_modulus /\ 0 <= h_ack h < u32_modulus.

#[global] Arguments header_bytes : simpl never.
#[global] Arguments from_bytes : simpl never.
#[global] Arguments encode : simpl never.

Lemma header_bytes_length h : length (header_bytes h) = 20%nat.
Proof. reflexivity. Qed.

Lemma len_header_bytes h : len (header_bytes h) = UDX_HEADER_SIZE.
Proof. reflexivity. Qed.
#[export] Hint Rewrite len_header_bytes : udx_len.

(** A buffer with room for a header, split after its first twenty bytes. *)
Lemma split_header_buf (buf : list byte) :
  UDX_HEADER_SIZE <= len buf ->
  exists b0 b1 b2 b3 b4 b5 b6 b7 b8 b9 b10 b11 b12 b13 b14 b15 b16 b17 b18 b19 rest,
    buf = b0 :: b1 :: b2 :: b3 :: b4 :: b5 :: b6 :: b7 :: b8 :: b9 :: b10 :: b11 :: b12
          :: b13 :: b14 :: b15 :: b16 :: b17 :: b18 :: b19 :: rest.
Proof.
  unfold UDX_HEADER_SIZE. intros Hlen.
  do 20 (destruct buf as [|? buf]; [exfalso; vm_compute in Hlen; by apply Hlen|]).
  repeat eexists.
Qed.

Lemma header_guard_long (buf : list byte) :
  UDX_HEADER_SIZE <= len buf -> (len buf <? UDX_HEADER_SIZE) = false.
Proof. by rewrite Z.ltb_ge. Qed.

(** One store of [encode] into a buffer given by its first twenty bytes. *)
Ltac enc_step := first
  [ rewrite set_index_fits by solve_len
  | rewrite copy_from_slice_fits by first [reflexivity|solve_len] ];
  eval_to_nat; cbn -[byte_of_Z Z.shiftr].

(** [encode] writes exactly [header_bytes] over the front of the buffer. *)
Lemma encode_header_bytes h buf :
  UDX_HEADER_SIZE <= len buf ->
  encode h buf = Ret (true, header_bytes h ++ drop 20 buf).
Proof.
  intros Hlen. unfold encode. rewrite header_guard_long by done.
  destruct (split_header_buf buf Hlen) as
    (b0&b1&b2&b3&b4&b5&b6&b7&b8&b9&b10&b11&b12&b13&b14&b15&b16&b17&b18&b19&rest&->).
  clear Hlen.
  do 8 enc_step. reflexivity.
Qed.

Lemma encode_too_short h buf :
  len buf < UDX_HEADER_SIZE -> encode h buf = Ret (false, buf).
Proof. intros Hlen. unfold encode. by rewrite (proj2 (Z.ltb_lt _ _) Hlen). Qed.

(** What [from_bytes] reads off a buffer that is long enough. *)
Lemma from_bytes_long b0 b1 b2 b3 b4 b5 b6 b7 b8 b9 b10 b11 b12 b13 b14 b15 b16 b17 b18 b19 rest :
  from_bytes (b0 :: b1 :: b2 :: b3 :: b4 :: b5 :: b6 :: b7 :: b8 :: b9 :: b10 :: b11 :: b12
          :: b13 :: b14 :: b15 :: b16 :: b17 :: b18 :: b19 :: rest) =
  if (Z_of_byte b0 =? UDX_MAGIC_BYTE) && (Z_of_byte b1 =? UDX_VERSION)
  then Ret (Ok (mk_Header (Z_of_byte b2) (Z_of_byte b3)
         (u32_from_le_bytes b4 b5 b6 b7) (u32_from_le_bytes b8 b9 b10 b11)
         (u32_from_le_bytes b12 b13 b14 b15) (u32_from_le_bytes b16 b17 b18 b19)))
  else Ret (Err (io_error_new InvalidData "Bad header")).
Proof.
  unfold from_bytes, bad_header.
  rewrite header_guard_long by (unfold UDX_HEADER_SIZE; solve_len).
  cbn [index Z.leb Z.compare]. 
  unfold index. eval_to_nat. cbn -[Z_of_byte Z.eqb read_u32_at UDX_MAGIC_BYTE UDX_VERSION].
  destruct (Z_of_byte b0 =? UDX_MAGIC_BYTE); [|done].
  destruct (Z_of_byte b1 =? UDX_VERSION); [|done].
  cbn -[Z_of_byte Z.eqb read_u32_at]. unfold read_u32_at.
  do 4 (rewrite slice_fits by solve_len; eval_to_nat; cbn -[Z_of_byte u32_from_le_bytes slice]).
  done.
Qed.

Lemma Z_of_magic : Z_of_byte (byte_of_Z UDX_MAGIC_BYTE) = UDX_MAGIC_BYTE.
Proof. reflexivity. Qed.
Lemma Z_of_version : Z_of_byte (byte_of_Z UDX_VERSION) = UDX_VERSION.
Proof. reflexivity. Qed.

Lemma from_bytes_header_bytes h rest :
  wire_header h -> from_bytes (header_bytes h ++ rest) = Ret (Ok h).
Proof.
  intros (?&?&?&?&?&?). unfold header_bytes. cbn -[byte_of_Z Z.shiftr].
  rewrite from_bytes_long, Z_of_magic, Z_of_version, !u32_le_bytes_roundtrip by done.
  rewrite !Z_of_byte_of_Z, !Z.mod_small by done. by destruct h.
Qed.

Lemma from_bytes_short buf :
  len buf < UDX_HEADER_SIZE ->
  from_bytes buf = Ret (Err (io_error_new InvalidData "Bad header")).
Proof.
  intros Hlen. unfold from_bytes, bad_header. by rewrite (proj2 (Z.ltb_lt _ _) Hlen).
Qed.

(** [from_bytes] returns on every input: a header it accepts, or the error. *)
Lemma from_bytes_cases buf :
  (exists h rest, wire_header h /\ buf = header_bytes h ++ rest) \/
  from_bytes buf = Ret (Err (io_error_new InvalidData "Bad header")).
Proof.
  destruct (decide (len buf < UDX_HEADER_SIZE)) as [Hlt|Hge].
  { right. by apply from_bytes_short. }
  destruct (split_header_buf buf ltac:(lia)) as
    (b0&b1&b2&b3&b4&b5&b6&b7&b8&b9&b10&b11&b12&b13&b14&b15&b16&b17&b18&b19&rest&->).
  rewrite from_bytes_long.
  destruct (Z_of_byte b0 =? UDX_MAGIC_BYTE) eqn:E0; [|by right].
  destruct (Z_of_byte b1 =? UDX_VERSION) eqn:E1; [|by right].
  left. b2p. exists (mk_Header (Z_of_byte b2) (Z_of_byte b3)
         (u32_from_le_bytes b4 b5 b6 b7) (u32_from_le_bytes b8 b9 b10 b11)
         (u32_from_le_bytes b12 b13 b14 b15) (u32_from_le_bytes b16 b17 b18 b19)), rest.
  split.
  - repeat split; first [apply Z_of_byte_range | apply u32_from_le_bytes_range].
  - unfold header_bytes. cbn [h_typ h_data_offset h_stream_id h_recv_win h_seq h_ack].
    rewrite <- E0, <- E1, !byte_of_Z_of_byte, !u32_le_bytes_onto. done.
Qed.

Lemma from_bytes_Ok_inv buf h :
  from_bytes buf = Ret (Ok h) -> wire_header h /\ exists rest, buf = header_bytes h ++ rest.
Proof.
  intros E. destruct (from_bytes_cases buf) as [(h'&rest&Hw&->)|E']; [|congruence].
  rewrite from_bytes_header_bytes in E by done. simplify_eq. eauto.
Qed.

(** ** Packets *)

Section packet_lemmas.
Context `{Profile} {AI : AtomicInstant}.

(** [Packet::new] lays out the header followed by the body. *)
Lemma Packet_new_layout dest header body :
  len body < 2 ^ 63 ->
  exists buf,
    Packet_new dest header body = Ret (mk_Packet false false ai_empty 0 dest header buf) /\
    as_slice buf = header_bytes header ++ body.
Proof.
  intros Hlen. unfold Packet_new.
  destruct (decide (len body = 0)) as [E|E].
  - apply len_0 in E as ->. change (len [] =? 0) with true. cbn iota.
    eexists (HeaderOnly (header_bytes header)). split; [|by rewrite app_nil_r].
    cbn [mbind outcome_bind as_slice].
    rewrite slice_fits by (unfold UDX_HEADER_SIZE; solve_len). eval_to_nat.
    cbn [mbind outcome_bind].
    rewrite encode_header_bytes by (apply Z.leb_le; reflexivity). cbn [mbind outcome_bind].
    rewrite copy_from_slice_fits
      by first [unfold UDX_HEADER_SIZE; lia | apply Z.leb_le; reflexivity | reflexivity].
    eval_to_nat. reflexivity.
  - rewrite (proj2 (Z.eqb_neq _ _) E).
    pose proof (len_nonneg body).
    rewrite usize_add_fits by (unfold UDX_HEADER_SIZE, usize_modulus; lia).
    cbn [mbind outcome_bind as_slice with_mut_slice].
    set (z := replicate _ _).
    assert (len z = UDX_HEADER_SIZE + len body) as Hz
      by (unfold z, UDX_HEADER_SIZE; rewrite len_replicate; lia).
    rewrite slice_fits by (unfold UDX_HEADER_SIZE in *; lia).
    cbn [mbind outcome_bind].
    rewrite encode_header_bytes
      by (rewrite len_take, len_drop; unfold UDX_HEADER_SIZE in *; lia).
    cbn [mbind outcome_bind].
    assert (drop 20 (take (Z.to_nat (UDX_HEADER_SIZE - 0)) (drop (Z.to_nat 0) z)) = []) as ->.
    { apply len_0. change 20%nat with (Z.to_nat 20). rewrite len_drop by done.
      rewrite len_take, len_drop; unfold UDX_HEADER_SIZE in *; lia. }
    rewrite app_nil_r.
    rewrite copy_from_slice_fits by (rewrite ?len_header_bytes; unfold UDX_HEADER_SIZE in *; lia).
    cbn [mbind outcome_bind]. change (Z.to_nat 0) with 0%nat. rewrite take_0, app_nil_l.
    rewrite copy_from_slice_fits
      by (rewrite ?len_app, ?len_header_bytes, ?len_drop; unfold UDX_HEADER_SIZE in *; lia).
    eexists. split; [reflexivity|]. cbn [as_slice].
    change (Z.to_nat UDX_HEADER_SIZE) with 20%nat.
    rewrite take_app_length' by done. f_equal.
    rewrite drop_ge; [apply app_nil_r|]. unfold len. lia.
Qed.

Lemma Packet_new_Ret dest header body :
  len body < 2 ^ 63 ->
  exists p, Packet_new dest header body = Ret p /\
    p_waiting p = false /\ p_skip p = false /\ p_transmits p = 0 /\
    p_time_sent p = ai_empty /\ p_dest p = dest /\ p_header p = header /\
    as_slice (p_buf p) = header_bytes header ++ body.
Proof. intros (buf & -> & E)%(Packet_new_layout dest header). by eexists. Qed.

(** ** Packet sets *)

(** The packets that the references of a set point to. *)
Definition derefs (st : list Packet) (rs : list PacketRef) (ps : list Packet) : Prop :=
  Forall2 (fun r p => deref st r = Ret p) rs ps.

(** The datagrams of a set that are still to be sent: those of the packets
    without the skip flag. *)
Definition live_bufs (ps : list Packet) : list (list byte) :=
  (fun p => as_slice (p_buf p)) <$> filter (fun p => p_skip p = false) ps.

Lemma put_packets_spec st rs ps buf :
  derefs st rs ps -> put_packets st buf rs = Ret (buf ++ concat (live_bufs ps)).
Proof.
  intros Hd. revert buf.
  induction Hd as [|r p rs ps Hr Hd IH]; intros buf; cbn [put_packets].
  - cbn. by rewrite app_nil_r.
  - rewrite Hr. cbn [mbind outcome_bind]. rewrite IH. unfold live_bufs.
    destruct (p_skip p) eqn:E.
    + rewrite filter_cons_False by congruence. done.
    + rewrite filter_cons_True by done. cbn. by rewrite app_assoc.
Qed.

Lemma live_bufs_Forall (P : list byte -> Prop) ps :
  Forall (fun p => P (as_slice (p_buf p))) ps -> Forall P (live_bufs ps).
Proof.
  unfold live_bufs. induction 1 as [|p ps Hp _ IH]; [constructor|].
  destruct (decide (p_skip p = false)).
  - rewrite filter_cons_True by done. by constructor.
  - by rewrite filter_cons_False by done.
Qed.

Lemma len_concat_uniform {A} sz (ls : list (list A)) :
  Forall (fun l => len l = sz) ls -> len (concat ls) = len ls * sz.
Proof.
  induction 1 as [|l ls Hl _ IH]; [done|].
  cbn [concat]. rewrite len_app, len_cons, IH, Hl. lia.
Qed.

Lemma live_bufs_le ps : len (live_bufs ps) <= len ps.
Proof.
  unfold live_bufs, len. rewrite length_fmap.
  pose proof (length_filter (fun p => p_skip p = false) ps). lia.
Qed.

(** Turning a set of packets of one size into a transmit. *)
Lemma to_transmit_wp st s ps sz :
  ps_segment_size s = Some sz -> 0 < sz -> derefs st (ps_packets s) ps ->
  Forall (fun p => Packet_len p = sz) ps -> len ps * sz < 2 ^ 63 ->
  exists t, to_transmit st s = Ret t /\
    t_destination t = ps_dest s /\
    t_contents t = concat (live_bufs ps) /\
    Forall (fun b => len b = sz) (live_bufs ps) /\
    (len ps = 1 -> t_segment_size t = None) /\
    (len ps <> 1 -> t_segment_size t = Some sz /\ num_segments t = Ret (len (live_bufs ps))).
Proof.
  intros Hsz Hpos Hd Hu Hbound. unfold to_transmit. rewrite Hsz.
  assert (len (ps_packets s) = len ps) as Hn
    by (unfold len; f_equal; eapply Forall2_length, Hd).
  pose proof (len_nonneg ps).
  rewrite Hn, usize_mul_fits by (unfold usize_modulus; nia).
  cbn [mbind outcome_bind]. unfold vec_with_capacity.
  rewrite (proj2 (Z.ltb_lt _ _) Hbound). cbn [mbind outcome_bind].
  rewrite (put_packets_spec _ _ _ _ Hd). cbn [mbind outcome_bind app].
  assert (Forall (fun b => len b = sz) (live_bufs ps)) as Hl by by apply live_bufs_Forall.
  eexists. split; [reflexivity|]. cbn [t_destination t_contents t_segment_size].
  split_and!; try done.
  - by intros ->.
  - intros Hne%Z.eqb_neq. rewrite Hne. split; [done|].
    unfold num_segments, usize_div. cbn [t_segment_size t_contents].
    rewrite (proj2 (Z.eqb_neq sz 0)) by lia.
    rewrite (len_concat_uniform sz) by done. f_equal. apply Z.div_mul. lia.
Qed.

End packet_lemmas.

(** A cell for concrete runs: an optional clock reading. *)
Definition option_instant : AtomicInstant := {|
  instant_cell := option Z;
  ai_empty := None;
  ai_is_empty c := match c with None => true | Some _ => false end;
  ai_now t := Some t;
  ai_elapsed c t := match c with None => 0 | Some t0 => Z.min (Z.max 0 t) (Z.max 0 (t - t0)) end;
|}.

Lemma option_instant_laws : AtomicInstantLaws option_instant.
Proof.
  constructor; [done|done|].
  intros [t0|] t; cbn; [lia|discriminate].
Defined.

(** ** Main properties *)

(** C26: Encoding a header into a buffer of at least twenty bytes succeeds,
    writes only the first twenty bytes, and decoding that buffer gives the
    header back; this holds for every header whose type and data offset fit a
    byte and whose other fields fit a [u32]. *)
Theorem header_encode_decode (h : Header) (buf : list byte) :
  wire_header h -> UDX_HEADER_SIZE <= len buf ->
  exists buf',
    encode h buf = Ret (true, buf') /\
    from_bytes buf' = Ret (Ok h) /\
    len buf' = len buf /\ drop 20 buf' = drop 20 buf.
Proof.
  intros Hw Hlen. eexists. split; [by apply encode_header_bytes|]. split_and!.
  - by apply from_bytes_header_bytes.
  - rewrite len_app, len_header_bytes. change 20%nat with (Z.to_nat 20).
    rewrite len_drop by done. unfold UDX_HEADER_SIZE in *. lia.
  - by rewrite drop_app_length' by done.
Qed.

Lemma header_encode_decode_witness :
  exists buf',
    encode (mk_Header 1 0 7 U32_MAX 258 65536) (replicate 22 Byte.x05) = Ret (true, buf') /\
    from_bytes buf' = Ret (Ok (mk_Header 1 0 7 U32_MAX 258 65536)) /\
    len buf' = len (replicate 22 Byte.x05) /\
    drop 20 buf' = drop 20 (replicate 22 Byte.x05).
Proof.
  apply header_encode_decode.
  - unfold wire_header, U32_MAX, u32_modulus; cbn; lia.
  - unfold UDX_HEADER_SIZE, len; rewrite length_replicate; lia.
Defined.

(** C28: Decoding never panics, whatever the bytes, and accepts exactly the
    buffers that start with the encoding of a header: it returns [Ok h] if and
    only if [h] has wire-sized fields and the buffer is [header_bytes h]
    followed by anything, and the "Bad header" error otherwise. *)
Theorem from_bytes_accepts_exactly (buf : list byte) :
  (forall h, from_bytes buf = Ret (Ok h) <->
     wire_header h /\ exists rest, buf = header_bytes h ++ rest) /\
  ((~ exists h, from_bytes buf = Ret (Ok h)) <->
     from_bytes buf = Ret (Err (io_error_new InvalidData "Bad header"))).
Proof.
  split.
  - intros h. split; [apply from_bytes_Ok_inv|].
    intros [Hw [rest ->]]. by apply from_bytes_header_bytes.
  - split.
    + intros Hno. destruct (from_bytes_cases buf) as [(h&rest&Hw&->)|E]; [|done].
      exfalso. apply Hno. eauto using from_bytes_header_bytes.
    + intros -> [h E]. discriminate.
Qed.

(** [Packet::new] never panics on a body that fits in memory; the packet's
    buffer is the encoded header followed by the body, so a receiver decodes
    the header from it and finds the body after the twenty header bytes, and
    [data_len] is the length of the body.  The flags start cleared. *)
Theorem Packet_new_on_wire (P : Profile) (AI : AtomicInstant) dest header body :
  wire_header header -> len body < 2 ^ 63 ->
  exists p, Packet_new dest header body = Ret p /\
    from_bytes (as_slice (p_buf p)) = Ret (Ok header) /\
    drop 20 (as_slice (p_buf p)) = body /\
    Packet_len p = UDX_HEADER_SIZE + len body /\ Packet_data_len p = len body /\
    p_header p = header /\ p_dest p = dest /\
    p_waiting p = false /\ p_skip p = false /\ p_transmits p = 0.
Proof.
  intros Hw Hlen.
  destruct (Packet_new_Ret dest header body Hlen) as (p & E & ? & ? & ? & ? & ? & ? & Hb).
  exists p. unfold Packet_len, Packet_data_len, PacketBuf_len, usize_saturating_sub.
  rewrite Hb, len_app, len_header_bytes. pose proof (len_nonneg body).
  split_and!; try done.
  - by apply from_bytes_header_bytes.
  - unfold UDX_HEADER_SIZE. lia.
Qed.

Lemma Packet_new_on_wire_witness :
  exists p, @Packet_new (mk_Profile true true) option_instant (SocketAddrV4 [] 80) (mk_Header 1 0 7 0 3 4)
              [Byte.x61; Byte.x62] = Ret p /\
    from_bytes (as_slice (p_buf p)) = Ret (Ok (mk_Header 1 0 7 0 3 4)) /\
    drop 20 (as_slice (p_buf p)) = [Byte.x61; Byte.x62] /\
    Packet_len p = UDX_HEADER_SIZE + len [Byte.x61; Byte.x62] /\
    Packet_data_len p = len [Byte.x61; Byte.x62] /\
    p_header p = mk_Header 1 0 7 0 3 4 /\ p_dest p = SocketAddrV4 [] 80 /\
    p_waiting p = false /\ p_skip p = false /\ p_transmits p = 0.
Proof.
  apply (Packet_new_on_wire (mk_Profile true true) option_instant).
  - unfold wire_header, u32_modulus; cbn; lia.
  - reflexivity.
Defined.

(** C27: [PacketSet::to_transmit] on a set of packets of one size: it never
    panics, the contents are the buffers of the packets not marked [skip] one
    after the other in queue order, each of them [segment_size] bytes, and
    unless the set has a single packet the transmit carries that segment size
    and counts exactly those packets as its segments. *)
Theorem to_transmit_segments (P : Profile) (AI : AtomicInstant) st s ps sz :
  ps_segment_size s = Some sz -> 0 < sz -> derefs st (ps_packets s) ps ->
  Forall (fun p => Packet_len p = sz) ps -> len ps * sz < 2 ^ 63 ->
  exists t, to_transmit st s = Ret t /\
    t_destination t = ps_dest s /\
    t_contents t = concat (live_bufs ps) /\
    Forall (fun b => len b = sz) (live_bufs ps) /\
    (len ps = 1 -> t_segment_size t = None) /\
    (len ps <> 1 -> t_segment_size t = Some sz /\ num_segments t = Ret (len (live_bufs ps))).
Proof. apply to_transmit_wp. Qed.

Lemma to_transmit_segments_witness :
  let mk skip b := @mk_Packet option_instant false skip None 0 (SocketAddrV4 [] 80)
                     (mk_Header 1 0 7 0 3 4) (Data [b; b]) in
  let st := [mk false Byte.x61; mk true Byte.x62; mk false Byte.x63] in
  let s := @mk_PacketSet option_instant (SocketAddrV4 [] 80) (Some 2) [Shared 0%nat; Shared 1%nat; Shared 2%nat] in
  exists t, @to_transmit (mk_Profile true true) option_instant st s = Ret t /\
    t_destination t = ps_dest s /\
    t_contents t = concat (live_bufs st) /\
    Forall (fun b => len b = 2) (live_bufs st) /\
    (len st = 1 -> t_segment_size t = None) /\
    (len st <> 1 -> t_segment_size t = Some 2 /\ num_segments t = Ret (len (live_bufs st))).
Proof.
  intros mk st s.
  apply (to_transmit_segments (mk_Profile true true) option_instant st s st 2); try reflexivity.
  - repeat constructor.
  - repeat constructor.
Defined.
