(* ===== verification/Runtime.v ===== *)
(** What the stream and socket code reaches outside of its own structs.

    The events of [src/src/socket.rs] that streams and socket exchange, and
    the world they run in: the store of shared packets, the channel from the
    streams to the socket, the transmits handed to the operating system, the
    wakers that were woken, the one-shot senders that fired and the clock.  The tokio channels, timers and wakers
    themselves are not code of the crate: what they answer is given by the
    caller of an operation (the scripts below), and what they are told is
    recorded in the world. *)

From S2P Require Import Prelude Constants Errors UdpProto Packet.

Local Open Scope Z_scope.

(** A task waker and a one-shot channel, by identity. *)
Abbreviation Waker := nat (only parsing).
Abbreviation Oneshot := nat (only parsing).

Inductive EventIncoming :=
  | EvPacket (packet : IncomingPacket).

Inductive EventOutgoing `{AtomicInstant} :=
  | EvTransmit (set : PacketSet)
  | EvTransmitDgram (dgram : Dgram)
  | EvStreamDropped (local_id : Z).

Section world.
Context `{Profile} `{AtomicInstant}.

Record World := mk_World {
  w_store : list Packet;           (* every [Arc<Packet>] allocated so far *)
  w_max_gso_segments : Z;          (* [UdpState::max_gso_segments], shared by the [Arc<UdpState>] *)
  w_tx_open : bool;                (* the socket still holds the receiver of [send_tx] *)
  w_tx : list EventOutgoing;       (* events sent on [send_tx], oldest first *)
  w_sent : list Transmit;          (* transmits the operating system accepted, oldest first *)
  w_woken : list Waker;            (* wakers woken, oldest first *)
  w_signals : list Oneshot;        (* one-shot senders that were fired *)
  w_clock : nat -> Z;              (* the successive readings of [Instant::now()] *)
  w_ticks : nat;                   (* how many readings were taken *)
}.

#[export] Instance World_eta : Eta World := fun w =>
  mk_World (w_store w) (w_max_gso_segments w) (w_tx_open w) (w_tx w) (w_sent w) (w_woken w)
    (w_signals w) (w_clock w) (w_ticks w).

(** [Instant::now()]. *)
Definition instant_now : Act World Z :=
  t ← gets (fun w => w_clock w (w_ticks w));
  _ ← modify (fun w => w <| w_ticks ::= Datatypes.S |>);
  mret t.

(** [waker.wake()] on a waker taken out of its slot. *)
Definition wake (o : option Waker) : Act World unit :=
  match o with
  | Some k => modify (fun w => w <| w_woken ::= fun l => l ++ [k] |>)
  | None => mret tt
  end.

(** [send_tx.send(event)]: fails exactly when the receiver is gone. *)
Definition send_event (ev : EventOutgoing) : Act World bool :=
  open ← gets w_tx_open;
  if (open : bool) then
    _ ← modify (fun w => w <| w_tx ::= fun l => l ++ [ev] |>);
    mret true
  else mret false.

(** [Arc::new(packet)]. *)
Definition arc_alloc (p : Packet) : Act World loc :=
  st ← gets w_store;
  let '(st', l) := arc_new st p in
  _ ← modify (fun w => w <| w_store := st' |>);
  mret l.

(** Reading a packet through its [Arc], and storing into its atomic fields. *)
Definition arc_load (l : loc) : Act World Packet :=
  st ← gets w_store; lift (deref_loc st l).

Definition arc_update (l : loc) (f : Packet -> Packet) : Act World unit :=
  modify (fun w => w <| w_store ::= alter f l |>).

Definition ref_load (r : PacketRef) : Act World Packet :=
  st ← gets w_store; lift (deref st r).

End world.
