(* ===== verification/Stream.v ===== *)
(** The stream: [src/src/stream.rs].

    [UdxStreamInner] with all its fields and one definition per method.  A
    method runs on a [StreamSt]: the struct behind the mutex and the world it
    shares with the socket.  One definition is one critical section: every
    public entry point locks the mutex for its whole run. *)

From S2P Require Import Prelude Constants Errors UdpProto Packet Runtime.

Local Open Scope Z_scope.

Definition SSTHRESH : Z := 65535.
Definition MAX_SEGMENTS : Z := 10.

Record StreamStats := mk_StreamStats {
  tx_packets : Z;
  tx_bytes : Z;
  rx_bytes : Z;
  rx_packets : Z;
  inflight_packets : Z;
  inflight_bytes : Z;
}.

#[export] Instance StreamStats_eta : Eta StreamStats := fun s =>
  mk_StreamStats (tx_packets s) (tx_bytes s) (rx_bytes s) (rx_packets s)
    (inflight_packets s) (inflight_bytes s).

Definition StreamStats_default : StreamStats := mk_StreamStats 0 0 0 0 0 0.

(** ** The half-close state machine *)

Inductive StreamState := Open | LocalClosed | RemoteClosed | BothClosed.

#[export] Instance StreamState_eq_dec : EqDecision StreamState.
Proof. solve_decision. Defined.

Definition close_local (s : StreamState) : StreamState :=
  match s with
  | RemoteClosed | BothClosed => BothClosed
  | _ => LocalClosed
  end.

Definition close_remote (s : StreamState) : StreamState :=
  match s with
  | LocalClosed | BothClosed => BothClosed
  | _ => RemoteClosed
  end.

Definition local_closed (s : StreamState) : bool :=
  match s with LocalClosed | BothClosed => true | _ => false end.

Definition remote_closed (s : StreamState) : bool :=
  match s with RemoteClosed | BothClosed => true | _ => false end.

Definition state_closed (s : StreamState) : bool := local_closed s || remote_closed s.

(** ** The [tokio::io::ReadBuf] a reader passes in

    [put_slice] appends to the filled part and panics when the slice does not
    fit the remaining room. *)
Class ReadBuf (B : Type) := {
  rb_filled : B -> list byte;
  rb_remaining : B -> Z;
  rb_put_slice : B -> list byte -> outcome B;
}.

Class ReadBufLaws (B : Type) `{RB : ReadBuf B} : Prop := {
  rb_remaining_nonneg b : 0 <= rb_remaining b < usize_modulus;
  rb_put_slice_fits b v : len v <= rb_remaining b ->
    exists b', rb_put_slice b v = Ret b' /\
      rb_filled b' = rb_filled b ++ v /\ rb_remaining b' = rb_remaining b - len v;
}.

Section stream.
Context `{Profile} `{AtomicInstant}.

Record UdxStreamInner := mk_UdxStreamInner {
  s_incoming : gmap Z IncomingPacket;
  s_outgoing : gmap Z loc;
  s_send_queue : list PacketRef;
  s_remote_id : Z;
  s_local_id : Z;
  s_remote_addr : SocketAddr;
  s_seq : Z;
  s_seq_flushed : Z;
  s_ack : Z;
  s_remote_acked : Z;
  s_inflight : Z;
  s_cwnd : Z;
  s_rto : Z;
  s_rto_timeout : Z;               (* the deadline of the [Sleep] *)
  s_rttvar : Z;
  s_srtt : Z;
  s_read_cursor : Z;
  s_read_waker : option Waker;
  s_write_waker : option Waker;
  s_drive_waker : option Waker;
  s_error : option UdxError;
  s_on_close : option Oneshot;
  s_on_firewall : option (SocketAddr -> bool);
  s_stats : StreamStats;
  s_state : StreamState;
}.

#[export] Instance UdxStreamInner_eta : Eta UdxStreamInner := fun s =>
  mk_UdxStreamInner (s_incoming s) (s_outgoing s) (s_send_queue s) (s_remote_id s)
    (s_local_id s) (s_remote_addr s) (s_seq s) (s_seq_flushed s) (s_ack s)
    (s_remote_acked s) (s_inflight s) (s_cwnd s) (s_rto s) (s_rto_timeout s)
    (s_rttvar s) (s_srtt s) (s_read_cursor s) (s_read_waker s) (s_write_waker s)
    (s_drive_waker s) (s_error s) (s_on_close s) (s_on_firewall s) (s_stats s) (s_state s).

Record StreamSt := mk_StreamSt {
  inner : UdxStreamInner;
  world : World;
}.

#[export] Instance StreamSt_eta : Eta StreamSt := fun st => mk_StreamSt (inner st) (world st).

(** Reading and updating [self], and running an action on the world. *)
Definition self {A} (f : UdxStreamInner -> A) : Act StreamSt A := gets (fun st => f (inner st)).
Definition set_self (f : UdxStreamInner -> UdxStreamInner) : Act StreamSt unit :=
  modify (fun st => st <| inner ::= f |>).
Definition on_world {A} (m : Act World A) : Act StreamSt A := fun st =>
  match m (world st) with
  | Ret (a, w) => Ret (a, st <| world := w |>)
  | Panic e => Panic e
  | NoFuel => NoFuel
  end.

(** The struct that [UdxStream::connect] builds at clock reading [now]. *)
Definition connect (now : Z) (dest : SocketAddr) (remote_id local_id : Z) : UdxStreamInner :=
  let rto := from_millis 1000 in
  mk_UdxStreamInner ∅ ∅ [] remote_id local_id dest 0 0 0 0 0 (2 * UDX_MTU) rto (now + rto) 0 0 0
    None None None None None None StreamStats_default Open.

(** ** Building packets *)

Definition create_header (s : UdxStreamInner) (typ : Z) : Header :=
  let typ := if local_closed (s_state s) then Z.land typ UDX_HEADER_END else typ in
  mk_Header typ 0 (s_remote_id s) U32_MAX (s_seq s) (s_ack s).

Definition create_packet (s : UdxStreamInner) (typ : Z) (body : list byte) : outcome Packet :=
  Packet_new (s_remote_addr s) (create_header s typ) body.

Definition wake_driver : Act StreamSt unit :=
  w ← self s_drive_waker;
  _ ← set_self (fun s => s <| s_drive_waker := None |>);
  on_world (wake w).

Definition add_tx_packet : Act StreamSt unit :=
  n ← self (fun s => tx_packets (s_stats s));
  n ← lift (usize_add n 1);
  set_self (fun s => s <| s_stats ::= fun t => t <| tx_packets := n |> |>).

Definition send_state_packet : Act StreamSt unit :=
  error ← self s_error;
  let typ := match error with Some _ => Z.lor 0 UDX_HEADER_END | None => 0 end in
  s ← self id;
  packet ← lift (create_packet s typ []);
  _ ← set_self (fun s => s <| s_send_queue ::= fun q => q ++ [Owned packet] |>);
  _ ← wake_driver;
  add_tx_packet.

Definition terminate (error : UdxError) : Act StreamSt unit :=
  _ ← set_self (fun s => s <| s_error := Some error |>);
  _ ← set_self (fun s => s <| s_state ::= close_local |>);
  _ ← send_state_packet;
  r ← self s_read_waker;
  _ ← set_self (fun s => s <| s_read_waker := None |>);
  _ ← on_world (wake r);
  w ← self s_write_waker;
  _ ← set_self (fun s => s <| s_write_waker := None |>);
  _ ← on_world (wake w);
  wake_driver.

Definition closed_and_drained (s : UdxStreamInner) : bool :=
  match s_error s with Some _ => true | None => false end
  && bool_decide (s_send_queue s = [])
  && bool_decide (s_outgoing s = ∅).

(** ** Sending *)

Definition send_data_packet (buf : list byte) : Act StreamSt Z :=
  let n := Z.min (len buf) UDX_MAX_DATA_SIZE in
  inflight ← self s_inflight;
  cwnd ← self s_cwnd;
  total ← lift (usize_add inflight n);
  if total >? cwnd then mret 0 else
  s ← self id;
  body ← lift (slice buf 0 n);
  packet ← lift (create_packet s UDX_HEADER_DATA body);
  l ← on_world (arc_alloc packet);
  seq ← lift (u32_add (s_seq s) 1);
  _ ← set_self (fun s => s <| s_seq := seq |>);
  st ← self s_stats;
  a ← lift (usize_add (inflight_bytes st) (Packet_data_len packet));
  b ← lift (usize_add (tx_bytes st) (Packet_data_len packet));
  c ← lift (usize_add (tx_packets st) 1);
  d ← lift (usize_add (inflight_packets st) 1);
  _ ← set_self (fun s => s <| s_stats ::= fun t =>
        t <| inflight_bytes := a |> <| tx_bytes := b |> <| tx_packets := c |>
          <| inflight_packets := d |> |>);
  _ ← set_self (fun s => s <| s_outgoing ::= <[Packet_seq packet := l]> |>);
  inflight ← lift (usize_add inflight (PacketBuf_len (p_buf packet)));
  _ ← set_self (fun s => s <| s_inflight := inflight |>);
  _ ← set_self (fun s => s <| s_send_queue ::= fun q => q ++ [Shared l] |>);
  _ ← wake_driver;
  mret n.

(** The loop of [poll_write]: [Ready n] is [Poll::Ready(Ok(n))]. *)
Fixpoint write_loop (fuel : nat) (cx : Waker) (buf : list byte) (written : Z)
  : Act StreamSt (poll Z) :=
  if written >=? len buf then mret (Ready written) else
  match fuel with
  | O => out_of_fuel
  | Datatypes.S fuel =>
      rest ← lift (slice buf written (len buf));
      n ← send_data_packet rest;
      if n =? 0 then
        if written =? 0 then
          _ ← set_self (fun s => s <| s_write_waker := Some cx |>);
          mret Pending
        else mret (Ready written)
      else
        written ← lift (usize_add written n);
        write_loop fuel cx buf written
  end.

Definition poll_write (cx : Waker) (buf : list byte) : Act StreamSt (poll (result Z io_error)) :=
  error ← self s_error;
  match error with
  | Some e => mret (Ready (Err (io_error_from_Udx e)))
  | None =>
      if len buf =? 0 then mret (Ready (Ok 0)) else
      r ← write_loop (length buf) cx buf 0;
      mret (match r with Ready n => Ready (Ok n) | Pending => Pending end)
  end.

(** ** Timeouts and retransmission *)

Definition max_retransmits_error : io_error :=
  io_error_new TimedOut "Max retransmits reached without ack".

(** One iteration of the loss loop of [poll_check_timeouts]. *)
Definition mark_lost (i : Z) : Act StreamSt (flow io_error) :=
  out ← self s_outgoing;
  match out !! i with
  | None => mret Continue
  | Some l =>
      p ← on_world (arc_load l);
      if p_waiting p then mret Continue else
      if p_transmits p >? UDX_MAX_TRANSMITS then mret (Break max_retransmits_error) else
      n ← lift (usize_add (p_transmits p) 1);
      _ ← on_world (arc_update l (fun p => p <| p_transmits := n |>));
      _ ← on_world (arc_update l (fun p => p <| p_waiting := true |>));
      inflight ← self s_inflight;
      inflight ← lift (usize_sub inflight (Packet_len p));
      _ ← set_self (fun s => s <| s_inflight := inflight |>);
      mret Continue
  end.

(** Re-arms the retransmission timer [d] after now. *)
Definition reset_rto_timeout (d : Z) : Act StreamSt unit :=
  t ← on_world instant_now;
  next ← lift (unwrap (instant_checked_add t d));
  set_self (fun s => s <| s_rto_timeout := next |>).

(** [timer_ready] is the answer of polling [rto_timeout]. *)
Definition poll_check_timeouts (timer_ready : bool) : Act StreamSt (result unit io_error) :=
  if negb timer_ready then mret (Ok tt) else
  remote_acked ← self s_remote_acked;
  seq ← self s_seq;
  if remote_acked =? seq then mret (Ok tt) else
  rto ← self s_rto;
  d ← lift (duration_mul 2 rto);
  _ ← reset_rto_timeout d;
  _ ← set_self (fun s => s <| s_cwnd ::= fun c => Z.max UDX_MTU (c / 2) |>);
  r ← for_range remote_acked seq mark_lost;
  mret (match r with Some e => Err e | None => Ok tt end).

(** One iteration of [flush_waiting_packets]. *)
Definition flush_one (i : Z) : Act StreamSt (flow unit) :=
  out ← self s_outgoing;
  match out !! i with
  | None => mret Continue
  | Some l =>
      p ← on_world (arc_load l);
      if negb (p_waiting p) then mret Continue else
      inflight ← self s_inflight;
      cwnd ← self s_cwnd;
      total ← lift (usize_add inflight (Packet_len p));
      if total >? cwnd then mret (Break tt) else
      _ ← on_world (arc_update l (fun p => p <| p_waiting := false |>));
      _ ← set_self (fun s => s <| s_inflight := total |>);
      _ ← set_self (fun s => s <| s_send_queue ::= fun q => q ++ [Shared l] |>);
      mret Continue
  end.

Definition flush_waiting_packets : Act StreamSt unit :=
  remote_acked ← self s_remote_acked;
  seq ← self s_seq;
  _ ← for_range remote_acked seq flush_one;
  mret tt.

(** ** Handing packet sets to the socket *)

(** Sends a batch that is followed by another: a closed channel is fatal. *)
Definition send_full_batch (queue : list PacketRef) (segment_size : Z) : Act StreamSt unit :=
  addr ← self s_remote_addr;
  ok ← on_world (send_event (EvTransmit (PacketSet_new addr queue segment_size)));
  if (ok : bool) then mret tt else lift (Panic Unimplemented).

(** The [while let] loop of [poll_transmit]: [sq] is the send queue; the result
    is the last, unsent batch. *)
Fixpoint transmit_loop (sq : list PacketRef) (max_segments segment_size : Z)
    (queue : list PacketRef) : Act StreamSt (Z * list PacketRef) :=
  match sq with
  | [] => mret (segment_size, queue)
  | packet :: rest =>
      _ ← set_self (fun s => s <| s_send_queue := rest |>);
      p ← on_world (ref_load packet);
      let n := PacketBuf_len (p_buf p) in
      if negb (n =? segment_size) || (len queue =? max_segments) then
        _ ← (match queue with
             | [] => mret tt
             | _ => send_full_batch queue segment_size
             end);
        transmit_loop rest max_segments n [packet]
      else transmit_loop rest max_segments segment_size (queue ++ [packet])
  end.

Definition poll_transmit : Act StreamSt unit :=
  gso ← on_world (gets w_max_gso_segments);
  let max_segments := Z.min gso MAX_SEGMENTS in
  sq ← self s_send_queue;
  '(segment_size, queue) ← transmit_loop sq max_segments 0 [];
  match queue with
  | [] => mret tt
  | _ =>
      addr ← self s_remote_addr;
      _ ← on_world (send_event (EvTransmit (PacketSet_new addr queue segment_size)));
      mret tt
  end.

(** ** Acknowledgements *)

(** The RTT estimator of [handle_remote_ack_for_packet] for a sample [rtt]. *)
Definition update_rtt (rtt : Z) : Act StreamSt unit :=
  srtt ← self s_srtt;
  rttvar ← self s_rttvar;
  _ ← (if srtt =? 0 then
         v ← lift (duration_div rtt 2);
         k ← lift (duration_mul 4 v);
         rto ← lift (duration_add rtt (Z.max UDX_CLOCK_GRANULARITY_MS k));
         set_self (fun s => s <| s_srtt := rtt |> <| s_rttvar := v |> <| s_rto := rto |>)
       else
         delta ← (if rtt <? srtt then lift (duration_sub srtt rtt)
                  else lift (duration_sub rtt srtt));
         v3 ← lift (duration_mul 3 rttvar);
         v3 ← lift (duration_add v3 delta);
         v ← lift (duration_div v3 4);
         r7 ← lift (duration_mul 7 srtt);
         r7 ← lift (duration_add r7 rtt);
         r ← lift (duration_div r7 8);
         set_self (fun s => s <| s_rttvar := v |> <| s_srtt := r |>));
  srtt ← self s_srtt;
  rttvar ← self s_rttvar;
  k ← lift (duration_mul 4 rttvar);
  rto ← lift (duration_add srtt (Z.max UDX_CLOCK_GRANULARITY_MS k));
  set_self (fun s => s <| s_rto := Z.max (from_millis 1000) rto |>).

Definition handle_remote_ack_for_packet (l : loc) : Act StreamSt unit :=
  p ← on_world (arc_load l);
  _ ← (if negb (p_waiting p) then
         inflight ← self s_inflight;
         inflight ← lift (usize_sub inflight (PacketBuf_len (p_buf p)));
         set_self (fun s => s <| s_inflight := inflight |>)
       else mret tt);
  st ← self s_stats;
  a ← lift (usize_sub (inflight_bytes st) (Packet_data_len p));
  b ← lift (usize_sub (inflight_packets st) 1);
  _ ← set_self (fun s => s <| s_stats ::= fun t =>
        t <| inflight_bytes := a |> <| inflight_packets := b |> |>);
  _ ← (if negb (ai_is_empty (p_time_sent p)) && (p_transmits p =? 1) then
         t ← on_world instant_now;
         update_rtt (ai_elapsed (p_time_sent p) t)
       else mret tt);
  on_world (arc_update l (fun p => p <| p_skip := true |>)).

(** [self.outgoing.remove(&k)]. *)
Definition remove_outgoing (k : Z) : Act StreamSt (option loc) :=
  out ← self s_outgoing;
  _ ← set_self (fun s => s <| s_outgoing := delete k out |>);
  mret (out !! k).

(** One step of the [while self.remote_acked < ack] loop. *)
Definition advance_remote_acked : Act StreamSt unit :=
  ra ← self s_remote_acked;
  ra ← lift (u32_add ra 1);
  _ ← set_self (fun s => s <| s_remote_acked := ra |>);
  k ← lift (u32_sub ra 1);
  packet ← remove_outgoing k;
  match packet with
  | Some l => handle_remote_ack_for_packet l
  | None => mret tt
  end.

Definition handle_incoming_max_remote_ack (ack : Z) : Act StreamSt unit :=
  remote_acked ← self s_remote_acked;
  if ack <=? remote_acked then mret tt else
  _ ← while_loop (Z.to_nat (ack - remote_acked))
        (fun st => s_remote_acked (inner st) <? ack) advance_remote_acked;
  inflight ← self s_inflight;
  cwnd ← self s_cwnd;
  total ← lift (usize_add inflight UDX_MTU);
  _ ← (if total <=? cwnd then
         w ← self s_write_waker;
         _ ← set_self (fun s => s <| s_write_waker := None |>);
         on_world (wake w)
       else mret tt);
  rto ← self s_rto;
  reset_rto_timeout rto.

(** Selective acknowledgement of one sequence number. *)
Definition sack_one (i : Z) : Act StreamSt (flow unit) :=
  packet ← remove_outgoing i;
  _ ← (match packet with
       | Some l => handle_remote_ack_for_packet l
       | None => mret tt
       end);
  mret Continue.

(** The [while i + 8 < buf.len()] loop of [handle_incoming_sacks]. *)
Fixpoint sack_loop (fuel : nat) (buf : list byte) (i : Z) : Act StreamSt unit :=
  lim ← lift (usize_add i 8);
  if negb (lim <? len buf) then mret tt else
  match fuel with
  | O => out_of_fuel
  | Datatypes.S fuel =>
      i4 ← lift (usize_add i 4);
      start ← lift (read_u32_at buf i i4);
      i8 ← lift (usize_add i4 4);
      stop ← lift (read_u32_at buf i4 i8);
      _ ← for_range start stop sack_one;
      sack_loop fuel buf i8
  end.

Definition handle_incoming_sacks (packet : IncomingPacket) : Act StreamSt unit :=
  sack_loop (length (i_buf packet)) (i_buf packet) 0.

(** ** Receiving *)

(** [while self.incoming.contains_key(&self.ack) { self.ack += 1; }] *)
Definition ack_step : Act StreamSt unit :=
  ack ← self s_ack;
  ack ← lift (u32_add ack 1);
  set_self (fun s => s <| s_ack := ack |>).

Definition next_received (st : StreamSt) : bool :=
  match s_incoming (inner st) !! s_ack (inner st) with Some _ => true | None => false end.

Definition advance_ack : Act StreamSt unit :=
  m ← self s_incoming;
  while_loop (size m) next_received ack_step.

(** The [UDX_HEADER_DATA] branch of [handle_incoming]. *)
Definition handle_incoming_data (packet : IncomingPacket) : Act StreamSt unit :=
  rx ← self (fun s => rx_bytes (s_stats s));
  rx ← lift (usize_add rx (i_data_len packet));
  _ ← set_self (fun s => s <| s_stats ::= fun t => t <| rx_bytes := rx |> |>);
  let seq := i_seq packet in
  ack ← self s_ack;
  _ ← (if seq >=? ack
       then set_self (fun s => s <| s_incoming ::= <[seq := packet]> |>)
       else mret tt);
  _ ← advance_ack;
  ack ← self s_ack;
  _ ← (if seq <=? ack then
         w ← self s_read_waker;
         _ ← set_self (fun s => s <| s_read_waker := None |>);
         on_world (wake w)
       else mret tt);
  send_state_packet.

(** The congestion window after an acknowledgement that moves forward. *)
Definition grow_cwnd : Act StreamSt unit :=
  cwnd ← self s_cwnd;
  if cwnd <? SSTHRESH then
    c ← lift (usize_add cwnd UDX_MTU);
    set_self (fun s => s <| s_cwnd := c |>)
  else
    q ← lift (usize_div (UDX_MTU * UDX_MTU) cwnd);
    c ← lift (usize_add cwnd (Z.max q 1));
    set_self (fun s => s <| s_cwnd := c |>).

Definition handle_incoming (packet : IncomingPacket) : Act StreamSt unit :=
  fw ← self s_on_firewall;
  let pass := match fw with Some on_firewall => on_firewall (i_from packet) | None => true end in
  if negb pass then mret tt else
  n ← self (fun s => rx_packets (s_stats s));
  n ← lift (usize_add n 1);
  _ ← set_self (fun s => s <| s_stats ::= fun t => t <| rx_packets := n |> |>);
  _ ← (if has_type packet UDX_HEADER_SACK then handle_incoming_sacks packet else mret tt);
  let header := i_header packet in
  _ ← (if has_type packet UDX_HEADER_END then
         _ ← set_self (fun s => s <| s_state ::= close_remote |>);
         terminate closed_by_remote
       else mret tt);
  _ ← (if has_type packet UDX_HEADER_DATA then handle_incoming_data packet else mret tt);
  seq ← self s_seq;
  if h_ack header >? seq then mret tt else
  remote_acked ← self s_remote_acked;
  if h_ack header >? remote_acked then grow_cwnd else mret tt.

(** What polling [recv_rx] answers during one poll: [Ready(Some(event))] for each
    of [rx_events], then [Ready(None)] if the sender is gone, else [Pending]. *)
Record RecvScript := mk_RecvScript {
  rx_events : list EventIncoming;
  rx_closed : bool;
}.

Definition driver_dropped_error : io_error :=
  io_error_new BrokenPipe "Socket driver future was dropped".

Fixpoint recv_loop (events : list EventIncoming) (closed : bool) (remote_ack : Z)
  : Act StreamSt (result Z io_error) :=
  match events with
  | [] => mret (if closed then Err driver_dropped_error else Ok remote_ack)
  | EvPacket packet :: rest =>
      _ ← handle_incoming packet;
      recv_loop rest closed (Z.max remote_ack (i_ack packet))
  end.

Definition poll_incoming (rx : RecvScript) : Act StreamSt (result unit io_error) :=
  r ← recv_loop (rx_events rx) (rx_closed rx) 0;
  match r with
  | Err e => mret (Err e)
  | Ok remote_ack =>
      _ ← handle_incoming_max_remote_ack remote_ack;
      mret (Ok tt)
  end.

(** ** The driver *)

Definition poll_drive (rx : RecvScript) (timer_ready : bool) : Act StreamSt (result bool io_error) :=
  r ← poll_incoming rx;
  match r with
  | Err e => mret (Err e)
  | Ok _ =>
      r ← poll_check_timeouts timer_ready;
      match r with
      | Err e => mret (Err e)
      | Ok _ =>
          _ ← flush_waiting_packets;
          _ ← poll_transmit;
          mret (Ok false)
      end
  end.

(** [StreamDriver::poll] with the driver task's waker [cx]. *)
Definition driver_poll (cx : Waker) (rx : RecvScript) (timer_ready : bool)
  : Act StreamSt (poll unit) :=
  _ ← set_self (fun s => s <| s_drive_waker := None |>);
  done ← self closed_and_drained;
  if (done : bool) then
    tx ← self s_on_close;
    _ ← set_self (fun s => s <| s_on_close := None |>);
    _ ← on_world (modify (fun w => w <| w_signals ::= fun l => l ++ option_list tx |>));
    local_id ← self s_local_id;
    _ ← on_world (send_event (EvStreamDropped local_id));
    mret (Ready tt)
  else
    r ← poll_drive rx timer_ready;
    should_continue ← (match r with
      | Ok b => mret b
      | Err e => _ ← terminate (UdxError_from_io e); mret true
      end);
    _ ← (if (should_continue : bool) then on_world (wake (Some cx))
         else set_self (fun s => s <| s_drive_waker := Some cx |>));
    mret Pending.

(** ** The public handle *)

(** [UdxStream::close]; [tx] is the sender of the fresh one-shot channel. *)
Definition close (tx : Oneshot) : Act StreamSt unit :=
  _ ← terminate close_graceful;
  set_self (fun s => s <| s_on_close := Some tx |>).

Definition closed (s : UdxStreamInner) : bool := state_closed (s_state s).

Definition remote_addr (s : UdxStreamInner) : SocketAddr := s_remote_addr s.

Definition stats (s : UdxStreamInner) : StreamStats := s_stats s.

(** Flushing and shutting down return at once and do nothing; [close] is what
    ends a stream. *)
Definition poll_flush : Act StreamSt (poll (result unit io_error)) := mret (Ready (Ok tt)).

Definition poll_shutdown : Act StreamSt (poll (result unit io_error)) := mret (Ready (Ok tt)).

(** [impl Drop for UdxStream]: with at most the driver's clone left besides the
    one being dropped, the stream is terminated. *)
Definition drop_stream (strong_count : Z) : Act StreamSt unit :=
  if strong_count <=? 2 then terminate close_graceful else mret tt.

Section reading.
Context {B : Type} `{ReadBuf B}.

(** The [while let] loop of [read_next]. *)
Fixpoint read_loop (fuel : nat) (did_read : bool) (buf : B) : Act StreamSt (bool * B) :=
  s ← self id;
  match s_incoming s !! s_read_cursor s with
  | None => mret (did_read, buf)
  | Some packet =>
      match fuel with
      | O => out_of_fuel
      | Datatypes.S fuel =>
          _ ← set_self (fun s => s <| s_incoming ::= delete (s_read_cursor s) |>);
          let start := i_read_offset packet in
          n ← lift (usize_sub (len (i_buf packet)) start);
          if n >? rb_remaining buf then
            stop ← lift (usize_add start (rb_remaining buf));
            bytes ← lift (slice (i_buf packet) start stop);
            buf ← lift (rb_put_slice buf bytes);
            let packet := packet <| i_read_offset := stop |> in
            _ ← set_self (fun s => s <| s_incoming ::= <[i_seq packet := packet]> |>);
            mret (did_read, buf)
          else
            bytes ← lift (slice (i_buf packet) start (len (i_buf packet)));
            buf ← lift (rb_put_slice buf bytes);
            c ← self s_read_cursor;
            c ← lift (u32_add c 1);
            _ ← set_self (fun s => s <| s_read_cursor := c |>);
            read_loop fuel true buf
      end
  end.

Definition read_next (buf : B) : Act StreamSt (bool * B) :=
  m ← self s_incoming;
  read_loop (size m) false buf.

(** [poll_read] also returns the buffer, which the caller shares. *)
Definition poll_read (cx : Waker) (buf : B) : Act StreamSt (poll (result unit io_error) * B) :=
  '(did_read, buf) ← read_next buf;
  if negb did_read then
    error ← self s_error;
    match error with
    | Some e => mret (Ready (Err (io_error_from_Udx e)), buf)
    | None =>
        _ ← set_self (fun s => s <| s_read_waker := Some cx |>);
        mret (Pending, buf)
    end
  else mret (Ready (Ok tt), buf).

End reading.

End stream.
