(* ===== verification/StreamInv.v ===== *)
(** The stream's invariant.

    [StreamInv sent st] says that a stream and its world are consistent, where
    [sent] is the history of the payloads the stream has cut from writes: the
    packet with sequence number [k] carries [sent !! k].  The file defines it,
    together with the room the counters need for the next operation and the
    relation [ext] between the states before and after an operation, and
    proves what the basic state changes do to them. *)

From S2P Require Import Prelude Constants Errors UdpProto Packet Runtime Stream.

Local Open Scope Z_scope.

(** An upper bound on clock readings (and so on measured round trips) that
    leaves every computation with durations and instants in range: 2^88 ns is
    about 9.8 billion years. *)
Definition CLOCK_BOUND : Z := 2 ^ 88.

Section defs.
Context `{Profile} {AI : AtomicInstant}.

(** ** Sums over the retransmission table *)

Definition at_loc (st : list Packet) (f : Packet -> Z) (l : loc) : Z :=
  match st !! l with Some p => f p | None => 0 end.

(** The sum of [f] over the packets that [out] points to. *)
Definition out_sum (st : list Packet) (f : Packet -> Z) (out : gmap Z loc) : Z :=
  map_fold (fun _ l acc => at_loc st f l + acc) 0 out.

(** The bytes a packet contributes to [inflight]: none while it waits for a
    retransmission. *)
Definition flight_len (p : Packet) : Z := if p_waiting p then 0 else Packet_len p.

(** ** Packets a stream creates *)

Definition data_packet (sent : list (list byte)) (p : Packet) : Prop :=
  h_typ (p_header p) = UDX_HEADER_DATA /\
  exists body, sent !! Z.to_nat (h_seq (p_header p)) = Some body /\
    0 < len body <= UDX_MAX_DATA_SIZE /\
    as_slice (p_buf p) = header_bytes (p_header p) ++ body.

Definition state_packet (p : Packet) : Prop :=
  (h_typ (p_header p) = 0 \/ h_typ (p_header p) = UDX_HEADER_END) /\
  as_slice (p_buf p) = header_bytes (p_header p).

(** A packet of stream [s] after the payloads [sent]: addressed to the peer,
    carrying an acknowledgement the stream has really reached, and either a
    data packet with the payload of its sequence number or a bare state
    packet. *)
Definition packet_ok (sent : list (list byte)) (s : UdxStreamInner) (p : Packet) : Prop :=
  p_dest p = s_remote_addr s /\ wire_header (p_header p) /\
  h_stream_id (p_header p) = s_remote_id s /\ h_ack (p_header p) <= s_ack s /\
  (data_packet sent p \/ state_packet p).

(** A packet in the retransmission table under key [k]. *)
Definition out_packet_ok (sent : list (list byte)) (s : UdxStreamInner) (k : Z) (p : Packet)
  : Prop :=
  packet_ok sent s p /\ data_packet sent p /\ h_seq (p_header p) = k /\
  0 <= p_transmits p <= UDX_MAX_TRANSMITS + 1 /\ p_skip p = false.

Definition ref_ok (sent : list (list byte)) (st : StreamSt) (r : PacketRef) : Prop :=
  exists p, deref (w_store (world st)) r = Ret p /\ packet_ok sent (inner st) p.

(** ** The invariant *)

(** Sending side: the table, the queue and the counters that summarise them. *)
Record SendInv (sent : list (list byte)) (st : StreamSt) : Prop := {
  inv_seq : s_seq (inner st) = len sent;
  inv_seq_range : s_seq (inner st) <= U32_MAX;
  inv_remote_id : 0 <= s_remote_id (inner st) < u32_modulus;
  inv_out : forall k l, s_outgoing (inner st) !! k = Some l ->
    0 <= k < s_seq (inner st) /\
    exists p, w_store (world st) !! l = Some p /\ out_packet_ok sent (inner st) k p;
  inv_queue : Forall (ref_ok sent st) (s_send_queue (inner st));
  inv_inflight : s_inflight (inner st) =
    out_sum (w_store (world st)) flight_len (s_outgoing (inner st));
  inv_inflight_bytes : inflight_bytes (s_stats (inner st)) =
    out_sum (w_store (world st)) Packet_data_len (s_outgoing (inner st));
  inv_inflight_packets : inflight_packets (s_stats (inner st)) =
    Z.of_nat (size (s_outgoing (inner st)));
}.

(** Receiving side: everything from the read cursor up to [ack] is in the
    reassembly map, [ack] is not, and nothing before the cursor is. *)
Record RecvInv (s : UdxStreamInner) : Prop := {
  inv_cursor : 0 <= s_read_cursor s <= s_ack s;
  inv_ack_range : s_read_cursor s + Z.of_nat (size (s_incoming s)) <= U32_MAX;
  inv_in : forall k p, s_incoming s !! k = Some p ->
    s_read_cursor s <= k /\ i_seq p = k /\ 0 <= i_read_offset p <= len (i_buf p) /\
    (i_read_offset p <> 0 -> k = s_read_cursor s);
  inv_in_len : forall k p, s_incoming s !! k = Some p -> len (i_buf p) < 2 ^ 63;
  inv_contiguous : forall k, s_read_cursor s <= k < s_ack s -> is_Some (s_incoming s !! k);
  inv_gap : s_incoming s !! s_ack s = None;
}.

(** Congestion control, timers, and the close state. *)
Record CtrlInv (st : StreamSt) : Prop := {
  inv_remote_acked : 0 <= s_remote_acked (inner st) <= U32_MAX;
  inv_cwnd : UDX_MTU <= s_cwnd (inner st);
  inv_srtt : 0 <= s_srtt (inner st) <= CLOCK_BOUND;
  inv_rttvar : 0 <= s_rttvar (inner st) <= CLOCK_BOUND;
  inv_rto : from_millis 1000 <= s_rto (inner st) <= 6 * CLOCK_BOUND;
  inv_clock : forall n, 0 <= w_clock (world st) n <= CLOCK_BOUND;
  inv_gso : 1 <= w_max_gso_segments (world st);
  inv_closed : local_closed (s_state (inner st)) = true <-> is_Some (s_error (inner st));
}.

Record StreamInv (sent : list (list byte)) (st : StreamSt) : Prop := {
  inv_send :> SendInv sent st;
  inv_recv :> RecvInv (inner st);
  inv_ctrl :> CtrlInv st;
}.

(** ** Room in the counters

    [Room n b st]: the counters can take [n] more packets and [b] more payload
    bytes before a [u32] sequence number or a [usize] counter overflows. *)
Record Room (n b : Z) (st : StreamSt) : Prop := {
  room_seq : s_seq (inner st) + n <= U32_MAX;
  room_ack : s_read_cursor (inner st) + Z.of_nat (size (s_incoming (inner st))) + n <= U32_MAX;
  room_cwnd : s_cwnd (inner st) + UDX_MTU * n < usize_modulus;
  room_tx_packets : 0 <= tx_packets (s_stats (inner st)) /\
    tx_packets (s_stats (inner st)) + 2 * n + 1 < usize_modulus;
  room_tx_bytes : 0 <= tx_bytes (s_stats (inner st)) /\
    tx_bytes (s_stats (inner st)) + b < usize_modulus;
  room_rx_packets : 0 <= rx_packets (s_stats (inner st)) /\
    rx_packets (s_stats (inner st)) + n < usize_modulus;
  room_rx_bytes : 0 <= rx_bytes (s_stats (inner st)) /\
    rx_bytes (s_stats (inner st)) + b < usize_modulus;
}.

(** ** Evolution *)

(** Packets are never removed from the store, what they carry never changes,
    and the skip flag is never cleared. *)
Definition packet_ext (p p' : Packet) : Prop :=
  p_header p' = p_header p /\ p_buf p' = p_buf p /\ p_dest p' = p_dest p /\
  (p_skip p = true -> p_skip p' = true).

Definition store_ext (s1 s2 : list Packet) : Prop :=
  forall l p, s1 !! l = Some p -> exists p', s2 !! l = Some p' /\ packet_ext p p'.

Record ext (st st' : StreamSt) : Prop := {
  ext_store : store_ext (w_store (world st)) (w_store (world st'));
  ext_clock : w_clock (world st') = w_clock (world st);
  ext_ticks : (w_ticks (world st) <= w_ticks (world st'))%nat;
  ext_gso : w_max_gso_segments (world st') = w_max_gso_segments (world st);
  ext_tx_open : w_tx_open (world st') = w_tx_open (world st);
  ext_sent : w_sent (world st') = w_sent (world st);
  ext_remote_id : s_remote_id (inner st') = s_remote_id (inner st);
  ext_local_id : s_local_id (inner st') = s_local_id (inner st);
  ext_remote_addr : s_remote_addr (inner st') = s_remote_addr (inner st);
  ext_firewall : s_on_firewall (inner st') = s_on_firewall (inner st);
  ext_seq : s_seq (inner st) <= s_seq (inner st');
  ext_ack : s_ack (inner st) <= s_ack (inner st');
  ext_remote_acked : s_remote_acked (inner st) <= s_remote_acked (inner st');
  ext_flushed : s_seq_flushed (inner st') = s_seq_flushed (inner st);
  ext_frame : forall l p, w_store (world st) !! l = Some p ->
    (forall k, s_outgoing (inner st) !! k <> Some l) -> w_store (world st') !! l = Some p;
  ext_locs : forall k l p, w_store (world st) !! l = Some p ->
    s_outgoing (inner st') !! k = Some l -> s_outgoing (inner st) !! k = Some l;
}.

(** Operations that only queue state packets, wake tasks and change the close
    state leave the tables and the control variables alone. *)
Record calm (st st' : StreamSt) : Prop := {
  calm_ext : ext st st';
  calm_store : w_store (world st') = w_store (world st);
  calm_tx : w_tx (world st') = w_tx (world st);
  calm_ticks : w_ticks (world st') = w_ticks (world st);
  calm_signals : w_signals (world st') = w_signals (world st);
  calm_incoming : s_incoming (inner st') = s_incoming (inner st);
  calm_outgoing : s_outgoing (inner st') = s_outgoing (inner st);
  calm_seq : s_seq (inner st') = s_seq (inner st);
  calm_ack : s_ack (inner st') = s_ack (inner st);
  calm_remote_acked : s_remote_acked (inner st') = s_remote_acked (inner st);
  calm_inflight : s_inflight (inner st') = s_inflight (inner st);
  calm_cwnd : s_cwnd (inner st') = s_cwnd (inner st);
  calm_rtt : s_srtt (inner st') = s_srtt (inner st) /\ s_rttvar (inner st') = s_rttvar (inner st) /\
    s_rto (inner st') = s_rto (inner st) /\ s_rto_timeout (inner st') = s_rto_timeout (inner st);
  calm_cursor : s_read_cursor (inner st') = s_read_cursor (inner st);
  calm_on_close : s_on_close (inner st') = s_on_close (inner st);
  calm_stats : exists n, s_stats (inner st') = (s_stats (inner st)) <| tx_packets := n |>;
}.

(** The state packet a stream in state [s] would queue. *)
Definition state_header (s : UdxStreamInner) : Header :=
  create_header s (match s_error s with Some _ => UDX_HEADER_END | None => 0 end).

End defs.

Create HintDb udx_inv discriminated.

Section lemmas.
Context `{Profile} {AI : AtomicInstant}.
Implicit Types (st : StreamSt) (out : gmap Z loc) (sent : list (list byte)).

#[export] Instance packet_ext_preorder : PreOrder packet_ext.
Proof.
  split; [intros p; by repeat split|].
  intros p q r (?&?&?&?) (?&?&?&?). unfold packet_ext. split_and!; [congruence..|auto].
Qed.

#[export] Instance store_ext_preorder : PreOrder store_ext.
Proof.
  split; [intros s l p Hp; exists p; by split|].
  intros s1 s2 s3 H12 H23 l p Hp.
  destruct (H12 l p Hp) as (p2 & Hp2 & E2). destruct (H23 l p2 Hp2) as (p3 & Hp3 & E3).
  exists p3. split; [done|]. by transitivity p2.
Qed.

#[export] Instance ext_preorder : PreOrder ext.
Proof.
  split; [intros st; by split|].
  intros s1 s2 s3 X1 X2. pose proof (ext_locs _ _ X1) as L1. pose proof (ext_locs _ _ X2) as L2.
  pose proof (ext_store _ _ X1) as E1. destruct X1, X2. split; try congruence; try lia.
  - by transitivity (w_store (world s2)).
  - intros l p Hl Hno. apply ext_frame1; [by apply ext_frame0|]. intros k Hk. by apply (Hno k), (L1 k l p).
  - intros k l p Hl Hk. destruct (E1 l p Hl) as (p' & Hl' & _). by apply (L1 k l p), (L2 k l p').
Qed.

(** *** Sums *)

Lemma out_sum_empty (st : list Packet) f : out_sum st f ∅ = 0.
Proof. apply map_fold_empty. Qed.

Lemma out_sum_insert (st : list Packet) f out k l :
  out !! k = None -> out_sum st f (<[k := l]> out) = at_loc st f l + out_sum st f out.
Proof.
  intros Hk. unfold out_sum.
  apply (map_fold_insert_L (fun (_ : Z) l acc => at_loc st f l + acc)); [intros; lia|done].
Qed.

Lemma out_sum_delete (st : list Packet) f out k l :
  out !! k = Some l -> out_sum st f out = at_loc st f l + out_sum st f (delete k out).
Proof.
  intros Hk. rewrite <- (out_sum_insert st f (delete k out) k l) by apply lookup_delete_eq.
  by rewrite insert_delete_id.
Qed.

Lemma out_sum_ext (st st' : list Packet) f f' out :
  (forall k l, out !! k = Some l -> at_loc st f l = at_loc st' f' l) ->
  out_sum st f out = out_sum st' f' out.
Proof.
  induction out as [|k l out Hk IH] using map_ind; intros He; [by rewrite !out_sum_empty|].
  rewrite !out_sum_insert by done. f_equal.
  - eapply He, lookup_insert_eq.
  - apply IH. intros k' l' Hl. apply (He k'). rewrite lookup_insert_ne; [done|congruence].
Qed.

Lemma out_sum_bounds (st : list Packet) f out b :
  0 <= b -> (forall k l, out !! k = Some l -> 0 <= at_loc st f l <= b) ->
  0 <= out_sum st f out <= b * Z.of_nat (size out).
Proof.
  intros Hb. induction out as [|k l out Hk IH] using map_ind; intros He.
  { rewrite out_sum_empty, map_size_empty. lia. }
  rewrite out_sum_insert, map_size_insert_None by done.
  pose proof (He k l (lookup_insert_eq _ _ _)).
  assert (0 <= out_sum st f out <= b * Z.of_nat (size out)); [|lia].
  apply IH. intros k' l' Hl. apply (He k'). rewrite lookup_insert_ne; [done|congruence].
Qed.

(** A map whose keys lie in [0, n) has at most [n] entries. *)
Lemma size_keys_le {A} (m : gmap Z A) a n :
  0 <= n -> (forall k x, m !! k = Some x -> a <= k < a + n) -> Z.of_nat (size m) <= n.
Proof.
  intros Hn Hk. rewrite <- size_dom.
  assert (dom m ⊆ list_to_set (seqZ a n)) as Hsub%subseteq_size.
  { intros k [x Hx]%elem_of_dom. apply elem_of_list_to_set, elem_of_seqZ. eauto. }
  rewrite size_list_to_set in Hsub by apply NoDup_seqZ.
  rewrite length_seqZ in Hsub. lia.
Qed.

(** A map with an entry for every key in [a, b) has at least [b - a] entries. *)
Lemma size_keys_ge {A} (m : gmap Z A) a b :
  (forall k, a <= k < b -> is_Some (m !! k)) -> b - a <= Z.of_nat (size m).
Proof.
  intros Hk. rewrite <- size_dom.
  assert (list_to_set (seqZ a (b - a)) ⊆ dom m) as Hsub%subseteq_size.
  { intros k Hin%elem_of_list_to_set%elem_of_seqZ. apply elem_of_dom, Hk. lia. }
  rewrite size_list_to_set in Hsub by apply NoDup_seqZ.
  rewrite length_seqZ in Hsub. lia.
Qed.

Lemma RecvInv_ack (s : UdxStreamInner) :
  RecvInv s -> s_ack s <= s_read_cursor s + Z.of_nat (size (s_incoming s)).
Proof. intros Hr. pose proof (size_keys_ge _ _ _ (inv_contiguous _ Hr)). lia. Qed.

(** *** Running actions on the world *)

Lemma wp_on_world {A} (m : Act World A) (Q : A -> StreamSt -> Prop) st :
  wp m (fun a w => Q a (st <| world := w |>)) (world st) -> wp (on_world m) Q st.
Proof. unfold wp, on_world. by destruct (m (world st)) as [[a w]| |]. Qed.

Lemma wp_wake o (Q : unit -> World -> Prop) w :
  Q tt (w <| w_woken ::= fun l => l ++ option_list o |>) -> wp (wake o) Q w.
Proof.
  destruct o; cbn; [done|]. unfold wp; cbn. rewrite app_nil_r. by destruct w.
Qed.

Lemma wp_self {A} (f : UdxStreamInner -> A) (Q : A -> StreamSt -> Prop) st :
  Q (f (inner st)) st -> wp (self f) Q st.
Proof. done. Qed.

Lemma wp_set_self f (Q : unit -> StreamSt -> Prop) st :
  Q tt (st <| inner ::= f |>) -> wp (set_self f) Q st.
Proof. done. Qed.

Lemma wp_instant_now (Q : Z -> World -> Prop) w :
  Q (w_clock w (w_ticks w)) (w <| w_ticks ::= Datatypes.S |>) -> wp instant_now Q w.
Proof. done. Qed.

Lemma wp_arc_load l p (Q : Packet -> World -> Prop) w :
  w_store w !! l = Some p -> Q p w -> wp (arc_load l) Q w.
Proof. intros Hl HQ. unfold wp, arc_load, gets, mbind, act_bind, lift, deref_loc. by rewrite Hl. Qed.

Lemma wp_ref_load r p (Q : Packet -> World -> Prop) w :
  deref (w_store w) r = Ret p -> Q p w -> wp (ref_load r) Q w.
Proof. intros Hl HQ. unfold wp, ref_load, gets, mbind, act_bind, lift. by rewrite Hl. Qed.

(** Loads leave the whole state as it is. *)
Lemma wp_load l p (Q : Packet -> StreamSt -> Prop) st :
  w_store (world st) !! l = Some p -> Q p st -> wp (on_world (arc_load l)) Q st.
Proof. intros Hl HQ. apply wp_on_world. eapply wp_arc_load; [done|]. by destruct st. Qed.

Lemma wp_load_ref r p (Q : Packet -> StreamSt -> Prop) st :
  deref (w_store (world st)) r = Ret p -> Q p st -> wp (on_world (ref_load r)) Q st.
Proof. intros Hl HQ. apply wp_on_world. eapply wp_ref_load; [done|]. by destruct st. Qed.

Lemma wp_world_gets {A} (f : World -> A) (Q : A -> StreamSt -> Prop) st :
  Q (f (world st)) st -> wp (on_world (gets f)) Q st.
Proof. intros HQ. apply wp_on_world, wp_gets. by destruct st. Qed.

Lemma wp_send_event ev (Q : bool -> World -> Prop) w :
  (w_tx_open w = true -> Q true (w <| w_tx ::= fun l => l ++ [ev] |>)) ->
  (w_tx_open w = false -> Q false w) -> wp (send_event ev) Q w.
Proof. intros H1 H2. unfold wp, send_event, gets, mbind, act_bind. destruct (w_tx_open w); cbn; auto. Qed.

End lemmas.

(** Runs the straight-line part of a stream method. *)
Ltac st_step :=
  lazymatch goal with
  | |- wp (self _) _ _ => apply wp_self
  | |- wp (set_self _) _ _ => apply wp_set_self
  | |- wp (on_world (wake _)) _ _ => apply wp_on_world, wp_wake
  | |- wp (on_world instant_now) _ _ => apply wp_on_world, wp_instant_now
  | |- wp (on_world (modify _)) _ _ => apply wp_on_world, wp_modify
  | |- wp (on_world (gets _)) _ _ => apply wp_world_gets
  | |- wp (lift (Ret _)) _ _ => eapply wp_lift; [reflexivity|]
  | _ => wp_step
  end.
Ltac st_run := repeat (st_step; cbv beta).

(** Unfolds the numeric constants, and discharges an arithmetic operation that
    stays in range. *)
Ltac consts :=
  unfold UDX_MTU, UDX_HEADER_SIZE, UDX_MAX_DATA_SIZE, UDX_MAX_TRANSMITS, SSTHRESH, U32_MAX,
    u32_modulus, usize_modulus in *.
Ltac fits :=
  eapply wp_lift;
  [ first [ apply usize_add_fits | apply usize_sub_fits | apply u32_add_fits | apply u32_sub_fits ];
    cbn; consts; lia | ].
