(* ===== verification/StreamCtrl.v ===== *)
(** Control operations of the stream: state packets, termination and waking,
    and how the invariant is carried over state changes that do not touch the
    tables. *)

From S2P Require Import Prelude Constants Errors UdpProto Packet Runtime Stream StreamInv.

Local Open Scope Z_scope.

Section ctrl.
Context `{Profile} {AI : AtomicInstant}.
Implicit Types (st : StreamSt) (sent : list (list byte)).

(** ** Monotonicity of the packet predicates *)

Lemma data_packet_mono sent sent' p p' :
  sent `prefix_of` sent' -> packet_ext p p' -> data_packet sent p -> data_packet sent' p'.
Proof.
  intros [k ->] (Eh & Eb & _) (Ht & body & Hb & Hlen & Hs).
  unfold data_packet. rewrite Eh, Eb. split; [done|]. exists body.
  split; [by apply lookup_app_l_Some|done].
Qed.

Lemma state_packet_mono p p' : packet_ext p p' -> state_packet p -> state_packet p'.
Proof. intros (Eh & Eb & _) [Ht Hs]. unfold state_packet. by rewrite Eh, Eb. Qed.

(** The fields of a stream that its packets refer to. *)
Definition same_peer (s s' : UdxStreamInner) : Prop :=
  s_remote_addr s' = s_remote_addr s /\ s_remote_id s' = s_remote_id s /\ s_ack s <= s_ack s'.

Lemma packet_ok_mono sent sent' s s' p p' :
  sent `prefix_of` sent' -> same_peer s s' -> packet_ext p p' ->
  packet_ok sent s p -> packet_ok sent' s' p'.
Proof.
  intros Hpre (Ha & Hi & Hack) He (Hd & Hw & Hid & Hpack & Hk).
  pose proof He as (Eh & Eb & Ed & Es).
  unfold packet_ok. rewrite Eh, Ed, Ha, Hi. split_and!; try done; [lia|].
  destruct Hk as [Hk|Hk]; [left|right].
  - by eapply data_packet_mono.
  - by eapply state_packet_mono.
Qed.

Lemma out_packet_ok_mono sent sent' s s' k p p' :
  sent `prefix_of` sent' -> same_peer s s' -> packet_ext p p' ->
  0 <= p_transmits p' <= UDX_MAX_TRANSMITS + 1 -> p_skip p' = p_skip p ->
  out_packet_ok sent s k p -> out_packet_ok sent' s' k p'.
Proof.
  intros Hpre Hs He Ht Hsk (Hok & Hd & Hk & _ & Hskip). unfold out_packet_ok. split_and!; try done; try lia.
  - by eapply packet_ok_mono.
  - by eapply data_packet_mono.
  - destruct He as (-> & _). done.
  - congruence.
Qed.

Lemma ref_ok_mono sent sent' st st' r :
  sent `prefix_of` sent' -> same_peer (inner st) (inner st') ->
  store_ext (w_store (world st)) (w_store (world st')) ->
  ref_ok sent st r -> ref_ok sent' st' r.
Proof.
  intros Hpre Hs He (p & Hd & Hok). destruct r as [q|l]; cbn in Hd; simplify_eq.
  - exists p. split; [done|]. by eapply packet_ok_mono.
  - unfold deref_loc in Hd. destruct (w_store (world st) !! l) as [q|] eqn:E; simplify_eq.
    destruct (He l p E) as (p' & E' & Hx). exists p'.
    split; [unfold deref, deref_loc; by rewrite E'|]. by eapply packet_ok_mono.
Qed.

Lemma queue_ok_mono sent sent' st st' q :
  sent `prefix_of` sent' -> same_peer (inner st) (inner st') ->
  store_ext (w_store (world st)) (w_store (world st')) ->
  Forall (ref_ok sent st) q -> Forall (ref_ok sent' st') q.
Proof. intros. eapply Forall_impl; [done|]. intros. by eapply ref_ok_mono. Qed.

(** ** Frame rules *)

(** The sending side survives any change that keeps the table, the store and
    the summary counters, and whose new queue is sound. *)
Lemma SendInv_frame sent st st' :
  s_seq (inner st') = s_seq (inner st) -> same_peer (inner st) (inner st') ->
  s_outgoing (inner st') = s_outgoing (inner st) ->
  s_inflight (inner st') = s_inflight (inner st) ->
  inflight_bytes (s_stats (inner st')) = inflight_bytes (s_stats (inner st)) ->
  inflight_packets (s_stats (inner st')) = inflight_packets (s_stats (inner st)) ->
  w_store (world st') = w_store (world st) ->
  Forall (ref_ok sent st') (s_send_queue (inner st')) ->
  SendInv sent st -> SendInv sent st'.
Proof.
  intros Eq Hp Eo Ei Eb Ek Ew Hq [].
  pose proof Hp as (Ea & Eid & Hack).
  split; rewrite ?Eq, ?Eo, ?Ei, ?Eb, ?Ek, ?Ew, ?Eid; try done.
  intros k l Hl. destruct (inv_out k l Hl) as (Hr & p & Hpl & Hok). split; [done|].
  exists p. split; [done|]. eapply out_packet_ok_mono; try done. apply Hok.
Qed.

Lemma RecvInv_frame (s s' : UdxStreamInner) :
  s_incoming s' = s_incoming s -> s_ack s' = s_ack s -> s_read_cursor s' = s_read_cursor s ->
  RecvInv s -> RecvInv s'.
Proof. intros E1 E2 E3 []. split; rewrite ?E1, ?E2, ?E3; done. Qed.

Lemma CtrlInv_frame st st' :
  s_remote_acked (inner st') = s_remote_acked (inner st) ->
  s_cwnd (inner st') = s_cwnd (inner st) ->
  s_srtt (inner st') = s_srtt (inner st) -> s_rttvar (inner st') = s_rttvar (inner st) ->
  s_rto (inner st') = s_rto (inner st) -> w_clock (world st') = w_clock (world st) ->
  w_max_gso_segments (world st') = w_max_gso_segments (world st) ->
  (local_closed (s_state (inner st')) = true <-> is_Some (s_error (inner st'))) ->
  CtrlInv st -> CtrlInv st'.
Proof.
  intros E1 E2 E3 E4 E5 E6 E7 Hc []. split; rewrite ?E1, ?E2, ?E3, ?E4, ?E5, ?E6, ?E7; done.
Qed.

(** A calm operation keeps the invariant when its new queue is sound and the
    close state matches the error. *)
Lemma calm_StreamInv sent st st' :
  calm st st' -> Forall (ref_ok sent st') (s_send_queue (inner st')) ->
  (local_closed (s_state (inner st')) = true <-> is_Some (s_error (inner st'))) ->
  StreamInv sent st -> StreamInv sent st'.
Proof.
  intros [] Hq Hc [Hs Hr Hk]. destruct calm_stats as [n En]. destruct calm_ext.
  destruct calm_rtt as (?&?&?&?).
  split.
  - eapply SendInv_frame; try done; try (by rewrite En); split_and!; done || lia.
  - by eapply RecvInv_frame.
  - by eapply CtrlInv_frame.
Qed.

(** The fields of a state that the invariant does not read may change freely. *)
Lemma StreamInv_frame sent st st' :
  same_peer (inner st) (inner st') -> s_seq (inner st') = s_seq (inner st) ->
  s_outgoing (inner st') = s_outgoing (inner st) ->
  s_send_queue (inner st') = s_send_queue (inner st) ->
  s_inflight (inner st') = s_inflight (inner st) ->
  inflight_bytes (s_stats (inner st')) = inflight_bytes (s_stats (inner st)) ->
  inflight_packets (s_stats (inner st')) = inflight_packets (s_stats (inner st)) ->
  w_store (world st') = w_store (world st) ->
  s_incoming (inner st') = s_incoming (inner st) -> s_ack (inner st') = s_ack (inner st) ->
  s_read_cursor (inner st') = s_read_cursor (inner st) -> CtrlInv st' ->
  StreamInv sent st -> StreamInv sent st'.
Proof.
  intros Hp E1 E2 E3 E4 E5 E6 E7 E8 E9 E10 HC HI.
  split; [|by eapply RecvInv_frame, HI|done].
  eapply SendInv_frame, HI; try done. rewrite E3. eapply queue_ok_mono, HI; try done. by rewrite E7.
Qed.

#[export] Instance calm_preorder : PreOrder calm.
Proof.
  split.
  - intros st. split; try done. exists (tx_packets (s_stats (inner st))).
    by destruct (s_stats (inner st)).
  - intros s1 s2 s3 [] []. split; try congruence.
    + by transitivity s2.
    + destruct_and!. split_and!; congruence.
    + destruct calm_stats as [n E1], calm_stats0 as [m E2]. exists m. by rewrite E2, E1.
Qed.

(** ** State packets *)

Lemma land_0_END : Z.land 0 UDX_HEADER_END = 0.
Proof. reflexivity. Qed.

Lemma state_header_typ (s : UdxStreamInner) :
  (local_closed (s_state s) = true <-> is_Some (s_error s)) ->
  h_typ (state_header s) = match s_error s with Some _ => UDX_HEADER_END | None => 0 end.
Proof.
  intros Hc. unfold state_header, create_header. cbn.
  destruct (local_closed (s_state s)), (s_error s); try done.
Qed.

Lemma state_header_wire sent st :
  StreamInv sent st -> wire_header (state_header (inner st)).
Proof.
  intros [Hs Hr Hk]. unfold wire_header.
  rewrite state_header_typ by apply Hk.
  pose proof (inv_remote_id _ _ Hs). pose proof (inv_seq_range _ _ Hs).
  pose proof (inv_seq _ _ Hs). pose proof (len_nonneg sent).
  pose proof (inv_cursor _ Hr). pose proof (inv_ack_range _ Hr). pose proof (RecvInv_ack _ Hr).
  unfold state_header. cbn. unfold U32_MAX, u32_modulus in *.
  destruct (s_error (inner st)); unfold UDX_HEADER_END; lia.
Qed.

(** What [send_state_packet] does: one owned packet with the current header
    goes to the back of the send queue and the driver is woken. *)
Lemma send_state_packet_wp sent st :
  StreamInv sent st -> tx_packets (s_stats (inner st)) + 1 < usize_modulus ->
  0 <= tx_packets (s_stats (inner st)) ->
  wp send_state_packet (fun _ st' =>
    StreamInv sent st' /\ calm st st' /\
    (exists p, s_send_queue (inner st') = s_send_queue (inner st) ++ [Owned p] /\
       p_header p = state_header (inner st) /\ state_packet p /\ p_skip p = false) /\
    tx_packets (s_stats (inner st')) = tx_packets (s_stats (inner st)) + 1 /\
    w_woken (world st') = w_woken (world st) ++ option_list (s_drive_waker (inner st)) /\
    s_drive_waker (inner st') = None /\
    s_read_waker (inner st') = s_read_waker (inner st) /\
    s_write_waker (inner st') = s_write_waker (inner st) /\
    s_state (inner st') = s_state (inner st) /\ s_error (inner st') = s_error (inner st)) st.
Proof.
  intros HI Hroom Hnn. unfold send_state_packet, wake_driver, add_tx_packet. st_run.
  destruct (Packet_new_Ret (s_remote_addr (inner st)) (state_header (inner st)) [])
    as (p & Ep & ? & ? & ? & ? & Hd & Hh & Hb); [done|].
  eapply wp_lift.
  { unfold create_packet. rewrite <- Ep. unfold state_header.
    by destruct (s_error (inner st)). }
  st_run. eapply wp_lift; [apply usize_add_fits; cbn; lia|]. st_run.
  rewrite app_nil_r in Hb.
  match goal with |- StreamInv _ ?st' /\ _ => assert (calm st st') as Hc end.
  { split; try done; cbn; by eexists. }
  assert (state_packet p) as Hsp.
  { split; [rewrite Hh, state_header_typ by apply HI|by rewrite Hh].
    destruct (s_error (inner st)); auto. }
  split; [|split; [done|]].
  - eapply calm_StreamInv; [done| |apply HI|done]. cbn.
    apply Forall_app. split; [eapply queue_ok_mono, HI; done|].
    constructor; [|done]. exists p. split; [done|]. unfold packet_ok.
    rewrite Hd, Hh. cbn. split_and!; try done; [|by right].
    eapply state_header_wire, HI.
  - split; [by exists p|]. done.
Qed.

Lemma local_closed_close_local s : local_closed (close_local s) = true.
Proof. by destruct s. Qed.

Lemma local_closed_close_remote s : local_closed (close_remote s) = local_closed s.
Proof. by destruct s. Qed.

(** ** Termination *)

(** The state right after [terminate] has recorded the error. *)
Lemma fail_StreamInv sent st e :
  StreamInv sent st ->
  StreamInv sent (st <| inner ::= fun s => s <| s_error := Some e |> |>
                     <| inner ::= fun s => s <| s_state ::= close_local |> |>).
Proof.
  intros HI.
  match goal with |- StreamInv _ ?st' => assert (calm st st') as Hc end.
  { split; try done. exists (tx_packets (s_stats (inner st))). cbn. by destruct (s_stats (inner st)). }
  eapply calm_StreamInv; [done| | |done]; cbn.
  - eapply queue_ok_mono, HI; done.
  - by rewrite local_closed_close_local.
Qed.

Lemma terminate_wp sent st e :
  StreamInv sent st -> tx_packets (s_stats (inner st)) + 1 < usize_modulus ->
  0 <= tx_packets (s_stats (inner st)) ->
  wp (terminate e) (fun _ st' =>
    StreamInv sent st' /\ calm st st' /\
    (exists p, s_send_queue (inner st') = s_send_queue (inner st) ++ [Owned p] /\
       h_typ (p_header p) = UDX_HEADER_END /\ state_packet p) /\
    tx_packets (s_stats (inner st')) = tx_packets (s_stats (inner st)) + 1 /\
    s_error (inner st') = Some e /\
    s_state (inner st') = close_local (s_state (inner st)) /\
    s_drive_waker (inner st') = None /\ s_read_waker (inner st') = None /\
    s_write_waker (inner st') = None /\
    w_woken (world st') = w_woken (world st) ++ option_list (s_drive_waker (inner st)) ++
      option_list (s_read_waker (inner st)) ++ option_list (s_write_waker (inner st))) st.
Proof.
  intros HI Hroom Hnn. unfold terminate. st_run.
  set (st1 := update_field inner _ (update_field inner _ st)).
  pose proof (fail_StreamInv sent st e HI) as HI1. fold st1 in HI1.
  eapply wp_mono; [apply (send_state_packet_wp sent st1); done|].
  intros [] st2 (HI2 & Hc2 & (p & Hq & Hh & Hsp & _) & Htx & Hwk & Hd & Hr & Hw & Hst & Her).
  unfold wake_driver. st_run.
  match goal with |- StreamInv _ ?st' /\ _ => assert (calm st2 st') as Hc3 end.
  { split; try done. exists (tx_packets (s_stats (inner st2))). cbn. by destruct (s_stats (inner st2)). }
  assert (calm st st2) as Hc.
  { transitivity st1; [|done]. split; try done.
    exists (tx_packets (s_stats (inner st))). cbn. by destruct (s_stats (inner st)). }
  split; [|split; [by transitivity st2|]].
  - eapply calm_StreamInv; [done|..|done]; [|apply HI2].
    eapply queue_ok_mono, HI2; done.
  - cbn. rewrite Hd, Hr, Hw, Hwk, Her, Hst. subst st1. cbn. rewrite app_nil_r, <- !app_assoc.
    split_and!; try done. exists p. split_and!; try done.
    rewrite Hh. rewrite state_header_typ by apply HI1. done.
Qed.

(** [Room] only depends on the counters. *)
Lemma Room_frame n b n' b' st st' :
  s_seq (inner st') + n' <= s_seq (inner st) + n ->
  s_read_cursor (inner st') + Z.of_nat (size (s_incoming (inner st'))) + n' <=
    s_read_cursor (inner st) + Z.of_nat (size (s_incoming (inner st))) + n ->
  s_cwnd (inner st') + UDX_MTU * n' <= s_cwnd (inner st) + UDX_MTU * n ->
  0 <= tx_packets (s_stats (inner st')) /\
    tx_packets (s_stats (inner st')) + 2 * n' <= tx_packets (s_stats (inner st)) + 2 * n ->
  0 <= tx_bytes (s_stats (inner st')) /\
    tx_bytes (s_stats (inner st')) + b' <= tx_bytes (s_stats (inner st)) + b ->
  0 <= rx_packets (s_stats (inner st')) /\
    rx_packets (s_stats (inner st')) + n' <= rx_packets (s_stats (inner st)) + n ->
  0 <= rx_bytes (s_stats (inner st')) /\
    rx_bytes (s_stats (inner st')) + b' <= rx_bytes (s_stats (inner st)) + b ->
  Room n b st -> Room n' b' st'.
Proof. intros ??? [??] [??] [??] [??] []. split; lia. Qed.

Lemma Room_weaken n b n' b' st : n' <= n -> b' <= b -> Room n b st -> Room n' b' st.
Proof. intros ? ? HR. pose proof HR as []. eapply Room_frame, HR; consts; lia. Qed.

End ctrl.
