(* ===== verification/StreamSend.v ===== *)
(** Sending: [send_data_packet] and [poll_write]. *)

From S2P Require Import Prelude Constants Errors UdpProto Packet Runtime Stream StreamInv StreamCtrl.

Local Open Scope Z_scope.

Section send.
Context `{Profile} {AI : AtomicInstant}.
Implicit Types (st : StreamSt) (sent : list (list byte)).

(** ** Bounds that the invariant gives *)

Lemma at_loc_lookup (s : list Packet) f l p : s !! l = Some p -> at_loc s f l = f p.
Proof. unfold at_loc. by intros ->. Qed.

Lemma at_loc_app (s : list Packet) f l p q :
  s !! l = Some p -> at_loc (s ++ [q]) f l = at_loc s f l.
Proof.
  intros Hl. rewrite (at_loc_lookup s f l p) by done. apply at_loc_lookup.
  by apply lookup_app_l_Some.
Qed.

Lemma data_packet_len sent p :
  data_packet sent p ->
  UDX_HEADER_SIZE < Packet_len p <= UDX_MTU /\
  Packet_data_len p = Packet_len p - UDX_HEADER_SIZE.
Proof.
  intros (_ & body & _ & Hlen & Hs).
  unfold Packet_data_len, Packet_len, PacketBuf_len, usize_saturating_sub.
  rewrite Hs, len_app, len_header_bytes.
  unfold UDX_HEADER_SIZE, UDX_MTU, UDX_MAX_DATA_SIZE in *. lia.
Qed.

Lemma flight_len_range sent p : data_packet sent p -> 0 <= flight_len p <= UDX_MTU.
Proof.
  intros [[? ?] _]%data_packet_len. unfold flight_len, UDX_HEADER_SIZE, UDX_MTU in *.
  destruct (p_waiting p); lia.
Qed.

Lemma outgoing_size sent st :
  SendInv sent st -> Z.of_nat (size (s_outgoing (inner st))) <= s_seq (inner st).
Proof.
  intros HS. apply (size_keys_le _ 0).
  - rewrite (inv_seq _ _ HS). apply len_nonneg.
  - intros k l Hl. by apply (inv_out _ _ HS) in Hl as [? _].
Qed.

Lemma out_sum_range sent st f :
  SendInv sent st -> (forall p, data_packet sent p -> 0 <= f p <= UDX_MTU) ->
  0 <= out_sum (w_store (world st)) f (s_outgoing (inner st)) <= UDX_MTU * U32_MAX.
Proof.
  intros HS Hf. pose proof (outgoing_size _ _ HS). pose proof (inv_seq_range _ _ HS).
  assert (0 <= out_sum (w_store (world st)) f (s_outgoing (inner st))
          <= UDX_MTU * Z.of_nat (size (s_outgoing (inner st)))); [|unfold UDX_MTU in *; lia].
  apply out_sum_bounds; [done|]. intros k l Hl.
  apply (inv_out _ _ HS) in Hl as (_ & p & Hp & Hok).
  rewrite (at_loc_lookup _ _ _ _ Hp). eapply Hf, Hok.
Qed.

(** The bytes in flight stay far below the range of [usize]. *)
Lemma inflight_range sent st :
  SendInv sent st -> 0 <= s_inflight (inner st) <= UDX_MTU * U32_MAX.
Proof.
  intros HS. rewrite (inv_inflight _ _ HS). apply (out_sum_range sent); [done|].
  apply flight_len_range.
Qed.

Lemma data_len_range sent p : data_packet sent p -> 0 <= Packet_data_len p <= UDX_MTU.
Proof.
  intros [[? ?] E]%data_packet_len. rewrite E. unfold UDX_HEADER_SIZE, UDX_MTU in *. lia.
Qed.

Lemma inflight_bytes_range sent st :
  SendInv sent st -> 0 <= inflight_bytes (s_stats (inner st)) <= UDX_MTU * U32_MAX.
Proof.
  intros HS. rewrite (inv_inflight_bytes _ _ HS). apply (out_sum_range sent); [done|].
  apply data_len_range.
Qed.

(** Every table entry is part of the sums. *)
Lemma out_sum_ge sent st f k l p :
  SendInv sent st -> (forall p, data_packet sent p -> 0 <= f p <= UDX_MTU) ->
  s_outgoing (inner st) !! k = Some l -> w_store (world st) !! l = Some p ->
  f p <= out_sum (w_store (world st)) f (s_outgoing (inner st)).
Proof.
  intros HS Hf Hk Hp. rewrite (out_sum_delete _ _ _ k l Hk), (at_loc_lookup _ _ _ _ Hp).
  assert (0 <= out_sum (w_store (world st)) f (delete k (s_outgoing (inner st)))) as Hnn; [|lia].
  apply (out_sum_bounds _ _ _ UDX_MTU); [done|]. intros k' l' [_ Hk']%lookup_delete_Some.
  apply (inv_out _ _ HS) in Hk' as (_ & q & Hq & Hok).
  rewrite (at_loc_lookup _ _ _ _ Hq). eapply Hf, Hok.
Qed.

Lemma inflight_ge sent st k l p :
  SendInv sent st -> s_outgoing (inner st) !! k = Some l -> w_store (world st) !! l = Some p ->
  flight_len p <= s_inflight (inner st).
Proof.
  intros HS. rewrite (inv_inflight _ _ HS). apply (out_sum_ge sent); [done|]. apply flight_len_range.
Qed.

Lemma inflight_bytes_ge sent st k l p :
  SendInv sent st -> s_outgoing (inner st) !! k = Some l -> w_store (world st) !! l = Some p ->
  Packet_data_len p <= inflight_bytes (s_stats (inner st)).
Proof.
  intros HS. rewrite (inv_inflight_bytes _ _ HS). apply (out_sum_ge sent); [done|].
  apply data_len_range.
Qed.

(** ** One data packet *)

(** What sending [k] packets with [b] payload bytes changes, and what not. *)
Record writes (k b : Z) (st st' : StreamSt) : Prop := {
  wr_ext : ext st st';
  wr_seq : s_seq (inner st') = s_seq (inner st) + k;
  wr_inflight : s_inflight (inner st') = s_inflight (inner st) + UDX_HEADER_SIZE * k + b;
  wr_tx_packets : tx_packets (s_stats (inner st')) = tx_packets (s_stats (inner st)) + k;
  wr_tx_bytes : tx_bytes (s_stats (inner st')) = tx_bytes (s_stats (inner st)) + b;
  wr_rx : rx_packets (s_stats (inner st')) = rx_packets (s_stats (inner st)) /\
    rx_bytes (s_stats (inner st')) = rx_bytes (s_stats (inner st));
  wr_cwnd : s_cwnd (inner st') = s_cwnd (inner st);
  wr_recv : s_incoming (inner st') = s_incoming (inner st) /\ s_ack (inner st') = s_ack (inner st) /\
    s_read_cursor (inner st') = s_read_cursor (inner st);
  wr_remote_acked : s_remote_acked (inner st') = s_remote_acked (inner st);
  wr_error : s_error (inner st') = s_error (inner st) /\ s_state (inner st') = s_state (inner st);
  wr_wakers : s_read_waker (inner st') = s_read_waker (inner st);
  wr_tx : w_tx (world st') = w_tx (world st);
  wr_store : exists l, w_store (world st') = w_store (world st) ++ l /\ length l = Z.to_nat k;
  wr_outgoing : s_outgoing (inner st) ⊆ s_outgoing (inner st') /\
    forall i, s_seq (inner st) <= i < s_seq (inner st') ->
      s_outgoing (inner st') !! i = Some (length (w_store (world st)) + Z.to_nat (i - s_seq (inner st)))%nat;
  wr_queue : s_send_queue (inner st') =
    s_send_queue (inner st) ++ map Shared (seq (length (w_store (world st))) (Z.to_nat k));
  wr_woken : (k = 0 /\ s_drive_waker (inner st') = s_drive_waker (inner st) /\
      w_woken (world st') = w_woken (world st)) \/
    (0 < k /\ s_drive_waker (inner st') = None /\
      w_woken (world st') = w_woken (world st) ++ option_list (s_drive_waker (inner st)));
  wr_new : forall k, is_Some (s_outgoing (inner st') !! k) ->
    is_Some (s_outgoing (inner st) !! k) \/ s_seq (inner st) <= k;
}.

Lemma writes_refl st : writes 0 0 st st.
Proof.
  split; try lia; try done.
  - exists []. by rewrite app_nil_r.
  - split; [done|]. intros. lia.
  - cbn. by rewrite app_nil_r.
  - by left.
  - auto.
Qed.

Lemma writes_nonneg k b st st' : writes k b st st' -> 0 <= k.
Proof. intros W. destruct (wr_woken _ _ _ _ W) as [[-> _]|[? _]]; lia. Qed.

Lemma writes_trans k b k' b' s1 s2 s3 :
  writes k b s1 s2 -> writes k' b' s2 s3 -> writes (k + k') (b + b') s1 s3.
Proof.
  intros W1 W2. pose proof (writes_nonneg _ _ _ _ W1) as Hk1. pose proof (writes_nonneg _ _ _ _ W2) as Hk2.
  destruct (wr_store _ _ _ _ W1) as (l1 & E1 & L1), (wr_store _ _ _ _ W2) as (l2 & E2 & L2).
  destruct (wr_outgoing _ _ _ _ W1) as [S1 N1], (wr_outgoing _ _ _ _ W2) as [S2 N2].
  pose proof (wr_queue _ _ _ _ W1) as Q1. pose proof (wr_queue _ _ _ _ W2) as Q2.
  pose proof (wr_woken _ _ _ _ W1) as K1. pose proof (wr_woken _ _ _ _ W2) as K2.
  destruct W1, W2. destruct_and!. split; try (split_and?; congruence); try lia.
  - by transitivity s2.
  - exists (l1 ++ l2). rewrite E2, E1, app_assoc, length_app. split; [done|lia].
  - split; [by transitivity (s_outgoing (inner s2))|]. intros i Hi.
    destruct (decide (i < s_seq (inner s2))) as [Hlt|Hge]; [eapply lookup_weaken, S2; apply N1; lia|].
    rewrite N2, E1, length_app by lia. f_equal. lia.
  - rewrite Q2, Q1, <- app_assoc, <- map_app, E1, length_app, L1, <- seq_app. do 3 f_equal. lia.
  - destruct K1 as [(-> & D1 & O1)|(? & D1 & O1)], K2 as [(-> & D2 & O2)|(? & D2 & O2)];
      rewrite D2, O2, ?O1, ?D1; [by left|right; split_and!; [lia|done..]|right; split_and!; [lia|done..]|right].
    cbn [option_list]. rewrite app_nil_r. split_and!; [lia|done..].
  - intros i Hi. pose proof (ext_seq _ _ wr_ext0).
    destruct (wr_new1 i Hi) as [[|]%wr_new0|]; [by left|by right|right; lia].
Qed.

Lemma writes_Room k b n m st st' :
  0 <= k -> 0 <= b -> writes k b st st' -> Room (n + k) (m + b) st -> Room n m st'.
Proof.
  intros Hk Hb W HR. destruct (wr_recv _ _ _ _ W) as (E1 & _ & E3).
  destruct W. destruct_and!. pose proof HR as [].
  eapply Room_frame, HR; try lia.
  - rewrite E1, E3. lia.
  - unfold UDX_MTU. lia.
Qed.

Lemma data_header_typ (s : UdxStreamInner) :
  local_closed (s_state s) = false -> h_typ (create_header s UDX_HEADER_DATA) = UDX_HEADER_DATA.
Proof. intros E. unfold create_header. by rewrite E. Qed.

Lemma ack_le_max (s : UdxStreamInner) : RecvInv s -> 0 <= s_ack s <= U32_MAX.
Proof.
  intros Hr. pose proof (RecvInv_ack _ Hr). pose proof (inv_cursor _ Hr).
  pose proof (inv_ack_range _ Hr). lia.
Qed.

Lemma data_header_wire sent st :
  StreamInv sent st -> s_error (inner st) = None ->
  wire_header (create_header (inner st) UDX_HEADER_DATA).
Proof.
  intros [HS HR HC] He. unfold wire_header.
  assert (local_closed (s_state (inner st)) = false) as Hl.
  { destruct (local_closed (s_state (inner st))) eqn:E; [|done].
    apply HC in E. rewrite He in E. by destruct E. }
  rewrite data_header_typ by done. cbn.
  pose proof (inv_remote_id _ _ HS). pose proof (inv_seq_range _ _ HS).
  pose proof (inv_seq _ _ HS). pose proof (len_nonneg sent). pose proof (ack_le_max _ HR).
  unfold UDX_HEADER_DATA, U32_MAX, u32_modulus in *. lia.
Qed.

Lemma store_ext_app (s : list Packet) p : store_ext s (s ++ [p]).
Proof. intros l q Hl. exists q. split; [by apply lookup_app_l_Some|done]. Qed.

Lemma outgoing_fresh sent st :
  SendInv sent st -> s_outgoing (inner st) !! s_seq (inner st) = None.
Proof.
  intros HS. destruct (_ !! _) as [l|] eqn:E; [|done].
  apply (inv_out _ _ HS) in E as [? _]. lia.
Qed.

(** Entering a new data packet [p] into the table and the queue. *)
Lemma push_SendInv sent body p st st' :
  SendInv sent st ->
  packet_ok (sent ++ [body]) (inner st') p -> data_packet (sent ++ [body]) p ->
  h_seq (p_header p) = s_seq (inner st) -> p_waiting p = false -> p_transmits p = 0 -> p_skip p = false ->
  s_seq (inner st') = s_seq (inner st) + 1 -> s_seq (inner st') <= U32_MAX ->
  same_peer (inner st) (inner st') ->
  w_store (world st') = w_store (world st) ++ [p] ->
  s_outgoing (inner st') = <[s_seq (inner st) := length (w_store (world st))]> (s_outgoing (inner st)) ->
  s_send_queue (inner st') = s_send_queue (inner st) ++ [Shared (length (w_store (world st)))] ->
  s_inflight (inner st') = s_inflight (inner st) + Packet_len p ->
  inflight_bytes (s_stats (inner st')) = inflight_bytes (s_stats (inner st)) + Packet_data_len p ->
  inflight_packets (s_stats (inner st')) = inflight_packets (s_stats (inner st)) + 1 ->
  SendInv (sent ++ [body]) st'.
Proof.
  intros HS Hok Hd Hseq Hw Ht Hsk Eseq Hmax Hp Est Eout Eq Ein Eb Ek.
  pose proof (outgoing_fresh _ _ HS) as Hfresh.
  assert (w_store (world st') !! length (w_store (world st)) = Some p) as Hlook
    by (rewrite Est; apply list_lookup_middle; done).
  assert (Hsum : forall f, out_sum (w_store (world st')) f (s_outgoing (inner st')) =
            f p + out_sum (w_store (world st)) f (s_outgoing (inner st))).
  { intros f. rewrite Eout, out_sum_insert by done. rewrite (at_loc_lookup _ _ _ _ Hlook).
    f_equal. apply out_sum_ext. intros k l (_ & q & Hq & _)%(inv_out _ _ HS).
    rewrite Est. by eapply at_loc_app. }
  split; try done.
  - rewrite Eseq, (inv_seq _ _ HS), len_app. done.
  - destruct Hp as (_ & -> & _). apply HS.
  - intros k l. rewrite Eout, lookup_insert_Some. intros [[<- <-]|[Hne Hl]].
    + split; [rewrite Eseq, (inv_seq _ _ HS); pose proof (len_nonneg sent); lia|].
      exists p. split; [done|]. split_and!; try done; (rewrite Ht; by unfold UDX_MAX_TRANSMITS).
    + destruct (inv_out _ _ HS k l Hl) as (Hr & q & Hq & Hqok). split; [lia|].
      exists q. rewrite Est. split; [by apply lookup_app_l_Some|].
      eapply (out_packet_ok_mono sent _ (inner st) _ k q);
        [by apply prefix_app_r|done|done|apply Hqok|done|done].
  - rewrite Eq. apply Forall_app. split.
    + eapply queue_ok_mono, HS; [by apply prefix_app_r|done|]. rewrite Est. apply store_ext_app.
    + constructor; [|done]. exists p. split; [|done]. unfold deref, deref_loc. by rewrite Hlook.
  - rewrite Ein, (inv_inflight _ _ HS), Hsum. unfold flight_len at 2. rewrite Hw. lia.
  - rewrite Eb, (inv_inflight_bytes _ _ HS), Hsum. lia.
  - rewrite Ek, (inv_inflight_packets _ _ HS), Eout, map_size_insert_None by done. lia.
Qed.

Lemma open_not_closed sent st :
  StreamInv sent st -> s_error (inner st) = None -> local_closed (s_state (inner st)) = false.
Proof.
  intros HI He. destruct (local_closed (s_state (inner st))) eqn:E; [|done].
  apply (inv_closed _ (inv_ctrl _ _ HI)) in E. rewrite He in E. by destruct E.
Qed.

(** The packet that [create_packet] builds for a payload [body]. *)
Lemma create_data_packet sent st body :
  StreamInv sent st -> s_error (inner st) = None -> 0 < len body <= UDX_MAX_DATA_SIZE ->
  exists p, create_packet (inner st) UDX_HEADER_DATA body = Ret p /\
    data_packet (sent ++ [body]) p /\ packet_ok (sent ++ [body]) (inner st) p /\
    h_seq (p_header p) = s_seq (inner st) /\
    p_waiting p = false /\ p_transmits p = 0 /\ p_skip p = false /\
    Packet_len p = UDX_HEADER_SIZE + len body /\ Packet_data_len p = len body.
Proof.
  intros HI He Hlen. pose proof (open_not_closed _ _ HI He) as Hlc.
  destruct (Packet_new_Ret (s_remote_addr (inner st))
    (create_header (inner st) UDX_HEADER_DATA) body)
    as (p & Ep & Hw & Hsk & Htr & Htm & Hd & Hh & Hb); [unfold UDX_MAX_DATA_SIZE in *; lia|].
  assert (Packet_len p = UDX_HEADER_SIZE + len body) as Hpl.
  { unfold Packet_len, PacketBuf_len. by rewrite Hb, len_app, len_header_bytes. }
  assert (data_packet (sent ++ [body]) p) as Hdp.
  { split; [rewrite Hh; by apply data_header_typ|]. exists body.
    rewrite Hb, Hh. split; [|done]. cbn. rewrite (inv_seq _ _ HI). unfold len.
    rewrite Nat2Z.id. by apply list_lookup_middle. }
  exists p. split; [done|]. pose proof (data_packet_len _ _ Hdp) as [_ Hdl].
  split_and!; try done; try (rewrite Hh; done); try lia.
  unfold packet_ok. rewrite Hd, Hh. split_and!; try done; [|by left].
  by eapply data_header_wire.
Qed.

(** [send_data_packet] either finds the window full and changes nothing, or
    queues the next [min(len, 1380)] bytes as one packet. *)
Lemma send_data_packet_wp sent st buf :
  let n := Z.min (len buf) UDX_MAX_DATA_SIZE in
  StreamInv sent st -> s_error (inner st) = None ->
  0 < len buf -> Room 1 n st ->
  wp (send_data_packet buf) (fun r st' =>
    (s_inflight (inner st) + n > s_cwnd (inner st) /\ r = 0 /\ st' = st) \/
    (s_inflight (inner st) + n <= s_cwnd (inner st) /\ r = n /\
     StreamInv (sent ++ [take (Z.to_nat n) buf]) st' /\ writes 1 n st st' /\
     s_send_queue (inner st') =
       s_send_queue (inner st) ++ [Shared (length (w_store (world st)))] /\
     s_write_waker (inner st') = s_write_waker (inner st) /\
     s_drive_waker (inner st') = None /\
     w_woken (world st') = w_woken (world st) ++ option_list (s_drive_waker (inner st)))) st.
Proof.
  intros n HI He Hbuf HR. unfold send_data_packet. fold n.
  assert (0 < n <= UDX_MAX_DATA_SIZE /\ n <= len buf) as Hn by (unfold n, UDX_MAX_DATA_SIZE; lia).
  clearbody n. pose proof (inflight_range _ _ (inv_send _ _ HI)).
  pose proof (inflight_bytes_range _ _ (inv_send _ _ HI)).
  pose proof (outgoing_size _ _ (inv_send _ _ HI)).
  pose proof (inv_inflight_packets _ _ HI) as Hpk.
  pose proof HR as []. pose proof (inv_seq_range _ _ HI). pose proof (inv_seq _ _ HI).
  pose proof (len_nonneg sent).
  unfold UDX_MAX_DATA_SIZE, UDX_MTU, U32_MAX, u32_modulus, usize_modulus in *.
  st_run. eapply wp_lift; [apply usize_add_fits; unfold usize_modulus; lia|]. st_run.
  { left. rewrite Z.gtb_ltb in E. b2p. split_and!; [lia|done|done]. }
  rewrite Z.gtb_ltb in E. b2p.
  eapply wp_lift; [apply slice_fits; lia|]. st_run. rewrite Z.sub_0_r.
  change (drop (Z.to_nat 0) buf) with buf. set (body := take (Z.to_nat n) buf).
  assert (len body = n) as Hbody by (unfold body; rewrite len_take; lia).
  destruct (create_data_packet sent st body HI He) as
    (p & Ep & Hdp & Hok & Hseq & Hw & Htr & Hsk & Hpl & Hdl); [unfold UDX_MAX_DATA_SIZE; lia|].
  rewrite Hbody in Hpl, Hdl. unfold UDX_HEADER_SIZE in *.
  eapply wp_lift; [exact Ep|]. apply wp_bind, wp_on_world. unfold arc_alloc, arc_new. wp_run.
  fits. st_run. do 4 (fits; st_run).
  eapply wp_lift; [apply usize_add_fits; unfold usize_modulus, Packet_len in *; lia|].
  unfold wake_driver. st_run. rewrite Hdl. right. split_and!; try done.
  - split; [|eapply RecvInv_frame, HI; done|eapply CtrlInv_frame, HI; try done; apply HI].
    eapply (push_SendInv sent body p st); try done; [apply HI|cbn..].
    + unfold Packet_seq. by rewrite Hseq.
    + lia.
  - split; try done; cbn.
    + split; try done; cbn; [apply store_ext_app|lia|..].
      * intros l q Hl _. by apply lookup_app_l_Some.
      * intros k l q Hl Hk. destruct (decide (k = Packet_seq p)) as [-> |Hne]; [|by rewrite lookup_insert_ne in Hk].
        rewrite lookup_insert_eq in Hk. injection Hk as <-. apply lookup_lt_Some in Hl. lia.
    + unfold Packet_len in *. unfold UDX_HEADER_SIZE. lia.
    + by eexists.
    + unfold Packet_seq. rewrite Hseq. split.
      * apply insert_subseteq. by eapply outgoing_fresh, HI.
      * intros k Hk. replace k with (s_seq (inner st)) by lia. rewrite lookup_insert_eq. f_equal. lia.
    + right. by split_and!; [lia|..].
    + unfold Packet_seq. rewrite Hseq. intros k Hk.
      destruct (decide (k = s_seq (inner st))); [right; lia|left]. by rewrite lookup_insert_ne in Hk.
Qed.

(** ** Writing *)

(** How a write is cut into payloads: 1380 bytes each, the rest in the last. *)
Fixpoint payloads_aux (fuel : nat) (buf : list byte) : list (list byte) :=
  match fuel, buf with
  | O, _ | _, [] => []
  | Datatypes.S fuel, _ =>
      take (Z.to_nat UDX_MAX_DATA_SIZE) buf :: payloads_aux fuel (drop (Z.to_nat UDX_MAX_DATA_SIZE) buf)
  end.
Definition payloads (buf : list byte) : list (list byte) := payloads_aux (length buf) buf.

Lemma payloads_aux_fuel f1 f2 buf :
  (length buf <= f1)%nat -> (length buf <= f2)%nat -> payloads_aux f1 buf = payloads_aux f2 buf.
Proof.
  revert f2 buf. induction f1 as [|f1 IH]; intros f2 buf H1 H2.
  - destruct buf; [by destruct f2|cbn in H1; lia].
  - destruct f2; [destruct buf; [done|cbn in H2; lia]|].
    destruct buf as [|b buf]; [done|]. cbn [payloads_aux]. f_equal.
    apply IH; rewrite length_drop; consts; cbn [length] in *; lia.
Qed.

Lemma payloads_cons buf :
  0 < len buf ->
  payloads buf = take (Z.to_nat UDX_MAX_DATA_SIZE) buf :: payloads (drop (Z.to_nat UDX_MAX_DATA_SIZE) buf).
Proof.
  intros Hlen. unfold payloads. destruct buf as [|b buf]; [done|].
  cbn [length payloads_aux]. f_equal. apply payloads_aux_fuel; [|done].
  rewrite length_drop; consts; cbn [length]; lia.
Qed.

Lemma concat_payloads buf : concat (payloads buf) = buf.
Proof.
  remember (length buf) as n eqn:En. revert buf En.
  induction n as [n IH] using lt_wf_ind. intros buf ->.
  destruct (decide (buf = [])) as [->|Hne]; [done|].
  rewrite payloads_cons by (destruct buf; [done|unfold len; cbn; lia]).
  cbn [concat]. rewrite (IH (length (drop (Z.to_nat UDX_MAX_DATA_SIZE) buf))); [|..|done].
  - apply take_drop.
  - rewrite length_drop. destruct buf; [done|]. consts. cbn [length]. lia.
Qed.

Lemma payloads_sizes buf :
  Forall (fun c => 0 < len c <= UDX_MAX_DATA_SIZE) (payloads buf).
Proof.
  remember (length buf) as n eqn:En. revert buf En.
  induction n as [n IH] using lt_wf_ind. intros buf ->.
  destruct (decide (buf = [])) as [->|Hne]; [by constructor|].
  assert (0 < len buf) by (destruct buf; [done|unfold len; cbn; lia]).
  rewrite payloads_cons by done. constructor.
  - rewrite len_take; consts; lia.
  - eapply IH; [|done]. rewrite length_drop. consts. unfold len in *. lia.
Qed.

(** No room in the congestion window for the next packet of [rest]. *)
Definition window_full (s : UdxStreamInner) (rest : list byte) : Prop :=
  s_inflight s + Z.min (len rest) UDX_MAX_DATA_SIZE > s_cwnd s.

(** The packets [chunks] that a write of [buf] put on the queue: the first
    payloads of [buf], all of them unless the window filled up. *)
Definition wrote (sent : list (list byte)) (st : StreamSt) (buf : list byte)
    (chunks : list (list byte)) (st' : StreamSt) : Prop :=
  (exists more, payloads buf = chunks ++ more /\ (more = [] \/ window_full (inner st') (concat more))) /\
  StreamInv (sent ++ chunks) st' /\ writes (len chunks) (len (concat chunks)) st st' /\
  (chunks = [] \/ s_inflight (inner st') <= s_cwnd (inner st') + UDX_HEADER_SIZE).

Lemma wrote_nil sent st buf :
  StreamInv sent st -> (buf = [] \/ window_full (inner st) buf) -> wrote sent st buf [] st.
Proof.
  intros HI Hb. split_and!.
  - exists (payloads buf). split; [done|]. rewrite concat_payloads.
    destruct Hb as [->|Hb]; [by left|by right].
  - by rewrite app_nil_r.
  - apply writes_refl.
  - by left.
Qed.

Lemma wrote_cons sent st buf c chunks st1 st' :
  0 < len buf -> c = take (Z.to_nat UDX_MAX_DATA_SIZE) buf -> writes 1 (len c) st st1 ->
  s_inflight (inner st1) <= s_cwnd (inner st1) + UDX_HEADER_SIZE ->
  wrote (sent ++ [c]) st1 (drop (Z.to_nat UDX_MAX_DATA_SIZE) buf) chunks st' ->
  wrote sent st buf (c :: chunks) st'.
Proof.
  intros Hlen -> W Hin ((more & E & Hm) & HI & W' & Hin'). split_and!.
  - exists more. split; [|done]. rewrite payloads_cons by done. by rewrite E.
  - by rewrite <- app_assoc in HI.
  - cbn [concat]. rewrite len_cons, len_app. by eapply writes_trans.
  - right. destruct Hin' as [->|]; [|done].
    rewrite (wr_inflight _ _ _ _ W'), (wr_cwnd _ _ _ _ W').
    change (len (concat [])) with 0. change (len []) with 0. lia.
Qed.

Lemma take_min_len {A} (l : list A) n :
  take (Z.to_nat (Z.min (len l) n)) l = take (Z.to_nat n) l.
Proof.
  destruct (decide (len l <= n)).
  - rewrite !take_ge by (unfold len in *; lia). done.
  - by rewrite Z.min_r by lia.
Qed.

Lemma write_loop_wp fuel cx buf written sent st :
  0 < len buf < 2 ^ 63 -> 0 <= written <= len buf -> len buf - written <= Z.of_nat fuel ->
  StreamInv sent st -> s_error (inner st) = None ->
  Room (len buf - written) (len buf - written) st ->
  wp (write_loop fuel cx buf written) (fun r st' =>
    (exists chunks, wrote sent st (drop (Z.to_nat written) buf) chunks st' /\
       r = Ready (written + len (concat chunks)) /\ 0 < written + len (concat chunks)) \/
    (written = 0 /\ r = Pending /\ window_full (inner st) buf /\
     st' = st <| inner ::= fun s => s <| s_write_waker := Some cx |> |>)) st.
Proof.
  revert written sent st. induction fuel as [|fuel IH];
    intros written sent st Hlen Hw Hf HI He HR; cbn [write_loop]; rewrite Z.geb_leb.
  all: destruct (len buf <=? written) eqn:Ew; b2p; [|try lia].
  1,2: apply wp_ret; left; exists []; change (len (concat [])) with 0; rewrite Z.add_0_r;
    split_and!; [|done|lia]; apply wrote_nil; [done|left; apply drop_ge; unfold len in *; lia].
  apply wp_bind. eapply wp_lift; [apply slice_fits; lia|].
  rewrite take_ge by (rewrite length_drop; unfold len in *; lia).
  set (rest := drop (Z.to_nat written) buf).
  assert (len rest = len buf - written) as Hr by (unfold rest; rewrite len_drop; lia).
  set (n := Z.min (len rest) UDX_MAX_DATA_SIZE).
  assert (0 < n <= len rest) as Hn by (unfold n; consts; lia).
  apply wp_bind. eapply wp_mono.
  { apply (send_data_packet_wp sent st rest); [done|done|lia|].
    eapply Room_weaken, HR; fold n; lia. }
  cbv beta. fold n.
  intros r st1 [(Hfull & -> & ->)|(Hfit & -> & HI1 & W1 & _ & Hww & _)].
  - cbn. destruct (written =? 0) eqn:E0; b2p.
    + st_run. right. subst written. split_and!; try done.
    + apply wp_ret. left. exists []. split; [by apply wrote_nil; [|right]|].
      change (len (concat [])) with 0. rewrite Z.add_0_r. split; [done|lia].
  - rewrite (proj2 (Z.eqb_neq n 0)) by lia. apply wp_bind. fits.
    assert (len (take (Z.to_nat n) rest) = n) as Htl by (rewrite len_take; lia).
    eapply wp_mono.
    { apply (IH (written + n) (sent ++ [take (Z.to_nat n) rest]) st1); try done; try lia.
      - by rewrite (proj1 (wr_error _ _ _ _ W1)).
      - eapply (writes_Room 1 n); [lia..|done|].
        eapply Room_weaken, HR; lia. }
    intros r st2 [(chunks & Hwr & -> & Hpos)|(? & _)]; [|lia].
    left. exists (take (Z.to_nat n) rest :: chunks). cbn [concat].
    rewrite len_app, Htl. split; [|split; [f_equal; lia|lia]].
    eapply wrote_cons; [lia|by apply take_min_len|by rewrite Htl| |].
    { rewrite (wr_inflight _ _ _ _ W1), (wr_cwnd _ _ _ _ W1). lia. }
    replace (drop (Z.to_nat UDX_MAX_DATA_SIZE) rest) with (drop (Z.to_nat (written + n)) buf); [done|].
    unfold rest. rewrite drop_drop. unfold n. 
    destruct (decide (len rest <= UDX_MAX_DATA_SIZE)).
    + rewrite !drop_ge by (unfold len in *; lia). done.
    + f_equal. lia.
Qed.

(** [poll_write] on an open stream. *)
Lemma poll_write_wp sent st cx buf :
  0 < len buf < 2 ^ 63 -> StreamInv sent st -> s_error (inner st) = None ->
  Room (len buf) (len buf) st ->
  wp (poll_write cx buf) (fun r st' =>
    (exists chunks, wrote sent st buf chunks st' /\
       r = Ready (Ok (len (concat chunks))) /\ 0 < len (concat chunks)) \/
    (r = Pending /\ window_full (inner st) buf /\
     st' = st <| inner ::= fun s => s <| s_write_waker := Some cx |> |>)) st.
Proof.
  intros Hlen HI He HR. unfold poll_write. st_run. rewrite He.
  rewrite (proj2 (Z.eqb_neq (len buf) 0)) by lia. st_run.
  eapply wp_mono.
  { apply (write_loop_wp (length buf) cx buf 0 sent st); try done; try (unfold len in *; lia).
    by rewrite Z.sub_0_r. }
  intros r st' [(chunks & Hw & -> & Hp)|(_ & -> & Hfull & ->)]; apply wp_ret; [left|right].
  - by exists chunks.
  - done.
Qed.

End send.
