(* ===== verification/StreamTimer.v ===== *)
(** Retransmission: [poll_check_timeouts] and [flush_waiting_packets]. *)

From Stdlib Require Import Sorted.
From S2P Require Import Prelude Constants Errors UdpProto Packet Runtime Stream StreamInv StreamCtrl.
From S2P Require Import StreamSend.

Local Open Scope Z_scope.

Section timer.
Context `{Profile} {AI : AtomicInstant}.
Implicit Types (st : StreamSt) (sent : list (list byte)).

(** ** Frames *)

(** What the retransmission and acknowledgement code never changes: the
    receiving side, the close state, the sequence counter and the traffic
    statistics. *)
Record keeps (st st' : StreamSt) : Prop := {
  kp_ext : ext st st';
  kp_incoming : s_incoming (inner st') = s_incoming (inner st);
  kp_ack : s_ack (inner st') = s_ack (inner st);
  kp_cursor : s_read_cursor (inner st') = s_read_cursor (inner st);
  kp_seq : s_seq (inner st') = s_seq (inner st);
  kp_error : s_error (inner st') = s_error (inner st);
  kp_state : s_state (inner st') = s_state (inner st);
  kp_read_waker : s_read_waker (inner st') = s_read_waker (inner st);
  kp_on_close : s_on_close (inner st') = s_on_close (inner st);
  kp_stats : exists a b, s_stats (inner st') =
    (s_stats (inner st)) <| inflight_bytes := a |> <| inflight_packets := b |>;
  kp_signals : w_signals (world st') = w_signals (world st);
}.

#[export] Instance keeps_preorder : PreOrder keeps.
Proof.
  split.
  - intros st. split; try done.
    exists (inflight_bytes (s_stats (inner st))), (inflight_packets (s_stats (inner st))).
    by destruct (s_stats (inner st)).
  - intros s1 s2 s3 K1 K2.
    destruct (kp_stats _ _ K1) as (a1 & b1 & E1), (kp_stats _ _ K2) as (a2 & b2 & E2).
    destruct K1, K2. split; try congruence; [by transitivity s2|].
    exists a2, b2. rewrite E2, E1. by destruct (s_stats (inner s1)).
Qed.

Lemma keeps_Room n b st st' :
  keeps st st' -> s_cwnd (inner st') <= s_cwnd (inner st) -> Room n b st -> Room n b st'.
Proof.
  intros K Hc HR. destruct (kp_stats _ _ K) as (a & c & E).
  pose proof (kp_seq _ _ K). pose proof HR as [].
  eapply Room_frame, HR; rewrite ?E, ?(kp_incoming _ _ K), ?(kp_cursor _ _ K); cbn; lia.
Qed.

(** ** Flag updates of packets in the table *)

Lemma store_ext_alter (s : list Packet) g l :
  (forall p, packet_ext p (g p)) -> store_ext s (alter g l s).
Proof.
  intros Hg l' p Hp. destruct (decide (l' = l)) as [->|Hne].
  - exists (g p). split; [by rewrite list_lookup_alter_eq, Hp|done].
  - exists p. split; [by rewrite list_lookup_alter_ne|done].
Qed.

(** It leaves the packets of other streams alone. *)
Lemma frame_alter (s : list Packet) (out : gmap Z loc) g k l :
  out !! k = Some l -> forall l' p, s !! l' = Some p -> (forall k, out !! k <> Some l') -> alter g l s !! l' = Some p.
Proof. intros Hk l' p Hp Hno. rewrite list_lookup_alter_ne; [done|]. intros <-. by apply (Hno k). Qed.

(** Table entries with different keys point to different packets. *)
Lemma outgoing_inj sent st k k' l :
  SendInv sent st -> s_outgoing (inner st) !! k = Some l -> s_outgoing (inner st) !! k' = Some l ->
  k = k'.
Proof.
  intros HS (_ & p & Hp & _ & _ & <- & _)%(inv_out _ _ HS)
    (_ & p' & Hp' & _ & _ & <- & _)%(inv_out _ _ HS). congruence.
Qed.

(** Updating the flags of the packet under key [k] by [g]. *)
Lemma alter_SendInv sent st st' k l p g :
  SendInv sent st -> s_outgoing (inner st) !! k = Some l -> w_store (world st) !! l = Some p ->
  (forall q, packet_ext q (g q)) -> p_skip (g p) = p_skip p -> 0 <= p_transmits (g p) <= UDX_MAX_TRANSMITS + 1 ->
  w_store (world st') = alter g l (w_store (world st)) ->
  s_outgoing (inner st') = s_outgoing (inner st) ->
  s_seq (inner st') = s_seq (inner st) -> same_peer (inner st) (inner st') ->
  Forall (ref_ok sent st') (s_send_queue (inner st')) ->
  s_inflight (inner st') = s_inflight (inner st) - flight_len p + flight_len (g p) ->
  s_stats (inner st') = s_stats (inner st) ->
  SendInv sent st'.
Proof.
  intros HS Hk Hl Hg Hsk Ht Est Eout Eseq Hp Hq Ein Estat.
  assert (Hlook : w_store (world st') !! l = Some (g p))
    by (by rewrite Est, list_lookup_alter_eq, Hl).
  assert (Hother : forall k' l', s_outgoing (inner st) !! k' = Some l' -> k' <> k ->
            w_store (world st') !! l' = w_store (world st) !! l').
  { intros k' l' Hk' Hne. rewrite Est. apply list_lookup_alter_ne. intros <-.
    by apply Hne, (outgoing_inj sent st k' k l). }
  assert (Hsum : forall f, out_sum (w_store (world st')) f (s_outgoing (inner st)) =
     f (g p) - f p + out_sum (w_store (world st)) f (s_outgoing (inner st))).
  { intros f. rewrite (out_sum_delete (w_store (world st')) f _ k l Hk),
      (out_sum_delete (w_store (world st)) f _ k l Hk).
    rewrite (at_loc_lookup _ f l _ Hlook), (at_loc_lookup _ f l _ Hl).
    rewrite (out_sum_ext (w_store (world st')) (w_store (world st)) f f); [lia|].
    intros k' l' [Hne Hk']%lookup_delete_Some. unfold at_loc. by rewrite (Hother k'). }
  assert (Packet_data_len (g p) = Packet_data_len p) as Edl
    by (destruct (Hg p) as (_ & E & _); unfold Packet_data_len; by rewrite E).
  destruct HS. split; rewrite ?Eseq, ?Eout, ?Estat; try done.
  - by destruct Hp as (_ & -> & _).
  - intros k' l' Hk'. destruct (inv_out k' l' Hk') as (Hr & q & Hql & Hqok). split; [done|].
    destruct (decide (k' = k)) as [->|Hne].
    + simplify_eq. exists (g p). split; [done|].
      by apply (out_packet_ok_mono sent sent (inner st) _ k p).
    + exists q. rewrite (Hother k') by done. split; [done|].
      eapply out_packet_ok_mono; try done. apply Hqok.
  - rewrite Ein, Hsum. lia.
  - rewrite Hsum, Edl. lia.
Qed.

(** ** The loss loop *)

(** What the loop does to a packet it considers lost. *)
Definition lost_mark (p : Packet) : Packet :=
  if p_waiting p then p
  else p <| p_transmits := p_transmits p + 1 |> <| p_waiting := true |>.

(** The state after the loop has handled the sequence numbers in [ra, i). *)
Record marked (ra i : Z) (st0 st : StreamSt) : Prop := {
  mk_keeps : keeps st0 st;
  mk_outgoing : s_outgoing (inner st) = s_outgoing (inner st0);
  mk_queue : s_send_queue (inner st) = s_send_queue (inner st0);
  mk_remote_acked : s_remote_acked (inner st) = s_remote_acked (inner st0);
  mk_cwnd : s_cwnd (inner st) = s_cwnd (inner st0);
  mk_timer : s_rto_timeout (inner st) = s_rto_timeout (inner st0);
  mk_tx : w_tx (world st) = w_tx (world st0);
  mk_woken : w_woken (world st) = w_woken (world st0);
  mk_store : forall k l p, s_outgoing (inner st0) !! k = Some l -> w_store (world st0) !! l = Some p ->
    w_store (world st) !! l = Some (if (ra <=? k) && (k <? i) then lost_mark p else p);
}.

Lemma marked_start ra st : marked ra ra st st.
Proof.
  split; try done. intros k l p _ ->.
  destruct ((ra <=? k) && (k <? ra)) eqn:E; [|done]. b2p. lia.
Qed.

(** Sequence numbers without an entry are skipped. *)
Lemma marked_skip ra i st0 st :
  marked ra i st0 st -> s_outgoing (inner st0) !! i = None -> marked ra (i + 1) st0 st.
Proof.
  intros [] Hi. split; try done. intros k l p Hk Hp.
  rewrite (mk_store0 k l p Hk Hp).
  assert (k <> i) by congruence.
  replace (k <? i + 1) with (k <? i); [done|].
  destruct (k <? i) eqn:E1, (k <? i + 1) eqn:E2; b2p; lia || done.
Qed.

(** A step that turns the packet of sequence number [i] into its [lost_mark]. *)
Lemma marked_step sent ra i l p st0 st st' :
  SendInv sent st0 -> ra <= i -> marked ra i st0 st -> s_outgoing (inner st0) !! i = Some l ->
  w_store (world st) !! l = Some p ->
  w_store (world st') !! l = Some (lost_mark p) ->
  (forall l', l' <> l -> w_store (world st') !! l' = w_store (world st) !! l') ->
  keeps st0 st' -> s_outgoing (inner st') = s_outgoing (inner st) ->
  s_send_queue (inner st') = s_send_queue (inner st) ->
  s_remote_acked (inner st') = s_remote_acked (inner st) ->
  s_cwnd (inner st') = s_cwnd (inner st) -> s_rto_timeout (inner st') = s_rto_timeout (inner st) ->
  w_tx (world st') = w_tx (world st) -> w_woken (world st') = w_woken (world st) ->
  marked ra (i + 1) st0 st'.
Proof.
  intros HS Hle M Hi Hp Hp' Hne K E1 E2 E3 E4 E5 E6 E7. destruct M.
  split; try congruence. intros k l0 q Hk Hq.
  pose proof (mk_store0 k l0 q Hk Hq) as Hst.
  destruct (decide (k = i)) as [->|Hki].
  - simplify_eq. rewrite Hp'. destruct (i <? i) eqn:Ei; b2p; [lia|].
    rewrite andb_false_r in Hp. simplify_eq.
    by rewrite (proj2 (Z.leb_le ra i)), (proj2 (Z.ltb_lt i (i + 1))) by lia.
  - rewrite Hne by (intros ->; by apply Hki, (outgoing_inj sent st0 k i l)).
    rewrite Hst. replace (k <? i + 1) with (k <? i); [done|].
    destruct (k <? i) eqn:Ea, (k <? i + 1) eqn:Eb; b2p; lia || done.
Qed.

Lemma mark_lost_wp sent ra i st0 st :
  SendInv sent st0 -> ra <= i -> StreamInv sent st -> marked ra i st0 st ->
  wp (mark_lost i) (fun r st' => StreamInv sent st' /\
    match r with
    | Continue => marked ra (i + 1) st0 st'
    | Break e => e = max_retransmits_error /\ marked ra i st0 st' /\
        exists l p, s_outgoing (inner st0) !! i = Some l /\ w_store (world st0) !! l = Some p /\
          p_waiting p = false /\ p_transmits p > UDX_MAX_TRANSMITS
    end) st.
Proof.
  intros HS0 Hle HI M. unfold mark_lost. st_run. rewrite (mk_outgoing _ _ _ _ M).
  destruct (s_outgoing (inner st0) !! i) as [l|] eqn:Hi.
  2:{ apply wp_ret. split; [done|]. by apply marked_skip. }
  assert (s_outgoing (inner st) !! i = Some l) as Hi' by by rewrite (mk_outgoing _ _ _ _ M).
  destruct (inv_out _ _ HI i l Hi') as (Hrng & p & Hp & Hok).
  destruct (inv_out _ _ HS0 i l Hi) as (_ & p0 & Hp0 & _).
  pose proof (mk_store _ _ _ _ M i l p0 Hi Hp0) as Est.
  destruct (i <? i) eqn:Eii; b2p; [lia|]. rewrite andb_false_r, Hp in Est. simplify_eq.
  apply wp_bind. eapply wp_load; [exact Hp|]. cbv beta.
  destruct (p_waiting p0) eqn:Ew.
  { apply wp_ret. split; [done|].
    assert (lost_mark p0 = p0) as El by (unfold lost_mark; by rewrite Ew).
    eapply marked_step; try done; [by rewrite El|]. apply M. }
  pose proof Hok as (_ & Hd & _ & Ht & _).
  pose proof (data_packet_len _ _ Hd). pose proof (inflight_range _ _ (inv_send _ _ HI)).
  rewrite Z.gtb_ltb. destruct (UDX_MAX_TRANSMITS <? p_transmits p0) eqn:Et; b2p.
  { apply wp_ret. split; [done|]. split_and!; [done|done|].
    exists l, p0. split_and!; try done. lia. }
  pose proof (inflight_ge _ _ i l p0 (inv_send _ _ HI) Hi' Hp) as Hge.
  unfold flight_len in Hge. rewrite Ew in Hge.
  st_run. fits. unfold arc_update. st_run. fits. st_run.
  set (g := fun p : Packet => p <| p_transmits := p_transmits p0 + 1 |> <| p_waiting := true |>).
  match goal with |- StreamInv _ ?s /\ _ => set (st' := s) end.
  assert (w_store (world st') = alter g l (w_store (world st))) as Est
    by apply list_alter_alter_eq.
  assert (forall q, packet_ext q (g q)) as Hg by by repeat split.
  assert (keeps st st') as K.
  { split; try done; [split; try done; rewrite Est; [by apply store_ext_alter|by eapply frame_alter]|].
    exists (inflight_bytes (s_stats (inner st))), (inflight_packets (s_stats (inner st))).
    cbn. by destruct (s_stats (inner st)). }
  assert (lost_mark p0 = g p0) as El by (unfold lost_mark; by rewrite Ew).
  split.
  - split; [|by eapply RecvInv_frame, HI|eapply CtrlInv_frame, HI; try done; apply HI].
    eapply (alter_SendInv sent st st' i l p0 g); try done; [apply HI|cbn; consts; lia|..].
    + eapply queue_ok_mono, HI; try done. apply K.
    + cbn. unfold flight_len. rewrite Ew. cbn. lia.
  - eapply (marked_step sent ra i l p0 st0 st st'); try done.
    + by rewrite Est, list_lookup_alter_eq, Hp, El.
    + intros l' Hne. rewrite Est. by apply list_lookup_alter_ne.
    + transitivity st; [apply M|done].
Qed.

(** ** The timer *)

(** The state after [reset_rto_timeout d]. *)
Definition rearmed (d : Z) (st : StreamSt) : StreamSt :=
  mk_StreamSt
    ((inner st) <| s_rto_timeout := w_clock (world st) (w_ticks (world st)) + d |>)
    ((world st) <| w_ticks ::= Datatypes.S |>).

Lemma reset_rto_timeout_wp (Q : unit -> StreamSt -> Prop) st d :
  CtrlInv st -> d <= 12 * CLOCK_BOUND -> Q tt (rearmed d st) -> wp (reset_rto_timeout d) Q st.
Proof.
  intros HC Hd HQ. unfold reset_rto_timeout. st_run.
  eapply wp_lift.
  - rewrite instant_checked_add_fits; [reflexivity|].
    pose proof (inv_clock _ HC (w_ticks (world st))).
    unfold CLOCK_BOUND, INSTANT_MAX in *. lia.
  - exact HQ.
Qed.

(** A change of the timer, the window or a waker keeps the invariant. *)
Lemma tweak_StreamInv sent st st' :
  SendInv sent st -> RecvInv (inner st) -> CtrlInv st' ->
  w_store (world st') = w_store (world st) ->
  s_outgoing (inner st') = s_outgoing (inner st) ->
  s_send_queue (inner st') = s_send_queue (inner st) ->
  s_inflight (inner st') = s_inflight (inner st) -> keeps st st' ->
  s_stats (inner st') = s_stats (inner st) -> StreamInv sent st'.
Proof.
  intros HS HR HC E1 E2 E3 E4 K E5. pose proof (kp_ext _ _ K) as []. destruct K.
  split; [|by eapply RecvInv_frame|done].
  assert (same_peer (inner st) (inner st')) by (by split_and!; [..|lia]).
  eapply SendInv_frame; try done; rewrite ?E5; try done.
  rewrite E3. eapply queue_ok_mono, HS; done.
Qed.

Lemma keeps_eq_stats st st' :
  ext st st' -> s_incoming (inner st') = s_incoming (inner st) ->
  s_ack (inner st') = s_ack (inner st) -> s_read_cursor (inner st') = s_read_cursor (inner st) ->
  s_seq (inner st') = s_seq (inner st) -> s_error (inner st') = s_error (inner st) ->
  s_state (inner st') = s_state (inner st) -> s_read_waker (inner st') = s_read_waker (inner st) ->
  s_on_close (inner st') = s_on_close (inner st) -> s_stats (inner st') = s_stats (inner st) ->
  w_signals (world st') = w_signals (world st) -> keeps st st'.
Proof.
  intros. split; try done. 
  exists (inflight_bytes (s_stats (inner st))), (inflight_packets (s_stats (inner st))).
  by destruct (s_stats (inner st)).
Qed.

(** The timer fires on outstanding data. *)
Definition fires (timer_ready : bool) (st : StreamSt) : Prop :=
  timer_ready = true /\ s_remote_acked (inner st) <> s_seq (inner st).

Lemma poll_check_timeouts_wp sent st timer_ready :
  StreamInv sent st ->
  wp (poll_check_timeouts timer_ready) (fun r st' =>
    StreamInv sent st' /\
    ((~ fires timer_ready st /\ r = Ok tt /\ st' = st) \/
     (fires timer_ready st /\
      exists st0 i,
        st0 = (rearmed (2 * s_rto (inner st)) st)
              <| inner ::= fun s => s <| s_cwnd ::= fun c => Z.max UDX_MTU (c / 2) |> |> /\
        keeps st st0 /\ marked (s_remote_acked (inner st)) i st0 st' /\
        ((r = Ok tt /\ s_seq (inner st) <= i) \/
         (r = Err max_retransmits_error /\
          exists l p, s_outgoing (inner st) !! i = Some l /\ w_store (world st) !! l = Some p /\
            p_waiting p = false /\ p_transmits p > UDX_MAX_TRANSMITS /\ s_remote_acked (inner st) <= i))))) st.
Proof.
  intros HI. unfold poll_check_timeouts. destruct timer_ready; cbn [negb].
  2:{ apply wp_ret. split; [done|]. left. split_and!; [intros [? _]; done|done|done]. }
  st_run; b2p.
  { split; [done|]. left. split_and!; [intros [_ ?]; lia|done|done]. }
  pose proof (inv_rto _ (inv_ctrl _ _ HI)) as Hrto.
  eapply wp_lift.
  { apply duration_checked_fits. unfold CLOCK_BOUND, DURATION_MAX, from_millis in *. lia. }
  apply wp_bind, reset_rto_timeout_wp; [apply HI|unfold CLOCK_BOUND, from_millis in *; lia|].
  st_run. set (st0 := update_field inner _ _).
  assert (keeps st st0) as K by (apply keeps_eq_stats; try done; split; try done; cbn; lia).
  assert (StreamInv sent st0) as HI0.
  { apply (tweak_StreamInv sent st st0); try done; [apply HI|apply HI|].
    destruct (inv_ctrl _ _ HI). split; try done. cbn. lia. }
  eapply (wp_for_range (fun i st => StreamInv sent st /\ s_remote_acked (inner st0) <= i /\
            marked (s_remote_acked (inner st0)) i st0 st)).
  - split_and!; [done|done|]. apply marked_start.
  - intros j s1 Hj (HI1 & Hle & M). eapply wp_mono; [apply (mark_lost_wp sent (s_remote_acked (inner st0)) j st0); try done; apply HI0|].
    intros [|e] s2 [HI2 Hr]; [split_and!; [done|lia|done]|].
    destruct Hr as (-> & M2 & Hlp). st_run. split; [done|]. right. split; [by split|].
    exists st0, j. split_and!; try done. right. destruct Hlp as (l & p & ? & ? & ? & ?). split; [done|].
    exists l, p. by split_and!.
  - intros s1 (HI1 & _ & M). st_run. split; [done|]. right. split; [by split|].
    eexists st0, _. split_and!; try done. left. split; [done|]. cbn. lia.
Qed.

(** ** Retransmission *)

Definition flush_mark (p : Packet) : Packet := p <| p_waiting := false |>.

(** The state after the packets with the sequence numbers [ks] have been taken
    out of waiting and put back on the queue. *)
Record flushed (ks : list Z) (st0 st : StreamSt) : Prop := {
  fl_keeps : keeps st0 st;
  fl_outgoing : s_outgoing (inner st) = s_outgoing (inner st0);
  fl_remote_acked : s_remote_acked (inner st) = s_remote_acked (inner st0);
  fl_cwnd : s_cwnd (inner st) = s_cwnd (inner st0);
  fl_stats : s_stats (inner st) = s_stats (inner st0);
  fl_tx : w_tx (world st) = w_tx (world st0);
  fl_woken : w_woken (world st) = w_woken (world st0);
  fl_queue : exists ls, s_send_queue (inner st) = s_send_queue (inner st0) ++ map Shared ls /\
    Forall2 (fun k l => s_outgoing (inner st0) !! k = Some l /\
               exists p, w_store (world st0) !! l = Some p /\ p_waiting p = true) ks ls;
  fl_store : forall k l p, s_outgoing (inner st0) !! k = Some l -> w_store (world st0) !! l = Some p ->
    w_store (world st) !! l = Some (if decide (k ∈ ks) then flush_mark p else p);
  fl_inflight : s_inflight (inner st) <= Z.max (s_inflight (inner st0)) (s_cwnd (inner st0));
}.

Lemma flushed_start st : flushed [] st st.
Proof.
  split; try done; [|lia]. exists []. by rewrite app_nil_r.
Qed.

(** The sequence numbers handled up to [i]: increasing, from [ra] on. *)
Definition scanned (ra i : Z) (st0 : StreamSt) (ks : list Z) : Prop :=
  StronglySorted Z.lt ks /\ Forall (fun k => ra <= k < i) ks /\
  forall k l p, ra <= k < i -> s_outgoing (inner st0) !! k = Some l ->
    w_store (world st0) !! l = Some p -> p_waiting p = true -> k ∈ ks.

Lemma sorted_snoc ks i : StronglySorted Z.lt ks -> Forall (fun k => k < i) ks ->
  StronglySorted Z.lt (ks ++ [i]).
Proof.
  intros Hs Hb. induction Hs as [|k ks Hs IH Hk]; cbn; [by repeat constructor|].
  inversion_clear Hb. constructor; [by apply IH|].
  apply Forall_app. split; [done|]. by repeat constructor.
Qed.

Lemma scanned_skip ra i st0 ks :
  scanned ra i st0 ks ->
  (forall l p, s_outgoing (inner st0) !! i = Some l -> w_store (world st0) !! l = Some p ->
     p_waiting p = false) ->
  scanned ra (i + 1) st0 ks.
Proof.
  intros (Hs & Hb & Hc) Hi. split_and!; [done|eapply Forall_impl; [done|]; cbn; lia|].
  intros k l p Hk Hl Hp Hw. destruct (decide (k = i)) as [->|]; [|eapply Hc; done || lia].
  by rewrite (Hi l p Hl Hp) in Hw.
Qed.

Lemma scanned_step ra i st0 ks :
  scanned ra i st0 ks -> ra <= i -> scanned ra (i + 1) st0 (ks ++ [i]).
Proof.
  intros (Hs & Hb & Hc) Hi. split_and!.
  - apply sorted_snoc; [done|]. eapply Forall_impl; [done|]; cbn; lia.
  - apply Forall_app. split; [eapply Forall_impl; [done|]; cbn; lia|].
    repeat constructor; lia.
  - intros k l p Hk Hl Hp Hw. rewrite elem_of_app, list_elem_of_singleton.
    destruct (decide (k = i)) as [->|]; [by right|left; eapply Hc; done || lia].
Qed.

(** The packet [p] of sequence number [k] waits but does not fit the window. *)
Definition no_window (st0 st : StreamSt) (k : Z) : Prop :=
  exists l p, s_outgoing (inner st0) !! k = Some l /\ w_store (world st0) !! l = Some p /\
    p_waiting p = true /\ s_inflight (inner st) + Packet_len p > s_cwnd (inner st).

(** The state after the packet [p] at [l] has gone back to the queue. *)
Definition requeued (l : loc) (p : Packet) (st : StreamSt) : StreamSt :=
  mk_StreamSt
    ((inner st) <| s_inflight := s_inflight (inner st) + Packet_len p |>
                <| s_send_queue ::= fun q => q ++ [Shared l] |>)
    ((world st) <| w_store ::= alter flush_mark l |>).

Lemma flush_mark_ext p : packet_ext p (flush_mark p).
Proof. by repeat split. Qed.

Lemma requeued_keeps i l p st : s_outgoing (inner st) !! i = Some l -> keeps st (requeued l p st).
Proof.
  intros Hi. apply keeps_eq_stats; try done. split; try done; cbn; [apply store_ext_alter, flush_mark_ext|].
  by eapply frame_alter.
Qed.

Lemma requeued_StreamInv sent i l p st :
  StreamInv sent st -> s_outgoing (inner st) !! i = Some l -> w_store (world st) !! l = Some p ->
  p_waiting p = true -> StreamInv sent (requeued l p st).
Proof.
  intros HI Hi Hp Ew. destruct (inv_out _ _ HI i l Hi) as (_ & p' & Hp' & Hok). simplify_eq.
  split; [|by eapply RecvInv_frame, HI|eapply CtrlInv_frame, HI; try done; apply HI].
  eapply (alter_SendInv sent st _ i l p flush_mark); try done; [apply HI|apply Hok|..].
  - cbn. apply Forall_app. split; [eapply queue_ok_mono, HI; try done; apply (requeued_keeps i l p st Hi)|].
    constructor; [|done]. exists (flush_mark p). split.
    + unfold deref, deref_loc. cbn. by rewrite list_lookup_alter_eq, Hp.
    + eapply packet_ok_mono, Hok; done.
  - unfold flight_len. rewrite Ew. change (Packet_len (flush_mark p)) with (Packet_len p). cbn. lia.
Qed.

Lemma requeued_flushed sent ks i l p st0 st :
  SendInv sent st0 -> flushed ks st0 st -> i ∉ ks -> s_outgoing (inner st0) !! i = Some l ->
  w_store (world st0) !! l = Some p -> w_store (world st) !! l = Some p -> p_waiting p = true ->
  s_inflight (inner st) + Packet_len p <= s_cwnd (inner st) -> flushed (ks ++ [i]) st0 (requeued l p st).
Proof.
  intros HS0 F Hni Hi Hp0 Hp Ew Hc.
  assert (s_outgoing (inner st) !! i = Some l) as Hi' by by rewrite (fl_outgoing _ _ _ F).
  destruct F as [? ? ? ? ? ? ? (ls & Eq & Hls) Hst Hin]. split; try done; cbn.
  - transitivity st; [done|by eapply requeued_keeps].
  - exists (ls ++ [l]). split; [by rewrite Eq, map_app, <- app_assoc|].
    apply Forall2_app; [done|]. repeat constructor; [done|]. by exists p.
  - intros k l' q Hk Hq. destruct (decide (k = i)) as [->|Hne].
    + simplify_eq. rewrite decide_True by (apply elem_of_app; right; by constructor).
      by rewrite list_lookup_alter_eq, Hp.
    + rewrite list_lookup_alter_ne by (intros <-; by apply Hne, (outgoing_inj sent st0 k i l)).
      rewrite (Hst k l' q Hk Hq). f_equal.
      destruct (decide (k ∈ ks)), (decide (k ∈ ks ++ [i])) as [Hin'|Hin']; try done;
        rewrite elem_of_app, list_elem_of_singleton in Hin'; tauto.
  - lia.
Qed.

Lemma flush_one_wp sent ra i ks st0 st :
  SendInv sent st0 -> ra <= i -> StreamInv sent st -> flushed ks st0 st -> scanned ra i st0 ks ->
  wp (flush_one i) (fun r st' => StreamInv sent st' /\
    match r with
    | Continue => exists ks', flushed ks' st0 st' /\ scanned ra (i + 1) st0 ks'
    | Break _ => flushed ks st0 st' /\ no_window st0 st' i
    end) st.
Proof.
  intros HS0 Hle HI F Hsc. unfold flush_one. st_run. rewrite (fl_outgoing _ _ _ F).
  destruct (s_outgoing (inner st0) !! i) as [l|] eqn:Hi.
  2:{ apply wp_ret. split; [done|]. exists ks. split; [done|].
      apply scanned_skip; [done|]. congruence. }
  assert (s_outgoing (inner st) !! i = Some l) as Hi' by by rewrite (fl_outgoing _ _ _ F).
  destruct (inv_out _ _ HI i l Hi') as (_ & p & Hp & _ & Hd & _).
  destruct (inv_out _ _ HS0 i l Hi) as (_ & p0 & Hp0 & _).
  assert (i ∉ ks) as Hni.
  { intros Hin. destruct Hsc as (_ & Hb & _). rewrite Forall_forall in Hb. apply Hb in Hin. lia. }
  pose proof (fl_store _ _ _ F i l p0 Hi Hp0) as Est. rewrite decide_False, Hp in Est by done. simplify_eq.
  apply wp_bind. eapply wp_load; [exact Hp|]. cbv beta.
  destruct (p_waiting p0) eqn:Ew; cbn [negb].
  2:{ apply wp_ret. split; [done|]. exists ks. split; [done|]. apply scanned_skip; [done|].
      intros l' p' ? ?. congruence. }
  pose proof (data_packet_len _ _ Hd). pose proof (inflight_range _ _ (inv_send _ _ HI)).
  st_run. fits. rewrite Z.gtb_ltb.
  destruct (s_cwnd (inner st) <? s_inflight (inner st) + Packet_len p0) eqn:Ec; b2p.
  { apply wp_ret. split; [done|]. split; [done|]. exists l, p0. split_and!; try done. lia. }
  unfold arc_update. st_run. change (StreamInv sent (requeued l p0 st) /\
    exists ks', flushed ks' st0 (requeued l p0 st) /\ scanned ra (i + 1) st0 ks').
  split; [by eapply (requeued_StreamInv sent i)|].
  exists (ks ++ [i]). split; [by eapply (requeued_flushed sent)|by apply scanned_step].
Qed.

(** [flush_waiting_packets] puts the waiting packets back on the queue, lowest
    sequence number first, until the next one would exceed the window. *)
Lemma flush_waiting_packets_wp sent st :
  StreamInv sent st ->
  wp flush_waiting_packets (fun _ st' => StreamInv sent st' /\
    exists ks i, flushed ks st st' /\ scanned (s_remote_acked (inner st)) i st ks /\
      (s_seq (inner st) <= i \/ no_window st st' i)) st.
Proof.
  intros HI. unfold flush_waiting_packets. st_run.
  eapply (wp_for_range (fun i st' => StreamInv sent st' /\ s_remote_acked (inner st) <= i /\
            exists ks, flushed ks st st' /\ scanned (s_remote_acked (inner st)) i st ks)).
  - split_and!; [done|done|]. exists []. split; [apply flushed_start|].
    split_and!; [constructor|constructor|lia].
  - intros j s1 Hj (HI1 & Hle & ks & F & Hsc). eapply wp_mono.
    { apply (flush_one_wp sent (s_remote_acked (inner st)) j ks st); try done; apply HI. }
    intros [|[]] s2 [HI2 Hr]; [by split_and!; [|lia|]|].
    st_run. split; [done|]. exists ks, j. by split_and!; [apply Hr|..|right; apply Hr].
  - intros s1 (HI1 & Hle & ks & F & Hsc). st_run. split; [done|].
    eexists ks, _. split_and!; [done|done|]. left. lia.
Qed.

End timer.
