(* ===== verification/StreamAck.v ===== *)
(** Acknowledgements: the round-trip estimator, cumulative acknowledgements and
    selective acknowledgements. *)

From S2P Require Import Prelude Constants Errors UdpProto Packet Runtime Stream StreamInv StreamCtrl.
From S2P Require Import StreamSend StreamTimer.

Local Open Scope Z_scope.

Section ack.
Context `{Profile} {AI : AtomicInstant} {AIL : AtomicInstantLaws AI}.
Implicit Types (st : StreamSt) (sent : list (list byte)).

(** ** The round-trip estimator (RFC 6298) *)

Definition smoothed_rtt (srtt rtt : Z) : Z := if srtt =? 0 then rtt else (7 * srtt + rtt) / 8.
Definition rtt_variance (srtt rttvar rtt : Z) : Z :=
  if srtt =? 0 then rtt / 2 else (3 * rttvar + Z.abs (srtt - rtt)) / 4.
Definition rto_for (srtt rttvar : Z) : Z :=
  Z.max (from_millis 1000) (srtt + Z.max UDX_CLOCK_GRANULARITY_MS (4 * rttvar)).

(** The stream after the sample [rtt]. *)
Definition rtt_sampled (rtt : Z) (s : UdxStreamInner) : UdxStreamInner :=
  let v := rtt_variance (s_srtt s) (s_rttvar s) rtt in
  let r := smoothed_rtt (s_srtt s) rtt in
  s <| s_srtt := r |> <| s_rttvar := v |> <| s_rto := rto_for r v |>.

Lemma smoothed_rtt_range srtt rtt b :
  0 <= srtt <= b -> 0 <= rtt <= b -> 0 <= smoothed_rtt srtt rtt <= b.
Proof.
  intros. unfold smoothed_rtt. destruct (srtt =? 0); [done|].
  pose proof (Z.div_mod (7 * srtt + rtt) 8 ltac:(lia)).
  pose proof (Z.mod_pos_bound (7 * srtt + rtt) 8 ltac:(lia)). lia.
Qed.

Lemma rtt_variance_range srtt rttvar rtt b :
  0 <= srtt <= b -> 0 <= rttvar <= b -> 0 <= rtt <= b -> 0 <= rtt_variance srtt rttvar rtt <= b.
Proof.
  intros. unfold rtt_variance. destruct (srtt =? 0).
  - pose proof (Z.div_mod rtt 2 ltac:(lia)). pose proof (Z.mod_pos_bound rtt 2 ltac:(lia)). lia.
  - set (x := 3 * rttvar + Z.abs (srtt - rtt)).
    pose proof (Z.div_mod x 4 ltac:(lia)). pose proof (Z.mod_pos_bound x 4 ltac:(lia)). lia.
Qed.

Lemma rto_for_range srtt rttvar :
  0 <= srtt <= CLOCK_BOUND -> 0 <= rttvar <= CLOCK_BOUND ->
  from_millis 1000 <= rto_for srtt rttvar <= 6 * CLOCK_BOUND.
Proof.
  intros. unfold rto_for, from_millis, UDX_CLOCK_GRANULARITY_MS, from_millis, CLOCK_BOUND in *. lia.
Qed.

Ltac dur :=
  eapply wp_lift;
  [ first [ apply duration_checked_fits;
            unfold UDX_CLOCK_GRANULARITY_MS, from_millis, CLOCK_BOUND, DURATION_MAX in *; lia
          | reflexivity ] | ].

Lemma update_rtt_wp (Q : unit -> StreamSt -> Prop) st rtt :
  CtrlInv st -> 0 <= rtt <= CLOCK_BOUND ->
  Q tt (st <| inner ::= rtt_sampled rtt |>) -> wp (update_rtt rtt) Q st.
Proof.
  intros HC Hr HQ. pose proof (inv_srtt _ HC) as Hs. pose proof (inv_rttvar _ HC) as Hv.
  pose proof (smoothed_rtt_range _ _ _ Hs Hr) as Hs'.
  pose proof (rtt_variance_range _ _ _ _ Hs Hv Hr) as Hv'.
  unfold update_rtt. apply wp_bind, wp_self, wp_bind, wp_self.
  assert (0 <= rto_for (smoothed_rtt (s_srtt (inner st)) rtt)
    (rtt_variance (s_srtt (inner st)) (s_rttvar (inner st)) rtt)) by (unfold rto_for; lia).
  apply wp_bind. eapply (wp_mono _ (fun _ st' => st' = st <| inner ::= fun s =>
     s <| s_srtt := smoothed_rtt (s_srtt s) rtt |>
       <| s_rttvar := rtt_variance (s_srtt s) (s_rttvar s) rtt |>
       <| s_rto := s_rto (inner st') |> |>)).
  - unfold smoothed_rtt, rtt_variance in *.
    destruct (s_srtt (inner st) =? 0) eqn:E; [st_run|apply wp_bind]; b2p.
    + dur. st_run. dur. st_run. dur. st_run. cbn.
      rewrite E. by destruct st as [[] ?].
    + apply wp_mono with (Q := fun d st' => d = Z.abs (s_srtt (inner st) - rtt) /\ st' = st).
      { destruct (rtt <? s_srtt (inner st)) eqn:El; b2p; dur; split; try done; lia. }
      intros d s1 [-> ->]. do 3 (st_run; dur). do 3 (st_run; dur). st_run. cbn.
      rewrite (proj2 (Z.eqb_neq _ _)) by done. by destruct st as [[] ?].
  - intros [] st1 E1.
    assert (s_srtt (inner st1) = smoothed_rtt (s_srtt (inner st)) rtt) as Es by by rewrite E1.
    assert (s_rttvar (inner st1) = rtt_variance (s_srtt (inner st)) (s_rttvar (inner st)) rtt)
      as Ev by by rewrite E1.
    st_run. rewrite Es, Ev. dur. st_run. dur. st_run.
    replace (update_field inner _ _) with (update_field inner (rtt_sampled rtt) st); [done|].
    rewrite E1. by destruct st as [[] ?].
Qed.

(** ** Removing packets from the table *)

(** The state after the packets whose sequence numbers satisfy [gone] have been
    acknowledged. *)
Record acked (gone : Z -> bool) (st0 st : StreamSt) : Prop := {
  ac_keeps : keeps st0 st;
  ac_outgoing : forall k, s_outgoing (inner st) !! k =
    if gone k then None else s_outgoing (inner st0) !! k;
  ac_queue : s_send_queue (inner st) = s_send_queue (inner st0);
  ac_cwnd : s_cwnd (inner st) = s_cwnd (inner st0);
  ac_rto_timeout : s_rto_timeout (inner st) = s_rto_timeout (inner st0);
  ac_write_waker : s_write_waker (inner st) = s_write_waker (inner st0);
  ac_drive_waker : s_drive_waker (inner st) = s_drive_waker (inner st0);
  ac_tx : w_tx (world st) = w_tx (world st0);
  ac_woken : w_woken (world st) = w_woken (world st0);
  ac_store : forall k l p, s_outgoing (inner st0) !! k = Some l -> w_store (world st0) !! l = Some p ->
    w_store (world st) !! l = Some (if gone k then p <| p_skip := true |> else p);
  ac_inflight : s_inflight (inner st) <= s_inflight (inner st0);
  ac_rtt : (forall k l p, gone k = true -> s_outgoing (inner st0) !! k = Some l ->
      w_store (world st0) !! l = Some p -> p_transmits p <> 1) ->
    s_srtt (inner st) = s_srtt (inner st0) /\ s_rttvar (inner st) = s_rttvar (inner st0) /\
    s_rto (inner st) = s_rto (inner st0);
}.

Lemma acked_start st : acked (fun _ => false) st st.
Proof. by split. Qed.

(** Only the values of [gone] matter, and only where the table has entries. *)
Lemma acked_gone gone gone' st0 st :
  (forall k, is_Some (s_outgoing (inner st0) !! k) -> gone k = gone' k) ->
  acked gone st0 st -> acked gone' st0 st.
Proof.
  intros Hg []. split; try done.
  - intros k. rewrite ac_outgoing0. destruct (s_outgoing (inner st0) !! k) eqn:E.
    + by rewrite Hg by by rewrite E.
    + by destruct (gone k), (gone' k).
  - intros k l p Hk. rewrite <- Hg by by rewrite Hk. eauto.
  - intros Hr. apply ac_rtt0. intros k l p Hgk Hk. eapply Hr; [|done].
    by rewrite <- Hg by by rewrite Hk.
Qed.

(** Dropping the table entry [k], whose packet [p] is flagged as skipped. *)
Lemma remove_SendInv sent st st' k l p :
  SendInv sent st -> s_outgoing (inner st) !! k = Some l -> w_store (world st) !! l = Some p ->
  w_store (world st') = alter (fun p => p <| p_skip := true |>) l (w_store (world st)) ->
  s_outgoing (inner st') = delete k (s_outgoing (inner st)) ->
  s_seq (inner st') = s_seq (inner st) -> same_peer (inner st) (inner st') ->
  s_send_queue (inner st') = s_send_queue (inner st) ->
  s_inflight (inner st') = s_inflight (inner st) - flight_len p ->
  inflight_bytes (s_stats (inner st')) = inflight_bytes (s_stats (inner st)) - Packet_data_len p ->
  inflight_packets (s_stats (inner st')) = inflight_packets (s_stats (inner st)) - 1 ->
  SendInv sent st'.
Proof.
  intros HS Hk Hl Est Eout Eseq Hp Eq Ein Eb Ek.
  assert (store_ext (w_store (world st)) (w_store (world st'))) as Hext
    by (rewrite Est; apply store_ext_alter; by repeat split).
  assert (Hother : forall k' l', delete k (s_outgoing (inner st)) !! k' = Some l' ->
            w_store (world st') !! l' = w_store (world st) !! l').
  { intros k' l' [Hne Hk']%lookup_delete_Some. rewrite Est. apply list_lookup_alter_ne. intros <-.
    by apply Hne, (outgoing_inj sent st k k' l). }
  assert (Hsum : forall f, out_sum (w_store (world st')) f (s_outgoing (inner st')) =
     out_sum (w_store (world st)) f (s_outgoing (inner st)) - f p).
  { intros f. rewrite Eout, (out_sum_delete (w_store (world st)) f _ k l Hk).
    rewrite (at_loc_lookup _ f l _ Hl).
    rewrite (out_sum_ext (w_store (world st')) (w_store (world st)) f f); [lia|].
    intros k' l' Hk'. unfold at_loc. by rewrite (Hother k'). }
  split; rewrite ?Eseq, ?Eq.
  - apply HS.
  - apply HS.
  - destruct Hp as (_ & -> & _). apply HS.
  - intros k' l' Hk'. rewrite Eout in Hk'. rewrite (Hother k' l' Hk').
    apply lookup_delete_Some in Hk' as [_ Hk'].
    destruct (inv_out _ _ HS k' l' Hk') as (Hr & q & Hq & Hqok). split; [done|].
    exists q. split; [done|]. eapply out_packet_ok_mono; try done. apply Hqok.
  - eapply queue_ok_mono, HS; done.
  - rewrite Ein, Hsum, (inv_inflight _ _ HS). done.
  - rewrite Eb, Hsum, (inv_inflight_bytes _ _ HS). done.
  - rewrite Ek, (inv_inflight_packets _ _ HS), Eout, map_size_delete_Some by (by rewrite Hk).
    assert (size (s_outgoing (inner st)) <> 0%nat); [|lia].
    intros E%map_size_empty_inv. by rewrite E in Hk.
Qed.

Lemma acked_step sent gone st0 st st' k l p :
  SendInv sent st0 -> acked gone st0 st -> keeps st st' ->
  s_outgoing (inner st) !! k = Some l -> w_store (world st) !! l = Some p ->
  w_store (world st') = alter (fun p => p <| p_skip := true |>) l (w_store (world st)) ->
  s_outgoing (inner st') = delete k (s_outgoing (inner st)) ->
  s_send_queue (inner st') = s_send_queue (inner st) -> s_cwnd (inner st') = s_cwnd (inner st) ->
  s_rto_timeout (inner st') = s_rto_timeout (inner st) ->
  s_write_waker (inner st') = s_write_waker (inner st) ->
  s_drive_waker (inner st') = s_drive_waker (inner st) ->
  w_tx (world st') = w_tx (world st) -> w_woken (world st') = w_woken (world st) ->
  s_inflight (inner st') <= s_inflight (inner st) ->
  (p_transmits p <> 1 -> s_srtt (inner st') = s_srtt (inner st) /\
     s_rttvar (inner st') = s_rttvar (inner st) /\ s_rto (inner st') = s_rto (inner st)) ->
  acked (fun j => (j =? k) || gone j) st0 st'.
Proof.
  intros HS0 A K Hk Hl Est Eout Eq Ec Er Ew Ed Et Ewk Hin Hrtt.
  assert (gone k = false /\ s_outgoing (inner st0) !! k = Some l) as [Hgk Hk0].
  { pose proof (ac_outgoing _ _ _ A k) as E. rewrite Hk in E. by destruct (gone k). }
  assert (w_store (world st0) !! l = Some p) as Hl0.
  { destruct (inv_out _ _ HS0 k l Hk0) as (_ & q & Hq & _).
    pose proof (ac_store _ _ _ A k l q Hk0 Hq) as E. rewrite Hgk in E. congruence. }
  destruct A. split; try congruence; try lia.
  - by transitivity st.
  - intros j. rewrite Eout. destruct (Z.eqb_spec j k) as [->|Hne]; cbn.
    + apply lookup_delete_eq.
    + rewrite lookup_delete_ne by done. apply ac_outgoing0.
  - intros j l' q Hj Hq. rewrite Est. destruct (Z.eqb_spec j k) as [->|Hne]; cbn.
    + simplify_eq. by rewrite list_lookup_alter_eq, Hl.
    + rewrite list_lookup_alter_ne; [by apply ac_store0|].
      intros <-. by apply Hne, (outgoing_inj sent st0 j k l).
  - intros Hr. destruct Hrtt as (-> & -> & ->).
    + apply (Hr k l p); [by rewrite Z.eqb_refl|done|done].
    + apply ac_rtt0. intros j l' q Hj. apply Hr. by rewrite Hj, orb_true_r.
Qed.

(** The counters after the packet [p] has been acknowledged. *)
Definition ack_accounted (p : Packet) (s : UdxStreamInner) : UdxStreamInner :=
  s <| s_inflight ::= fun n => n - flight_len p |>
    <| s_stats ::= fun t => t <| inflight_bytes ::= fun n => n - Packet_data_len p |>
                              <| inflight_packets ::= fun n => n - 1 |> |>.

(** [handle_remote_ack_for_packet]: the counters, a round-trip sample only for
    packets with exactly one counted transmission, the skip flag. *)
Lemma handle_remote_ack_for_packet_wp (Q : unit -> StreamSt -> Prop) l p st :
  w_store (world st) !! l = Some p -> CtrlInv st -> 0 <= PacketBuf_len (p_buf p) ->
  flight_len p <= s_inflight (inner st) < usize_modulus ->
  0 <= Packet_data_len p <= inflight_bytes (s_stats (inner st)) ->
  inflight_bytes (s_stats (inner st)) < usize_modulus ->
  1 <= inflight_packets (s_stats (inner st)) < usize_modulus ->
  (forall s' n, (w_ticks (world st) <= n)%nat ->
     s' = ack_accounted p (inner st) \/
     (p_transmits p = 1 /\ exists rtt, 0 <= rtt <= CLOCK_BOUND /\
        s' = rtt_sampled rtt (ack_accounted p (inner st))) ->
     Q tt (mk_StreamSt s' ((world st) <| w_ticks := n |>
             <| w_store ::= alter (fun p => p <| p_skip := true |>) l |>))) ->
  wp (handle_remote_ack_for_packet l) Q st.
Proof.
  intros Hp HC Hnn Hfl Hdl Hib Hip HQ. unfold handle_remote_ack_for_packet.
  apply wp_bind. eapply wp_load; [exact Hp|]. apply wp_bind.
  apply wp_mono with (Q := fun _ st' => st' = st <| inner ::= fun s =>
    s <| s_inflight ::= fun n => n - flight_len p |> |>).
  { unfold flight_len, Packet_len in *. destruct (p_waiting p); cbn [negb].
    - apply wp_ret. destruct st as [[] ?]; cbn. by rewrite Z.sub_0_r.
    - st_run. fits. by st_run. }
  intros [] st2 ->. apply wp_bind, wp_self. st_run. fits. st_run. fits. st_run; b2p.
  - cbn. pose proof (inv_clock _ HC (w_ticks (world st))) as Hclk.
    destruct (ai_is_empty (p_time_sent p)) eqn:Ee; [done|].
    pose proof (ai_elapsed_range (p_time_sent p) (w_clock (world st) (w_ticks (world st))) Ee).
    eapply update_rtt_wp; [by eapply CtrlInv_frame, HC; try done; apply HC|cbn; lia|].
    unfold arc_update. st_run. apply HQ; [cbn; lia|]. right. split; [done|]. eexists. split; [|done]. cbn; lia.
  - unfold arc_update. st_run.
    replace (update_field world _ _) with
      (mk_StreamSt (ack_accounted p (inner st)) ((world st) <| w_ticks := w_ticks (world st) |>
         <| w_store ::= alter (fun p => p <| p_skip := true |>) l |>)); [apply HQ; [done|by left]|].
    by destruct st as [[] []].
Qed.

Lemma CtrlInv_sampled st st' rtt :
  CtrlInv st -> 0 <= rtt <= CLOCK_BOUND -> inner st' = rtt_sampled rtt (inner st) ->
  w_clock (world st') = w_clock (world st) ->
  w_max_gso_segments (world st') = w_max_gso_segments (world st) -> CtrlInv st'.
Proof.
  intros [] Hr E Ec Eg. split; rewrite ?E, ?Ec, ?Eg; try done; cbn.
  - by apply smoothed_rtt_range.
  - by apply rtt_variance_range.
  - by apply rto_for_range; [apply smoothed_rtt_range|apply rtt_variance_range].
Qed.

(** Removing the entry of one sequence number and accounting for its packet. *)
Lemma ack_one_wp sent gone k st0 st :
  SendInv sent st0 -> StreamInv sent st -> acked gone st0 st ->
  wp (remove_outgoing k) (fun o => wp (match o with
      | Some l => handle_remote_ack_for_packet l
      | None => mret tt
      end) (fun _ st' => StreamInv sent st' /\ acked (fun j => (j =? k) || gone j) st0 st' /\
             s_remote_acked (inner st') = s_remote_acked (inner st))) st.
Proof.
  intros HS0 HI A. unfold remove_outgoing. st_run.
  destruct (s_outgoing (inner st) !! k) as [l|] eqn:Hk.
  2:{ apply wp_ret. replace (update_field inner _ st) with st.
      2:{ destruct st as [[] ?]. cbn in *. by rewrite delete_id. }
      split_and!; [done| |done]. pose proof (ac_outgoing _ _ _ A k) as Ek. rewrite Hk in Ek.
      revert A. apply acked_gone. intros j [l Hj].
      destruct (Z.eqb_spec j k) as [->|]; [|done]. destruct (gone k); [done|congruence]. }
  destruct (inv_out _ _ HI k l Hk) as (Hrng & p & Hp & Hok).
  pose proof (inv_send _ _ HI) as HS. pose proof Hok as (_ & Hd & _ & Ht).
  pose proof (data_packet_len _ _ Hd) as [Hpl _]. pose proof (flight_len_range _ _ Hd).
  pose proof (data_len_range _ _ Hd). pose proof (inflight_ge _ _ k l p HS Hk Hp).
  pose proof (inflight_bytes_ge _ _ k l p HS Hk Hp). pose proof (inflight_range _ _ HS).
  pose proof (inflight_bytes_range _ _ HS). pose proof (inv_inflight_packets _ _ HI).
  pose proof (outgoing_size _ _ HS). pose proof (inv_seq_range _ _ HI).
  assert (size (s_outgoing (inner st)) <> 0%nat).
  { intros E%map_size_empty_inv. by rewrite E in Hk. }
  set (st1 := update_field inner _ st).
  assert (CtrlInv st1) as HC1 by (eapply CtrlInv_frame, HI; try done; apply HI).
  apply (handle_remote_ack_for_packet_wp _ l p); try done;
    try (cbn; unfold Packet_len in *; consts; lia).
  intros s' n Hn Hs'.
  match goal with |- StreamInv _ ?s /\ _ => set (st' := s) end.
  assert (CtrlInv st') as HC'.
  { assert (CtrlInv (mk_StreamSt (ack_accounted p (inner st1)) (world st))) as HC
      by (eapply CtrlInv_frame, HC1; try done; apply HC1).
    destruct Hs' as [->|(_ & rtt & Hr & ->)]; [by eapply CtrlInv_frame, HC; try done; apply HC|].
    eapply CtrlInv_sampled; [exact HC|exact Hr|done..]. }
  assert (keeps st st') as K.
  { assert (store_ext (w_store (world st)) (w_store (world st')))
      by (apply store_ext_alter; by repeat split).
    assert (forall x l' q, w_store (world st) !! l' = Some q -> delete k (s_outgoing (inner st)) !! x = Some l' ->
      s_outgoing (inner st) !! x = Some l') by (by intros x l' q _ [_ ?]%lookup_delete_Some).
    destruct Hs' as [->|(_ & rtt & Hr & ->)].
    all: split; try done; [split; try done; by eapply frame_alter|by eexists _, _]. }
  split_and!.
  - split; [|eapply RecvInv_frame, HI; apply K|done].
    destruct Hs' as [->|(_ & rtt & Hr & ->)]; by eapply (remove_SendInv sent st st' k l p).
  - destruct Hs' as [->|(? & rtt & Hr & ->)];
      (eapply (acked_step sent gone st0 st st' k l p); try done; cbn; lia || done).
  - by destruct Hs' as [->|(? & rtt & Hr & ->)].
Qed.

(** ** Cumulative acknowledgement *)

Lemma bump_acked sent gone st0 st ra :
  StreamInv sent st -> acked gone st0 st -> s_remote_acked (inner st) <= ra <= U32_MAX ->
  let st' := st <| inner ::= fun s => s <| s_remote_acked := ra |> |> in
  StreamInv sent st' /\ acked gone st0 st'.
Proof.
  intros HI A Hra st'.
  assert (keeps st st') as K by (apply keeps_eq_stats; try done; split; try done; cbn; lia).
  split.
  - eapply (tweak_StreamInv sent st); try done; [apply HI|apply HI|].
    destruct (inv_ctrl _ _ HI). split; try done. cbn. lia.
  - destruct A. split; try done. by transitivity st.
Qed.

Lemma advance_remote_acked_wp sent gone st0 st :
  SendInv sent st0 -> StreamInv sent st -> acked gone st0 st ->
  s_remote_acked (inner st) < U32_MAX ->
  wp advance_remote_acked (fun _ st' => StreamInv sent st' /\
    acked (fun j => (j =? s_remote_acked (inner st)) || gone j) st0 st' /\
    s_remote_acked (inner st') = s_remote_acked (inner st) + 1) st.
Proof.
  intros HS0 HI A Hmax. pose proof (inv_remote_acked _ (inv_ctrl _ _ HI)).
  unfold advance_remote_acked. st_run. fits. st_run. fits. st_run.
  destruct (bump_acked sent gone st0 st (s_remote_acked (inner st) + 1) HI A) as [HI1 A1];
    [lia|].
  eapply wp_mono; [apply (ack_one_wp sent gone _ st0); done|]. intros o st1 Hwp.
  eapply wp_mono; [exact Hwp|]. intros [] st2 (HI2 & A2 & E2). split; [done|]. split; [|done].
  revert A2. apply acked_gone. intros k _. cbn beta. f_equal. f_equal. lia.
Qed.

(** The writer is woken when a whole packet fits the window. *)
Definition wake_writer (st : StreamSt) : StreamSt :=
  if s_inflight (inner st) + UDX_MTU <=? s_cwnd (inner st) then
    mk_StreamSt ((inner st) <| s_write_waker := None |>)
      ((world st) <| w_woken ::= fun l => l ++ option_list (s_write_waker (inner st)) |>)
  else st.

Lemma wake_writer_keeps st : keeps st (wake_writer st).
Proof.
  unfold wake_writer. destruct (_ <=? _); [|done]. by apply keeps_eq_stats.
Qed.

Lemma rearmed_keeps d st : keeps st (rearmed d (wake_writer st)).
Proof.
  unfold wake_writer. destruct (_ <=? _); (apply keeps_eq_stats; try done; split; try done; cbn; lia).
Qed.

Lemma wake_writer_StreamInv sent st d :
  StreamInv sent st -> StreamInv sent (rearmed d (wake_writer st)).
Proof.
  intros HI. pose proof (rearmed_keeps d st) as K. unfold wake_writer in *. destruct (_ <=? _).
  all: eapply (tweak_StreamInv sent st); try done; [apply HI|apply HI|];
    eapply CtrlInv_frame, HI; try done; apply HI.
Qed.

(** A cumulative acknowledgement up to [ack] removes exactly the packets below
    it, and re-arms the timer. *)
Lemma handle_incoming_max_remote_ack_wp sent ack st :
  StreamInv sent st -> ack <= U32_MAX ->
  wp (handle_incoming_max_remote_ack ack) (fun _ st' => StreamInv sent st' /\
    ((ack <= s_remote_acked (inner st) /\ st' = st) \/
     (s_remote_acked (inner st) < ack /\ exists st1,
        acked (fun k => (s_remote_acked (inner st) <=? k) && (k <? ack)) st st1 /\
        StreamInv sent st1 /\ s_remote_acked (inner st1) = ack /\
        st' = rearmed (s_rto (inner st1)) (wake_writer st1)))) st.
Proof.
  intros HI Hack. unfold handle_incoming_max_remote_ack. st_run; b2p; [by auto|].
  eapply (wp_while (fun st1 => StreamInv sent st1 /\ s_remote_acked (inner st1) <= ack /\
      acked (fun k => (s_remote_acked (inner st) <=? k) && (k <? s_remote_acked (inner st1))) st st1)
    (fun st1 => Z.to_nat (ack - s_remote_acked (inner st1)))); [|done|..].
  - split_and!; [done|lia|]. eapply acked_gone, acked_start. intros k _. cbn.
    destruct (_ && _) eqn:E1; b2p; lia || done.
  - intros s1 (HI1 & Hle & A1) Hc. b2p. split; [lia|].
    eapply wp_mono.
    { eapply advance_remote_acked_wp; [apply HI|done|exact A1|lia]. }
    intros [] s2 (HI2 & A2 & E2). rewrite E2. split; [|lia]. split_and!; [done|lia|].
    pose proof (ext_remote_acked _ _ (kp_ext _ _ (ac_keeps _ _ _ A1))).
    revert A2. apply acked_gone. intros k _.
    destruct (Z.eqb_spec k (s_remote_acked (inner s1))), (Z.leb_spec (s_remote_acked (inner st)) k),
      (Z.ltb_spec k (s_remote_acked (inner s1))), (Z.ltb_spec k (s_remote_acked (inner s1) + 1));
      done || lia.
  - intros s1 (HI1 & Hle & A1) Hc. b2p.
    assert (s_remote_acked (inner s1) = ack) as Ea by lia. rewrite Ea in A1.
    pose proof (inflight_range _ _ (inv_send _ _ HI1)). st_run. fits.
    apply wp_bind. apply wp_mono with (Q := fun _ st' => st' = wake_writer s1).
    { unfold wake_writer. st_run; [done|]. done. }
    intros [] s2 ->. st_run.
    assert (s_rto (inner (wake_writer s1)) = s_rto (inner s1)) as Er
      by (unfold wake_writer; by destruct (_ <=? _)).
    rewrite Er. pose proof (inv_rto _ (inv_ctrl _ _ HI1)).
    apply reset_rto_timeout_wp; [|unfold CLOCK_BOUND in *; lia|].
    + pose proof (wake_writer_StreamInv sent s1 0 HI1) as [_ _ HC].
      by eapply CtrlInv_frame, HC; try done; apply HC.
    + split; [by apply wake_writer_StreamInv|]. right. split; [lia|]. by exists s1.
Qed.

(** ** Selective acknowledgement *)

(** The ranges that the loop reads: pairs of little-endian words, as long as at
    least one byte follows the pair. *)
Fixpoint sack_ranges (buf : list byte) : list (Z * Z) :=
  match buf with
  | a :: b :: c :: d :: e :: f :: g :: h :: ((_ :: _) as rest) =>
      (u32_from_le_bytes a b c d, u32_from_le_bytes e f g h) :: sack_ranges rest
  | _ => []
  end.

Definition in_range (k : Z) (r : Z * Z) : bool := (fst r <=? k) && (k <? snd r).
Definition sacked (buf : list byte) (k : Z) : bool := existsb (in_range k) (sack_ranges buf).

Lemma sack_ranges_step buf :
  8 < len buf ->
  exists a b c d e f g h rest, buf = a :: b :: c :: d :: e :: f :: g :: h :: rest /\ 0 < len rest /\
    sack_ranges buf = (u32_from_le_bytes a b c d, u32_from_le_bytes e f g h) :: sack_ranges rest.
Proof.
  intros Hlen. do 9 (destruct buf as [|? buf]; [unfold len in Hlen; cbn in Hlen; lia|]).
  eexists _, _, _, _, _, _, _, _, _. split; [done|]. split; [unfold len; cbn; lia|done].
Qed.

Lemma sack_ranges_stop buf : len buf <= 8 -> sack_ranges buf = [].
Proof.
  intros Hlen. do 9 (destruct buf as [|? buf]; [done|]). unfold len in Hlen. cbn in Hlen. lia.
Qed.

Lemma read_u32_at_drop buf i n a b c d rest :
  0 <= i -> n = i + 4 -> drop (Z.to_nat i) buf = a :: b :: c :: d :: rest ->
  read_u32_at buf i n = Ret (u32_from_le_bytes a b c d).
Proof.
  intros Hi -> E. unfold read_u32_at.
  assert (i + 4 <= len buf).
  { pose proof (f_equal length E) as El. rewrite length_drop in El. unfold len. cbn in El. lia. }
  rewrite slice_fits by lia. rewrite E, Z.add_simpl_l. done.
Qed.

Lemma sack_range_wp sent gone start stop st0 st :
  SendInv sent st0 -> StreamInv sent st -> acked gone st0 st ->
  wp (for_range start stop sack_one) (fun _ st' => StreamInv sent st' /\
    acked (fun k => in_range k (start, stop) || gone k) st0 st' /\
    s_remote_acked (inner st') = s_remote_acked (inner st)) st.
Proof.
  intros HS0 HI A.
  eapply (wp_for_range (fun i st' => StreamInv sent st' /\
    acked (fun k => in_range k (start, i) || gone k) st0 st' /\
    s_remote_acked (inner st') = s_remote_acked (inner st) /\ start <= i)).
  - split_and!; try done. revert A. apply acked_gone. intros k _. unfold in_range. cbn.
    by destruct (Z.leb_spec start k), (Z.ltb_spec k start); try lia.
  - intros j s1 Hj (HI1 & A1 & E1 & Hle). unfold sack_one. apply wp_bind.
    eapply wp_mono; [eapply ack_one_wp; [apply HS0|done|exact A1]|]. intros o s2 Hwp.
    apply wp_bind. eapply wp_mono; [exact Hwp|]. intros [] s3 (HI3 & A3 & E3). apply wp_ret.
    split_and!; [done| |by rewrite E3|lia]. revert A3. apply acked_gone. intros k _.
    unfold in_range. cbn. rewrite orb_assoc. f_equal.
    destruct (Z.eqb_spec k j), (Z.leb_spec start k), (Z.ltb_spec k j), (Z.ltb_spec k (j + 1));
      done || lia.
  - intros s1 (HI1 & A1 & E1 & _). split_and!; try done. revert A1. apply acked_gone.
    intros k _. unfold in_range. cbn. f_equal.
    destruct (Z.leb_spec start k), (Z.ltb_spec k (Z.max start stop)), (Z.ltb_spec k stop);
      done || lia.
Qed.

Lemma sack_loop_wp sent fuel buf i gone st0 st :
  SendInv sent st0 -> StreamInv sent st -> acked gone st0 st ->
  0 <= i <= len buf -> len buf < 2 ^ 63 -> len buf - i <= Z.of_nat fuel ->
  wp (sack_loop fuel buf i) (fun _ st' => StreamInv sent st' /\
    acked (fun k => sacked (drop (Z.to_nat i) buf) k || gone k) st0 st' /\
    s_remote_acked (inner st') = s_remote_acked (inner st)) st.
Proof.
  revert i gone st. induction fuel as [|fuel IH]; intros i gone st HS0 HI A Hi Hlen Hf;
    cbn [sack_loop]; apply wp_bind; fits; destruct (i + 8 <? len buf) eqn:E; b2p;
    cbn [negb]; try lia.
  1,3: apply wp_ret; split_and!; [done| |done]; unfold sacked;
    rewrite sack_ranges_stop by (rewrite len_drop; lia); revert A; by apply acked_gone.
  destruct (sack_ranges_step (drop (Z.to_nat i) buf)) as
    (a & b & c & d & e & f & g & h & rest & Eb & Hrest & Er); [rewrite len_drop; lia|].
  assert (drop (Z.to_nat (i + 4)) buf = e :: f :: g :: h :: rest) as E4.
  { replace (Z.to_nat (i + 4)) with (Z.to_nat i + 4)%nat by lia. by rewrite <- drop_drop, Eb. }
  assert (drop (Z.to_nat (i + 4 + 4)) buf = rest) as E8.
  { replace (Z.to_nat (i + 4 + 4)) with (Z.to_nat i + 8)%nat by lia. by rewrite <- drop_drop, Eb. }
  st_run. fits. st_run. eapply wp_lift; [eapply read_u32_at_drop; [lia|done|exact Eb]|].
  st_run. fits. st_run. eapply wp_lift; [eapply read_u32_at_drop; [lia|done|exact E4]|].
  st_run. eapply wp_mono; [eapply (sack_range_wp sent gone); done|].
  intros o s1 (HI1 & A1 & E1).
  eapply wp_mono; [eapply (IH (i + 4 + 4)); [done|done|exact A1|lia..]|].
  intros [] s2 (HI2 & A2 & E2). split_and!; [done| |by rewrite E2]. revert A2. apply acked_gone.
  intros k _. unfold sacked. rewrite E8, Er. cbn [existsb].
  destruct (existsb _ _), (in_range _ _), (gone k); done.
Qed.

Lemma handle_incoming_sacks_wp sent packet st :
  StreamInv sent st -> len (i_buf packet) < 2 ^ 63 ->
  wp (handle_incoming_sacks packet) (fun _ st' => StreamInv sent st' /\
    acked (sacked (i_buf packet)) st st' /\
    s_remote_acked (inner st') = s_remote_acked (inner st)) st.
Proof.
  intros HI Hlen. unfold handle_incoming_sacks. pose proof (len_nonneg (i_buf packet)).
  eapply wp_mono.
  { eapply (sack_loop_wp sent); [apply HI|done|apply acked_start|lia|done|unfold len; lia]. }
  intros [] s1 (HI1 & A1 & E1). split_and!; try done. revert A1. apply acked_gone.
  intros k _. by rewrite orb_false_r.
Qed.

End ack.
