(* ===== verification/StreamRecv.v ===== *)
(** Receiving: reassembly of incoming data packets and reading. *)

From S2P Require Import Prelude Constants Errors UdpProto Packet Runtime Stream StreamInv StreamCtrl.
From S2P Require Import StreamSend StreamTimer StreamAck.

Local Open Scope Z_scope.

(** ** The bytes that are ready to be read

    The abstract view of the receiving side is a byte queue: what the packets
    from the read cursor up to [ack] still hold. *)
Section queue.

Definition chunk (m : gmap Z IncomingPacket) (k : Z) : list byte :=
  match m !! k with
  | Some p => drop (Z.to_nat (i_read_offset p)) (i_buf p)
  | None => []
  end.

Definition chunks (m : gmap Z IncomingPacket) (a b : Z) : list byte :=
  concat (map (chunk m) (seqZ a (b - a))).

Definition unread `{AtomicInstant} (s : UdxStreamInner) : list byte :=
  chunks (s_incoming s) (s_read_cursor s) (s_ack s).

Lemma chunks_empty m a b : b <= a -> chunks m a b = [].
Proof. intros Hle. unfold chunks. by rewrite seqZ_nil by lia. Qed.

Lemma chunks_split m a b c : a <= b <= c -> chunks m a c = chunks m a b ++ chunks m b c.
Proof.
  intros [? ?]. unfold chunks. replace (c - a) with ((b - a) + (c - b)) by lia.
  rewrite seqZ_app by lia. rewrite map_app, concat_app. by replace (a + (b - a)) with b by lia.
Qed.

Lemma chunks_one m a : chunks m a (a + 1) = chunk m a.
Proof.
  unfold chunks. rewrite seqZ_cons, seqZ_nil by lia. cbn [map concat]. by rewrite app_nil_r.
Qed.

Lemma chunks_cons m a b : a < b -> chunks m a b = chunk m a ++ chunks m (a + 1) b.
Proof. intros Hlt. by rewrite (chunks_split m a (a + 1) b), chunks_one by lia. Qed.

Lemma chunks_ext m m' a b :
  (forall k, a <= k < b -> m !! k = m' !! k) -> chunks m a b = chunks m' a b.
Proof.
  intros Hk. unfold chunks. f_equal. apply map_ext_in. intros k Hin.
  apply list_elem_of_In, elem_of_seqZ in Hin. unfold chunk. rewrite Hk by lia. done.
Qed.

End queue.

Section recv.
Context `{Profile} {AI : AtomicInstant} {AIL : AtomicInstantLaws AI}.
Implicit Types (st : StreamSt) (sent : list (list byte)) (p : IncomingPacket).

(** A packet as the socket hands it over: decoded from the wire, not read yet. *)
Definition incoming_ok p : Prop :=
  wire_header (i_header p) /\ i_read_offset p = 0 /\ len (i_buf p) < 2 ^ 63.

(** ** Advancing [ack] *)

Lemma advance_ack_wp (Q : unit -> StreamSt -> Prop) st :
  let s := inner st in
  0 <= s_read_cursor s <= s_ack s ->
  s_read_cursor s + Z.of_nat (size (s_incoming s)) <= U32_MAX ->
  (forall k, s_read_cursor s <= k < s_ack s -> is_Some (s_incoming s !! k)) ->
  (forall a, s_ack s <= a -> (forall k, s_ack s <= k < a -> is_Some (s_incoming s !! k)) ->
     s_incoming s !! a = None -> Q tt (st <| inner ::= fun s => s <| s_ack := a |> |>)) ->
  wp advance_ack Q st.
Proof.
  cbn. intros Hc Hmax Hcont HQ. unfold advance_ack. st_run.
  set (n := size (s_incoming (inner st))) in *.
  assert (Hsz : forall a, (forall k, s_ack (inner st) <= k < a -> is_Some (s_incoming (inner st) !! k)) ->
            a - s_read_cursor (inner st) <= Z.of_nat n).
  { intros a Ha. apply size_keys_ge. intros k Hk.
    destruct (decide (k < s_ack (inner st))); [apply Hcont; lia|apply Ha; lia]. }
  eapply (wp_while (fun st' => exists a, s_ack (inner st) <= a /\
      (forall k, s_ack (inner st) <= k < a -> is_Some (s_incoming (inner st) !! k)) /\
      st' = st <| inner ::= fun s => s <| s_ack := a |> |>)
    (fun st' => Z.to_nat (s_read_cursor (inner st) + Z.of_nat n - s_ack (inner st')))).
  - exists (s_ack (inner st)). split_and!; [done|intros; lia|by destruct st as [[] ?]].
  - pose proof (Hsz (s_ack (inner st)) ltac:(intros; lia)). lia.
  - intros s1 (a & Ha & Hk & ->) Hc1. unfold next_received in Hc1. cbn in *.
    destruct (s_incoming (inner st) !! a) eqn:E; [|done].
    assert (forall k, s_ack (inner st) <= k < a + 1 -> is_Some (s_incoming (inner st) !! k)) as Hk'.
    { intros k ?. destruct (decide (k = a)) as [->|]; [by rewrite E|apply Hk; lia]. }
    pose proof (Hsz _ Hk'). split; [lia|]. unfold ack_step. st_run. fits. st_run. cbn.
    split; [|lia]. exists (a + 1). split_and!; [lia|done|done].
  - intros s1 (a & Ha & Hk & ->) Hc1. unfold next_received in Hc1. cbn in Hc1.
    apply HQ; [done..|]. by destruct (s_incoming (inner st) !! a).
Qed.

(** ** One data packet *)

(** What a batch of packets [ps] does to the receiving side: the read position
    and the packets below the old [ack] stay, and every new packet in the
    reassembly map is one of [ps]. *)
Record absorbed (ps : list IncomingPacket) (s s' : UdxStreamInner) : Prop := {
  ab_cursor : s_read_cursor s' = s_read_cursor s;
  ab_ack : s_ack s <= s_ack s';
  ab_old : forall k, k < s_ack s -> s_incoming s' !! k = s_incoming s !! k;
  ab_new : forall k q, s_incoming s' !! k = Some q ->
    s_incoming s !! k = Some q \/ (q ∈ ps /\ has_type q UDX_HEADER_DATA = true);
  ab_kept : forall k, is_Some (s_incoming s !! k) -> is_Some (s_incoming s' !! k);
  ab_size : Z.of_nat (size (s_incoming s')) <= Z.of_nat (size (s_incoming s)) + len ps;
}.

Lemma absorbed_same ps s s' :
  s_read_cursor s' = s_read_cursor s -> s_ack s' = s_ack s -> s_incoming s' = s_incoming s ->
  absorbed ps s s'.
Proof.
  intros E1 E2 E3. pose proof (len_nonneg ps). split; rewrite ?E1, ?E2, ?E3; auto; lia.
Qed.

Lemma absorbed_trans ps ps' s1 s2 s3 :
  absorbed ps s1 s2 -> absorbed ps' s2 s3 -> absorbed (ps ++ ps') s1 s3.
Proof.
  intros [] []. split; try lia; try congruence.
  - intros k Hk. rewrite ab_old1 by lia. by apply ab_old0.
  - intros k q [Hq|[Hq ?]]%ab_new1; [apply ab_new0 in Hq as [?|[? ?]]|]; [by left|right..].
    all: split; [apply elem_of_app|]; auto.
  - auto.
  - rewrite len_app. lia.
Qed.

Lemma absorbed_frame ps s s1 s2 :
  s_read_cursor s2 = s_read_cursor s1 -> s_ack s2 = s_ack s1 -> s_incoming s2 = s_incoming s1 ->
  absorbed ps s s1 -> absorbed ps s s2.
Proof.
  intros E1 E2 E3 Ha. rewrite <- (app_nil_r ps). eapply absorbed_trans; [done|].
  by apply absorbed_same.
Qed.

(** The new contiguous bytes are appended to the queue of unread bytes. *)
Lemma absorbed_unread ps s s' :
  RecvInv s -> absorbed ps s s' ->
  unread s' = unread s ++ chunks (s_incoming s') (s_ack s) (s_ack s').
Proof.
  intros HR []. unfold unread. rewrite ab_cursor0. pose proof (inv_cursor _ HR).
  rewrite (chunks_split _ _ (s_ack s)) by lia. f_equal. apply chunks_ext.
  intros k ?. apply ab_old0. lia.
Qed.

Definition insert_incoming (p : IncomingPacket) (s : UdxStreamInner) : gmap Z IncomingPacket :=
  if i_seq p >=? s_ack s then <[i_seq p := p]> (s_incoming s) else s_incoming s.

Lemma insert_incoming_size p s :
  Z.of_nat (size (insert_incoming p s)) <= Z.of_nat (size (s_incoming s)) + 1.
Proof.
  unfold insert_incoming. destruct (_ >=? _); [|lia].
  rewrite map_size_insert. destruct (s_incoming s !! i_seq p); unfold id; lia.
Qed.

Lemma insert_incoming_kept p s k :
  is_Some (s_incoming s !! k) -> is_Some (insert_incoming p s !! k).
Proof.
  intros Hk. unfold insert_incoming. destruct (_ >=? _); [|done].
  destruct (decide (k = i_seq p)) as [->|]; [by rewrite lookup_insert_eq|by rewrite lookup_insert_ne].
Qed.

(** The receiving side after the packet [p] and the new acknowledgement [a]. *)
Lemma insert_RecvInv p s s' a :
  RecvInv s -> incoming_ok p -> has_type p UDX_HEADER_DATA = true ->
  s_read_cursor s + Z.of_nat (size (s_incoming s)) + 1 <= U32_MAX ->
  s_incoming s' = insert_incoming p s -> s_read_cursor s' = s_read_cursor s -> s_ack s' = a ->
  s_ack s <= a -> (forall k, s_ack s <= k < a -> is_Some (insert_incoming p s !! k)) ->
  insert_incoming p s !! a = None ->
  RecvInv s' /\ absorbed [p] s s'.
Proof.
  intros HR Hok Hdata Hroom Ein Ecur Eack Hle Hcont Hgap.
  pose proof (insert_incoming_size p s) as Hsize.
  assert (Hcase : forall k q, insert_incoming p s !! k = Some q ->
    s_incoming s !! k = Some q \/ (k = i_seq p /\ q = p /\ s_ack s <= k)).
  { intros k q. unfold insert_incoming. rewrite Z.geb_leb. destruct (Z.leb_spec (s_ack s) (i_seq p)); [|auto].
    intros [[<- <-]|[? ?]]%lookup_insert_Some; auto. }
  assert (Hold : forall k, k < s_ack s -> insert_incoming p s !! k = s_incoming s !! k).
  { intros k Hk. unfold insert_incoming. rewrite Z.geb_leb.
    destruct (Z.leb_spec (s_ack s) (i_seq p)); [|done]. rewrite lookup_insert_ne by lia. done. }
  destruct HR, Hok as (Hw & Hoff & Hlen). pose proof (len_nonneg (i_buf p)). split.
  - split; rewrite ?Ein, ?Ecur, ?Eack; try done; try lia.
    + intros k q [Hq|(-> & -> & Hk)]%Hcase; [by apply inv_in|]. rewrite Hoff.
      split_and!; try done; lia.
    + intros k q [Hq|(-> & -> & Hk)]%Hcase; [by eapply inv_in_len|done].
    + intros k Hk. destruct (decide (k < s_ack s)); [|apply Hcont; lia].
      rewrite Hold by done. apply inv_contiguous. lia.
  - split; rewrite ?Ein, ?Ecur, ?Eack; try done.
    + intros k q [Hq|(-> & -> & Hk)]%Hcase; [by left|right]. split; [by constructor|done].
    + intros k. apply insert_incoming_kept.
Qed.

(** The retransmission table and the packets it points to are as they were. *)
Definition same_table (st st' : StreamSt) : Prop :=
  s_outgoing (inner st') = s_outgoing (inner st) /\ w_store (world st') = w_store (world st).

Lemma same_table_trans st1 st2 st3 : same_table st1 st2 -> same_table st2 st3 -> same_table st1 st3.
Proof. intros [] []. split; congruence. Qed.

(** The effect of handling the packets [ps] on everything that matters to the
    rest of the driver, with bounds on the growth of the window (in packets
    [c]) and of the statistics (packets sent [t], packets received [r], bytes
    received [b]). *)
Record handled (ps : list IncomingPacket) (c t r b : Z) (st st' : StreamSt) : Prop := {
  hd_ext : ext st st';
  hd_absorbed : absorbed ps (inner st) (inner st');
  hd_seq : s_seq (inner st') = s_seq (inner st);
  hd_remote_acked : s_remote_acked (inner st') = s_remote_acked (inner st);
  hd_cwnd : s_cwnd (inner st) <= s_cwnd (inner st') <= s_cwnd (inner st) + UDX_MTU * c;
  hd_inflight : s_inflight (inner st') <= s_inflight (inner st);
  hd_outgoing : s_outgoing (inner st') ⊆ s_outgoing (inner st);
  hd_queue : exists q, s_send_queue (inner st') = s_send_queue (inner st) ++ q /\ len q <= t;
  hd_tx : w_tx (world st') = w_tx (world st);
  hd_on_close : s_on_close (inner st') = s_on_close (inner st);
  hd_signals : w_signals (world st') = w_signals (world st);
  hd_error : is_Some (s_error (inner st)) -> is_Some (s_error (inner st'));
  hd_tx_packets : tx_packets (s_stats (inner st)) <= tx_packets (s_stats (inner st')) <=
    tx_packets (s_stats (inner st)) + t;
  hd_tx_bytes : tx_bytes (s_stats (inner st')) = tx_bytes (s_stats (inner st));
  hd_rx_packets : rx_packets (s_stats (inner st)) <= rx_packets (s_stats (inner st')) <=
    rx_packets (s_stats (inner st)) + r;
  hd_rx_bytes : rx_bytes (s_stats (inner st)) <= rx_bytes (s_stats (inner st')) <=
    rx_bytes (s_stats (inner st)) + b;
}.

(** The bounds for whole packets: each grows the window by at most one MTU and
    is answered by at most two state packets. *)
Definition handled_all (ps : list IncomingPacket) : StreamSt -> StreamSt -> Prop :=
  handled ps (len ps) (2 * len ps) (len ps) (len (concat (map i_buf ps))).

Lemma handled_nothing ps st : handled ps 0 0 0 0 st st.
Proof.
  split; try done; try lia; [by apply absorbed_same|]. exists []. by rewrite app_nil_r.
Qed.

Lemma handled_refl st : handled [] 0 0 0 0 st st.
Proof. apply handled_nothing. Qed.

Lemma handled_trans ps c t r b ps' c' t' r' b' s1 s2 s3 :
  handled ps c t r b s1 s2 -> handled ps' c' t' r' b' s2 s3 ->
  handled (ps ++ ps') (c + c') (t + t') (r + r') (b + b') s1 s3.
Proof.
  intros H1 H2.
  destruct (hd_queue _ _ _ _ _ _ _ H1) as (q1 & E1 & ?), (hd_queue _ _ _ _ _ _ _ H2) as (q2 & E2 & ?).
  destruct H1, H2. split; try congruence; try lia.
  - by transitivity s2.
  - by eapply absorbed_trans.
  - by transitivity (s_outgoing (inner s2)).
  - exists (q1 ++ q2). rewrite E2, E1, app_assoc, len_app. split; [done|lia].
  - auto.
Qed.

Lemma handled_weaken ps c t r b c' t' r' b' st st' :
  c <= c' -> t <= t' -> r <= r' -> b <= b' ->
  handled ps c t r b st st' -> handled ps c' t' r' b' st st'.
Proof. intros ? ? ? ? []. destruct hd_queue0 as (q & ? & ?).
  split; try done; try (exists q; split; [done|lia]); unfold UDX_MTU in *; lia.
Qed.

Lemma handled_Room ps n b st st' :
  handled_all ps st st' -> Room (n + len ps) (b + len (concat (map i_buf ps))) st -> Room n b st'.
Proof.
  intros [] HR. pose proof HR as []. pose proof (ab_size _ _ _ hd_absorbed0).
  pose proof (ab_cursor _ _ _ hd_absorbed0).
  pose proof (len_nonneg ps). pose proof (len_nonneg (concat (map i_buf ps))).
  eapply Room_frame, HR; try lia.
Qed.

Lemma calm_handled st st' k :
  calm st st' -> (exists q, s_send_queue (inner st') = s_send_queue (inner st) ++ q /\ len q <= k) ->
  tx_packets (s_stats (inner st')) = tx_packets (s_stats (inner st)) + k -> 0 <= k ->
  (is_Some (s_error (inner st)) -> is_Some (s_error (inner st'))) -> handled [] 0 k 0 0 st st'.
Proof.
  intros C Hq Htx Hk He. destruct (calm_stats _ _ C) as [n En].
  destruct C. split; try done; try (rewrite En; cbn; lia); try (consts; lia).
  - by apply absorbed_same.
  - by rewrite calm_outgoing.
Qed.

(** The [read_waker] is taken and woken when the packet is next in line. *)
Definition wake_reader (seq : Z) (st : StreamSt) : StreamSt :=
  if seq <=? s_ack (inner st) then
    mk_StreamSt ((inner st) <| s_read_waker := None |>)
      ((world st) <| w_woken ::= fun l => l ++ option_list (s_read_waker (inner st)) |>)
  else st.

Lemma wake_reader_StreamInv sent seq st : StreamInv sent st -> StreamInv sent (wake_reader seq st).
Proof.
  intros HI. unfold wake_reader. destruct (_ <=? _); [|done].
  eapply StreamInv_frame, HI; try done. eapply CtrlInv_frame, HI; try done; apply HI.
Qed.

(** The [UDX_HEADER_DATA] branch of [handle_incoming]: the packet goes into the
    reassembly map unless it is old, [ack] moves to the first gap, the reader
    is woken when the packet was next in line, and the new [ack] is sent. *)
Lemma handle_incoming_data_wp sent p st :
  StreamInv sent st -> incoming_ok p -> has_type p UDX_HEADER_DATA = true ->
  s_read_cursor (inner st) + Z.of_nat (size (s_incoming (inner st))) + 1 <= U32_MAX ->
  0 <= rx_bytes (s_stats (inner st)) /\
    rx_bytes (s_stats (inner st)) + len (i_buf p) < usize_modulus ->
  0 <= tx_packets (s_stats (inner st)) /\ tx_packets (s_stats (inner st)) + 1 < usize_modulus ->
  wp (handle_incoming_data p) (fun _ st' =>
    StreamInv sent st' /\ handled [p] 0 1 0 (len (i_buf p)) st st' /\
    s_incoming (inner st') = insert_incoming p (inner st) /\
    (exists sp, s_send_queue (inner st') = s_send_queue (inner st) ++ [Owned sp] /\
       state_packet sp /\ h_ack (p_header sp) = s_ack (inner st') /\ p_skip sp = false /\
       h_typ (p_header sp) = match s_error (inner st') with Some _ => UDX_HEADER_END | None => 0 end) /\
    w_woken (world st') = w_woken (world st) ++
      (if i_seq p <=? s_ack (inner st') then option_list (s_read_waker (inner st)) else []) ++
      option_list (s_drive_waker (inner st)) /\
    s_error (inner st') = s_error (inner st) /\ s_state (inner st') = s_state (inner st) /\
    same_table st st') st.
Proof.
  intros HI Hok Hdata Hroom Hrx Htx. pose proof (len_nonneg (i_buf p)) as Hl.
  unfold handle_incoming_data, i_data_len. st_run. fits.
  apply wp_bind, wp_set_self, wp_bind, wp_self, wp_bind.
  apply wp_mono with (Q := fun _ st' => st' = st <| inner ::= fun s =>
     s <| s_stats ::= fun t => t <| rx_bytes ::= fun n => n + len (i_buf p) |> |>
       <| s_incoming := insert_incoming p s |> |>).
  { unfold insert_incoming. cbn. st_run; [by destruct st|]. by destruct st as [[] ?]. }
  intros [] st1 ->. apply wp_bind.
  assert (Z.of_nat (size (insert_incoming p (inner st))) <=
          Z.of_nat (size (s_incoming (inner st))) + 1) as Hsize by apply insert_incoming_size.
  apply advance_ack_wp; cbn; [apply HI|lia| |].
  { intros k Hk. apply insert_incoming_kept. by apply HI. }
  intros a Ha Hcont Hgap. match goal with |- wp _ _ ?s => set (st1 := s) end.
  assert (RecvInv (inner st1) /\ absorbed [p] (inner st) (inner st1)) as [HR1 Hab]
    by (eapply insert_RecvInv; done || apply HI).
  assert (StreamInv sent st1) as HI1.
  { split; [|done|eapply CtrlInv_frame, HI; try done; apply HI].
    eapply SendInv_frame, HI; try done. eapply queue_ok_mono, HI; done. }
  apply wp_bind, wp_self, wp_bind.
  apply wp_mono with (Q := fun _ st' => st' = wake_reader (i_seq p) st1).
  { unfold wake_reader. cbn. st_run; done. }
  intros [] st2 ->. pose proof (wake_reader_StreamInv _ (i_seq p) _ HI1) as HI2.
  assert (handled [p] 0 0 0 (len (i_buf p)) st (wake_reader (i_seq p) st1)) as Hh.
  { unfold wake_reader. destruct (_ <=? _).
    all: split; try done; cbn; try lia; try (exists []; by rewrite app_nil_r).
    eapply insert_RecvInv; done || apply HI. }
  eapply wp_mono.
  { apply (send_state_packet_wp sent); [done|unfold wake_reader; destruct (_ <=? _); apply Htx..]. }
  intros [] st3 (HI3 & C & (sp & Hq & Hhd & Hsp & Hsk) & Htxp & Hwk & _ & _ & _ & Hst & Her).
  assert (s_ack (inner st3) = a /\ s_incoming (inner st3) = insert_incoming p (inner st))
    as [Ea Ein].
  { rewrite (calm_ack _ _ C), (calm_incoming _ _ C). unfold wake_reader. by destruct (_ <=? _). }
  rewrite Ea. split_and!; [done|..|done| | | | |].
  - eapply (handled_trans [p] 0 0 0 (len (i_buf p)) [] 0 1 0 0) in Hh;
      [|by eapply calm_handled; [done|by exists [Owned sp]|done|done|by rewrite Her]].
    by rewrite app_nil_r, !Z.add_0_r in Hh.
  - exists sp. rewrite Hq, Her, Hhd, state_header_typ by apply HI2. unfold wake_reader. by destruct (_ <=? _).
  - rewrite Hwk. unfold wake_reader. cbn.
    destruct (i_seq p <=? a); cbn; [by rewrite <- app_assoc|done].
  - rewrite Her. unfold wake_reader. by destruct (_ <=? _).
  - rewrite Hst. unfold wake_reader. by destruct (_ <=? _).
  - split; [rewrite (calm_outgoing _ _ C)|rewrite (calm_store _ _ C)]; unfold wake_reader; by destruct (_ <=? _).
Qed.

(** ** Any packet *)

Definition passes (s : UdxStreamInner) (p : IncomingPacket) : bool :=
  match s_on_firewall s with Some on_firewall => on_firewall (i_from p) | None => true end.

Lemma acked_handled gone st st' :
  acked gone st st' -> s_remote_acked (inner st') = s_remote_acked (inner st) ->
  handled [] 0 0 0 0 st st'.
Proof.
  intros A Er. pose proof (ac_keeps _ _ _ A) as K. destruct (kp_stats _ _ K) as (a & b & Es).
  destruct A, K. split; try done; rewrite ?Es; cbn; try lia.
  - by apply absorbed_same.
  - apply map_subseteq_spec. intros k l Hk. rewrite ac_outgoing in Hk. by destruct (gone k).
  - exists []. by rewrite app_nil_r.
  - by rewrite kp_error.
Qed.

(** One MTU per acknowledgement below the threshold, then at most one MTU. *)
Definition grown (cwnd : Z) : Z :=
  if cwnd <? SSTHRESH then cwnd + UDX_MTU else cwnd + Z.max (UDX_MTU * UDX_MTU / cwnd) 1.

Lemma grown_bounds c : UDX_MTU <= c -> c < grown c <= c + UDX_MTU.
Proof.
  intros Hc. unfold grown. assert (0 <= UDX_MTU * UDX_MTU / c <= UDX_MTU); [|case_match; consts; lia].
  split; [apply Z.div_pos; consts; lia|]. apply Z.div_le_upper_bound; consts; nia.
Qed.

(** The window grows with an acknowledgement that is new and not out of bounds. *)
Definition new_window (p : IncomingPacket) (s : UdxStreamInner) : Z :=
  if (i_ack p <=? s_seq s) && (s_remote_acked s <? i_ack p) then grown (s_cwnd s) else s_cwnd s.

Lemma grow_cwnd_wp sent st :
  StreamInv sent st -> s_cwnd (inner st) + UDX_MTU < usize_modulus ->
  wp grow_cwnd (fun _ st' => StreamInv sent st' /\
    st' = st <| inner ::= fun s => s <| s_cwnd := grown (s_cwnd (inner st)) |> |>) st.
Proof.
  intros HI Hroom. pose proof (inv_cwnd _ (inv_ctrl _ _ HI)) as Hc. pose proof (grown_bounds _ Hc) as Hg.
  assert (StreamInv sent (st <| inner ::= fun s => s <| s_cwnd := grown (s_cwnd (inner st)) |> |>)) as HI'.
  { eapply (tweak_StreamInv sent st); try done; [apply HI|apply HI| |by apply keeps_eq_stats].
    destruct (inv_ctrl _ _ HI). split; try done. cbn. lia. }
  unfold grow_cwnd. unfold grown in *. apply wp_bind, wp_self. destruct (_ <? SSTHRESH).
  - apply wp_bind. eapply wp_lift; [apply usize_add_fits; consts; lia|]. by apply wp_set_self.
  - apply wp_bind. eapply wp_lift; [unfold usize_div; by rewrite (proj2 (Z.eqb_neq _ _)) by (consts; lia)|].
    apply wp_bind. eapply wp_lift; [apply usize_add_fits; consts; lia|]. by apply wp_set_self.
Qed.

(** The end of [handle_incoming]. *)
Lemma window_step_wp sent p st :
  StreamInv sent st -> s_cwnd (inner st) + UDX_MTU < usize_modulus ->
  wp (seq ← self s_seq;
      if h_ack (i_header p) >? seq then mret tt else
      remote_acked ← self s_remote_acked;
      if h_ack (i_header p) >? remote_acked then grow_cwnd else mret tt) (fun _ st' => StreamInv sent st' /\
    st' = st <| inner ::= fun s => s <| s_cwnd := new_window p (inner st) |> |>) st.
Proof.
  intros HI Hroom. assert (st = st <| inner ::= fun s => s <| s_cwnd := s_cwnd (inner st) |> |>) as Eid.
  { by destruct st as [[] ?]. }
  apply wp_bind, wp_self. unfold new_window, i_ack. rewrite Z.gtb_ltb, Z.leb_antisym.
  destruct (_ <? _); cbn [negb andb]; [by apply wp_ret|].
  apply wp_bind, wp_self. rewrite Z.gtb_ltb. destruct (_ <? _); [by apply (grow_cwnd_wp sent)|by apply wp_ret].
Qed.

(** The optional steps of [handle_incoming]. *)
Lemma sack_step_wp sent p st :
  StreamInv sent st -> incoming_ok p ->
  wp (if has_type p UDX_HEADER_SACK then handle_incoming_sacks p else mret tt) (fun _ st' =>
    StreamInv sent st' /\ handled [] 0 0 0 0 st st' /\
    s_incoming (inner st') = s_incoming (inner st) /\ s_ack (inner st') = s_ack (inner st) /\
    s_error (inner st') = s_error (inner st) /\ s_state (inner st') = s_state (inner st) /\
    (has_type p UDX_HEADER_SACK = false -> same_table st st') /\
    forall k, s_outgoing (inner st') !! k =
      if has_type p UDX_HEADER_SACK && sacked (i_buf p) k then None else s_outgoing (inner st) !! k) st.
Proof.
  intros HI (_ & _ & Hlen). destruct (has_type p UDX_HEADER_SACK).
  - eapply wp_mono; [by apply (handle_incoming_sacks_wp sent)|].
    intros [] st' (HI' & A & Er). split_and!; [done|by eapply acked_handled|..]; done || apply A.
  - apply wp_ret. split_and!; try done. apply handled_refl.
Qed.

Lemma close_remote_StreamInv sent st :
  StreamInv sent st -> StreamInv sent (st <| inner ::= fun s => s <| s_state ::= close_remote |> |>).
Proof.
  intros HI. eapply StreamInv_frame, HI; try done.
  eapply CtrlInv_frame, HI; try done. cbn. rewrite local_closed_close_remote. apply HI.
Qed.

Lemma end_step_wp sent p st :
  StreamInv sent st ->
  0 <= tx_packets (s_stats (inner st)) /\ tx_packets (s_stats (inner st)) + 1 < usize_modulus ->
  wp (if has_type p UDX_HEADER_END then
        _ ← set_self (fun s => s <| s_state ::= close_remote |>);
        terminate closed_by_remote
      else mret tt) (fun _ st' =>
    StreamInv sent st' /\ handled [] 0 1 0 0 st st' /\
    s_incoming (inner st') = s_incoming (inner st) /\ s_ack (inner st') = s_ack (inner st) /\
    s_error (inner st') = (if has_type p UDX_HEADER_END then Some closed_by_remote
                           else s_error (inner st)) /\
    s_state (inner st') = (if has_type p UDX_HEADER_END
                           then close_local (close_remote (s_state (inner st)))
                           else s_state (inner st)) /\
    same_table st st') st.
Proof.
  intros HI [Htx1 Htx2]. destruct (has_type p UDX_HEADER_END).
  - st_run. pose proof (close_remote_StreamInv _ _ HI) as HI1.
    eapply wp_mono; [by apply (terminate_wp sent)|].
    intros [] st' (HI' & C & (sp & Hq & _) & Htx & He & Hs & _).
    split_and!; try done; [|apply C..|split; apply C].
    eapply (handled_trans [] 0 0 0 0 [] 0 1 0 0);
      [|eapply calm_handled; [exact C|by exists [Owned sp]|done|done|by rewrite He]].
    split; try done; cbn; try lia; [by apply absorbed_same|]. exists []. by rewrite app_nil_r.
  - apply wp_ret. split_and!; try done. eapply handled_weaken, handled_refl; lia.
Qed.

(** The last packet of the queue carries the current acknowledgement. *)
Definition answered (st : StreamSt) : Prop :=
  exists q sp, s_send_queue (inner st) = q ++ [Owned sp] /\ state_packet sp /\
    h_ack (p_header sp) = s_ack (inner st) /\ p_skip sp = false /\
    h_typ (p_header sp) = match s_error (inner st) with Some _ => UDX_HEADER_END | None => 0 end.

Lemma data_step_wp sent p st :
  StreamInv sent st -> incoming_ok p ->
  s_read_cursor (inner st) + Z.of_nat (size (s_incoming (inner st))) + 1 <= U32_MAX ->
  0 <= rx_bytes (s_stats (inner st)) /\
    rx_bytes (s_stats (inner st)) + len (i_buf p) < usize_modulus ->
  0 <= tx_packets (s_stats (inner st)) /\ tx_packets (s_stats (inner st)) + 1 < usize_modulus ->
  wp (if has_type p UDX_HEADER_DATA then handle_incoming_data p else mret tt) (fun _ st' =>
    StreamInv sent st' /\ handled [p] 0 1 0 (len (i_buf p)) st st' /\
    s_incoming (inner st') = (if has_type p UDX_HEADER_DATA then insert_incoming p (inner st)
                              else s_incoming (inner st)) /\
    s_error (inner st') = s_error (inner st) /\ s_state (inner st') = s_state (inner st) /\
    same_table st st' /\
    (has_type p UDX_HEADER_DATA = true -> answered st')) st.
Proof.
  intros HI Hok Hsz Hrx Htx. pose proof (len_nonneg (i_buf p)).
  destruct (has_type p UDX_HEADER_DATA) eqn:Ed.
  - eapply wp_mono; [by apply (handle_incoming_data_wp sent)|].
    intros [] st' (HI' & Hh & Hin & (sp & Hq & Hsp) & _ & He & Hs & Ho).
    split_and!; try done. intros _. by exists (s_send_queue (inner st)), sp.
  - apply wp_ret. split_and!; try done.
    eapply (handled_weaken [p] 0 0 0 0); [lia..|]. apply handled_nothing.
Qed.

Lemma handle_incoming_wp sent p st :
  StreamInv sent st -> incoming_ok p -> Room 1 (len (i_buf p)) st ->
  wp (handle_incoming p) (fun _ st' =>
    StreamInv sent st' /\ handled_all [p] st st' /\
    (passes (inner st) p = false -> st' = st) /\
    s_incoming (inner st') =
      (if passes (inner st) p && has_type p UDX_HEADER_DATA then insert_incoming p (inner st)
       else s_incoming (inner st)) /\
    s_error (inner st') =
      (if passes (inner st) p && has_type p UDX_HEADER_END then Some closed_by_remote
       else s_error (inner st)) /\
    s_state (inner st') =
      (if passes (inner st) p && has_type p UDX_HEADER_END
       then close_local (close_remote (s_state (inner st))) else s_state (inner st)) /\
    (has_type p UDX_HEADER_SACK = false -> same_table st st') /\
    (passes (inner st) p && has_type p UDX_HEADER_DATA = true -> answered st') /\
    (forall k, s_outgoing (inner st') !! k =
       if passes (inner st) p && (has_type p UDX_HEADER_SACK && sacked (i_buf p) k) then None
       else s_outgoing (inner st) !! k) /\
    s_cwnd (inner st') = (if passes (inner st) p then new_window p (inner st) else s_cwnd (inner st))) st.
Proof.
  intros HI Hok HR. pose proof HR as []. pose proof (len_nonneg (i_buf p)) as Hl.
  assert (handled_all [p] = handled [p] 1 2 1 (len (i_buf p))) as Eall.
  { unfold handled_all. cbn [map concat]. by rewrite app_nil_r. }
  rewrite Eall. unfold handle_incoming. apply wp_bind, wp_self. fold (passes (inner st) p).
  destruct (passes (inner st) p); cbn [negb andb].
  2:{ apply wp_ret. split_and!; try done.
      eapply (handled_weaken [p] 0 0 0 0); [lia..|]. apply handled_nothing. }
  st_run. fits. apply wp_bind, wp_set_self. set (st1 := update_field inner _ st).
  assert (StreamInv sent st1) as HI1.
  { eapply StreamInv_frame, HI; try done. eapply CtrlInv_frame, HI; try done; apply HI. }
  assert (handled [] 0 0 1 0 st st1) as H1.
  { split; try done; cbn; try lia; [by apply absorbed_same|]. exists []. by rewrite app_nil_r. }
  apply wp_bind. eapply wp_mono; [by apply (sack_step_wp sent)|].
  intros [] st2 (HI2 & H2 & Ein2 & Eack2 & Ee2 & Es2 & Eo2 & Ek2).
  eapply (handled_trans _ _ _ _ _ _ _ _ _ _ _ _ _ H1) in H2.
  apply wp_bind. eapply wp_mono; [apply (end_step_wp sent); [done|destruct H2; lia]|].
  intros [] st3 (HI3 & H3 & Ein3 & Eack3 & Ee3 & Es3 & Eo3).
  eapply (handled_trans _ _ _ _ _ _ _ _ _ _ _ _ _ H2) in H3.
  apply wp_bind. eapply wp_mono.
  { pose proof (ab_size _ _ _ (hd_absorbed _ _ _ _ _ _ _ H3)) as Hsz.
    pose proof (ab_cursor _ _ _ (hd_absorbed _ _ _ _ _ _ _ H3)).
    change (len (([] ++ []) ++ [])) with 0 in Hsz.
    apply (data_step_wp sent); [done|done|destruct H3; lia..]. }
  intros [] st4 (HI4 & H4 & Ein4 & Ee4 & Es4 & Eo4 & Hans).
  eapply (handled_trans _ _ _ _ _ _ _ _ _ _ _ _ _ H3) in H4. cbn in H4.
  assert (s_incoming (inner st4) = (if has_type p UDX_HEADER_DATA then insert_incoming p (inner st)
            else s_incoming (inner st))) as Ein.
  { rewrite Ein4, Ein3, Ein2. unfold insert_incoming. by rewrite Ein3, Ein2, Eack3, Eack2. }
  rewrite Ee3, Ee2 in Ee4. rewrite Es3, Es2 in Es4.
  assert (has_type p UDX_HEADER_SACK = false -> same_table st st4) as Eo.
  { intros Hns. eapply same_table_trans, Eo4. eapply same_table_trans, Eo3. by apply Eo2. }
  eapply wp_mono; [apply (window_step_wp sent); [done|destruct H4; lia]|]. intros [] st5 (HI5 & ->).
  assert (new_window p (inner st4) = new_window p (inner st)) as Ew.
  { unfold new_window. rewrite (hd_seq _ _ _ _ _ _ _ H4), (hd_remote_acked _ _ _ _ _ _ _ H4).
    by replace (s_cwnd (inner st4)) with (s_cwnd (inner st)) by (destruct H4; lia). }
  assert (s_cwnd (inner st4) = s_cwnd (inner st)) as Ec by (destruct H4; lia).
  split_and!; try done; [|by cbn; rewrite (proj1 Eo4), (proj1 Eo3)].
  pose proof (grown_bounds _ (inv_cwnd _ (inv_ctrl _ _ HI))).
  destruct H4. split; try done; cbn; try lia.
  - etransitivity; [exact hd_ext0|done].
  - eapply absorbed_frame, hd_absorbed0; done.
  - rewrite Ew. unfold new_window. destruct (_ && _); [lia|]. consts. lia.
Qed.

(** ** A batch of packets *)

(** The highest acknowledgement seen in a batch. *)
Definition max_ack (acc : Z) (ps : list IncomingPacket) : Z :=
  fold_left (fun m p => Z.max m (i_ack p)) ps acc.

Lemma max_ack_range acc ps :
  0 <= acc <= U32_MAX -> Forall incoming_ok ps -> acc <= max_ack acc ps <= U32_MAX.
Proof.
  intros Ha Hok. revert acc Ha. induction Hok as [|p ps Hp _ IH]; intros acc Ha; [cbn; lia|].
  destruct Hp as ((?&?&?&?&?&?) & _).
  change (max_ack acc (p :: ps)) with (max_ack (Z.max acc (h_ack (i_header p))) ps).
  pose proof (IH (Z.max acc (h_ack (i_header p)))). unfold U32_MAX, u32_modulus in *. lia.
Qed.

(** No packet of the batch is a selective acknowledgement. *)
Definition no_sacks (ps : list IncomingPacket) : Prop :=
  Forall (fun p => has_type p UDX_HEADER_SACK = false) ps.

(** No packet of the batch closes the stream. *)
Definition no_ends (ps : list IncomingPacket) : Prop :=
  Forall (fun p => has_type p UDX_HEADER_END = false) ps.

Lemma recv_loop_wp sent ps is_closed acc st :
  StreamInv sent st -> Forall incoming_ok ps -> Room (len ps) (len (concat (map i_buf ps))) st ->
  wp (recv_loop (map EvPacket ps) is_closed acc) (fun r st' =>
    StreamInv sent st' /\ handled_all ps st st' /\
    (no_sacks ps -> same_table st st') /\ (no_ends ps -> s_error (inner st') = s_error (inner st)) /\
    r = if is_closed then Err driver_dropped_error else Ok (max_ack acc ps)) st.
Proof.
  intros HI Hok. revert acc st HI. induction Hok as [|p ps Hp _ IH]; intros acc st HI HR.
  - apply wp_ret. split_and!; try done. apply handled_refl.
  - cbn [map recv_loop]. cbn [map concat] in HR. rewrite len_cons, len_app in HR.
    pose proof (len_nonneg ps). pose proof (len_nonneg (concat (map i_buf ps))).
    pose proof (len_nonneg (i_buf p)).
    apply wp_bind. eapply wp_mono.
    { apply (handle_incoming_wp sent); [done|done|]. eapply Room_weaken, HR; lia. }
    intros [] st1 (HI1 & Hh1 & _ & _ & He1 & _ & Ho1 & _ & _). eapply wp_mono.
    { apply (IH _ st1 HI1). eapply handled_Room; [exact Hh1|].
      eapply Room_weaken, HR; cbn [map concat]; rewrite ?app_nil_r; change (len [p]) with 1; lia. }
    intros r st2 (HI2 & Hh2 & Ho2 & He2 & ->). split_and!; try done.
    2:{ intros [Hp1 Hps]%Forall_cons_1. eapply same_table_trans; auto. }
    2:{ intros [Hp1 Hps]%Forall_cons_1. rewrite He2, He1, Hp1, andb_false_r; done. }
    unfold handled_all in *. eapply (handled_trans _ _ _ _ _ _ _ _ _ _ _ _ _ Hh1) in Hh2.
    revert Hh2. cbn [map concat app]. rewrite app_nil_r, len_app, (len_cons p ps).
    change (len [p]) with 1. apply handled_weaken; lia.
Qed.

(** The script of a poll whose events are the packets [ps]. *)
Definition script_packets (rx : RecvScript) : list IncomingPacket :=
  map (fun ev => match ev with EvPacket p => p end) (rx_events rx).

Lemma script_events rx : rx_events rx = map EvPacket (script_packets rx).
Proof.
  unfold script_packets. rewrite map_map, <- (map_id (rx_events rx)) at 1.
  apply map_ext. by intros [].
Qed.

Lemma poll_incoming_wp sent rx st :
  let ps := script_packets rx in
  StreamInv sent st -> Forall incoming_ok ps -> Room (len ps) (len (concat (map i_buf ps))) st ->
  wp (poll_incoming rx) (fun r st' => StreamInv sent st' /\
    exists st1, StreamInv sent st1 /\ handled_all ps st st1 /\
      (no_sacks ps -> same_table st st1) /\ (no_ends ps -> s_error (inner st1) = s_error (inner st)) /\
      ((rx_closed rx = true /\ r = Err driver_dropped_error /\ st' = st1) \/
       (rx_closed rx = false /\ r = Ok tt /\
        let ack := max_ack 0 ps in
        ((ack <= s_remote_acked (inner st1) /\ st' = st1) \/
         (s_remote_acked (inner st1) < ack /\ exists st2,
            acked (fun k => (s_remote_acked (inner st1) <=? k) && (k <? ack)) st1 st2 /\
            StreamInv sent st2 /\ s_remote_acked (inner st2) = ack /\
            st' = rearmed (s_rto (inner st2)) (wake_writer st2)))))) st.
Proof.
  intros ps HI Hok HR. unfold poll_incoming. rewrite script_events. fold ps.
  apply wp_bind. eapply wp_mono; [by apply (recv_loop_wp sent)|].
  intros r st1 (HI1 & H1 & Ho & He & ->). destruct (rx_closed rx).
  - apply wp_ret. split; [done|]. exists st1. split_and!; auto.
  - pose proof (max_ack_range 0 ps ltac:(done) Hok).
    apply wp_bind. eapply wp_mono; [apply (handle_incoming_max_remote_ack_wp sent); [done|lia]|].
    intros [] st' [HI' Hr]. apply wp_ret. split; [done|]. exists st1. split_and!; try done.
    right. by split_and!.
Qed.

End recv.

(** ** Reading *)

Section reading.
Context `{Profile} {AI : AtomicInstant} {B : Type} `{RBL : ReadBufLaws B}.
Implicit Types (st : StreamSt) (sent : list (list byte)) (buf : B).

(** What reading does to a stream: the bytes are taken from the front of the
    queue of unread bytes; only the reassembly map and the cursor change. *)
Record reads (bytes : list byte) (s s' : UdxStreamInner) : Prop := {
  rd_frame : s' = s <| s_incoming := s_incoming s' |> <| s_read_cursor := s_read_cursor s' |>;
  rd_bytes : unread s = bytes ++ unread s';
  rd_inv : RecvInv s';
  rd_cursor : s_read_cursor s <= s_read_cursor s';
  rd_room : s_read_cursor s' + Z.of_nat (size (s_incoming s')) =
            s_read_cursor s + Z.of_nat (size (s_incoming s));
  rd_sub : forall k q', s_incoming s' !! k = Some q' ->
    exists q, s_incoming s !! k = Some q /\ q' = q <| i_read_offset := i_read_offset q' |>;
}.

Lemma reads_refl s : RecvInv s -> reads [] s s.
Proof.
  intros HR. split; try done; [by destruct s|]. intros k q Hq. exists q. split; [done|].
  by destruct q.
Qed.

Lemma reads_trans b1 b2 s1 s2 s3 : reads b1 s1 s2 -> reads b2 s2 s3 -> reads (b1 ++ b2) s1 s3.
Proof.
  intros [] []. split; try lia; try done.
  - rewrite rd_frame1, rd_frame0. by destruct s1.
  - by rewrite rd_bytes0, rd_bytes1, app_assoc.
  - intros k q3 (q2 & Hq2 & E2)%rd_sub1. apply rd_sub0 in Hq2 as (q1 & Hq1 & E1).
    exists q1. split; [done|]. rewrite E2, E1. by destruct q1.
Qed.

(** The packet at the read cursor is the first unread one. *)
Lemma cursor_packet s p :
  RecvInv s -> s_incoming s !! s_read_cursor s = Some p ->
  s_read_cursor s < s_ack s /\ i_seq p = s_read_cursor s /\
  0 <= i_read_offset p <= len (i_buf p) /\ len (i_buf p) < 2 ^ 63 /\
  unread s = drop (Z.to_nat (i_read_offset p)) (i_buf p)
             ++ chunks (s_incoming s) (s_read_cursor s + 1) (s_ack s).
Proof.
  intros HR Hp. pose proof HR as [].
  assert (s_read_cursor s < s_ack s) as Hlt.
  { destruct (decide (s_read_cursor s = s_ack s)) as [E|]; [congruence|lia]. }
  destruct (inv_in _ _ Hp) as (_ & Hseq & Hoff & _). split_and!; try done; try lia.
  - by eapply inv_in_len.
  - unfold unread. rewrite chunks_cons by done. f_equal. unfold chunk. by rewrite Hp.
Qed.

(** Consuming the rest of the packet at the cursor. *)
Lemma consume_reads s p :
  RecvInv s -> s_incoming s !! s_read_cursor s = Some p ->
  reads (drop (Z.to_nat (i_read_offset p)) (i_buf p)) s
    (s <| s_incoming ::= delete (s_read_cursor s) |> <| s_read_cursor := s_read_cursor s + 1 |>).
Proof.
  intros HR Hp. destruct (cursor_packet s p HR Hp) as (Hlt & Hseq & Hoff & Hlen & Hun).
  pose proof HR as [].
  assert (size (delete (s_read_cursor s) (s_incoming s)) = Nat.pred (size (s_incoming s))) as Hsz
    by (apply map_size_delete_Some; by rewrite Hp).
  assert (size (s_incoming s) <> 0%nat) by (intros E%map_size_empty_inv; by rewrite E in Hp).
  split; cbn; try lia; [by destruct s| | |].
  - rewrite Hun. f_equal. unfold unread. cbn. apply chunks_ext. intros k Hk.
    by rewrite lookup_delete_ne by lia.
  - split; cbn; try lia.
    + intros k q [Hne Hq]%lookup_delete_Some. destruct (inv_in k q Hq) as (Hge & Hs & Ho & Hz).
      split_and!; try done; try lia.
    + intros k q [_ Hq]%lookup_delete_Some. by eapply inv_in_len.
    + intros k Hk. rewrite lookup_delete_ne by lia. apply inv_contiguous. lia.
    + by rewrite lookup_delete_ne by lia.
  - intros k q [_ Hq]%lookup_delete_Some. exists q. split; [done|]. by destruct q.
Qed.

(** Reading [n] more bytes of the packet at the cursor. *)
Lemma partial_reads s p n :
  RecvInv s -> s_incoming s !! s_read_cursor s = Some p ->
  0 <= n <= len (i_buf p) - i_read_offset p ->
  reads (take (Z.to_nat n) (drop (Z.to_nat (i_read_offset p)) (i_buf p))) s
    (s <| s_incoming ::= <[s_read_cursor s := p <| i_read_offset := i_read_offset p + n |>]> |>).
Proof.
  intros HR Hp Hn. destruct (cursor_packet s p HR Hp) as (Hlt & Hseq & Hoff & Hlen & Hun).
  pose proof HR as []. remember (p <| i_read_offset := i_read_offset p + n |>) as p' eqn:Ep'.
  assert (i_seq p' = i_seq p /\ i_buf p' = i_buf p /\ i_read_offset p' = i_read_offset p + n)
    as (Es' & Eb' & Eo') by by rewrite Ep'.
  assert (size (<[s_read_cursor s := p']> (s_incoming s)) = size (s_incoming s)) as Hsz
    by by rewrite map_size_insert, Hp.
  split; cbn; rewrite ?Hsz; try lia; [by destruct s| | |].
  - rewrite Hun. unfold unread. cbn. rewrite (chunks_cons _ (s_read_cursor s)) by lia.
    unfold chunk at 1. rewrite lookup_insert_eq, Eb', Eo', app_assoc. f_equal.
    + rewrite Z2Nat.inj_add by lia. rewrite <- drop_drop. by rewrite take_drop.
    + apply chunks_ext. intros k Hk. by rewrite lookup_insert_ne by lia.
  - split; cbn; rewrite ?Hsz; try lia.
    + intros k q [[<- <-]|[Hne Hq]]%lookup_insert_Some; [|by apply inv_in].
      rewrite Es', Eb', Eo'. split_and!; try done; lia.
    + intros k q [[<- <-]|[Hne Hq]]%lookup_insert_Some; [by rewrite Eb'|by eapply inv_in_len].
    + intros k Hk. destruct (decide (k = s_read_cursor s)) as [->|];
        [by rewrite lookup_insert_eq|rewrite lookup_insert_ne by done; by apply inv_contiguous].
    + by rewrite lookup_insert_ne by lia.
  - intros k q [[<- <-]|[Hne Hq]]%lookup_insert_Some; [exists p; by rewrite Ep'|].
    exists q. split; [done|]. by destruct q.
Qed.

Lemma unread_nil s :
  RecvInv s -> s_incoming s !! s_read_cursor s = None ->
  s_read_cursor s = s_ack s /\ unread s = [].
Proof.
  intros HR Hp. destruct (inv_cursor _ HR).
  assert (s_read_cursor s = s_ack s) as E.
  { destruct (decide (s_read_cursor s < s_ack s)) as [Hlt|]; [|lia].
    destruct (inv_contiguous _ HR (s_read_cursor s)) as [q Hq]; [lia|congruence]. }
  split; [done|]. unfold unread. by apply chunks_empty; lia.
Qed.

(** The postcondition of the reading loop. *)
Definition read_post (did : bool) (buf : B) (st : StreamSt) (r : bool * B) (st' : StreamSt) : Prop :=
  let '(did', buf') := r in
  let bytes := take (Z.to_nat (rb_remaining buf)) (unread (inner st)) in
  rb_filled buf' = rb_filled buf ++ bytes /\
  rb_remaining buf' = rb_remaining buf - len bytes /\
  reads bytes (inner st) (inner st') /\ world st' = world st /\
  did' = did || (s_read_cursor (inner st) <? s_read_cursor (inner st')) /\
  (s_read_cursor (inner st') = s_ack (inner st') \/
   exists p, s_incoming (inner st') !! s_read_cursor (inner st') = Some p /\
     i_read_offset p < len (i_buf p) /\ rb_remaining buf' = 0).

(** The exit of the loop with a packet that does not fit the buffer. *)
Lemma read_partial_wp did buf p st :
  RecvInv (inner st) -> s_incoming (inner st) !! s_read_cursor (inner st) = Some p ->
  rb_remaining buf < len (i_buf p) - i_read_offset p ->
  wp (stop ← lift (usize_add (i_read_offset p) (rb_remaining buf));
      bytes ← lift (slice (i_buf p) (i_read_offset p) stop);
      buf ← lift (rb_put_slice buf bytes);
      let packet := p <| i_read_offset := stop |> in
      _ ← set_self (fun s => s <| s_incoming ::= <[i_seq packet := packet]> |>);
      mret (did, buf))
    (fun r st' => read_post did buf st r st' /\ fst r = did /\
       s_read_cursor (inner st') = s_read_cursor (inner st))
    (st <| inner ::= fun s => s <| s_incoming ::= delete (s_read_cursor s) |> |>).
Proof.
  intros HR Hp Hbig. destruct (cursor_packet _ _ HR Hp) as (Hlt & Hseq & Hoff & Hlen & Hun).
  pose proof (rb_remaining_nonneg buf) as Hrem.
  set (rest := drop (Z.to_nat (i_read_offset p)) (i_buf p)) in *.
  assert (len rest = len (i_buf p) - i_read_offset p) as Hrest by (unfold rest; rewrite len_drop; lia).
  apply wp_bind. fits. apply wp_bind. eapply wp_lift; [apply slice_fits; lia|]. fold rest.
  rewrite Z.add_simpl_l.
  assert (len (take (Z.to_nat (rb_remaining buf)) rest) = rb_remaining buf) as Htake
    by (rewrite len_take; lia).
  destruct (rb_put_slice_fits buf (take (Z.to_nat (rb_remaining buf)) rest))
    as (buf' & Eput & Ef & Er); [lia|].
  apply wp_bind. eapply wp_lift; [exact Eput|]. st_run.
  assert (0 <= rb_remaining buf <= len (i_buf p) - i_read_offset p) as Hn by lia.
  pose proof (partial_reads _ p (rb_remaining buf) HR Hp Hn) as R. fold rest in R.
  cbv zeta. st_run.
  match goal with |- read_post _ _ _ _ ?x /\ _ => replace x with
    (st <| inner ::= fun s => s <| s_incoming ::=
       <[s_read_cursor s := p <| i_read_offset := i_read_offset p + rb_remaining buf |>]> |> |>) end.
  2:{ destruct st as [[] ?]. cbn in *. change (i_seq (mk_IncomingPacket _ _ _ _)) with (i_seq p).
      by rewrite Hseq, insert_delete_eq. }
  split; [|done]. unfold read_post. rewrite Hun, take_app_le by (clear -Hrest Hbig Hrem; unfold len in *; lia).
  rewrite Htake.
  split_and!; [done|lia|exact R|done|cbn; by rewrite Z.ltb_irrefl, orb_false_r|].
  right. eexists. cbn. split; [apply lookup_insert_eq|]. cbn. lia.
Qed.

(** [read_next] moves as many bytes as the buffer takes from the front of the
    unread queue; it reports a read iff it finished at least one packet. *)
Lemma read_loop_wp fuel did buf st :
  RecvInv (inner st) -> (size (s_incoming (inner st)) <= fuel)%nat ->
  wp (read_loop fuel did buf) (read_post did buf st) st.
Proof.
  revert did buf st. induction fuel as [|fuel IH]; intros did buf st HR Hf;
    cbn [read_loop]; apply wp_bind, wp_self; cbn [id];
    destruct (s_incoming (inner st) !! s_read_cursor (inner st)) as [p|] eqn:Hp.
  2,4: destruct (unread_nil _ HR Hp) as [Ec Eu]; apply wp_ret; unfold read_post; rewrite Eu, take_nil;
    rewrite app_nil_r, (proj2 (Z.ltb_ge _ _)), orb_false_r by done;
    change (len []) with 0; rewrite Z.sub_0_r;
    (split_and!; [done|done|by apply reads_refl|done|done|by left]).
  { assert (size (s_incoming (inner st)) = 0%nat) as E%map_size_empty_inv by lia.
    by rewrite E in Hp. }
  destruct (cursor_packet _ _ HR Hp) as (Hlt & Hseq & Hoff & Hlen & Hun).
  pose proof (rb_remaining_nonneg buf) as Hrem.
  pose proof (inv_cursor _ HR) as Hcur. pose proof (inv_ack_range _ HR) as Hmax.
  assert (size (s_incoming (inner st)) <> 0%nat) by (intros E%map_size_empty_inv; by rewrite E in Hp).
  apply wp_bind, wp_set_self, wp_bind.
  eapply wp_lift; [apply usize_sub_fits; clear -Hoff Hlen; consts; lia|].
  set (rest := drop (Z.to_nat (i_read_offset p)) (i_buf p)) in *.
  assert (len rest = len (i_buf p) - i_read_offset p) as Hrest by (unfold rest; rewrite len_drop; lia).
  rewrite Z.gtb_ltb.
  destruct (Z.ltb_spec (rb_remaining buf) (len (i_buf p) - i_read_offset p)) as [Hbig|Hsmall].
  - eapply wp_mono; [exact (read_partial_wp did buf p st HR Hp Hbig)|]. by intros r st' [? _].
  - apply wp_bind. eapply wp_lift; [apply slice_fits; lia|].
    rewrite take_ge by (fold rest; unfold len in *; lia). fold rest.
    destruct (rb_put_slice_fits buf rest) as (buf1 & Eput & Ef1 & Er1); [lia|].
    apply wp_bind. eapply wp_lift; [exact Eput|]. st_run. fits. st_run.
    pose proof (consume_reads _ _ HR Hp) as R1. fold rest in R1.
    match goal with |- wp _ _ ?x => set (st1 := x) end.
    change (update_field _ _ _) with (inner st1) in R1.
    eapply wp_mono.
    { apply (IH true buf1 st1); [apply R1|]. pose proof (rd_room _ _ _ R1). cbn in *. lia. }
    intros [did' buf'] st' (Hf' & Hr' & R2 & Hw & -> & Hend). unfold read_post. cbn [orb].
    assert (take (Z.to_nat (rb_remaining buf)) (unread (inner st)) =
            rest ++ take (Z.to_nat (rb_remaining buf1)) (unread (inner st1))) as Etake.
    { rewrite (rd_bytes _ _ _ R1), take_app. rewrite take_ge by (unfold len in *; lia).
      do 2 f_equal. unfold len in *. lia. }
    pose proof (rd_cursor _ _ _ R2) as Hc2. cbn in Hc2.
    rewrite Etake, Hf', Ef1, Hr', Er1, len_app, (proj2 (Z.ltb_lt _ _)), orb_true_r by lia.
    split_and!; [by rewrite app_assoc|lia|rewrite <- Er1; by eapply reads_trans|done|done|].
    destruct Hend as [?|(q & Hq & Ho & Hz)]; [by left|right]. exists q. rewrite Hr', Er1 in Hz. by split_and!.
Qed.

Lemma read_next_wp buf st :
  RecvInv (inner st) -> wp (read_next buf) (read_post false buf st) st.
Proof. intros HR. unfold read_next. st_run. by apply read_loop_wp. Qed.

Lemma reads_StreamInv sent bytes st st' :
  StreamInv sent st -> reads bytes (inner st) (inner st') -> world st' = world st ->
  StreamInv sent st'.
Proof.
  intros HI R Ew. pose proof (rd_frame _ _ _ R) as Ef.
  assert (same_peer (inner st) (inner st')) as Hp by by rewrite Ef.
  split; [|apply R|].
  - eapply SendInv_frame, HI; rewrite ?Ew; try (by rewrite Ef); try done.
    replace (s_send_queue (inner st')) with (s_send_queue (inner st)) by (by rewrite Ef).
    eapply queue_ok_mono, HI; try done. by rewrite Ew.
  - eapply CtrlInv_frame, HI; rewrite ?Ew; try (by rewrite Ef); try done. rewrite Ef. apply HI.
Qed.

Lemma reads_Room n b bytes st st' :
  reads bytes (inner st) (inner st') -> Room n b st -> Room n b st'.
Proof.
  intros R HR. pose proof (rd_frame _ _ _ R) as Ef. pose proof (rd_room _ _ _ R). pose proof HR as [].
  eapply Room_frame, HR; rewrite Ef; cbn; lia.
Qed.

(** [poll_read]: bytes come off the unread queue; the result is [Ready] when a
    packet was finished, otherwise the stream's error or [Pending] with the
    reader's waker registered. *)
Lemma poll_read_wp sent cx buf st :
  StreamInv sent st ->
  wp (poll_read cx buf) (fun r st' =>
    let '(res, buf') := r in
    let bytes := take (Z.to_nat (rb_remaining buf)) (unread (inner st)) in
    exists st1,
    StreamInv sent st' /\
    rb_filled buf' = rb_filled buf ++ bytes /\
    rb_remaining buf' = rb_remaining buf - len bytes /\
    reads bytes (inner st) (inner st1) /\ world st1 = world st /\
    (s_read_cursor (inner st1) = s_ack (inner st1) \/
     exists p, s_incoming (inner st1) !! s_read_cursor (inner st1) = Some p /\
       i_read_offset p < len (i_buf p) /\ rb_remaining buf' = 0) /\
    (if s_read_cursor (inner st) <? s_read_cursor (inner st1)
     then res = Ready (Ok tt) /\ st' = st1
     else match s_error (inner st) with
          | Some e => res = Ready (Err (io_error_from_Udx e)) /\ st' = st1
          | None => res = Pending /\
              st' = st1 <| inner ::= fun s => s <| s_read_waker := Some cx |> |>
          end)) st.
Proof.
  intros HI. unfold poll_read. apply wp_bind. eapply wp_mono; [apply read_next_wp, HI|].
  intros [did buf'] st1 (Hf & Hr & R & Ew & -> & Hend). cbn [orb].
  pose proof (reads_StreamInv sent _ _ _ HI R Ew) as HI1.
  assert (s_error (inner st1) = s_error (inner st)) as Ee by by rewrite (rd_frame _ _ _ R).
  destruct (s_read_cursor (inner st) <? s_read_cursor (inner st1)) eqn:Ec; cbn [negb].
  { apply wp_ret. exists st1. rewrite Ec. by split_and!. }
  apply wp_bind, wp_self. rewrite Ee. destruct (s_error (inner st)); st_run; exists st1; rewrite Ec.
  - by split_and!.
  - split_and!; try done. eapply StreamInv_frame, HI1; try done.
    eapply CtrlInv_frame, HI1; try done; apply HI1.
Qed.

End reading.
