(* ===== verification/StreamDriver.v ===== *)
(** The stream driver: handing the send queue to the socket in batches, and one
    whole poll of the driver task. *)

From S2P Require Import Prelude Constants Errors UdpProto Packet Runtime Stream StreamInv StreamCtrl.
From S2P Require Import StreamSend StreamTimer StreamAck StreamRecv.

Local Open Scope Z_scope.

Section driver.
Context `{Profile} {AI : AtomicInstant} {AIL : AtomicInstantLaws AI}.
Implicit Types (st : StreamSt) (sent : list (list byte)).

(** ** Batching *)

(** A batch that one [sendmsg] can carry as a segmented datagram: between one
    and [max] packets, all of [sz] bytes. *)
Definition batch_ok (store : list Packet) (max : Z) (b : Z * list PacketRef) : Prop :=
  1 <= len (snd b) <= max /\
  Forall (fun r => exists p, deref store r = Ret p /\ Packet_len p = fst b) (snd b).

Definition batch_event (addr : SocketAddr) (b : Z * list PacketRef) : EventOutgoing :=
  EvTransmit (PacketSet_new addr (snd b) (fst b)).

Lemma packet_ok_len sent s p : packet_ok sent s p -> UDX_HEADER_SIZE <= Packet_len p <= UDX_MTU.
Proof.
  intros (_ & _ & _ & _ & [Hd|[_ Hs]]).
  - apply data_packet_len in Hd as [? _]. lia.
  - unfold Packet_len, PacketBuf_len. rewrite Hs, len_header_bytes.
    unfold UDX_HEADER_SIZE, UDX_MTU. lia.
Qed.

(** The batch under construction: empty only before the first packet. *)
Definition open_batch (store : list Packet) (max sz : Z) (q : list PacketRef) : Prop :=
  (q = [] /\ sz = 0) \/ batch_ok store max (sz, q).

Lemma open_batch_push store max sz q r p :
  deref store r = Ret p -> Packet_len p = sz -> 0 < sz -> open_batch store max sz q ->
  len q <> max -> open_batch store max sz (q ++ [r]).
Proof.
  intros Hr Hl Hpos [[-> ->]|[Hlen Hall]] Hne; [lia|]. right. split; cbn in *.
  - rewrite len_app. change (len [r]) with 1. lia.
  - apply Forall_app. split; [done|]. constructor; [|done]. by exists p.
Qed.

(** Sending the finished batch, if there is one. *)
Lemma send_open_batch_wp sz q st :
  w_tx_open (world st) = true ->
  wp (match q with [] => mret tt | _ => send_full_batch q sz end) (fun _ st' =>
    st' = st <| world ::= fun w => w <| w_tx ::= fun l => l ++
      map (batch_event (s_remote_addr (inner st))) (match q with [] => [] | _ => [(sz, q)] end) |> |>) st.
Proof.
  intros Hopen. destruct q as [|r q].
  - apply wp_ret. destruct st as [? []]; cbn. by rewrite app_nil_r.
  - unfold send_full_batch. st_run. apply wp_on_world, wp_send_event; [|congruence].
    intros _. by apply wp_ret.
Qed.

Lemma transmit_loop_wp sent st0 max sq : forall st sz q,
  1 <= max -> w_tx_open (world st) = true ->
  w_store (world st) = w_store (world st0) -> s_remote_addr (inner st) = s_remote_addr (inner st0) ->
  s_send_queue (inner st) = sq -> Forall (ref_ok sent st0) sq ->
  open_batch (w_store (world st0)) max sz q ->
  wp (transmit_loop sq max sz q) (fun r st' => exists bs,
    open_batch (w_store (world st0)) max (fst r) (snd r) /\
    Forall (batch_ok (w_store (world st0)) max) bs /\
    concat (map snd bs) ++ snd r = q ++ sq /\
    st' = st <| inner ::= fun s => s <| s_send_queue := [] |> |>
             <| world ::= fun w => w <| w_tx ::= fun l => l ++
                  map (batch_event (s_remote_addr (inner st0))) bs |> |>) st.
Proof.
  induction sq as [|r sq IH]; intros st sz q Hmax Hopen Est Ea Eq Hall Hq; cbn [transmit_loop].
  { apply wp_ret. exists []. cbn. rewrite app_nil_r. split_and!; try done.
    destruct st as [[] []]; cbn in *. by rewrite app_nil_r, Eq. }
  inversion_clear Hall as [|? ? Hr Hrest]. destruct Hr as (p & Hd & Hok).
  pose proof (packet_ok_len _ _ _ Hok) as Hl. unfold UDX_HEADER_SIZE in Hl.
  apply wp_bind, wp_set_self, wp_bind.
  eapply wp_load_ref; [cbn; rewrite Est; exact Hd|]. fold (Packet_len p).
  assert (batch_ok (w_store (world st0)) max (Packet_len p, [r])) as Hnew.
  { split; cbn; [change (len [r]) with 1; lia|]. constructor; [|done]. by exists p. }
  destruct (decide (Packet_len p = sz /\ len q <> max)) as [[El Hm]|Hcut].
  { rewrite (proj2 (Z.eqb_eq _ _) El), (proj2 (Z.eqb_neq _ _) Hm). cbn [negb orb].
    eapply wp_mono; [apply (IH _ sz (q ++ [r])); try done|].
    - eapply open_batch_push; try done. lia.
    - intros [sz' q'] st' (bs & Ho & Hb & Ec & ->). exists bs. split_and!; try done.
      by rewrite Ec, <- app_assoc. }
  assert (negb (Packet_len p =? sz) || (len q =? max) = true) as ->.
  { destruct (Z.eqb_spec (Packet_len p) sz), (Z.eqb_spec (len q) max); tauto || done. }
  apply wp_bind. eapply wp_mono; [by apply send_open_batch_wp|].
  intros [] st2 ->. eapply wp_mono; [apply (IH _ (Packet_len p) [r]); try done; by right|].
  intros [sz' q'] st' (bs & Ho & Hb & Ec & ->).
  exists (match q with [] => [] | _ => [(sz, q)] end ++ bs). split_and!; [done|..].
  - apply Forall_app. split; [|done]. destruct Hq as [[-> _]|Hq]; [done|].
    destruct q; [done|]. by constructor.
  - rewrite map_app, concat_app, <- app_assoc, Ec. destruct q; cbn; [done|].
    by rewrite app_nil_r.
  - cbn. rewrite map_app, app_assoc, <- Ea. by destruct st as [[] []].
Qed.

(** [poll_transmit] empties the queue into one event per batch; the batches
    are the queue cut into pieces, in order. *)
Lemma poll_transmit_wp sent st :
  StreamInv sent st -> w_tx_open (world st) = true ->
  wp poll_transmit (fun _ st' => exists bs,
    concat (map snd bs) = s_send_queue (inner st) /\
    Forall (batch_ok (w_store (world st)) (Z.min (w_max_gso_segments (world st)) MAX_SEGMENTS)) bs /\
    st' = st <| inner ::= fun s => s <| s_send_queue := [] |> |>
             <| world ::= fun w => w <| w_tx ::= fun l => l ++
                  map (batch_event (s_remote_addr (inner st))) bs |> |>) st.
Proof.
  intros HI Hopen. unfold poll_transmit. st_run.
  pose proof (inv_gso _ (inv_ctrl _ _ HI)).
  eapply wp_mono.
  { eapply (transmit_loop_wp sent st); try done; [unfold MAX_SEGMENTS; lia|apply HI|by left]. }
  intros [sz q] st1 (bs & Ho & Hb & Ec & ->). cbn [fst snd] in *.
  destruct Ho as [[-> ->]|Hq].
  { apply wp_ret. exists bs. rewrite app_nil_r in Ec. by split_and!. }
  destruct q as [|r q]; [destruct Hq as [[Hl _] _]; by cbv in Hl|].
  st_run. apply wp_on_world, wp_send_event; [intros _|cbn; congruence]. st_run.
  exists (bs ++ [(sz, r :: q)]). rewrite !map_app, concat_app. cbn [map concat snd].
  rewrite app_nil_r. split_and!; [done| |].
  - apply Forall_app. split; [done|]. by constructor.
  - cbn. by rewrite app_assoc.
Qed.

(** ** What a poll of the driver hands to the socket *)

Definition sized_ref_ok (sent : list (list byte)) (st : StreamSt) (sz : Z) (r : PacketRef) : Prop :=
  exists p, deref (w_store (world st)) r = Ret p /\ packet_ok sent (inner st) p /\ Packet_len p = sz.

(** Packet sets go to the peer, have at most [MAX_SEGMENTS] packets, all of the
    announced size, and all of them packets of this stream. *)
Definition event_ok (sent : list (list byte)) (st : StreamSt) (ev : EventOutgoing) : Prop :=
  match ev with
  | EvTransmit set =>
      ps_dest set = s_remote_addr (inner st) /\ 1 <= len (ps_packets set) <= MAX_SEGMENTS /\
      exists sz, ps_segment_size set = Some sz /\ Forall (sized_ref_ok sent st sz) (ps_packets set)
  | EvTransmitDgram _ => False
  | EvStreamDropped id => id = s_local_id (inner st)
  end.

Lemma event_ok_mono sent sent' st st' ev :
  sent `prefix_of` sent' -> same_peer (inner st) (inner st') ->
  s_local_id (inner st') = s_local_id (inner st) ->
  store_ext (w_store (world st)) (w_store (world st')) ->
  event_ok sent st ev -> event_ok sent' st' ev.
Proof.
  intros Hpre Hp Hid X. pose proof Hp as (Ha & _).
  destruct ev as [set| |]; cbn; [|done|by rewrite Hid].
  intros (Hd & Hlen & sz & Hsz & Hall). split; [by rewrite Ha|split; [done|]].
  exists sz. split; [done|]. eapply Forall_impl; [exact Hall|].
  intros r (p & Hr & Hok & Hl).
  destruct r as [q|l]; cbn in Hr; simplify_eq.
  - exists p. split_and!; try done. by eapply packet_ok_mono.
  - unfold deref_loc in Hr. destruct (w_store (world st) !! l) as [q|] eqn:E; simplify_eq.
    destruct (X l p E) as (p' & E' & Hx). exists p'.
    unfold deref, deref_loc. rewrite E'. split_and!; [done|by eapply packet_ok_mono|].
    destruct Hx as (_ & Eb & _). unfold Packet_len. by rewrite Eb.
Qed.

Lemma event_ok_ext sent st st' ev : ext st st' -> event_ok sent st ev -> event_ok sent st' ev.
Proof. intros X. apply event_ok_mono; [done|split_and!|..]; apply X. Qed.

Record drives (sent : list (list byte)) (ps : list IncomingPacket) (t : Z) (st st' : StreamSt)
  : Prop := {
  dr_ext : ext st st';
  dr_absorbed : absorbed ps (inner st) (inner st');
  dr_seq : s_seq (inner st') = s_seq (inner st);
  dr_cwnd : s_cwnd (inner st') <= s_cwnd (inner st) + UDX_MTU * len ps;
  dr_outgoing : s_outgoing (inner st') ⊆ s_outgoing (inner st);
  dr_kept : no_sacks ps -> forall k, s_remote_acked (inner st') <= k ->
    s_outgoing (inner st') !! k = s_outgoing (inner st) !! k;
  dr_above : forall k l, s_outgoing (inner st') !! k = Some l -> k < s_remote_acked (inner st') ->
    k < s_remote_acked (inner st);
  dr_remote_acked : s_remote_acked (inner st') <= Z.max (s_remote_acked (inner st)) (max_ack 0 ps);
  dr_tx : exists evs, w_tx (world st') = w_tx (world st) ++ evs /\ Forall (event_ok sent st') evs;
  dr_error : is_Some (s_error (inner st)) -> is_Some (s_error (inner st'));
  dr_tx_packets : tx_packets (s_stats (inner st)) <= tx_packets (s_stats (inner st')) <=
    tx_packets (s_stats (inner st)) + 2 * len ps + t;
  dr_tx_bytes : tx_bytes (s_stats (inner st')) = tx_bytes (s_stats (inner st));
  dr_rx_packets : rx_packets (s_stats (inner st)) <= rx_packets (s_stats (inner st')) <=
    rx_packets (s_stats (inner st)) + len ps;
  dr_rx_bytes : rx_bytes (s_stats (inner st)) <= rx_bytes (s_stats (inner st')) <=
    rx_bytes (s_stats (inner st)) + len (concat (map i_buf ps));
}.

Lemma handled_drives sent ps st st' :
  handled_all ps st st' -> (no_sacks ps -> same_table st st') ->
  drives sent ps 0 st st'.
Proof.
  intros [] Ho. split; try done; try lia; [intros Hns k _; by rewrite (proj1 (Ho Hns))|].
  exists []. rewrite app_nil_r. by split; [|constructor].
Qed.

(** Acknowledgement, timeout and retransmission steps after the packets. *)
Lemma drives_keeps sent ps st st1 st2 :
  drives sent ps 0 st st1 -> keeps st1 st2 ->
  s_outgoing (inner st2) ⊆ s_outgoing (inner st1) ->
  (forall k, s_remote_acked (inner st2) <= k ->
     s_outgoing (inner st2) !! k = s_outgoing (inner st1) !! k) ->
  (forall k l, s_outgoing (inner st2) !! k = Some l -> k < s_remote_acked (inner st2) ->
     k < s_remote_acked (inner st1)) ->
  s_cwnd (inner st2) <= s_cwnd (inner st1) \/
    s_cwnd (inner st2) <= s_cwnd (inner st) ->
  w_tx (world st2) = w_tx (world st1) ->
  s_remote_acked (inner st2) <= Z.max (s_remote_acked (inner st)) (max_ack 0 ps) ->
  drives sent ps 0 st st2.
Proof.
  intros D K Ho Hkp Hab Hc Ht Hra. destruct (dr_tx _ _ _ _ _ D) as (evs & Etx & Hevs).
  destruct (kp_stats _ _ K) as (a & b & Es). pose proof (len_nonneg ps).
  split; rewrite ?Es; cbn; try apply D; try lia.
  - transitivity st1; [apply D|apply K].
  - eapply absorbed_frame, D; apply K.
  - rewrite (kp_seq _ _ K). apply D.
  - pose proof (dr_cwnd _ _ _ _ _ D). unfold UDX_MTU in *. lia.
  - transitivity (s_outgoing (inner st1)); [done|apply D].
  - intros Hns k Hk. rewrite Hkp by done. apply D; [done|].
    pose proof (ext_remote_acked _ _ (kp_ext _ _ K)). lia.
  - intros k l Hk Hlt. eapply (dr_above _ _ _ _ _ D); [by eapply map_subseteq_spec|by eapply Hab].
  - exists evs. split; [congruence|]. eapply Forall_impl; [exact Hevs|].
    intros ev. apply event_ok_ext, K.
  - rewrite (kp_error _ _ K). apply D.
Qed.

Lemma drives_Room sent ps t n b st st' :
  0 <= t <= 1 -> drives sent ps t st st' ->
  Room (n + len ps + t) (b + len (concat (map i_buf ps))) st -> Room n b st'.
Proof.
  intros Ht D HR. pose proof HR as []. pose proof (ab_size _ _ _ (dr_absorbed _ _ _ _ _ D)).
  pose proof (ab_cursor _ _ _ (dr_absorbed _ _ _ _ _ D)).
  pose proof (len_nonneg ps). pose proof (len_nonneg (concat (map i_buf ps))).
  destruct D. eapply Room_frame, HR; unfold UDX_MTU in *; lia.
Qed.

(** ** The steps of [poll_drive] *)

Lemma incoming_drives sent rx st :
  let ps := script_packets rx in
  StreamInv sent st -> Forall incoming_ok ps -> Room (len ps) (len (concat (map i_buf ps))) st ->
  wp (poll_incoming rx) (fun r st' => StreamInv sent st' /\ drives sent ps 0 st st' /\
    r = if rx_closed rx then Err driver_dropped_error else Ok tt) st.
Proof.
  intros ps HI Hok HR. eapply wp_mono; [by apply (poll_incoming_wp sent)|]. fold ps.
  intros r st' (HI' & st1 & HI1 & H1 & Ho1 & _ & Hcase). split; [done|].
  pose proof (handled_drives sent ps st st1 H1 Ho1) as D1.
  destruct Hcase as [(-> & -> & ->)|(-> & -> & [[_ ->]|(Hlt & st2 & A & HI2 & Era & ->)])];
    split; try done.
  pose proof (rearmed_keeps (s_rto (inner st2)) st2) as K2.
  assert (s_outgoing (inner (wake_writer st2)) = s_outgoing (inner st2) /\
          s_cwnd (inner (wake_writer st2)) = s_cwnd (inner st2) /\
          w_tx (world (wake_writer st2)) = w_tx (world st2) /\
          s_remote_acked (inner (wake_writer st2)) = s_remote_acked (inner st2)) as (E1 & E2 & E3 & E4)
    by (unfold wake_writer; by destruct (_ <=? _)).
  eapply (drives_keeps sent ps st st1); [done|transitivity st2; [apply A|done]|..]; cbn.
  - rewrite E1. apply map_subseteq_spec. intros k l Hk. rewrite (ac_outgoing _ _ _ A) in Hk.
    by destruct (_ && _).
  - intros k Hk. rewrite E4, Era in Hk. rewrite E1, (ac_outgoing _ _ _ A).
    by rewrite (proj2 (Z.ltb_ge _ _)), andb_false_r by lia.
  - intros k l Hk Hkl. rewrite E4, Era in Hkl. rewrite E1, (ac_outgoing _ _ _ A) in Hk.
    destruct (Z.leb_spec (s_remote_acked (inner st1)) k); [|lia].
    by rewrite (proj2 (Z.ltb_lt _ _)) in Hk by lia.
  - rewrite E2, (ac_cwnd _ _ _ A). by left.
  - rewrite E3. apply A.
  - rewrite E4, Era. lia.
Qed.

Lemma timeouts_drives sent ps timer_ready st st1 :
  StreamInv sent st1 -> drives sent ps 0 st st1 ->
  wp (poll_check_timeouts timer_ready) (fun r st' => StreamInv sent st' /\ drives sent ps 0 st st' /\
    (r = Ok tt \/ r = Err max_retransmits_error)) st1.
Proof.
  intros HI D. eapply wp_mono; [by apply (poll_check_timeouts_wp sent)|].
  intros r st' (HI' & [(_ & -> & ->)|(_ & st0 & i & E0 & K0 & M & Hr)]); [by auto|].
  split; [done|]. split; [|destruct Hr as [[-> _]|[-> _]]; auto].
  pose proof (inv_cwnd _ (inv_ctrl _ _ HI)) as Hc.
  eapply (drives_keeps sent ps st st1); [done|transitivity st0; [done|apply M]|..].
  - rewrite (mk_outgoing _ _ _ _ M), E0. done.
  - intros k _. rewrite (mk_outgoing _ _ _ _ M), E0. done.
  - intros k l _. by rewrite (mk_remote_acked _ _ _ _ M), E0.
  - left. rewrite (mk_cwnd _ _ _ _ M), E0. cbn. unfold UDX_MTU in *.
    pose proof (Z.div_le_upper_bound (s_cwnd (inner st1)) 2 (s_cwnd (inner st1))). lia.
  - rewrite (mk_tx _ _ _ _ M), E0. done.
  - rewrite (mk_remote_acked _ _ _ _ M), E0. apply D.
Qed.

Lemma flush_drives sent ps st st1 :
  StreamInv sent st1 -> drives sent ps 0 st st1 ->
  wp flush_waiting_packets (fun _ st' => StreamInv sent st' /\ drives sent ps 0 st st') st1.
Proof.
  intros HI D. eapply wp_mono; [by apply (flush_waiting_packets_wp sent)|].
  intros [] st' (HI' & ks & i & F & _). split; [done|].
  eapply (drives_keeps sent ps st st1); [done|apply F|..].
  - by rewrite (fl_outgoing _ _ _ F).
  - intros k _. by rewrite (fl_outgoing _ _ _ F).
  - intros k l _. by rewrite (fl_remote_acked _ _ _ F).
  - left. by rewrite (fl_cwnd _ _ _ F).
  - apply F.
  - rewrite (fl_remote_acked _ _ _ F). apply D.
Qed.

(** A batch of sound references is a sound event. *)
Lemma batch_event_ok sent st bs :
  StreamInv sent st -> concat (map snd bs) = s_send_queue (inner st) ->
  Forall (batch_ok (w_store (world st)) (Z.min (w_max_gso_segments (world st)) MAX_SEGMENTS)) bs ->
  Forall (event_ok sent st) (map (batch_event (s_remote_addr (inner st))) bs).
Proof.
  intros HI Ec Hb. pose proof (inv_queue _ _ HI) as Hq. rewrite <- Ec in Hq. clear Ec.
  induction Hb as [|[sz q] bs [Hlen Hall] _ IH]; [constructor|]. cbn in Hq, Hlen, Hall.
  apply Forall_app in Hq as [Hq Hqs]. constructor; [|by apply IH].
  cbn. split; [done|]. split; [lia|]. exists sz. split; [done|].
  apply Forall_forall. intros r Hr.
  rewrite Forall_forall in Hall, Hq. destruct (Hall r Hr) as (p & Hd & Hl).
  destruct (Hq r Hr) as (p' & Hd' & Hok). exists p.
  assert (p' = p) as -> by congruence. by split_and!.
Qed.

Lemma transmit_drives sent ps st st1 :
  StreamInv sent st1 -> drives sent ps 0 st st1 -> w_tx_open (world st1) = true ->
  wp poll_transmit (fun _ st' => StreamInv sent st' /\ drives sent ps 0 st st' /\
    s_send_queue (inner st') = []) st1.
Proof.
  intros HI D Hopen. eapply wp_mono; [by apply (poll_transmit_wp sent)|].
  intros [] st' (bs & Ec & Hb & E').
  pose proof (batch_event_ok sent st1 bs HI Ec Hb) as Hev.
  assert (ext st1 st') as X by by rewrite E'.
  split_and!; [| |by rewrite E'].
  - split; rewrite E'.
    + eapply SendInv_frame, HI; try done.
    + by eapply RecvInv_frame, HI.
    + eapply CtrlInv_frame, HI; try done. apply HI.
  - destruct (dr_tx _ _ _ _ _ D) as (evs & Etx & Hevs).
    split; try (rewrite E'; apply D).
    + transitivity st1; [apply D|done].
    + eapply absorbed_frame, D; by rewrite E'.
    + exists (evs ++ map (batch_event (s_remote_addr (inner st1))) bs). split.
      * rewrite E'. cbn. by rewrite Etx, app_assoc.
      * apply Forall_app. split; [eapply Forall_impl; [exact Hevs|]|eapply Forall_impl; [exact Hev|]];
          intros ev; by apply event_ok_ext.
Qed.

Lemma poll_drive_wp sent rx timer_ready st :
  let ps := script_packets rx in
  StreamInv sent st -> Forall incoming_ok ps -> Room (len ps) (len (concat (map i_buf ps))) st ->
  w_tx_open (world st) = true ->
  wp (poll_drive rx timer_ready) (fun r st' => StreamInv sent st' /\ drives sent ps 0 st st' /\
    ((r = Ok false /\ s_send_queue (inner st') = [] /\ rx_closed rx = false) \/
     (r = Err driver_dropped_error /\ rx_closed rx = true) \/
     (r = Err max_retransmits_error /\ rx_closed rx = false))) st.
Proof.
  intros ps HI Hok HR Hopen. unfold poll_drive.
  apply wp_bind. eapply wp_mono; [by apply (incoming_drives sent)|]. fold ps.
  intros r st1 (HI1 & D1 & ->). destruct (rx_closed rx).
  { apply wp_ret. split_and!; auto. }
  apply wp_bind. eapply wp_mono; [by eapply (timeouts_drives sent ps)|].
  intros r st2 (HI2 & D2 & [-> | ->]). 2:{ apply wp_ret. split_and!; auto. }
  apply wp_bind. eapply wp_mono; [by eapply (flush_drives sent ps)|].
  intros [] st3 (HI3 & D3). apply wp_bind. eapply wp_mono.
  { eapply (transmit_drives sent ps); [done|done|].
    by rewrite (ext_tx_open _ _ (dr_ext _ _ _ _ _ D3)). }
  intros [] st4 (HI4 & D4 & Eq). apply wp_ret. split_and!; auto.
Qed.

(** ** One poll of the driver task *)

(** The state in which [StreamDriver::poll] looks at the stream. *)
Definition unwoken (st : StreamSt) : StreamSt :=
  st <| inner ::= fun s => s <| s_drive_waker := None |> |>.

Lemma frame_waker sent st w :
  StreamInv sent st -> StreamInv sent (st <| inner ::= fun s => s <| s_drive_waker := w |> |>).
Proof.
  intros HI. eapply StreamInv_frame, HI; try done. eapply CtrlInv_frame, HI; try done; apply HI.
Qed.

(** Finishing: the close signal is fired and the socket is told. *)
Definition finished (st : StreamSt) : StreamSt :=
  mk_StreamSt ((inner st) <| s_drive_waker := None |> <| s_on_close := None |>)
    ((world st) <| w_signals ::= fun l => l ++ option_list (s_on_close (inner st)) |>
       <| w_tx ::= fun l => if w_tx_open (world st)
                            then l ++ [EvStreamDropped (s_local_id (inner st))] else l |>).

Lemma drives_calm sent ps st st1 st2 k :
  drives sent ps 0 st st1 -> calm st1 st2 ->
  tx_packets (s_stats (inner st2)) = tx_packets (s_stats (inner st1)) + k -> 0 <= k ->
  (is_Some (s_error (inner st1)) -> is_Some (s_error (inner st2))) -> drives sent ps k st st2.
Proof.
  intros D C Ht Hk He. destruct (dr_tx _ _ _ _ _ D) as (evs & Etx & Hevs).
  destruct (calm_stats _ _ C) as [n Es]. pose proof (dr_tx_packets _ _ _ _ _ D).
  split; try (rewrite ?Es; apply D); try lia.
  - transitivity st1; [apply D|apply C].
  - eapply absorbed_frame, D; apply C.
  - rewrite (calm_seq _ _ C). apply D.
  - rewrite (calm_cwnd _ _ C). apply D.
  - rewrite (calm_outgoing _ _ C). apply D.
  - rewrite (calm_outgoing _ _ C), (calm_remote_acked _ _ C). apply D.
  - rewrite (calm_outgoing _ _ C), (calm_remote_acked _ _ C). apply D.
  - rewrite (calm_remote_acked _ _ C). apply D.
  - exists evs. rewrite (calm_tx _ _ C). split; [done|]. eapply Forall_impl; [exact Hevs|].
    intros ev. apply event_ok_ext, C.
  - intros Hs. apply He. by apply D.
Qed.

Lemma drives_weaken sent ps t t' st st' : t <= t' -> drives sent ps t st st' -> drives sent ps t' st st'.
Proof. intros ? []. split; try done. lia. Qed.

Lemma calm_waker st w : calm st (st <| inner ::= fun s => s <| s_drive_waker := w |> |>).
Proof.
  split; try done. exists (tx_packets (s_stats (inner st))). cbn. by destruct (s_stats (inner st)).
Qed.

Lemma unwoken_drives sent ps t st st' : drives sent ps t (unwoken st) st' -> drives sent ps t st st'.
Proof.
  intros []. split; try done.
  - etransitivity; [apply (calm_ext _ _ (calm_waker st None))|done].
  - by destruct dr_absorbed0.
Qed.

(** [StreamDriver::poll]: it completes exactly when the stream has failed or
    been closed and nothing is left to send or to be acknowledged; otherwise
    it drives the stream, and an error of [poll_drive] terminates the stream
    and re-schedules the task. *)
Lemma driver_poll_wp sent cx rx timer_ready st :
  let ps := script_packets rx in
  StreamInv sent st -> Forall incoming_ok ps ->
  Room (len ps + 1) (len (concat (map i_buf ps))) st -> w_tx_open (world st) = true ->
  wp (driver_poll cx rx timer_ready) (fun r st' => StreamInv sent st' /\
    if closed_and_drained (inner st) then r = Ready tt /\ st' = finished st
    else r = Pending /\ drives sent ps 1 st st' /\
      ((s_send_queue (inner st') = [] /\ s_drive_waker (inner st') = Some cx /\ rx_closed rx = false) \/
       (exists e, (e = driver_dropped_error \/ e = max_retransmits_error) /\
          s_error (inner st') = Some (UdxError_from_io e) /\
          local_closed (s_state (inner st')) = true /\
          (exists q p, s_send_queue (inner st') = q ++ [Owned p] /\ h_typ (p_header p) = UDX_HEADER_END) /\
          (exists l, w_woken (world st') = l ++ [cx])))) st.
Proof.
  intros ps HI Hok HR Hopen. unfold driver_poll. apply wp_bind, wp_set_self. fold (unwoken st).
  apply wp_bind, wp_self. change (closed_and_drained (inner (unwoken st))) with
    (closed_and_drained (inner st)).
  pose proof (frame_waker sent st None HI) as HI0.
  destruct (closed_and_drained (inner st)) eqn:Ecd.
  { st_run. apply wp_on_world, wp_send_event; [intros _|cbn; congruence]. st_run.
    assert (forall s1 s2, s1 = finished st -> s1 = s2 -> StreamInv sent s1 ->
      StreamInv sent s2 /\ Ready tt = Ready tt /\ s2 = finished st) as Hfin by (by intros ? ? -> <-).
    eapply (Hfin (finished st)); [done| |].
    - unfold finished. rewrite Hopen. done.
    - eapply StreamInv_frame, HI; try done. eapply CtrlInv_frame, HI; try done; apply HI. }
  apply wp_bind. eapply wp_mono.
  { apply (poll_drive_wp sent); try done. fold ps.
    apply (Room_weaken (len ps + 1) (len (concat (map i_buf ps)))); [lia..|]. destruct HR; by split. }
  fold ps. intros r st1 (HI1 & D1 & Hr). apply unwoken_drives in D1.
  destruct Hr as [(-> & Eq & Ecl)|Herr].
  { st_run. split; [by apply frame_waker|]. split; [done|]. split; [|by left].
    apply (drives_weaken sent ps 0 1); [lia|].
    eapply (drives_calm sent ps st st1 _ 0); [done|apply calm_waker|cbn; lia..|done]. }
  assert (exists e, r = Err e /\ (e = driver_dropped_error \/ e = max_retransmits_error))
    as (e & -> & He) by (destruct Herr as [[-> _]|[-> _]]; eauto).
  pose proof (dr_tx_packets _ _ _ _ _ D1). pose proof (room_tx_packets _ _ _ HR).
  pose proof (len_nonneg ps).
  apply wp_bind, wp_bind. eapply wp_mono; [apply (terminate_wp sent); [done|lia..]|].
  intros [] st2 (HI2 & C & (p & Hq & Htyp & _) & Htx & Hse & Hst & _ & _ & _ & _).
  st_run. split.
  { eapply StreamInv_frame, HI2; try done. eapply CtrlInv_frame, HI2; try done; apply HI2. }
  split; [done|]. split.
  - assert (drives sent ps 1 st st2) as D2 by (eapply drives_calm; [done|done|lia..|by rewrite Hse]).
    destruct D2. split; try done. etransitivity; [exact dr_ext0|done].
  - right. exists e. split_and!; try done.
    + cbn. by rewrite Hst, local_closed_close_local.
    + by exists (s_send_queue (inner st1)), p.
    + by eexists.
Qed.

End driver.
