(* ===== verification/StreamSpec.v ===== *)
(** What a stream guarantees, whatever arrives from the network.

    The theorems of this file are about a single stream: any sequence of calls
    and driver polls, with arbitrary incoming packets, is safe; and each
    operation does what its contract says. *)

From Stdlib Require Import Sorted.
From S2P Require Import Prelude Constants Errors UdpProto Packet Runtime Stream StreamInv StreamCtrl.
From S2P Require Import StreamSend StreamTimer StreamAck StreamRecv StreamDriver.

Local Open Scope Z_scope.

(** A slice-backed [ReadBuf]: what was filled, and the capacity left. *)
#[export] Instance slice_read_buf : ReadBuf (list byte * Z) := {
  rb_filled b := fst b;
  rb_remaining b := Z.max 0 (Z.min (snd b) (usize_modulus - 1));
  rb_put_slice b v :=
    let room := Z.max 0 (Z.min (snd b) (usize_modulus - 1)) in
    if len v <=? room then Ret (fst b ++ v, room - len v) else Panic AssertionFailed;
}.

#[export] Instance slice_read_buf_laws : ReadBufLaws (list byte * Z).
Proof.
  split.
  - intros [f n]. cbn. unfold usize_modulus. lia.
  - intros [f n] v. cbn. intros Hv. rewrite (proj2 (Z.leb_le _ _)) by lia.
    eexists. split; [done|]. cbn. split; [done|]. pose proof (len_nonneg v).
    unfold usize_modulus in *. lia.
Qed.

(** A world at clock 0, with room for [gso] segments and an open channel. *)
Definition fresh_world `{AtomicInstant} (gso : Z) : World :=
  mk_World [] gso true [] [] [] [] (fun n => Z.of_nat n mod 1000) 0.

Section ops.
Context `{Profile} {AI : AtomicInstant} {AIL : AtomicInstantLaws AI}.
Context {B : Type} `{RBL : ReadBufLaws B}.
Implicit Types (st : StreamSt) (sent : list (list byte)).

(** ** Sequences of operations *)

Inductive stream_op :=
  | OpWrite (cx : Waker) (buf : list byte)
  | OpRead (cx : Waker) (buf : B)
  | OpClose (tx : Oneshot)
  | OpDrop (strong_count : Z)
  | OpPoll (cx : Waker) (rx : RecvScript) (timer_ready : bool).

Definition run_op (op : stream_op) : Act StreamSt unit :=
  match op with
  | OpWrite cx buf => _ ← poll_write cx buf; mret tt
  | OpRead cx buf => _ ← poll_read cx buf; mret tt
  | OpClose tx => close tx
  | OpDrop n => drop_stream n
  | OpPoll cx rx timer_ready => _ ← driver_poll cx rx timer_ready; mret tt
  end.

Fixpoint run_ops (ops : list stream_op) : Act StreamSt unit :=
  match ops with
  | [] => mret tt
  | op :: ops => _ ← run_op op; run_ops ops
  end.

(** Any buffer that fits memory, any decoded packets. *)
Definition op_valid (op : stream_op) : Prop :=
  match op with
  | OpWrite _ buf => len buf < 2 ^ 63
  | OpPoll _ rx _ => Forall incoming_ok (script_packets rx)
  | _ => True
  end.

(** How much of the counters an operation can use: packets and bytes. *)
Definition op_packets (op : stream_op) : Z :=
  match op with
  | OpWrite _ buf => len buf
  | OpRead _ _ => 0
  | OpPoll _ rx _ => len (rx_events rx) + 1
  | _ => 1
  end.

Definition op_bytes (op : stream_op) : Z :=
  match op with
  | OpWrite _ buf => len buf
  | OpPoll _ rx _ => len (concat (map i_buf (script_packets rx)))
  | _ => 0
  end.

Definition total (f : stream_op -> Z) (ops : list stream_op) : Z :=
  fold_right (fun op acc => f op + acc) 0 ops.

Lemma op_packets_nonneg op : 0 <= op_packets op.
Proof. destruct op; cbn; try lia; [apply len_nonneg|]. pose proof (len_nonneg (rx_events rx)). lia. Qed.

Lemma op_bytes_nonneg op : 0 <= op_bytes op.
Proof. destruct op; cbn; try lia; apply len_nonneg. Qed.

Lemma total_nonneg f ops : (forall op, 0 <= f op) -> 0 <= total f ops.
Proof. intros Hf. induction ops as [|op ops IH]; unfold total in *; cbn; [lia|]. pose proof (Hf op). lia. Qed.

(** *** Each operation keeps the invariant *)

Lemma wrote_bounds sent st buf cs st' :
  wrote sent st buf cs st' -> len cs <= len (concat cs) <= len buf.
Proof.
  intros ((more & E & _) & _). pose proof (payloads_sizes buf) as Hs.
  pose proof (concat_payloads buf) as Hc. rewrite E in Hs, Hc.
  apply Forall_app in Hs as [Hs _]. rewrite concat_app in Hc. rewrite <- Hc, len_app.
  pose proof (len_nonneg (concat more)). split; [|lia]. clear -Hs.
  induction Hs as [|c cs [? _] _ IH]; [done|]. cbn [concat]. rewrite len_cons, len_app. lia.
Qed.

Definition op_post (sent : list (list byte)) (st : StreamSt) (n b : Z) (_ : unit) (st' : StreamSt)
  : Prop :=
  (exists cs, StreamInv (sent ++ cs) st') /\ ext st st' /\
  forall n' b', 0 <= n' -> 0 <= b' -> Room (n' + n) (b' + b) st -> Room n' b' st'.

Lemma op_post_same sent st n b : StreamInv sent st -> 0 <= n -> 0 <= b -> op_post sent st n b tt st.
Proof.
  intros HI Hn Hb. split_and!; [exists []; by rewrite app_nil_r|done|].
  intros n' b' ? ? HR. eapply Room_weaken, HR; lia.
Qed.

Lemma write_op sent st cx buf :
  StreamInv sent st -> len buf < 2 ^ 63 -> Room (len buf) (len buf) st ->
  wp (run_op (OpWrite cx buf)) (op_post sent st (len buf) (len buf)) st.
Proof.
  intros HI Hlen HR. cbn [run_op]. pose proof (len_nonneg buf).
  destruct (s_error (inner st)) as [e|] eqn:He.
  { unfold poll_write. st_run. rewrite He. st_run. by apply op_post_same. }
  destruct (decide (len buf = 0)) as [E0|].
  { unfold poll_write. st_run. rewrite He, E0. change (0 =? 0) with true. cbn iota. st_run. by apply op_post_same. }
  apply wp_bind. eapply wp_mono; [apply (poll_write_wp sent); try done; lia|].
  intros r st' [(cs & Hw & _)|(_ & _ & ->)]; apply wp_ret.
  - pose proof (wrote_bounds _ _ _ _ _ Hw). destruct Hw as (_ & HI' & W & _).
    split_and!; [by exists cs|apply W|]. intros n' b' ? ? HR'.
    pose proof (len_nonneg cs).
    eapply (writes_Room (len cs) (len (concat cs))); [lia..|done|].
    eapply Room_weaken, HR'; lia.
  - split_and!; [exists []|done|].
    + rewrite app_nil_r. eapply StreamInv_frame, HI; try done.
      eapply CtrlInv_frame, HI; try done; apply HI.
    + intros n' b' ? ? HR'. eapply (Room_weaken (n' + len buf) (b' + len buf)); [lia..|].
      destruct HR'; by split.
Qed.

Lemma read_op sent st cx buf :
  StreamInv sent st -> wp (run_op (OpRead cx buf)) (op_post sent st 0 0) st.
Proof.
  intros HI. cbn [run_op]. apply wp_bind. eapply wp_mono; [by apply (poll_read_wp sent)|].
  intros [res buf'] st' (st1 & HI' & _ & _ & R & Ew & _ & Hres). apply wp_ret.
  pose proof (rd_frame _ _ _ R) as Ef.
  assert (ext st st1) as X by (split; rewrite ?Ew; try (by rewrite Ef); try done; rewrite Ef; cbn; lia).
  assert (ext st1 st' /\ forall n b, Room n b st1 -> Room n b st') as [X' HRm].
  { destruct (_ <? _); [destruct Hres as [_ ->]; by split|].
    destruct (s_error (inner st)); destruct Hres as [_ ->]; split; try done.
    intros n b []; by split. }
  split_and!; [exists []; by rewrite app_nil_r|by transitivity st1|].
  intros n' b' ? ? HR. rewrite !Z.add_0_r in HR. by apply HRm, (reads_Room _ _ _ _ _ R).
Qed.

Lemma terminate_op sent st e :
  StreamInv sent st -> Room 1 0 st -> wp (terminate e) (op_post sent st 1 0) st.
Proof.
  intros HI HR. pose proof HR as [].
  eapply wp_mono; [apply (terminate_wp sent); [done|lia..]|].
  intros [] st' (HI' & C & _ & Htx & _). destruct (calm_stats _ _ C) as [n En].
  split_and!; [exists []; by rewrite app_nil_r|apply C|]. intros n' b' ? ? HR'. pose proof HR' as [].
  eapply Room_frame, HR'; rewrite ?(calm_seq _ _ C), ?(calm_incoming _ _ C), ?(calm_cursor _ _ C),
    ?(calm_cwnd _ _ C), ?En; cbn; rewrite ?En in Htx; cbn in Htx; consts; lia.
Qed.

Lemma close_op sent st tx :
  StreamInv sent st -> Room 1 0 st -> wp (run_op (OpClose tx)) (op_post sent st 1 0) st.
Proof.
  intros HI HR. cbn [run_op]. unfold close. apply wp_bind.
  eapply wp_mono; [by apply (terminate_op sent)|].
  intros [] st' ([cs HI'] & X & HRp). apply wp_set_self. split_and!; [exists cs|by etransitivity|].
  - eapply StreamInv_frame, HI'; try done. eapply CtrlInv_frame, HI'; try done; apply HI'.
  - intros n' b' ? ? HR'. apply HRp in HR' as []; [by split|done..].
Qed.

Lemma drop_op sent st n :
  StreamInv sent st -> Room 1 0 st -> wp (run_op (OpDrop n)) (op_post sent st 1 0) st.
Proof.
  intros HI HR. cbn [run_op]. unfold drop_stream. destruct (n <=? 2).
  - by apply terminate_op.
  - apply wp_ret. by apply op_post_same.
Qed.

Lemma poll_op sent st cx rx timer_ready :
  StreamInv sent st -> Forall incoming_ok (script_packets rx) ->
  Room (op_packets (OpPoll cx rx timer_ready)) (op_bytes (OpPoll cx rx timer_ready)) st ->
  w_tx_open (world st) = true ->
  wp (run_op (OpPoll cx rx timer_ready))
    (op_post sent st (op_packets (OpPoll cx rx timer_ready)) (op_bytes (OpPoll cx rx timer_ready))) st.
Proof.
  intros HI Hok HR Hopen. cbn [run_op op_packets op_bytes] in *.
  assert (len (rx_events rx) = len (script_packets rx)) as El
    by (unfold len, script_packets; by rewrite length_map). rewrite El in *.
  apply wp_bind. eapply wp_mono; [by apply (driver_poll_wp sent)|].
  intros r st' (HI' & Hcase). apply wp_ret.
  split; [exists []; by rewrite app_nil_r|]. destruct (closed_and_drained (inner st)).
  - destruct Hcase as [_ ->]. split; [by split|]. intros n' b' ? ? HR'.
    pose proof (len_nonneg (script_packets rx)).
    pose proof (len_nonneg (concat (map i_buf (script_packets rx)))).
    eapply (Room_weaken _ _ n' b') in HR'; [|lia..]. destruct HR'; by split.
  - destruct Hcase as (_ & D & _). split; [apply D|]. intros n' b' ? ? HR'.
    eapply drives_Room; [|done|]; [lia|]. by rewrite <- Z.add_assoc.
Qed.

Lemma run_op_wp sent st op :
  StreamInv sent st -> op_valid op -> Room (op_packets op) (op_bytes op) st ->
  w_tx_open (world st) = true ->
  wp (run_op op) (op_post sent st (op_packets op) (op_bytes op)) st.
Proof.
  intros HI Hv HR Hopen. destruct op.
  - by apply write_op.
  - by apply read_op.
  - by apply close_op.
  - by apply drop_op.
  - by apply poll_op.
Qed.

Lemma run_ops_wp ops sent st :
  StreamInv sent st -> Forall op_valid ops -> Room (total op_packets ops) (total op_bytes ops) st ->
  w_tx_open (world st) = true ->
  wp (run_ops ops) (fun _ st' => (exists cs, StreamInv (sent ++ cs) st') /\ ext st st') st.
Proof.
  intros HI Hv. revert sent st HI. induction Hv as [|op ops Hop _ IH]; intros sent st HI HR Hopen.
  { apply wp_ret. split; [exists []; by rewrite app_nil_r|done]. }
  unfold total in HR. cbn [fold_right] in HR. fold (total op_packets ops) (total op_bytes ops) in HR.
  pose proof (total_nonneg _ ops op_packets_nonneg). pose proof (total_nonneg _ ops op_bytes_nonneg).
  pose proof (op_packets_nonneg op). pose proof (op_bytes_nonneg op).
  cbn [run_ops]. apply wp_bind. eapply wp_mono.
  { apply (run_op_wp sent); try done. eapply Room_weaken, HR; lia. }
  intros [] st1 ([cs1 HI1] & X1 & HR1). eapply wp_mono.
  { apply (IH (sent ++ cs1)); [done| |by rewrite (ext_tx_open _ _ X1)].
    apply HR1; [done..|]. eapply Room_weaken, HR; lia. }
  intros [] st2 ([cs2 HI2] & X2). split; [|by transitivity st1].
  exists (cs1 ++ cs2). by rewrite app_assoc.
Qed.

(** A fresh stream satisfies the invariant. *)
Lemma connect_StreamInv now dest remote_id local_id w :
  0 <= remote_id < u32_modulus -> (forall n, 0 <= w_clock w n <= CLOCK_BOUND) ->
  1 <= w_max_gso_segments w ->
  StreamInv [] (mk_StreamSt (connect now dest remote_id local_id) w).
Proof.
  intros Hid Hclk Hgso. split.
  - split; cbn; try done.
  - split; cbn; try done; intros; lia.
  - split; cbn; try done; unfold CLOCK_BOUND, from_millis; try lia.
Qed.

Lemma connect_Room n b now dest remote_id local_id w :
  0 <= n <= U32_MAX -> 0 <= b < usize_modulus ->
  Room n b (mk_StreamSt (connect now dest remote_id local_id) w).
Proof.
  intros Hn Hb. split; cbn [inner connect s_seq s_read_cursor s_incoming s_cwnd s_stats
    StreamStats_default tx_packets tx_bytes rx_packets rx_bytes];
    change (size (∅ : gmap Z IncomingPacket)) with 0%nat; consts; lia.
Qed.

End ops.

(** ** The contracts *)

Section contracts.
Context `{P : Profile} {AI : AtomicInstant} {AIL : AtomicInstantLaws AI}.
Context {B : Type} {RB : ReadBuf B} {RBL : ReadBufLaws B}.
Implicit Types (st : StreamSt) (sent : list (list byte)).

(** C12: safety of the whole stream.  Start a stream with [connect] and run any
    sequence of writes, reads, closes, drops and driver polls on it, where the
    polls deliver arbitrary packets (any header fields, any payloads, any
    acknowledgements and SACK ranges) and the timer fires at will.  As long as
    fewer than 2^32 packets and 2^64 bytes pass through it, no operation
    panics (no arithmetic overflow in either build profile, no failed index,
    slice or unwrap) and none of its loops fails to terminate; the invariant
    of the stream holds at the end. *)
Theorem stream_never_panics now dest remote_id local_id w (ops : list (stream_op (B := B))) :
  0 <= remote_id < u32_modulus -> (forall n, 0 <= w_clock w n <= CLOCK_BOUND) ->
  1 <= w_max_gso_segments w -> w_tx_open w = true -> Forall op_valid ops ->
  total op_packets ops <= U32_MAX -> total op_bytes ops < usize_modulus ->
  exists st' sent, run_ops ops (mk_StreamSt (connect now dest remote_id local_id) w) = Ret (tt, st') /\
    StreamInv sent st'.
Proof.
  intros Hid Hclk Hgso Hopen Hv Hn Hb.
  pose proof (connect_StreamInv now dest remote_id local_id w Hid Hclk Hgso) as HI.
  pose proof (total_nonneg _ ops op_packets_nonneg). pose proof (total_nonneg _ ops op_bytes_nonneg).
  pose proof (connect_Room (total op_packets ops) (total op_bytes ops) now dest remote_id local_id w)
    as HR.
  destruct (wp_elim _ _ _ (run_ops_wp ops [] _ HI Hv (HR ltac:(lia) ltac:(lia)) Hopen))
    as ([] & st' & E & [cs HI'] & _). by exists st', ([] ++ cs).
Qed.

(** The packets of a write: one for each payload, stored one after the other. *)
Lemma wrote_packets sent st buf cs st' i c :
  StreamInv sent st -> wrote sent st buf cs st' -> cs !! i = Some c ->
  let l := (length (w_store (world st)) + i)%nat in
  exists p, w_store (world st') !! l = Some p /\
    s_outgoing (inner st') !! (s_seq (inner st) + Z.of_nat i) = Some l /\
    h_typ (p_header p) = UDX_HEADER_DATA /\ h_seq (p_header p) = s_seq (inner st) + Z.of_nat i /\
    as_slice (p_buf p) = header_bytes (p_header p) ++ c.
Proof.
  intros HI (_ & HI' & W & _) Hc l. apply lookup_lt_Some in Hc as Hlt. pose proof (inv_seq _ _ HI) as Hs.
  assert (s_outgoing (inner st') !! (s_seq (inner st) + Z.of_nat i) = Some l) as Hl.
  { rewrite (proj2 (wr_outgoing _ _ _ _ W)) by (rewrite (wr_seq _ _ _ _ W); unfold len; lia).
    f_equal. unfold l. lia. }
  destruct (inv_out _ _ HI' _ l Hl) as (_ & p & Hp & _ & (Ht & body & Hb & _ & Es) & Hq & _).
  exists p. split_and!; try done. rewrite Es. f_equal. rewrite Hq, Hs in Hb.
  replace (Z.to_nat (len sent + Z.of_nat i)) with (length sent + i)%nat in Hb by (unfold len; lia).
  rewrite lookup_app_r in Hb by lia. replace (length sent + i - length sent)%nat with i in Hb by lia. congruence.
Qed.

(** C13: [poll_write].  A stream with an error reports it and an empty write
    returns 0, both without any effect.  Otherwise the buffer is cut into
    payloads of 1380 bytes; a prefix [cs] of them becomes packets with the
    next sequence numbers, which enter the retransmission table and, in this
    order, the end of the send queue; the driver is woken, the call reports
    the total size of the payloads, it stops early only when the window has no room for the next
    payload, and the bytes in flight exceed the window by at most one header.
    When not even the first payload fits, nothing is sent, the call is
    pending, and the writer's waker is stored. *)
Theorem poll_write_contract sent st cx buf :
  StreamInv sent st -> len buf < 2 ^ 63 -> Room (len buf) (len buf) st ->
  exists r st', poll_write cx buf st = Ret (r, st') /\
  match s_error (inner st) with
  | Some e => r = Ready (Err (io_error_from_Udx e)) /\ st' = st
  | None =>
      (buf = [] /\ r = Ready (Ok 0) /\ st' = st) \/
      (exists cs more, payloads buf = cs ++ more /\ cs <> [] /\
         r = Ready (Ok (len (concat cs))) /\ StreamInv (sent ++ cs) st' /\
         s_seq (inner st') = s_seq (inner st) + len cs /\
         s_inflight (inner st') = s_inflight (inner st) + UDX_HEADER_SIZE * len cs + len (concat cs) /\
         s_inflight (inner st') <= s_cwnd (inner st') + UDX_HEADER_SIZE /\
         (let new := length (w_store (world st)) in
          s_send_queue (inner st') = s_send_queue (inner st) ++ map Shared (seq new (length cs)) /\
          forall i c, cs !! i = Some c -> exists p, w_store (world st') !! (new + i)%nat = Some p /\
            s_outgoing (inner st') !! (s_seq (inner st) + Z.of_nat i) = Some (new + i)%nat /\
            h_typ (p_header p) = UDX_HEADER_DATA /\ h_seq (p_header p) = s_seq (inner st) + Z.of_nat i /\
            as_slice (p_buf p) = header_bytes (p_header p) ++ c) /\
         s_drive_waker (inner st') = None /\
         w_woken (world st') = w_woken (world st) ++ option_list (s_drive_waker (inner st)) /\
         (more = [] \/ window_full (inner st') (concat more))) \/
      (buf <> [] /\ window_full (inner st) buf /\ r = Pending /\
       st' = st <| inner ::= fun s => s <| s_write_waker := Some cx |> |>)
  end.
Proof.
  intros HI Hlen HR. destruct (s_error (inner st)) as [e|] eqn:He.
  { exists (Ready (Err (io_error_from_Udx e))), st. split; [|done].
    unfold poll_write, self, gets, mbind, act_bind. by rewrite He. }
  destruct buf as [|x buf].
  { exists (Ready (Ok 0)), st. split; [|by left].
    unfold poll_write, self, gets, mbind, act_bind. by rewrite He. }
  assert (0 < len (x :: buf)) by (unfold len; cbn; lia).
  destruct (wp_elim _ _ _ (poll_write_wp sent st cx (x :: buf) ltac:(lia) HI He HR))
    as (r & st' & E & Hcase). exists r, st'. split; [done|]. right.
  destruct Hcase as [(cs & ((more & Ep & Hm) & HI' & W & Hin) & -> & Hpos)|(-> & Hf & ->)]; [left|right].
  - exists cs, more. destruct Hin as [->|Hin]; [done|].
    destruct (wr_woken _ _ _ _ W) as [[Hz _]|(_ & Hd & Hw)].
    { destruct cs; [done|]. unfold len in Hz. cbn in Hz. lia. }
    assert (s_send_queue (inner st') = s_send_queue (inner st) ++ map Shared (seq (length (w_store (world st))) (length cs))) as Hq
      by (rewrite (wr_queue _ _ _ _ W); unfold len; by rewrite Nat2Z.id).
    split_and!; try done; [by intros ->|apply W|apply W|]. split; [done|].
    intros i c Hc. eapply (wrote_packets sent st (x :: buf) cs); try done. split; [by exists more|]. by split_and!; [..|right].
  - done.
Qed.

(** C14: [poll_read].  The bytes that are ready (what the packets from the read
    cursor up to the acknowledged position still hold) form a queue; a read
    moves as many of them as the buffer takes from its front into the buffer,
    in order.  It returns [Ready] when it finished a packet, else the stream's
    error, else [Pending] with the reader's waker stored. *)
Theorem poll_read_contract sent st cx (buf : B) :
  StreamInv sent st ->
  exists res buf' st', poll_read cx buf st = Ret ((res, buf'), st') /\
    let bytes := take (Z.to_nat (rb_remaining buf)) (unread (inner st)) in
    rb_filled buf' = rb_filled buf ++ bytes /\
    rb_remaining buf' = rb_remaining buf - len bytes /\
    unread (inner st) = bytes ++ unread (inner st') /\
    s_ack (inner st') = s_ack (inner st) /\ StreamInv sent st' /\
    (if s_read_cursor (inner st) <? s_read_cursor (inner st') then res = Ready (Ok tt)
     else match s_error (inner st) with
          | Some e => res = Ready (Err (io_error_from_Udx e))
          | None => res = Pending /\ s_read_waker (inner st') = Some cx
          end).
Proof.
  intros HI. destruct (wp_elim _ _ _ (poll_read_wp sent cx buf st HI))
    as ([res buf'] & st' & E & st1 & HI' & Hf & Hr & R & _ & _ & Hres).
  exists res, buf', st'. split; [done|]. cbv zeta in *.
  pose proof (rd_frame _ _ _ R) as Ef. pose proof (rd_bytes _ _ _ R) as Eb.
  assert (s_ack (inner st1) = s_ack (inner st)) as Ea by by rewrite Ef.
  destruct (s_read_cursor (inner st) <? s_read_cursor (inner st1)) eqn:Ec.
  { destruct Hres as [-> ->]. rewrite Ec. by split_and!. }
  destruct (s_error (inner st)); destruct Hres as [-> ->]; cbn [inner]; [rewrite Ec; by split_and!|].
  cbn. rewrite Ec. by split_and!.
Qed.

(** *** What one poll of the driver task does *)

Definition same_received (s s' : UdxStreamInner) : Prop :=
  s_incoming s' = s_incoming s /\ s_ack s' = s_ack s /\ s_remote_acked s' = s_remote_acked s.

(** A data packet has been taken in: below [ack], or in the reassembly map. *)
Definition received (p : IncomingPacket) (s : UdxStreamInner) : Prop :=
  i_seq p < s_ack s \/ is_Some (s_incoming s !! i_seq p).

Lemma received_mono ps p s s' : absorbed ps s s' -> received p s -> received p s'.
Proof.
  intros A [Hlt|Hin]; [left; pose proof (ab_ack _ _ _ A); lia|right; by apply (ab_kept _ _ _ A)].
Qed.

Lemma recv_loop_received sent ps is_closed acc st :
  StreamInv sent st -> Forall incoming_ok ps -> Room (len ps) (len (concat (map i_buf ps))) st ->
  wp (recv_loop (map EvPacket ps) is_closed acc) (fun _ st' => forall p, p ∈ ps ->
    passes (inner st) p = true -> has_type p UDX_HEADER_DATA = true -> received p (inner st')) st.
Proof.
  intros HI Hok. revert acc st HI. induction Hok as [|p ps Hp Hps IH]; intros acc st HI HR.
  { apply wp_ret. by intros p Hp%elem_of_nil. }
  cbn [map recv_loop]. cbn [map concat] in HR. rewrite len_cons, len_app in HR.
  pose proof (len_nonneg ps). pose proof (len_nonneg (concat (map i_buf ps))). pose proof (len_nonneg (i_buf p)).
  apply wp_bind. eapply wp_mono; [apply (handle_incoming_wp sent); [done|done|eapply Room_weaken, HR; lia]|].
  intros [] st1 (HI1 & Hh1 & _ & Hin & _).
  assert (Room (len ps) (len (concat (map i_buf ps))) st1) as HR1.
  { eapply handled_Room; [exact Hh1|].
    eapply Room_weaken, HR; cbn [map concat]; rewrite ?app_nil_r; change (len [p]) with 1; lia. }
  eapply wp_mono; [eapply wp_and; [by apply IH|by apply (recv_loop_wp sent)]|].
  intros r st2 [Hrec (_ & Hh2 & _)] q [->|Hq]%elem_of_cons Hpass Hd.
  - eapply received_mono; [apply Hh2|]. rewrite Hpass, Hd in Hin. cbn [andb] in Hin. unfold insert_incoming in Hin.
    pose proof (ab_ack _ _ _ (hd_absorbed _ _ _ _ _ _ _ Hh1)).
    destruct (i_seq p >=? s_ack (inner st)) eqn:E; [right; by rewrite Hin, lookup_insert_eq|left].
    rewrite Z.geb_leb in E. b2p. lia.
  - apply Hrec; try done. unfold passes in *. by rewrite (ext_firewall _ _ (hd_ext _ _ _ _ _ _ _ Hh1)).
Qed.

(** [poll_incoming]: every packet is taken in, and the highest acknowledgement
    takes effect unless the channel is closed. *)
Lemma poll_incoming_received sent rx st :
  let ps := script_packets rx in
  StreamInv sent st -> Forall incoming_ok ps -> Room (len ps) (len (concat (map i_buf ps))) st ->
  wp (poll_incoming rx) (fun r st' => StreamInv sent st' /\ ext st st' /\
    r = (if rx_closed rx then Err driver_dropped_error else Ok tt) /\
    s_remote_acked (inner st') = (if rx_closed rx then s_remote_acked (inner st)
                                  else Z.max (s_remote_acked (inner st)) (max_ack 0 ps)) /\
    forall p, p ∈ ps -> passes (inner st) p = true -> has_type p UDX_HEADER_DATA = true -> received p (inner st')) st.
Proof.
  intros ps HI Hok HR. pose proof (inv_remote_acked _ (inv_ctrl _ _ HI)). unfold poll_incoming. rewrite script_events. fold ps.
  apply wp_bind. eapply wp_mono; [eapply wp_and; [by apply (recv_loop_wp sent)|by apply (recv_loop_received sent)]|].
  intros r st1 [(HI1 & H1 & _ & _ & ->) Hrec]. pose proof (hd_remote_acked _ _ _ _ _ _ _ H1) as Er.
  destruct (rx_closed rx); [apply wp_ret; split_and!; try done; apply H1|].
  pose proof (max_ack_range 0 ps ltac:(done) Hok). apply wp_bind.
  eapply wp_mono; [apply (handle_incoming_max_remote_ack_wp sent); [done|lia]|].
  intros [] st' [HI' [[Hle ->]|(Hlt & st2 & A & _ & Era & ->)]]; apply wp_ret.
  { split_and!; try done; [apply H1|lia]. }
  pose proof (rearmed_keeps (s_rto (inner st2)) st2) as K2. pose proof (ac_keeps _ _ _ A) as K1.
  assert (keeps st1 (rearmed (s_rto (inner st2)) (wake_writer st2))) as K by (by transitivity st2).
  split_and!; try done.
  - transitivity st1; [apply H1|apply K].
  - unfold wake_writer. destruct (_ <=? _); cbn; lia.
  - intros p Hp Hpass Hd. destruct (Hrec p Hp Hpass Hd) as [Hl|Hi]; [left|right].
    + by rewrite (kp_ack _ _ K).
    + by rewrite (kp_incoming _ _ K).
Qed.

(** The timer fires and a packet in flight has used up its transmissions. *)
Definition exhausted (timer_ready : bool) (st : StreamSt) : Prop :=
  timer_ready = true /\ s_remote_acked (inner st) <> s_seq (inner st) /\
  exists k l p, s_remote_acked (inner st) <= k < s_seq (inner st) /\ s_outgoing (inner st) !! k = Some l /\
    w_store (world st) !! l = Some p /\ p_waiting p = false /\ p_transmits p > UDX_MAX_TRANSMITS.

Lemma timeouts_exhausted sent timer_ready st :
  StreamInv sent st ->
  wp (poll_check_timeouts timer_ready) (fun r st' => StreamInv sent st' /\ keeps st st' /\
    s_remote_acked (inner st') = s_remote_acked (inner st) /\
    ((r = Ok tt /\ ~ exhausted timer_ready st) \/ (r = Err max_retransmits_error /\ exhausted timer_ready st)) /\
    s_cwnd (inner st') = (if timer_ready && negb (s_remote_acked (inner st) =? s_seq (inner st))
                          then Z.max UDX_MTU (s_cwnd (inner st) / 2) else s_cwnd (inner st))) st.
Proof.
  intros HI. eapply wp_mono; [by apply (poll_check_timeouts_wp sent)|]. unfold fires.
  intros r st' (HI' & [(Hn & -> & ->)|([-> Hne] & st0 & i & E0 & K & M & Hr)]).
  { split_and!; try done; [left; split; [done|intros (? & ? & _); by apply Hn]|].
    destruct timer_ready; [|done]. destruct (Z.eqb_spec (s_remote_acked (inner st)) (s_seq (inner st))); [done|].
    by destruct Hn. }
  assert (w_store (world st0) = w_store (world st) /\ s_outgoing (inner st0) = s_outgoing (inner st))
    as [Es Eo] by by rewrite E0.
  split_and!; try done; [by transitivity st0; [|apply M]|by rewrite (mk_remote_acked _ _ _ _ M), E0| |].
  - destruct Hr as [[-> Hi]|(-> & l & p & Hl & Hp & Hw & Ht)]; [left|right]; (split; [done|]).
    + intros (_ & _ & k & l & p & Hk & Hl & Hp & Hw & Ht).
      assert (s_outgoing (inner st') !! k = Some l) as Hl' by by rewrite (mk_outgoing _ _ _ _ M), Eo.
      destruct (inv_out _ _ HI' k l Hl') as (_ & q & Hq & _ & _ & _ & Hqt & _).
      rewrite (mk_store _ _ _ _ M k l p) in Hq by congruence.
      rewrite (proj2 (Z.leb_le _ _)), (proj2 (Z.ltb_lt _ _)) in Hq by lia. unfold lost_mark in Hq. rewrite Hw in Hq.
      injection Hq as <-. cbn in Hqt. lia.
    + destruct Ht as [Ht Hi]. split_and!; try done. exists i, l, p.
      destruct (inv_out _ _ HI i l Hl) as [? _]. split_and!; done || lia.
  - rewrite (mk_cwnd _ _ _ _ M), E0. cbn. by rewrite (proj2 (Z.eqb_neq _ _) Hne).
Qed.

(** Everything below [i] has been sent again, and [i] is the end or the first
    packet for which the window has no room. *)
Definition resent (st : StreamSt) : Prop :=
  exists i, (s_seq (inner st) <= i \/ exists l p, s_outgoing (inner st) !! i = Some l /\
      w_store (world st) !! l = Some p /\ s_inflight (inner st) + Packet_len p > s_cwnd (inner st)) /\
    forall k l p, s_remote_acked (inner st) <= k < i -> s_outgoing (inner st) !! k = Some l ->
      w_store (world st) !! l = Some p -> p_waiting p = false.

Lemma flush_resent sent st :
  StreamInv sent st ->
  wp flush_waiting_packets (fun _ st' => StreamInv sent st' /\ keeps st st' /\
    s_remote_acked (inner st') = s_remote_acked (inner st) /\ s_cwnd (inner st') = s_cwnd (inner st) /\ resent st') st.
Proof.
  intros HI. eapply wp_mono; [by apply (flush_waiting_packets_wp sent)|].
  intros [] st' (HI' & ks & i & F & (_ & _ & Hks) & Hi). split_and!; try apply F; [done|].
  exists i. rewrite (kp_seq _ _ (fl_keeps _ _ _ F)), (fl_outgoing _ _ _ F), (fl_remote_acked _ _ _ F). split.
  - destruct Hi as [|(l & p & Hl & Hp & _ & Hw)]; [by left|right]. exists l.
    eexists. split_and!; [done|by apply (fl_store _ _ _ F i l p)|]. by destruct (decide (i ∈ ks)).
  - intros k l q Hk Hl Hq. destruct (inv_out _ _ HI k l Hl) as (_ & p & Hp & _).
    rewrite (fl_store _ _ _ F k l p Hl Hp) in Hq. destruct (decide (k ∈ ks)) as [|Hn]; injection Hq as <-; [done|].
    destruct (p_waiting p) eqn:E; [|done]. destruct Hn. by eapply Hks.
Qed.

(** [poll_drive], given the state [st1] in which [poll_incoming] leaves it. *)
Lemma poll_drive_after sent rx timer_ready r1 st st1 :
  poll_incoming rx st = Ret (r1, st1) -> StreamInv sent st1 -> w_tx_open (world st1) = true ->
  wp (poll_drive rx timer_ready) (fun r st' => keeps st1 st' /\
    s_remote_acked (inner st') = s_remote_acked (inner st1) /\
    match r1 with
    | Err e => r = Err e
    | Ok _ => (r = Err max_retransmits_error /\ exhausted timer_ready st1) \/
        (r = Ok false /\ ~ exhausted timer_ready st1 /\ s_send_queue (inner st') = [] /\ resent st' /\
         s_cwnd (inner st') = (if timer_ready && negb (s_remote_acked (inner st1) =? s_seq (inner st1))
                               then Z.max UDX_MTU (s_cwnd (inner st1) / 2) else s_cwnd (inner st1)))
    end) st.
Proof.
  intros E1 HI1 Hopen. unfold poll_drive. apply wp_bind. eapply wp_intro; [exact E1|].
  destruct r1 as [[]|e]; [|apply wp_ret; by split_and!].
  apply wp_bind. eapply wp_mono; [by apply (timeouts_exhausted sent)|].
  intros r st2 (HI2 & K2 & Er2 & [[-> Hne]|[-> Hex]] & Ec2); [|apply wp_ret; split_and!; try done; by left].
  apply wp_bind. eapply wp_mono; [by apply (flush_resent sent)|].
  intros [] st3 (HI3 & K3 & Er3 & Ec3 & Hres). apply wp_bind.
  assert (keeps st1 st3) as K by (by transitivity st2).
  eapply wp_mono; [apply (poll_transmit_wp sent); [done|by rewrite (ext_tx_open _ _ (kp_ext _ _ K))]|].
  intros [] st4 (bs & _ & _ & E4). apply wp_ret. split_and!.
  - transitivity st3; [done|]. rewrite E4. by apply keeps_eq_stats.
  - rewrite E4. cbn. congruence.
  - right. rewrite E4. split_and!; try done. cbn. congruence.
Qed.

(** The rest of the poll, given the result of [poll_drive]. *)
Lemma driver_poll_after sent cx rx timer_ready r st st2 :
  closed_and_drained (inner st) = false -> poll_drive rx timer_ready (unwoken st) = Ret (r, st2) ->
  StreamInv sent st2 -> Room 1 0 st2 ->
  wp (driver_poll cx rx timer_ready) (fun _ st' => same_received (inner st2) (inner st') /\
    match r with
    | Ok true => True
    | Ok false => st' = st2 <| inner ::= fun s => s <| s_drive_waker := Some cx |> |>
    | Err e => s_error (inner st') = Some (UdxError_from_io e) /\ local_closed (s_state (inner st')) = true /\
        (exists q p, s_send_queue (inner st') = q ++ [Owned p] /\ h_typ (p_header p) = UDX_HEADER_END) /\
        exists l, w_woken (world st') = l ++ [cx]
    end) st.
Proof.
  intros Ec E2 HI2 HR. pose proof HR as [_ _ _ ? _ _ _]. unfold driver_poll. apply wp_bind, wp_set_self.
  fold (unwoken st). apply wp_bind, wp_self. change (closed_and_drained (inner (unwoken st))) with
    (closed_and_drained (inner st)). rewrite Ec. apply wp_bind. eapply wp_intro; [exact E2|].
  destruct r as [[]|e]; [by st_run|by st_run|].
  apply wp_bind, wp_bind. eapply wp_mono; [apply (terminate_wp sent); [done|lia..]|].
  intros [] st3 (_ & C & (p & Hq & Ht & _) & _ & He & Hs & _). st_run.
  split; [split_and!; apply C|]. split_and!; [done| |by eexists _, p|by eexists].
  cbn. rewrite Hs. apply local_closed_close_local.
Qed.

(** C16: one poll of the driver task.  It completes exactly when the stream has
    an error and nothing is left to send or to be acknowledged; then it fires
    the close signal and tells the socket.  Otherwise it takes in every packet
    of the channel and the highest acknowledgement among them.  The stream is
    terminated exactly when the channel turns out to be closed, or when the
    timer has fired and a packet in flight has used up its transmissions: then
    the error says which, an END packet is queued and the task is re-scheduled.
    If not, the window is halved if the timer has fired, the packets that wait
    are sent again as far as the window allows, the send queue is emptied and
    the task's waker is stored.  What the poll adds to the channel to the
    socket are packet sets for the peer with at most [MAX_SEGMENTS] packets of
    one size, all of them well-formed packets of this stream. *)
Theorem driver_poll_contract sent st cx rx timer_ready :
  let ps := script_packets rx in
  StreamInv sent st -> Forall incoming_ok ps ->
  Room (len ps + 1) (len (concat (map i_buf ps))) st -> w_tx_open (world st) = true ->
  exists r st', driver_poll cx rx timer_ready st = Ret (r, st') /\ StreamInv sent st' /\
    if closed_and_drained (inner st) then
      r = Ready tt /\ w_signals (world st') = w_signals (world st) ++ option_list (s_on_close (inner st)) /\
      w_tx (world st') = w_tx (world st) ++ [EvStreamDropped (s_local_id (inner st))]
    else
      r = Pending /\
      (exists evs, w_tx (world st') = w_tx (world st) ++ evs /\ Forall (event_ok sent st') evs) /\
      s_remote_acked (inner st') = (if rx_closed rx then s_remote_acked (inner st)
                                    else Z.max (s_remote_acked (inner st)) (max_ack 0 ps)) /\
      (forall p, p ∈ ps -> passes (inner st) p = true -> has_type p UDX_HEADER_DATA = true -> received p (inner st')) /\
      exists st1, poll_incoming rx (unwoken st) = Ret (if rx_closed rx then Err driver_dropped_error else Ok tt, st1) /\
      ((rx_closed rx = false /\ ~ exhausted timer_ready st1 /\ s_error (inner st') = s_error (inner st1) /\
        s_cwnd (inner st') = (if timer_ready && negb (s_remote_acked (inner st1) =? s_seq (inner st1))
                              then Z.max UDX_MTU (s_cwnd (inner st1) / 2) else s_cwnd (inner st1)) /\
        resent st' /\ s_send_queue (inner st') = [] /\ s_drive_waker (inner st') = Some cx) \/
       ((rx_closed rx = true \/ exhausted timer_ready st1) /\
        s_error (inner st') = Some (UdxError_from_io (if rx_closed rx then driver_dropped_error
                                                      else max_retransmits_error)) /\
        local_closed (s_state (inner st')) = true /\
        (exists q p, s_send_queue (inner st') = q ++ [Owned p] /\ h_typ (p_header p) = UDX_HEADER_END) /\
        exists l, w_woken (world st') = l ++ [cx])).
Proof.
  intros ps HI Hok HR Hopen.
  destruct (wp_elim _ _ _ (driver_poll_wp sent cx rx timer_ready st HI Hok HR Hopen))
    as (r & st' & E & HI' & Hcase). exists r, st'. split_and!; try done.
  destruct (closed_and_drained (inner st)) eqn:Ec.
  { destruct Hcase as [-> ->]. unfold finished. cbn. by rewrite Hopen. }
  destruct Hcase as (-> & D & Hc). split; [done|]. split; [apply D|].
  assert (Room (len ps) (len (concat (map i_buf ps))) (unwoken st)) as HR0
    by (pose proof (len_nonneg ps); eapply Room_weaken; [| |by destruct HR; split]; lia).
  pose proof (frame_waker sent st None HI) as HI0. fold (unwoken st) in HI0.
  destruct (wp_elim _ _ _ (poll_incoming_received sent rx (unwoken st) HI0 Hok HR0))
    as (r1 & st1 & E1 & HI1 & X1 & -> & Er1 & Hrec).
  assert (w_tx_open (world st1) = true) as Hopen1 by by rewrite (ext_tx_open _ _ X1).
  destruct (wp_elim _ _ _ (wp_and _ _ _ _ (poll_drive_wp sent rx timer_ready (unwoken st) HI0 Hok HR0 Hopen)
    (poll_drive_after sent rx timer_ready _ (unwoken st) st1 E1 HI1 Hopen1)))
    as (r2 & st2 & E2 & (HI2 & D2 & _) & K2 & Er2 & Hcase).
  assert (Room 1 0 st2) as HR2.
  { eapply (drives_Room sent ps 0); [lia|exact D2|].
    eapply Room_weaken; [| |by destruct HR; split]; fold ps; lia. }
  destruct (wp_elim _ _ _ (driver_poll_after sent cx rx timer_ready r2 st st2 Ec E2 HI2 HR2))
    as (r' & st'' & E' & (Ein & Ea & Era) & Htail). rewrite E in E'. injection E' as <- <-.
  rewrite Era, Er2, Er1. split; [done|]. split.
  { intros p Hp Hpass Hd. unfold received. rewrite Ein, Ea, (kp_incoming _ _ K2), (kp_ack _ _ K2).
    by apply (Hrec p Hp Hpass Hd). }
  exists st1. split; [exact E1|]. destruct (rx_closed rx); [right; rewrite Hcase in Htail; split; [by left|done]|].
  destruct Hcase as [[-> Hex]|(-> & Hne & Hq & Hres & Hcw)]; [right; split; [by right|done]|left]. subst st'.
  split_and!; try done. by rewrite <- (kp_error _ _ K2).
Qed.

(** A sum over a table of waiting packets is zero. *)
Lemma out_sum_waiting store (out : gmap Z loc) :
  (forall k l, out !! k = Some l -> exists p, store !! l = Some p /\ p_waiting p = true) ->
  out_sum store flight_len out = 0.
Proof.
  intros Hw. pose proof (out_sum_bounds store flight_len out 0 ltac:(lia)) as Hb.
  assert (0 <= out_sum store flight_len out <= 0 * Z.of_nat (size out)); [|lia].
  apply Hb. intros k l Hk. destruct (Hw k l Hk) as (p & Hp & Hwp).
  rewrite (at_loc_lookup _ _ _ _ Hp). unfold flight_len. by rewrite Hwp.
Qed.

(** C18: the retransmission timeout.  When the timer fires on outstanding data,
    the window is halved (but not below one MTU) and the timer re-armed at
    twice the timeout.  Every unacknowledged packet is then marked as waiting
    for retransmission, with its transmission counted, so that no byte is in
    flight any more; or the stream is failed because a packet has exhausted
    its transmissions. *)
Theorem timeout_contract sent st :
  StreamInv sent st -> s_remote_acked (inner st) <> s_seq (inner st) ->
  exists r st', poll_check_timeouts true st = Ret (r, st') /\ StreamInv sent st' /\
    s_cwnd (inner st') = Z.max UDX_MTU (s_cwnd (inner st) / 2) /\
    s_rto_timeout (inner st') = w_clock (world st) (w_ticks (world st)) + 2 * s_rto (inner st) /\
    s_outgoing (inner st') = s_outgoing (inner st) /\
    s_send_queue (inner st') = s_send_queue (inner st) /\
    match r with
    | Ok _ =>
        (forall k l p, s_remote_acked (inner st) <= k < s_seq (inner st) ->
           s_outgoing (inner st) !! k = Some l -> w_store (world st) !! l = Some p ->
           w_store (world st') !! l = Some (lost_mark p)) /\
        ((forall k, is_Some (s_outgoing (inner st) !! k) -> s_remote_acked (inner st) <= k) ->
         s_inflight (inner st') = 0)
    | Err e => e = max_retransmits_error /\
        exists k l p, s_outgoing (inner st) !! k = Some l /\ w_store (world st) !! l = Some p /\
          p_waiting p = false /\ p_transmits p = UDX_MAX_TRANSMITS + 1
    end.
Proof.
  intros HI Hne. destruct (wp_elim _ _ _ (poll_check_timeouts_wp sent st true HI))
    as (r & st' & E & HI' & [(Hf & _)|(_ & st0 & i & E0 & K & M & Hr)]).
  { by destruct Hf. }
  exists r, st'. split; [done|]. split; [done|].
  rewrite (mk_cwnd _ _ _ _ M), (mk_timer _ _ _ _ M), (mk_outgoing _ _ _ _ M), (mk_queue _ _ _ _ M).
  assert (w_store (world st0) = w_store (world st) /\ s_outgoing (inner st0) = s_outgoing (inner st))
    as [Es Eo] by by rewrite E0.
  split; [by rewrite E0|]. split; [by rewrite E0|]. split; [done|]. split; [by rewrite E0|].
  destruct Hr as [[-> Hi]|(-> & l & p & Hk & Hl & Hw & Ht)].
  - assert (forall k l p, s_remote_acked (inner st) <= k < s_seq (inner st) ->
      s_outgoing (inner st) !! k = Some l -> w_store (world st) !! l = Some p ->
      w_store (world st') !! l = Some (lost_mark p)) as Hmark.
    { intros k l p Hk Hkl Hl. rewrite <- Eo in Hkl. rewrite <- Es in Hl.
      rewrite (mk_store _ _ _ _ M k l p Hkl Hl).
      by rewrite (proj2 (Z.leb_le _ _)), (proj2 (Z.ltb_lt _ _)) by lia. }
    split; [done|]. intros Hall. rewrite (inv_inflight _ _ HI'). apply out_sum_waiting.
    intros k l Hk. rewrite (mk_outgoing _ _ _ _ M), Eo in Hk.
    destruct (inv_out _ _ HI k l Hk) as (Hr & p & Hp & _).
    exists (lost_mark p). split.
    + eapply Hmark; [|done..]. split; [apply Hall; by rewrite Hk|lia].
    + unfold lost_mark. by destruct (p_waiting p) eqn:Ew.
  - split; [done|]. exists i, l, p. split_and!; try done.
    destruct (inv_out _ _ HI i l Hk) as (_ & q & Hq & _ & _ & _ & Hr). simplify_eq. lia.
Qed.

(** C19: retransmission.  [flush_waiting_packets] puts waiting packets back on
    the send queue in the order of their sequence numbers, clears their waiting
    flag and counts their bytes as in flight, without exceeding the window; it
    leaves out a waiting packet only from the first one on that does not fit
    the window. *)
Theorem flush_contract sent st :
  StreamInv sent st ->
  exists st' ks ls, flush_waiting_packets st = Ret (tt, st') /\ StreamInv sent st' /\
    StronglySorted Z.lt ks /\
    Forall2 (fun k l => s_outgoing (inner st) !! k = Some l /\
               exists p, w_store (world st) !! l = Some p /\ p_waiting p = true) ks ls /\
    s_send_queue (inner st') = s_send_queue (inner st) ++ map Shared ls /\
    s_inflight (inner st') <= Z.max (s_inflight (inner st)) (s_cwnd (inner st)) /\
    (forall k l p, s_outgoing (inner st) !! k = Some l -> w_store (world st) !! l = Some p ->
       w_store (world st') !! l = Some (if decide (k ∈ ks) then flush_mark p else p)) /\
    exists stop, (s_seq (inner st) <= stop \/ no_window st st' stop) /\
      forall k l p, s_remote_acked (inner st) <= k < stop -> s_outgoing (inner st) !! k = Some l ->
        w_store (world st) !! l = Some p -> p_waiting p = true -> k ∈ ks.
Proof.
  intros HI. destruct (wp_elim _ _ _ (flush_waiting_packets_wp sent st HI))
    as ([] & st' & E & HI' & ks & i & F & (Hs & _ & Hc) & Hstop).
  destruct (fl_queue _ _ _ F) as (ls & Hq & Hls).
  exists st', ks, ls. split_and!; try done; try apply F. by exists i.
Qed.

(** C20: batching.  [poll_transmit] empties the send queue into one event per
    batch; the batches are the queue cut into consecutive pieces, in order,
    each of between one and [min(max_gso_segments, MAX_SEGMENTS)] packets that
    all have the announced segment size. *)
Theorem poll_transmit_contract sent st :
  StreamInv sent st -> w_tx_open (world st) = true ->
  exists bs st', poll_transmit st = Ret (tt, st') /\ StreamInv sent st' /\
    s_send_queue (inner st') = [] /\
    concat (map snd bs) = s_send_queue (inner st) /\
    Forall (batch_ok (w_store (world st)) (Z.min (w_max_gso_segments (world st)) MAX_SEGMENTS)) bs /\
    w_tx (world st') = w_tx (world st) ++
      map (fun b => EvTransmit (PacketSet_new (s_remote_addr (inner st)) (snd b) (fst b))) bs.
Proof.
  intros HI Hopen. destruct (wp_elim _ _ _ (poll_transmit_wp sent st HI Hopen))
    as ([] & st' & E & bs & Hc & Hb & ->).
  destruct (wp_elim _ _ _ (transmit_drives sent [] st st HI
    (handled_drives sent [] st st (handled_refl st) (fun _ => conj eq_refl eq_refl)) Hopen)) as ([] & st'' & E' & HI' & _ & Hq).
  rewrite E in E'. injection E' as E'. rewrite <- E' in HI', Hq.
  exists bs. eexists. by split_and!.
Qed.

(** C17: cumulative acknowledgement.  An acknowledgement that is not ahead is
    ignored.  One that is ahead removes exactly the packets below it from the
    retransmission table and flags them so that queued copies are skipped,
    never increases the bytes in flight, re-arms the timer at the timeout after
    the clock reading that it takes last, and wakes the writer when a whole
    packet fits the window again. *)
Theorem max_remote_ack_contract sent st ack :
  StreamInv sent st -> ack <= U32_MAX ->
  exists st', handle_incoming_max_remote_ack ack st = Ret (tt, st') /\ StreamInv sent st' /\
    (ack <= s_remote_acked (inner st) -> st' = st) /\
    (s_remote_acked (inner st) < ack ->
       s_remote_acked (inner st') = ack /\
       (forall k, s_outgoing (inner st') !! k =
          if (s_remote_acked (inner st) <=? k) && (k <? ack) then None
          else s_outgoing (inner st) !! k) /\
       (forall k l p, s_remote_acked (inner st) <= k < ack -> s_outgoing (inner st) !! k = Some l ->
          w_store (world st) !! l = Some p ->
          exists p', w_store (world st') !! l = Some p' /\ p_skip p' = true) /\
       s_inflight (inner st') <= s_inflight (inner st) /\
       (w_ticks (world st) < w_ticks (world st'))%nat /\
       s_rto_timeout (inner st') = w_clock (world st) (pred (w_ticks (world st'))) + s_rto (inner st') /\
       (s_inflight (inner st') + UDX_MTU <= s_cwnd (inner st') ->
          s_write_waker (inner st') = None /\
          w_woken (world st') = w_woken (world st) ++ option_list (s_write_waker (inner st)))).
Proof.
  intros HI Hack. destruct (wp_elim _ _ _ (handle_incoming_max_remote_ack_wp sent ack st HI Hack))
    as ([] & st' & E & HI' & Hcase). exists st'. split_and!; try done.
  { intros Hle. destruct Hcase as [[_ ->]|[? _]]; [done|lia]. }
  intros Hlt. destruct Hcase as [[? _]|(_ & st1 & A & HI1 & Era & E1)]; [lia|].
  assert (s_outgoing (inner st') = s_outgoing (inner st1) /\ s_remote_acked (inner st') = ack /\
    w_store (world st') = w_store (world st1) /\ s_inflight (inner st') = s_inflight (inner st1) /\
    s_cwnd (inner st') = s_cwnd (inner st1) /\ s_rto (inner st') = s_rto (inner st1))
    as (Eo & Er & Es & Ei & Ec & Erto)
    by (rewrite E1; unfold wake_writer; by destruct (_ <=? _)).
  rewrite Eo, Er, Es, Ei, Ec, Erto. split_and!; [done|apply A| |apply A| | |].
  - intros k l p Hk Hl Hp. eexists. split; [by eapply (ac_store _ _ _ A)|].
    by rewrite (proj2 (Z.leb_le _ _)), (proj2 (Z.ltb_lt _ _)) by lia.
  - rewrite E1. cbn. pose proof (ext_ticks _ _ (kp_ext _ _ (ac_keeps _ _ _ A))).
    unfold wake_writer. destruct (_ <=? _); cbn; lia.
  - rewrite E1. cbn. rewrite <- (ext_clock _ _ (kp_ext _ _ (ac_keeps _ _ _ A))).
    unfold wake_writer. by destruct (_ <=? _).
  - intros Hw%Z.leb_le. rewrite E1. unfold wake_writer. rewrite Hw. cbn.
    by rewrite (ac_woken _ _ _ A), (ac_write_waker _ _ _ A).
Qed.

(** C24: selective acknowledgement.  A SACK payload is read as pairs of
    little-endian words [start, end); the loop terminates on every payload,
    and exactly the packets whose sequence number lies in one of the ranges
    read leave the retransmission table.  The cumulative position stays. *)
Theorem sack_contract sent st packet :
  StreamInv sent st -> len (i_buf packet) < 2 ^ 63 ->
  exists st', handle_incoming_sacks packet st = Ret (tt, st') /\ StreamInv sent st' /\
    (forall k, s_outgoing (inner st') !! k =
       if existsb (in_range k) (sack_ranges (i_buf packet)) then None
       else s_outgoing (inner st) !! k) /\
    s_remote_acked (inner st') = s_remote_acked (inner st).
Proof.
  intros HI Hlen. destruct (wp_elim _ _ _ (handle_incoming_sacks_wp sent packet st HI Hlen))
    as ([] & st' & E & HI' & A & Er). exists st'. split_and!; try done. apply A.
Qed.

(** C25: the round-trip estimator computes RFC 6298 in whole nanoseconds: the
    first sample initialises SRTT and RTTVAR, later ones are smoothed with the
    factors 1/8 and 1/4, and the timeout is SRTT + max(G, 4*RTTVAR), at least
    one second.  For samples below 2^88 ns no intermediate duration overflows,
    and the estimates stay below the largest sample. *)
Theorem update_rtt_rfc6298 st rtt :
  CtrlInv st -> 0 <= rtt <= CLOCK_BOUND ->
  exists st', update_rtt rtt st = Ret (tt, st') /\
    let srtt := s_srtt (inner st) in
    let srtt' := if srtt =? 0 then rtt else (7 * srtt + rtt) / 8 in
    let rttvar' := if srtt =? 0 then rtt / 2
                   else (3 * s_rttvar (inner st) + Z.abs (srtt - rtt)) / 4 in
    let rto' := Z.max (from_millis 1000) (srtt' + Z.max UDX_CLOCK_GRANULARITY_MS (4 * rttvar')) in
    inner st' = (inner st) <| s_srtt := srtt' |> <| s_rttvar := rttvar' |> <| s_rto := rto' |> /\
    world st' = world st /\ CtrlInv st'.
Proof.
  intros HC Hr.
  destruct (wp_elim _ _ _ (update_rtt_wp (fun _ st' => st' = st <| inner ::= rtt_sampled rtt |>)
    st rtt HC Hr eq_refl)) as ([] & st' & E & ->).
  eexists. split; [exact E|]. cbv zeta. split_and!; [done|done|].
  by eapply CtrlInv_sampled.
Qed.

(** C15: an incoming packet.  A packet that the firewall rejects changes
    nothing.  Otherwise: a data packet at or beyond [ack] goes into the
    reassembly map and older ones are dropped; [ack] is then the first sequence
    number that has not been received, and the newly contiguous payloads are
    appended to the bytes ready to be read, which themselves do not change; an
    END packet closes both sides and records the error.  Every data packet,
    old or new, is answered with a state packet that carries the new [ack].
    A SACK packet removes exactly the packets in its ranges from the
    retransmission table, and any other packet none.  An acknowledgement that
    is new and not beyond what was sent widens the window, by one MTU below
    the slow-start threshold and by MTU^2 / cwnd (at least one byte) above it;
    otherwise the window stays. *)
Theorem handle_incoming_contract sent st p :
  StreamInv sent st -> incoming_ok p -> Room 1 (len (i_buf p)) st ->
  exists st', handle_incoming p st = Ret (tt, st') /\ StreamInv sent st' /\
    (passes (inner st) p = false -> st' = st) /\
    s_incoming (inner st') =
      (if passes (inner st) p && has_type p UDX_HEADER_DATA && (s_ack (inner st) <=? i_seq p)
       then <[i_seq p := p]> (s_incoming (inner st)) else s_incoming (inner st)) /\
    s_ack (inner st) <= s_ack (inner st') /\
    (forall k, s_read_cursor (inner st') <= k < s_ack (inner st') ->
       is_Some (s_incoming (inner st') !! k)) /\
    s_incoming (inner st') !! s_ack (inner st') = None /\
    unread (inner st') = unread (inner st) ++
      chunks (s_incoming (inner st')) (s_ack (inner st)) (s_ack (inner st')) /\
    s_error (inner st') =
      (if passes (inner st) p && has_type p UDX_HEADER_END then Some closed_by_remote
       else s_error (inner st)) /\
    s_state (inner st') =
      (if passes (inner st) p && has_type p UDX_HEADER_END then BothClosed else s_state (inner st)) /\
    (passes (inner st) p && has_type p UDX_HEADER_DATA = true -> answered st') /\
    (forall k, s_outgoing (inner st') !! k =
       if passes (inner st) p && (has_type p UDX_HEADER_SACK && existsb (in_range k) (sack_ranges (i_buf p)))
       then None else s_outgoing (inner st) !! k) /\
    s_cwnd (inner st') =
      (if passes (inner st) p && ((i_ack p <=? s_seq (inner st)) && (s_remote_acked (inner st) <? i_ack p)) then
         if s_cwnd (inner st) <? SSTHRESH then s_cwnd (inner st) + UDX_MTU
         else s_cwnd (inner st) + Z.max (UDX_MTU * UDX_MTU / s_cwnd (inner st)) 1
       else s_cwnd (inner st)).
Proof.
  intros HI Hok HR. destruct (wp_elim _ _ _ (handle_incoming_wp sent p st HI Hok HR))
    as ([] & st' & E & HI' & Hh & Hfw & Hin & He & Hs & _ & Hans & Ho & Hc). exists st'.
  pose proof (hd_absorbed _ _ _ _ _ _ _ Hh) as Hab.
  split_and!; try done.
  - rewrite Hin. unfold insert_incoming. rewrite Z.geb_leb.
    destruct (passes (inner st) p), (has_type p UDX_HEADER_DATA), (_ <=? _); done.
  - apply Hab.
  - apply HI'.
  - apply HI'.
  - eapply absorbed_unread; [apply HI|done].
  - rewrite Hs. destruct (passes (inner st) p && has_type p UDX_HEADER_END); [|done].
    by destruct (s_state (inner st)).
  - rewrite Hc. unfold new_window, grown. by destruct (passes (inner st) p).
Qed.

(** Every data packet that is let through is answered with the current
    acknowledgement, and the reader is woken when the packet was not beyond
    the first gap. *)
Theorem data_packet_answered sent st p :
  StreamInv sent st -> incoming_ok p -> has_type p UDX_HEADER_DATA = true ->
  Room 1 (len (i_buf p)) st ->
  exists st' sp, handle_incoming_data p st = Ret (tt, st') /\
    s_send_queue (inner st') = s_send_queue (inner st) ++ [Owned sp] /\
    state_packet sp /\ h_ack (p_header sp) = s_ack (inner st') /\
    w_woken (world st') = w_woken (world st) ++
      (if i_seq p <=? s_ack (inner st') then option_list (s_read_waker (inner st)) else []) ++
      option_list (s_drive_waker (inner st)).
Proof.
  intros HI Hok Hd HR. pose proof HR as [].
  destruct (wp_elim _ _ _ (handle_incoming_data_wp sent p st HI Hok Hd ltac:(lia) ltac:(lia) ltac:(lia)))
    as ([] & st' & E & _ & _ & _ & (sp & Hq & Hsp & Ha & _) & Hw & _). by exists st', sp.
Qed.

(** [terminate] records the error, closes the local side for good, queues
    one END packet for the peer, and wakes the reader, the writer and the
    driver, whose wakers are consumed. *)
Theorem terminate_contract sent st e :
  StreamInv sent st -> Room 1 0 st ->
  exists st' p, terminate e st = Ret (tt, st') /\ StreamInv sent st' /\
    s_error (inner st') = Some e /\ s_state (inner st') = close_local (s_state (inner st)) /\
    local_closed (s_state (inner st')) = true /\
    s_send_queue (inner st') = s_send_queue (inner st) ++ [Owned p] /\
    h_typ (p_header p) = UDX_HEADER_END /\ as_slice (p_buf p) = header_bytes (p_header p) /\
    s_drive_waker (inner st') = None /\ s_read_waker (inner st') = None /\
    s_write_waker (inner st') = None /\
    w_woken (world st') = w_woken (world st) ++ option_list (s_drive_waker (inner st)) ++
      option_list (s_read_waker (inner st)) ++ option_list (s_write_waker (inner st)).
Proof.
  intros HI HR. pose proof HR as [].
  destruct (wp_elim _ _ _ (terminate_wp sent st e HI ltac:(lia) ltac:(lia)))
    as ([] & st' & E & HI' & _ & (p & Hq & Ht & Hsp) & _ & He & Hs & Hd & Hr & Hw & Hwk).
  exists st', p. split_and!; try done; [rewrite Hs; apply local_closed_close_local|apply Hsp].
Qed.

End contracts.

(** ** The contracts at work

    A stream to 10.0.0.2:4000 with ids 7 and 9; [demo ops] is its state after
    the operations [ops]. *)

#[local] Existing Instance option_instant.
#[local] Existing Instance option_instant_laws.
#[local] Instance demo_profile : Profile := mk_Profile true true.

Definition demo_addr : SocketAddr := SocketAddrV4 [Byte.x0a; Byte.x00; Byte.x00; Byte.x02] 4000.

Definition demo_start : StreamSt :=
  mk_StreamSt (connect 0 demo_addr 7 9) (fresh_world 4).

Definition demo_op := stream_op (B := list byte * Z).

Definition demo (ops : list demo_op) : StreamSt :=
  match run_ops ops demo_start with
  | Ret (_, st) => st
  | _ => demo_start
  end.

(** Small operation sequences stay within the counters. *)
Definition demo_ok (ops : list demo_op) : Prop :=
  Forall op_valid ops /\ total op_packets ops <= 1000 /\ total op_bytes ops <= 1000000.

Lemma fresh_clock n : 0 <= w_clock (fresh_world 4) n <= CLOCK_BOUND.
Proof.
  cbn. unfold CLOCK_BOUND. pose proof (Z.mod_pos_bound (Z.of_nat n) 1000 ltac:(lia)). lia.
Qed.

Lemma demo_start_inv : StreamInv [] demo_start.
Proof. apply connect_StreamInv; [consts; lia|apply fresh_clock|cbn; lia]. Qed.

Lemma demo_run ops :
  demo_ok ops -> exists sent, StreamInv sent (demo ops) /\ ext demo_start (demo ops).
Proof.
  intros (Hv & Hn & Hb).
  pose proof (total_nonneg _ ops op_packets_nonneg). pose proof (total_nonneg _ ops op_bytes_nonneg).
  pose proof demo_start_inv as HI.
  pose proof (connect_Room (total op_packets ops) (total op_bytes ops) 0 demo_addr 7 9 (fresh_world 4))
    as HR.
  destruct (wp_elim _ _ _ (run_ops_wp ops [] demo_start HI Hv
    (HR ltac:(consts; lia) ltac:(consts; lia)) eq_refl)) as ([] & st & E & [cs HI'] & X).
  exists ([] ++ cs). unfold demo. by rewrite E.
Qed.

(** Decides the side conditions about a concrete state. *)
Ltac demo_solve :=
  repeat match goal with
  | |- demo_ok _ => split
  | |- Room _ _ _ => split
  | |- Forall _ [] => constructor
  | |- Forall _ (_ :: _) => constructor
  | |- incoming_ok _ => split; [repeat split; vm_compute; congruence|split; [reflexivity|vm_compute; reflexivity]]
  | |- _ /\ _ => split
  | |- _ <= _ => vm_compute; congruence
  | |- _ < _ => vm_compute; reflexivity
  | |- op_valid _ => cbn
  | |- True => exact I
  end.

Definition ab : list byte := [Byte.x61; Byte.x62].

(** A data packet with sequence number [seq] that acknowledges [ack]. *)
Definition demo_packet (typ seq ack : Z) (body : list byte) : IncomingPacket :=
  mk_IncomingPacket (mk_Header typ 0 9 U32_MAX seq ack) body 0 demo_addr.

Definition demo_poll (ps : list IncomingPacket) (timer_ready : bool) : demo_op :=
  OpPoll 5%nat (mk_RecvScript (map EvPacket ps) false) timer_ready.

Lemma stream_never_panics_witness :
  exists st' sent,
    run_ops
      [OpWrite 1%nat ab; demo_poll [demo_packet 1 1 0 ab; demo_packet 5 0 9 ab] true;
       OpRead 2%nat ([], 3); OpClose 3%nat; OpDrop 2] demo_start = Ret (tt, st') /\
    StreamInv sent st'.
Proof.
  apply stream_never_panics; try apply fresh_clock;
    unfold demo_poll; demo_solve; reflexivity.
Defined.

(** Two bytes written. *)
Definition demo_written : StreamSt := demo [OpWrite 1%nat ab].

Lemma demo_written_inv : exists sent, StreamInv sent demo_written /\ ext demo_start demo_written.
Proof. apply demo_run. demo_solve. Qed.

Lemma demo_written_room : Room 10 1000 demo_written.
Proof. demo_solve. Qed.

Lemma demo_start_room : Room 10 1000 demo_start.
Proof. demo_solve. Qed.

Lemma poll_write_contract_witness :
  exists r st', poll_write 1%nat ab demo_start = Ret (r, st') /\
    exists cs : list (list byte), r = Ready (Ok (len (concat cs))) /\ s_send_queue (inner st') = map Shared (seq 0 (length cs)).
Proof.
  destruct (poll_write_contract [] demo_start 1%nat ab demo_start_inv) as (r & st' & E & H); [reflexivity|..].
  - apply (Room_weaken 10 1000); [vm_compute; congruence..|apply demo_start_room].
  - exists r, st'. split; [exact E|]. change (s_error (inner demo_start)) with (@None UdxError) in H. cbv iota in H.
    destruct H as [[Hab _]|[(cs & _ & _ & _ & -> & _ & _ & _ & _ & [Hq _] & _)|(_ & Hf & _)]].
    + discriminate Hab.
    + exists cs. split; [reflexivity|exact Hq].
    + vm_compute in Hf. discriminate Hf.
Defined.

(** A data packet of four bytes has arrived. *)
Definition demo_received : StreamSt := demo [demo_poll [demo_packet 1 0 0 (ab ++ ab)] false].

Lemma demo_received_inv : exists sent, StreamInv sent demo_received /\ ext demo_start demo_received.
Proof. apply demo_run. unfold demo_poll. demo_solve. Qed.

Lemma poll_read_contract_witness :
  exists sent res buf' st', poll_read 2%nat ([] : list byte, 9) demo_received = Ret ((res, buf'), st') /\
    rb_filled buf' = [] ++ take (Z.to_nat 9) (unread (inner demo_received)) /\
    StreamInv sent st'.
Proof.
  destruct demo_received_inv as (sent & HI & _).
  destruct (poll_read_contract sent demo_received 2%nat ([], 9) HI)
    as (res & buf' & st' & E & Hf & _ & _ & _ & HI' & _).
  exists sent, res, buf', st'. split; [exact E|]. split; [exact Hf|exact HI'].
Defined.

Lemma driver_poll_contract_witness :
  exists sent r st',
    driver_poll 5%nat (mk_RecvScript [EvPacket (demo_packet 1 0 1 ab)] false) true demo_written
      = Ret (r, st') /\ StreamInv sent st' /\ r = Pending.
Proof.
  destruct demo_written_inv as (sent & HI & _).
  destruct (driver_poll_contract sent demo_written 5%nat
    (mk_RecvScript [EvPacket (demo_packet 1 0 1 ab)] false) true HI) as (r & st' & E & HI' & Hr).
  - cbn; demo_solve.
  - apply (Room_weaken 10 1000); [vm_compute; congruence..|apply demo_written_room].
  - reflexivity.
  - exists sent, r, st'. split; [exact E|]. split; [exact HI'|].
    destruct (closed_and_drained (inner demo_written)) eqn:Ec; [vm_compute in Ec; discriminate|].
    apply Hr.
Defined.

Lemma timeout_contract_witness :
  exists sent r st', poll_check_timeouts true demo_written = Ret (r, st') /\ StreamInv sent st' /\
    s_cwnd (inner st') = Z.max UDX_MTU (s_cwnd (inner demo_written) / 2).
Proof.
  destruct demo_written_inv as (sent & HI & _).
  destruct (timeout_contract sent demo_written HI) as (r & st' & E & HI' & Hc & _).
  - vm_compute; discriminate.
  - exists sent, r, st'. split; [exact E|]. split; [exact HI'|exact Hc].
Defined.

(** Two bytes written and timed out: the packet waits. *)
Definition demo_lost : StreamSt :=
  match poll_check_timeouts true demo_written with Ret (_, st) => st | _ => demo_written end.

Lemma demo_lost_inv : exists sent, StreamInv sent demo_lost.
Proof.
  destruct demo_written_inv as (sent & HI & _). exists sent.
  destruct (wp_elim _ _ _ (poll_check_timeouts_wp sent demo_written true HI)) as (r & st' & E & HI' & _).
  unfold demo_lost. by rewrite E.
Qed.

Lemma flush_contract_witness :
  exists sent st', flush_waiting_packets demo_lost = Ret (tt, st') /\ StreamInv sent st' /\
    s_inflight (inner st') <= Z.max (s_inflight (inner demo_lost)) (s_cwnd (inner demo_lost)).
Proof.
  destruct demo_lost_inv as (sent & HI).
  destruct (flush_contract sent demo_lost HI) as (st' & ks & ls & E & HI' & _ & _ & _ & Hi & _).
  exists sent, st'. split; [exact E|]. split; [exact HI'|exact Hi].
Defined.

Lemma poll_transmit_contract_witness :
  exists (bs : list (Z * list PacketRef)) st', poll_transmit demo_written = Ret (tt, st') /\
    concat (map snd bs) = s_send_queue (inner demo_written).
Proof.
  destruct demo_written_inv as (sent & HI & _).
  destruct (poll_transmit_contract sent demo_written HI eq_refl) as (bs & st' & E & _ & _ & Hc & _).
  exists bs, st'. split; [exact E|exact Hc].
Defined.

Lemma max_remote_ack_contract_witness :
  exists st', handle_incoming_max_remote_ack 1 demo_written = Ret (tt, st') /\
    s_remote_acked (inner st') = 1 /\ s_outgoing (inner st') !! 0 = None.
Proof.
  destruct demo_written_inv as (sent & HI & _).
  destruct (max_remote_ack_contract sent demo_written 1 HI) as (st' & E & _ & _ & Hs).
  - vm_compute; congruence.
  - exists st'. split; [exact E|]. destruct Hs as (Hr & Ho & _); [vm_compute; reflexivity|].
    split; [exact Hr|]. rewrite Ho. reflexivity.
Defined.

(** The ranges [0, 1) and [5, 6), of which the second is the last one. *)
Definition demo_sack : IncomingPacket :=
  demo_packet 4 0 0 (u32_to_le_bytes 0 ++ u32_to_le_bytes 1 ++ u32_to_le_bytes 5 ++ u32_to_le_bytes 6).

Lemma sack_contract_witness :
  exists st', handle_incoming_sacks demo_sack demo_written = Ret (tt, st') /\
    s_outgoing (inner st') !! 0 = None.
Proof.
  destruct demo_written_inv as (sent & HI & _).
  destruct (sack_contract sent demo_written demo_sack HI) as (st' & E & _ & Ho & _); [reflexivity|].
  exists st'. split; [exact E|]. rewrite Ho. reflexivity.
Defined.

Lemma update_rtt_rfc6298_witness :
  exists st', update_rtt (from_millis 80) demo_start = Ret (tt, st') /\
    s_srtt (inner st') = from_millis 80 /\ CtrlInv st'.
Proof.
  destruct (update_rtt_rfc6298 demo_start (from_millis 80)) as (st' & E & Hi & _ & HC).
  - apply demo_start_inv.
  - vm_compute; split; congruence.
  - exists st'. split; [exact E|]. split; [rewrite Hi; reflexivity|exact HC].
Defined.

Lemma handle_incoming_contract_witness :
  exists sent st', handle_incoming (demo_packet 3 0 0 ab) demo_written = Ret (tt, st') /\
    StreamInv sent st' /\ s_state (inner st') = BothClosed.
Proof.
  destruct demo_written_inv as (sent & HI & _).
  destruct (handle_incoming_contract sent demo_written (demo_packet 3 0 0 ab) HI)
    as (st' & E & HI' & _ & _ & _ & _ & _ & _ & _ & Hs & _).
  - demo_solve.
  - apply (Room_weaken 10 1000); [vm_compute; congruence..|apply demo_written_room].
  - exists sent, st'. split; [exact E|]. split; [exact HI'|]. rewrite Hs. reflexivity.
Defined.

Lemma data_packet_answered_witness :
  exists st' sp, handle_incoming_data (demo_packet 1 0 0 ab) demo_written = Ret (tt, st') /\
    s_send_queue (inner st') = s_send_queue (inner demo_written) ++ [Owned sp] /\
    h_ack (p_header sp) = s_ack (inner st').
Proof.
  destruct demo_written_inv as (sent & HI & _).
  destruct (data_packet_answered sent demo_written (demo_packet 1 0 0 ab) HI)
    as (st' & sp & E & Hq & _ & Ha & _).
  - demo_solve.
  - reflexivity.
  - apply (Room_weaken 10 1000); [vm_compute; congruence..|apply demo_written_room].
  - exists st', sp. split; [exact E|]. split; [exact Hq|exact Ha].
Defined.

Lemma terminate_contract_witness :
  exists st' p, terminate close_graceful demo_written = Ret (tt, st') /\
    s_error (inner st') = Some close_graceful /\
    s_send_queue (inner st') = s_send_queue (inner demo_written) ++ [Owned p].
Proof.
  destruct demo_written_inv as (sent & HI & _).
  destruct (terminate_contract sent demo_written close_graceful HI)
    as (st' & p & E & _ & He & _ & _ & Hq & _).
  - apply (Room_weaken 10 1000); [vm_compute; congruence..|apply demo_written_room].
  - exists st', p. split; [exact E|]. split; [exact He|exact Hq].
Defined.
