(* ===== verification/StreamLiveness.v ===== *)
(** Progress of the stream: a peer that falls silent is found dead after at most
    eight timeouts, and what follows; an exchange with the peer that gets
    through moves both sides forward. *)

From S2P Require Import Prelude Constants Errors UdpProto Packet Runtime Stream StreamInv StreamCtrl.
From S2P Require Import StreamSend StreamTimer StreamAck StreamRecv StreamDriver StreamSpec.

Local Open Scope Z_scope.

Section liveness.
Context `{P : Profile} {AI : AtomicInstant} {AIL : AtomicInstantLaws AI}.
Implicit Types (st : StreamSt) (sent : list (list byte)).

(** A poll of the driver without a packet from the peer. *)
Definition silence : RecvScript := mk_RecvScript [] false.

Definition timed_out st : Prop := s_error (inner st) = Some (UdxError_from_io max_retransmits_error).

(** The lowest unacknowledged packet and nothing below the acknowledgement. *)
Record lowest (k0 : Z) (l0 : loc) (p0 : Packet) (st : StreamSt) : Prop := {
  lw_key : s_outgoing (inner st) !! k0 = Some l0;
  lw_packet : w_store (world st) !! l0 = Some p0;
  lw_least : forall k l, s_outgoing (inner st) !! k = Some l -> k0 <= k;
  lw_acked : s_remote_acked (inner st) <= k0;
}.

(** Timeouts until the packet uses up its transmissions. *)
Definition patience (p : Packet) : Z :=
  UDX_MAX_TRANSMITS + 2 - p_transmits p + (if p_waiting p then 1 else 0).

Lemma lowest_fires sent k0 l0 p0 st :
  StreamInv sent st -> lowest k0 l0 p0 st -> fires true st.
Proof.
  intros HI [Hk _ _ Ha]. destruct (inv_out _ _ HI k0 l0 Hk) as [Hr _]. split; [done|]. lia.
Qed.

(** Without packets [poll_incoming] does nothing. *)
Lemma silent_incoming (Q : result unit io_error -> StreamSt -> Prop) sent st :
  StreamInv sent st -> Q (Ok tt) st -> wp (poll_incoming silence) Q st.
Proof.
  intros HI HQ. unfold poll_incoming, silence. cbn [rx_events rx_closed recv_loop]. wp_run.
  unfold handle_incoming_max_remote_ack. apply wp_bind, wp_self.
  pose proof (inv_remote_acked _ (inv_ctrl _ _ HI)). rewrite (proj2 (Z.leb_le _ _)) by lia. by wp_run.
Qed.

(** ** A timeout *)

(** After a timeout that did not fail every outstanding packet waits. *)
Lemma marked_waiting sent k0 l0 p0 ra i st0 st' :
  (forall k l, s_outgoing (inner st0) !! k = Some l ->
    k < s_seq (inner st0) /\ is_Some (w_store (world st0) !! l)) ->
  lowest k0 l0 p0 st0 -> ra = s_remote_acked (inner st0) -> s_seq (inner st0) <= i ->
  marked ra i st0 st' -> StreamInv sent st' ->
  lowest k0 l0 (lost_mark p0) st' /\ s_inflight (inner st') = 0 /\
  forall k l, s_outgoing (inner st') !! k = Some l -> exists p, w_store (world st') !! l = Some p /\ p_waiting p = true.
Proof.
  intros Hout [Hk Hp Hl Ha] -> Hi M HI'.
  assert (forall k l p, s_outgoing (inner st0) !! k = Some l -> w_store (world st0) !! l = Some p ->
    w_store (world st') !! l = Some (lost_mark p)) as Hm.
  { intros k l p Hk' Hp'. rewrite (mk_store _ _ _ _ M k l p Hk' Hp').
    destruct (Hout k l Hk') as [Hr _]. specialize (Hl k l Hk').
    by rewrite (proj2 (Z.leb_le _ _)), (proj2 (Z.ltb_lt _ _)) by lia. }
  assert (forall k l, s_outgoing (inner st') !! k = Some l ->
    exists p, w_store (world st') !! l = Some p /\ p_waiting p = true) as Hw.
  { intros k l Hk'. rewrite (mk_outgoing _ _ _ _ M) in Hk'.
    destruct (Hout k l Hk') as (_ & p & Hp'). exists (lost_mark p). split; [by eapply Hm|].
    unfold lost_mark. by destruct (p_waiting p) eqn:E. }
  split_and!; [|by rewrite (inv_inflight _ _ HI'), out_sum_waiting|done].
  split; rewrite ?(mk_outgoing _ _ _ _ M), ?(mk_remote_acked _ _ _ _ M); try done. by eapply Hm.
Qed.

(** Flushing with nothing in flight sends the lowest packet again. *)
Lemma flushed_lowest sent k0 l0 p0 ks i st st' :
  StreamInv sent st -> StreamInv sent st' -> lowest k0 l0 p0 st -> p_waiting p0 = true ->
  (forall k l, s_outgoing (inner st) !! k = Some l -> exists p, w_store (world st) !! l = Some p /\ p_waiting p = true) ->
  flushed ks st st' -> scanned (s_remote_acked (inner st)) i st ks ->
  (s_seq (inner st) <= i \/ no_window st st' i) -> k0 ∈ ks.
Proof.
  intros HI HI' [Hk Hp Hl Ha] Hw Hall F (Hs & Hb & Hc) Hi.
  destruct (inv_out _ _ HI k0 l0 Hk) as [Hr _].
  destruct (decide (k0 < i)) as [Hlt|Hge]; [eapply Hc; [lia|done..]|].
  destruct Hi as [Hi|(l & p & Hkl & Hpl & _ & Hfull)]; [lia|].
  assert (i = k0) as -> by (specialize (Hl i l Hkl); lia).
  assert (ks = []) as ->.
  { destruct (fl_queue _ _ _ F) as (ls & _ & HF). destruct ks as [|k ks]; [done|].
    apply Forall_cons_1 in Hb as [Hb _]. apply Forall2_cons_inv_l in HF as (x & ls' & [Hkx _] & _).
    specialize (Hl k x Hkx). lia. }
  exfalso. destruct (inv_out _ _ HI k0 l Hkl) as (_ & q & Hq & _ & Hd & _). simplify_eq.
  pose proof (data_packet_len _ _ Hd). pose proof (inv_cwnd _ (inv_ctrl _ _ HI')).
  assert (s_inflight (inner st') = 0) as E0; [|unfold UDX_MTU in *; lia].
  rewrite (inv_inflight _ _ HI'). apply out_sum_waiting. intros k l' Hk'.
  rewrite (fl_outgoing _ _ _ F) in Hk'. destruct (Hall k l' Hk') as (p' & Hp' & Hw').
  exists p'. split; [|done]. rewrite (fl_store _ _ _ F k l' p' Hk' Hp'). by rewrite decide_False by set_solver.
Qed.

Lemma patience_flush p : patience (flush_mark p) <= patience p.
Proof. unfold patience, flush_mark. cbn. destruct (p_waiting p); lia. Qed.

Lemma patience_lost p : p_waiting (lost_mark p) = true /\ patience (flush_mark (lost_mark p)) + 1 = patience p.
Proof. unfold patience, lost_mark, flush_mark. destruct (p_waiting p) eqn:E; cbn; rewrite ?E; split; done || lia. Qed.

(** What a silent poll leaves alone: the table, the acknowledgement, the open
    channel, the error and the count of transmitted packets. *)
Record silent (st st' : StreamSt) : Prop := {
  sl_keeps : keeps st st';
  sl_outgoing : s_outgoing (inner st') = s_outgoing (inner st);
  sl_acked : s_remote_acked (inner st') = s_remote_acked (inner st);
  sl_cwnd : s_cwnd (inner st') <= s_cwnd (inner st);
}.

#[local] Instance silent_preorder : PreOrder silent.
Proof.
  split.
  - intros st. split; done.
  - intros s1 s2 s3 [] []. split; [by transitivity s2|congruence|congruence|lia].
Qed.

Lemma flushed_silent ks st st' : flushed ks st st' -> silent st st'.
Proof. intros F. split; try apply F. by rewrite (fl_cwnd _ _ _ F). Qed.

Lemma transmit_silent sent st :
  StreamInv sent st -> w_tx_open (world st) = true ->
  wp poll_transmit (fun _ st' => StreamInv sent st' /\ silent st st' /\ w_store (world st') = w_store (world st)) st.
Proof.
  intros HI Hopen. eapply wp_mono; [by apply (poll_transmit_wp sent)|].
  intros [] st' (bs & Ec & Hb & E'). split_and!; [split| |by rewrite E'].
  - rewrite E'. eapply SendInv_frame, HI; try done.
  - rewrite E'. by eapply RecvInv_frame, HI.
  - rewrite E'. eapply CtrlInv_frame, HI; try done. apply HI.
  - rewrite E'. split; [by apply keeps_eq_stats|done|done|done].
Qed.

Lemma silent_lowest k0 l0 p0 p st st' :
  lowest k0 l0 p0 st -> silent st st' -> w_store (world st') !! l0 = Some p -> lowest k0 l0 p st'.
Proof. intros [] []. by split; rewrite ?sl_outgoing0, ?sl_acked0. Qed.

(** The timer: a failure, or the lowest packet waits and nothing is in flight. *)
Lemma silent_timeouts sent fired k0 l0 p0 st :
  StreamInv sent st -> lowest k0 l0 p0 st ->
  wp (poll_check_timeouts fired) (fun r st' => StreamInv sent st' /\ silent st st' /\
    (if fired then
       r = Err max_retransmits_error \/
       (r = Ok tt /\ lowest k0 l0 (lost_mark p0) st' /\
        forall k l, s_outgoing (inner st') !! k = Some l ->
          exists p, w_store (world st') !! l = Some p /\ p_waiting p = true)
     else r = Ok tt /\ st' = st)) st.
Proof.
  intros HI HL. pose proof (lowest_fires _ _ _ _ _ HI HL) as Hf.
  pose proof (inv_cwnd _ (inv_ctrl _ _ HI)) as Hc.
  eapply wp_mono; [by apply (poll_check_timeouts_wp sent)|]. intros r st' (HI' & Hcase).
  destruct Hcase as [(Hn & -> & ->)|([-> _] & st0 & i & E0 & K0 & M & Hr)].
  { split_and!; [done|done|]. by destruct fired. }
  assert (silent st st') as Hs.
  { split; [transitivity st0; [done|apply M]|by rewrite (mk_outgoing _ _ _ _ M), E0|
      by rewrite (mk_remote_acked _ _ _ _ M), E0|].
    rewrite (mk_cwnd _ _ _ _ M), E0. cbn. unfold UDX_MTU in *. Z.div_mod_to_equations. lia. }
  split_and!; [done|done|]. destruct Hr as [[-> Hi]|[-> _]]; [right|by left]. split; [done|].
  assert (lowest k0 l0 p0 st0) as HL0 by (rewrite E0; by destruct HL).
  destruct (marked_waiting sent k0 l0 p0 (s_remote_acked (inner st)) i st0 st') as (H1 & _ & H2); try done.
  - intros k l Hk. rewrite E0 in Hk |- *. destruct (inv_out _ _ HI k l Hk) as (Hrng & p & Hp & _).
    split; [apply Hrng|by exists p].
  - by rewrite E0.
  - by rewrite E0.
Qed.

(** [poll_drive] without packets: the stream fails, or the patience of its
    lowest packet shrinks with every timeout. *)
Lemma silent_drive_wp sent fired k0 l0 p0 st :
  StreamInv sent st -> w_tx_open (world st) = true -> lowest k0 l0 p0 st ->
  wp (poll_drive silence fired) (fun r st' => StreamInv sent st' /\ silent st st' /\
    ((r = Err max_retransmits_error /\ fired = true) \/
     (r = Ok false /\ exists p', lowest k0 l0 p' st' /\
        patience p' + (if fired then 1 else 0) <= patience p0))) st.
Proof.
  intros HI Hopen HL. unfold poll_drive. apply wp_bind. eapply silent_incoming; [done|].
  apply wp_bind. eapply wp_mono; [by eapply silent_timeouts|]. intros r st1 (HI1 & S1 & Hr).
  assert (r = Err max_retransmits_error /\ fired = true \/ r = Ok tt /\ exists p1, lowest k0 l0 p1 st1 /\
    (forall ks i st2, StreamInv sent st2 -> flushed ks st1 st2 -> scanned (s_remote_acked (inner st1)) i st1 ks ->
      (s_seq (inner st1) <= i \/ no_window st1 st2 i) ->
      patience (if decide (k0 ∈ ks) then flush_mark p1 else p1) + (if fired then 1 else 0) <= patience p0))
    as [[-> ->]|(-> & p1 & HL1 & Hpat)].
  { destruct fired; [destruct Hr as [->|(-> & HL1 & Hall)]; [by left|]|destruct Hr as [-> ->]]; right; (split; [done|]).
    - destruct (patience_lost p0) as [Hw Hp]. exists (lost_mark p0). split; [done|]. intros ks i st2 HI2 F Hsc Hi.
      rewrite decide_True; [lia|]. by eapply (flushed_lowest sent k0 l0 (lost_mark p0) ks i st1 st2).
    - exists p0. split; [done|]. intros ks i st2 _ _ _ _. pose proof (patience_flush p0). case_decide; lia. }
  { apply wp_ret. split_and!; [done|done|by left]. }
  apply wp_bind. eapply wp_mono; [by apply (flush_waiting_packets_wp sent)|].
  intros [] st2 (HI2 & ks & i & F & Hsc & Hi). pose proof (flushed_silent _ _ _ F) as S2.
  specialize (Hpat ks i st2 HI2 F Hsc Hi).
  assert (silent st st2) as S12 by (by transitivity st1). apply wp_bind. eapply wp_mono.
  { apply (transmit_silent sent); [done|]. by rewrite (ext_tx_open _ _ (kp_ext _ _ (sl_keeps _ _ S12))). }
  intros [] st3 (HI3 & S3 & Est). apply wp_ret. split_and!; [done|by transitivity st2|]. right. split; [done|].
  eexists. split; [|exact Hpat]. eapply silent_lowest; [exact HL1|by transitivity st2|].
  rewrite Est. apply (fl_store _ _ _ F k0 l0 p1); apply HL1.
Qed.

(** ** Polls of the driver task *)

Lemma outstanding_not_drained k0 l0 p0 st : lowest k0 l0 p0 st -> closed_and_drained (inner st) = false.
Proof.
  intros [Hk _ _ _]. unfold closed_and_drained.
  rewrite (bool_decide_eq_false_2 (s_outgoing _ = ∅)) by (intros E; by rewrite E in Hk).
  by rewrite andb_false_r.
Qed.

(** What a silent poll of the driver keeps of the state it found. *)
Record hushed (st st' : StreamSt) : Prop := {
  hu_outgoing : s_outgoing (inner st') = s_outgoing (inner st);
  hu_acked : s_remote_acked (inner st') = s_remote_acked (inner st);
  hu_signals : w_signals (world st') = w_signals (world st);
  hu_on_close : s_on_close (inner st') = s_on_close (inner st);
  hu_store : store_ext (w_store (world st)) (w_store (world st'));
  hu_error : timed_out st -> timed_out st';
}.

#[local] Instance hushed_preorder : PreOrder hushed.
Proof.
  split.
  - intros st. by split.
  - intros s1 s2 s3 [] []. split; [congruence..|by etransitivity|by auto].
Qed.

Lemma silent_hushed st st' : silent st st' -> hushed st st'.
Proof.
  intros [K ? ? _]. split; try apply K; try done. unfold timed_out. by rewrite (kp_error _ _ K).
Qed.

Lemma waker_hushed st w : hushed st (st <| inner ::= fun s => s <| s_drive_waker := w |> |>).
Proof. by split. Qed.

(** The lowest packet stays the lowest, whatever happened to its marks. *)
Lemma hushed_lowest k0 l0 p0 st st' :
  lowest k0 l0 p0 st -> hushed st st' -> exists p, lowest k0 l0 p st'.
Proof.
  intros [Hk Hp Hl Ha] [E1 E2 _ _ Hs _]. destruct (Hs l0 p0 Hp) as (p & Hp' & _).
  exists p. by split; rewrite ?E1, ?E2.
Qed.

Lemma silent_drive_hushed sent fired k0 l0 p0 st :
  StreamInv sent st -> w_tx_open (world st) = true -> lowest k0 l0 p0 st ->
  0 <= tx_packets (s_stats (inner st)) -> tx_packets (s_stats (inner st)) + 1 < usize_modulus ->
  forall cx, wp (driver_poll cx silence fired) (fun _ st' => hushed st st' /\ exists p', lowest k0 l0 p' st' /\
    (timed_out st' \/ patience p' + (if fired then 1 else 0) <= patience p0)) st.
Proof.
  intros HI Hopen HL Hnn Hroom cx. unfold driver_poll. apply wp_bind, wp_set_self. fold (unwoken st).
  apply wp_bind, wp_self. change (closed_and_drained (inner (unwoken st))) with
    (closed_and_drained (inner st)). rewrite (outstanding_not_drained _ _ _ _ HL).
  assert (lowest k0 l0 p0 (unwoken st)) as HL0 by (by destruct HL).
  pose proof (waker_hushed st None) as H0. fold (unwoken st) in H0.
  apply wp_bind. eapply wp_mono.
  { apply (silent_drive_wp sent); [by apply (frame_waker sent st None HI)|done|exact HL0]. }
  intros r st1 (HI1 & S1 & Hr). pose proof (silent_hushed _ _ S1) as H1.
  assert (hushed st st1) as H01 by (by transitivity (unwoken st)).
  destruct Hr as [[-> ->]|(-> & p' & HL1 & Hp)].
  - apply wp_bind, wp_bind. destruct (kp_stats _ _ (sl_keeps _ _ S1)) as (a & b & Es).
    eapply wp_mono; [apply (terminate_wp sent); [done|rewrite Es; cbn..]; done|].
    intros [] st2 (HI2 & C & _ & _ & He & _). st_run.
    match goal with |- hushed _ ?s /\ _ => set (st3 := s) end.
    assert (hushed st1 st3) as H13.
    { split; try apply C. by intros _. }
    assert (hushed st st3) as H03 by (by transitivity st1).
    split; [done|]. destruct (hushed_lowest _ _ _ _ _ HL H03) as [p HL3]. exists p. split; [done|by left].
  - st_run. match goal with |- hushed _ ?s /\ _ => set (st3 := s) end. split.
    + transitivity st1; [done|apply waker_hushed].
    + exists p'. split; [by destruct HL1|by right].
Qed.

Lemma silent_poll_wp sent n cx fired k0 l0 p0 st :
  StreamInv sent st -> Room (n + 1) 0 st -> 0 <= n -> w_tx_open (world st) = true -> lowest k0 l0 p0 st ->
  wp (driver_poll cx silence fired) (fun r st' =>
    r = Pending /\ StreamInv sent st' /\ Room n 0 st' /\ w_tx_open (world st') = true /\
    hushed st st' /\ exists p', lowest k0 l0 p' st' /\
    (timed_out st' \/ patience p' + (if fired then 1 else 0) <= patience p0)) st.
Proof.
  intros HI HR Hn Hopen HL. pose proof HR as [_ _ _ [Hnn Hroom] _ _ _]. eapply wp_mono.
  { eapply wp_and; [|eapply (silent_drive_hushed sent); [done|done|exact HL|lia..]].
    apply (driver_poll_wp sent cx silence fired st HI); [constructor| |done].
    change (len (script_packets silence)) with 0. eapply Room_weaken, HR; [lia|done]. }
  intros r st' ((HI' & Hcase) & Hh & Hp). rewrite (outstanding_not_drained _ _ _ _ HL) in Hcase.
  destruct Hcase as (-> & D & _). change (script_packets silence) with (@nil IncomingPacket) in D.
  split_and!; try done.
  - eapply (drives_Room sent [] 1); [lia|done|]. change (len []) with 0.
    change (len (concat (map i_buf []))) with 0. eapply Room_weaken, HR; lia.
  - by rewrite (ext_tx_open _ _ (dr_ext _ _ _ _ _ D)).
Qed.

(** The driver is polled once per entry of [fires], which says whether the
    retransmission timer has fired by then. *)
Fixpoint silent_polls (cx : Waker) (fires : list bool) : Act StreamSt (list (poll unit)) :=
  match fires with
  | [] => mret []
  | fired :: rest =>
      r ← driver_poll cx silence fired;
      rs ← silent_polls cx rest;
      mret (r :: rs)
  end.

Definition fired_count (fires : list bool) : Z := len (filter (fun b => b = true) fires).

Lemma fired_count_cons b bs : fired_count (b :: bs) = (if b then 1 else 0) + fired_count bs.
Proof. unfold fired_count, len. destruct b; rewrite ?filter_cons_True, ?filter_cons_False by done; cbn [length]; lia. Qed.

Lemma silent_polls_wp sent cx fires k0 l0 p0 st :
  StreamInv sent st -> Room (len fires) 0 st -> w_tx_open (world st) = true -> lowest k0 l0 p0 st ->
  wp (silent_polls cx fires) (fun rs st' =>
    rs = replicate (length fires) Pending /\ StreamInv sent st' /\ hushed st st' /\
    exists p', lowest k0 l0 p' st' /\ (timed_out st' \/ patience p' + fired_count fires <= patience p0)) st.
Proof.
  revert st p0. induction fires as [|b bs IH]; intros st p0 HI HR Hopen HL; cbn [silent_polls].
  { apply wp_ret. split_and!; [done..|]. exists p0. split; [done|right]. change (fired_count []) with 0. lia. }
  assert (len (b :: bs) = len bs + 1) as El by (unfold len; cbn [length]; lia). rewrite El in HR.
  apply wp_bind. eapply wp_mono; [eapply silent_poll_wp; [done..|apply len_nonneg|done|exact HL]|].
  intros r st1 (-> & HI1 & HR1 & Ho1 & H1 & p1 & HL1 & Hp1).
  apply wp_bind. eapply wp_mono; [by apply (IH st1 p1)|].
  intros rs st2 (-> & HI2 & H2 & p2 & HL2 & Hp2). apply wp_ret.
  split_and!; [done|done|by transitivity st1|]. exists p2. split; [done|].
  rewrite fired_count_cons. destruct Hp1 as [Ht|Hp1]; [left; by apply H2|].
  destruct Hp2 as [Ht|Hp2]; [by left|right; lia].
Qed.

(** Unacknowledged packets, all of them above the acknowledgement. *)
Definition outstanding st : Prop :=
  s_outgoing (inner st) <> ∅ /\
  forall k, is_Some (s_outgoing (inner st) !! k) -> s_remote_acked (inner st) <= k.

Lemma outstanding_lowest sent st : StreamInv sent st -> outstanding st -> exists k l p, lowest k l p st.
Proof.
  intros HI [Hne Hb].
  destruct (minimal_exists_elem_of_L Z.le (dom (s_outgoing (inner st)))) as (k & Hk & Hmin).
  { by rewrite dom_empty_iff_L. }
  apply elem_of_dom in Hk as [l Hl]. destruct (inv_out _ _ HI k l Hl) as (_ & p & Hp & _).
  exists k, l, p. split; [done|done| |apply Hb; by exists l].
  intros k' l' Hk'. destruct (Z.le_gt_cases k k') as [|Hgt]; [done|].
  apply Hmin; [by eapply elem_of_dom_2|lia].
Qed.

(** C9: a dead peer is found. A stream with unacknowledged packets whose peer
    has fallen silent times out after at most eight expiries of the
    retransmission timer, however many other polls come between them: the
    stream's error is then the [TimedOut] of [poll_check_timeouts]. *)
Theorem dead_peer_detected sent cx fires st :
  StreamInv sent st -> outstanding st -> w_tx_open (world st) = true ->
  Room (len fires) 0 st -> UDX_MAX_TRANSMITS + 3 <= fired_count fires ->
  exists st', silent_polls cx fires st = Ret (replicate (length fires) Pending, st') /\
    StreamInv sent st' /\ timed_out st' /\ local_closed (s_state (inner st')) = true.
Proof.
  intros HI Hout Hopen HR Hn. destruct (outstanding_lowest _ _ HI Hout) as (k & l & p & HL).
  destruct (wp_elim _ _ _ (silent_polls_wp sent cx fires k l p st HI HR Hopen HL))
    as (rs & st' & E & -> & HI' & _ & p' & HL' & Hp).
  assert (timed_out st') as Ht.
  { destruct Hp as [|Hp]; [done|exfalso].
    destruct (inv_out _ _ HI k l (lw_key _ _ _ _ HL)) as (_ & q & Hq & _ & _ & _ & Hqt & _).
    destruct (inv_out _ _ HI' k l (lw_key _ _ _ _ HL')) as (_ & q' & Hq' & _ & _ & _ & Hqt' & _).
    rewrite (lw_packet _ _ _ _ HL) in Hq. rewrite (lw_packet _ _ _ _ HL') in Hq'. simplify_eq.
    unfold patience, UDX_MAX_TRANSMITS in *. repeat case_match; lia. }
  exists st'. split_and!; try done. apply (inv_closed _ (inv_ctrl _ _ HI')). rewrite Ht. by eexists.
Qed.

(** C37: and it is never let go. While packets are unacknowledged and the peer
    is silent, no poll of the driver completes, before or after the timeout:
    the packets stay in [outgoing], which [closed_and_drained] wants empty, so
    the close signal of a [close] is never fired and the socket never hears
    that the stream is gone. *)
Theorem dead_peer_never_closes sent cx fires st :
  StreamInv sent st -> outstanding st -> w_tx_open (world st) = true -> Room (len fires) 0 st ->
  exists st', silent_polls cx fires st = Ret (replicate (length fires) Pending, st') /\
    outstanding st' /\ s_outgoing (inner st') = s_outgoing (inner st) /\
    closed_and_drained (inner st') = false /\
    s_on_close (inner st') = s_on_close (inner st) /\ w_signals (world st') = w_signals (world st).
Proof.
  intros HI Hout Hopen HR. destruct (outstanding_lowest _ _ HI Hout) as (k & l & p & HL).
  destruct (wp_elim _ _ _ (silent_polls_wp sent cx fires k l p st HI HR Hopen HL))
    as (rs & st' & E & -> & HI' & [] & p' & HL' & _).
  exists st'. unfold outstanding in *. rewrite hu_outgoing0, hu_acked0.
  split_and!; try done; [apply Hout..|]. by eapply outstanding_not_drained.
Qed.

(** ** An exchange with the peer *)

(** A packet of one side as the other side receives it: [process_packet]
    splits the bytes into the header and the rest. *)
Definition arriving (p : Packet) (from : SocketAddr) : IncomingPacket :=
  mk_IncomingPacket (p_header p) (drop 20 (as_slice (p_buf p))) 0 from.

Definition receive_one_packet (p : IncomingPacket) : Act StreamSt (result unit io_error) :=
  poll_incoming (mk_RecvScript [EvPacket p] false).

(** One packet: [handle_incoming], then its acknowledgement. *)
Lemma receive_packet_wp sent p st :
  StreamInv sent st -> incoming_ok p -> Room 1 (len (i_buf p)) st ->
  wp (receive_one_packet p) (fun r st' => r = Ok tt /\ StreamInv sent st' /\
    absorbed [p] (inner st) (inner st') /\
    (passes (inner st) p && has_type p UDX_HEADER_DATA = true ->
       s_incoming (inner st') = insert_incoming p (inner st) /\ answered st') /\
    s_remote_acked (inner st') = Z.max (s_remote_acked (inner st)) (i_ack p) /\
    (has_type p UDX_HEADER_SACK = false -> forall k, s_outgoing (inner st') !! k =
       if (s_remote_acked (inner st) <=? k) && (k <? i_ack p) then None else s_outgoing (inner st) !! k)) st.
Proof.
  intros HI Hok HR. pose proof Hok as ((_&_&_&_&_&Hack) & _).
  unfold receive_one_packet, poll_incoming. cbn [rx_events rx_closed recv_loop].
  apply wp_bind, wp_bind. eapply wp_mono; [by apply (handle_incoming_wp sent)|].
  intros [] st1 (HI1 & H1 & _ & Hin & _ & _ & Ho & Hans & _). apply wp_ret.
  assert (Z.max 0 (i_ack p) = i_ack p) as -> by (unfold i_ack; lia). apply wp_bind. eapply wp_mono.
  { apply (handle_incoming_max_remote_ack_wp sent); [done|]. unfold i_ack, U32_MAX. lia. }
  intros [] st' (HI' & Hcase). apply wp_ret. split; [done|]. split; [done|].
  pose proof (hd_remote_acked _ _ _ _ _ _ _ H1) as Er. rewrite Er in Hcase.
  pose proof (hd_absorbed _ _ _ _ _ _ _ H1) as A1.
  destruct Hcase as [[Hle ->]|(Hlt & st2 & A & _ & Era & ->)].
  - split_and!; [done| |lia|].
    + intros E. rewrite E in Hin. split; [done|by apply Hans].
    + intros Hns k. rewrite (proj1 (Ho Hns)). destruct (_ <=? k) eqn:E1, (k <? _) eqn:E2; b2p; done || lia.
  - set (st' := rearmed _ _) in *.
    assert (s_incoming (inner st') = s_incoming (inner st2) /\ s_ack (inner st') = s_ack (inner st2) /\
      s_read_cursor (inner st') = s_read_cursor (inner st2) /\
      s_send_queue (inner st') = s_send_queue (inner st2) /\ s_outgoing (inner st') = s_outgoing (inner st2) /\
      s_remote_acked (inner st') = s_remote_acked (inner st2) /\ s_error (inner st') = s_error (inner st2))
      as (E1 & E2 & E3 & E4 & E5 & E6 & E7)
      by (unfold st', wake_writer; by destruct (_ <=? _)).
    pose proof (ac_keeps _ _ _ A) as K. rewrite (kp_incoming _ _ K) in E1. rewrite (kp_ack _ _ K) in E2.
    rewrite (kp_cursor _ _ K) in E3. rewrite (ac_queue _ _ _ A) in E4. rewrite (kp_error _ _ K) in E7.
    split_and!; [by eapply absorbed_frame, A1| |lia|].
    + intros E. rewrite E in Hin. split; [by rewrite E1|]. unfold answered. rewrite E2, E4, E7. by apply Hans.
    + intros Hns k. rewrite E5, (ac_outgoing _ _ _ A), (proj1 (Ho Hns)). done.
Qed.

(** The first missing packet fills the gap. *)
Lemma absorbed_gap p s s' :
  RecvInv s -> RecvInv s' -> absorbed [p] s s' -> s_incoming s' = insert_incoming p s ->
  i_seq p = s_ack s -> i_read_offset p = 0 ->
  s_ack s < s_ack s' /\ (unread s ++ i_buf p) `prefix_of` unread s'.
Proof.
  intros HI HI' A Ein Es Eo. unfold insert_incoming in Ein. rewrite (proj2 (Z.geb_le _ _)) in Ein by lia.
  assert (s_incoming s' !! s_ack s = Some p) as Hp by (rewrite Ein, Es; by simplify_map_eq).
  assert (s_ack s < s_ack s') as Hlt.
  { pose proof (ab_ack _ _ _ A). destruct (decide (s_ack s = s_ack s')) as [E|]; [|lia].
    rewrite E, (inv_gap _ HI') in Hp. done. }
  split; [done|]. rewrite (absorbed_unread [p] s s') by done.
  rewrite (chunks_split _ (s_ack s) (s_ack s + 1)) by lia.
  assert (chunks (s_incoming s') (s_ack s) (s_ack s + 1) = i_buf p) as ->.
  { unfold chunks. replace (s_ack s + 1 - s_ack s) with 1 by lia.
    change (seqZ (s_ack s) 1) with [Z.of_nat 0 + s_ack s]. cbn [map concat]. unfold chunk.
    replace (Z.of_nat 0 + s_ack s) with (s_ack s) by lia. by rewrite Hp, Eo, app_nil_r. }
  rewrite app_assoc. by eexists.
Qed.

Lemma table_arrives sent st k l p from :
  StreamInv sent st -> s_outgoing (inner st) !! k = Some l -> w_store (world st) !! l = Some p ->
  exists body, sent !! Z.to_nat k = Some body /\ len body <= UDX_MAX_DATA_SIZE /\
    i_buf (arriving p from) = body /\ i_seq (arriving p from) = k /\ incoming_ok (arriving p from) /\
    has_type (arriving p from) UDX_HEADER_DATA = true.
Proof.
  intros HI Hk Hp. destruct (inv_out _ _ HI k l Hk) as (_ & q & Hq & (_ & Hw & _) & (Ht & body & Hb & Hl & Eb) & Es & _).
  simplify_eq. exists body.
  assert (i_buf (arriving p from) = body) as E by (cbn; by rewrite Eb, drop_app_length' by done).
  split_and!; try done; try lia.
  - split; [done|]. split; [done|]. rewrite E. unfold UDX_MAX_DATA_SIZE, UDX_MTU in *. cbn in *. lia.
  - unfold has_type. cbn. by rewrite Ht.
Qed.

Lemma answer_arrives sent st q sp from :
  StreamInv sent st -> s_send_queue (inner st) = q ++ [Owned sp] -> state_packet sp ->
  incoming_ok (arriving sp from) /\ has_type (arriving sp from) UDX_HEADER_SACK = false /\
  i_buf (arriving sp from) = [].
Proof.
  intros HI Hq (Ht & Eb).
  pose proof (inv_queue _ _ HI) as HQ. rewrite Hq, Forall_app, Forall_singleton in HQ.
  destruct HQ as (_ & p & [= <-] & _ & Hw & _).
  assert (i_buf (arriving sp from) = []) as E by (cbn; rewrite Eb; by apply drop_ge).
  split_and!; [split_and!; [done|done|by rewrite E]| |done].
  unfold has_type. cbn. by destruct Ht as [-> | ->].
Qed.

(** Progress. When the first packet that the peer is missing gets through
    and the answer to it comes back, both sides move: the peer's
    acknowledgement passes the packet and the payload becomes readable, and the
    sender's acknowledgement catches up with the peer's and the packets below
    it leave the retransmission table. *)
Theorem exchange_makes_progress sent psent a b l p from from' :
  StreamInv sent a -> StreamInv psent b ->
  s_outgoing (inner a) !! s_ack (inner b) = Some l -> w_store (world a) !! l = Some p ->
  s_remote_acked (inner a) <= s_ack (inner b) -> passes (inner b) (arriving p from) = true ->
  Room 1 UDX_MTU b -> Room 1 0 a ->
  exists body b' q sp a', sent !! Z.to_nat (s_ack (inner b)) = Some body /\
    receive_one_packet (arriving p from) b = Ret (Ok tt, b') /\
    s_ack (inner b) < s_ack (inner b') /\ (unread (inner b) ++ body) `prefix_of` unread (inner b') /\
    s_send_queue (inner b') = q ++ [Owned sp] /\
    receive_one_packet (arriving sp from') a = Ret (Ok tt, a') /\
    s_remote_acked (inner a') = s_ack (inner b') /\
    forall k, s_outgoing (inner a') !! k =
      if (s_remote_acked (inner a) <=? k) && (k <? s_ack (inner b')) then None else s_outgoing (inner a) !! k.
Proof.
  intros HIa HIb Hk Hp Hra Hfw HRb HRa.
  destruct (table_arrives sent a _ l p from HIa Hk Hp) as (body & Hb & Hlen & Ebuf & Eseq & Hok & Hd).
  destruct (wp_elim _ _ _ (receive_packet_wp psent (arriving p from) b HIb Hok
    ltac:(eapply Room_weaken, HRb; [done|rewrite Ebuf; unfold UDX_MAX_DATA_SIZE in *; consts; lia])))
    as (r & b' & E & -> & HIb' & A & Hdata & _ & _).
  destruct Hdata as (Ein & q & sp & Hq & Hsp & Ha & _); [by rewrite Hfw, Hd|].
  destruct (absorbed_gap _ _ _ (inv_recv _ _ HIb) (inv_recv _ _ HIb') A Ein Eseq eq_refl) as [Hlt Hpre].
  destruct (answer_arrives psent b' q sp from' HIb' Hq Hsp) as (Hok' & Hns & Ebuf').
  destruct (wp_elim _ _ _ (receive_packet_wp sent (arriving sp from') a HIa Hok' ltac:(by rewrite Ebuf')))
    as (r & a' & E' & -> & _ & _ & _ & Hr & Ho).
  change (i_ack (arriving sp from')) with (h_ack (p_header sp)) in *. rewrite Ha in *. rewrite Ebuf in Hpre.
  exists body, b', q, sp, a'. split_and!; try done; [lia|auto].
Qed.

End liveness.

(** ** Concrete runs *)

#[local] Existing Instance option_instant.
#[local] Existing Instance option_instant_laws.
#[local] Existing Instance demo_profile.

(** Two bytes written, then silence: the timer fires eight times. *)
Lemma demo_outstanding : outstanding demo_written.
Proof.
  split; [vm_compute; discriminate|]. intros k [l Hk].
  destruct demo_written_inv as (sent & HI & _). destruct (inv_out _ _ HI k l Hk) as [? _].
  change (s_remote_acked (inner demo_written)) with 0. lia.
Qed.

Lemma dead_peer_detected_witness :
  exists st', silent_polls 5%nat (replicate 8 true) demo_written = Ret (replicate 8 Pending, st') /\ timed_out st'.
Proof.
  destruct demo_written_inv as (sent & HI & _).
  destruct (dead_peer_detected sent 5%nat (replicate 8 true) demo_written HI demo_outstanding)
    as (st' & E & _ & Ht & _).
  - reflexivity.
  - apply (Room_weaken 10 1000); [vm_compute; congruence..|apply demo_written_room].
  - vm_compute. congruence.
  - exists st'. split; [exact E|exact Ht].
Defined.

Lemma dead_peer_never_closes_witness :
  exists st', silent_polls 5%nat (replicate 9 true) demo_written = Ret (replicate 9 Pending, st') /\
    closed_and_drained (inner st') = false.
Proof.
  destruct demo_written_inv as (sent & HI & _).
  destruct (dead_peer_never_closes sent 5%nat (replicate 9 true) demo_written HI demo_outstanding)
    as (st' & E & _ & _ & Hc & _).
  - reflexivity.
  - apply (Room_weaken 10 1000); [vm_compute; congruence..|apply demo_written_room].
  - exists st'. split; [exact E|exact Hc].
Defined.


(** The peer has received nothing yet; the packet and its answer get through. *)
Lemma exchange_makes_progress_witness :
  exists p b' q sp a', w_store (world demo_written) !! 0%nat = Some p /\
    receive_one_packet (arriving p demo_addr) demo_start = Ret (Ok tt, b') /\
    s_send_queue (inner b') = q ++ [Owned sp] /\
    receive_one_packet (arriving sp demo_addr) demo_written = Ret (Ok tt, a') /\
    0 < s_remote_acked (inner a').
Proof.
  destruct demo_written_inv as (sent & HI & _).
  assert (exists p, w_store (world demo_written) !! 0%nat = Some p) as [p Hp] by (vm_compute; by eexists).
  destruct (exchange_makes_progress sent [] demo_written demo_start 0%nat p demo_addr demo_addr)
    as (body & b' & q & sp & a' & _ & E & Hlt & _ & Hq & E' & Hr & _).
  - exact HI.
  - apply demo_start_inv.
  - reflexivity.
  - exact Hp.
  - vm_compute. congruence.
  - reflexivity.
  - demo_solve.
  - apply (Room_weaken 10 1000); [vm_compute; congruence..|apply demo_written_room].
  - exists p, b', q, sp, a'. rewrite Hr. split_and!; try assumption.
Defined.
