(* ===== verification/StreamLimits.v ===== *)
(** Where the stream falls short of what its comments or its design intend.

    Each theorem states precisely a behaviour of the code that a reader of its
    comments would not expect. *)

From S2P Require Import Prelude Constants Errors UdpProto Packet Runtime Stream StreamInv StreamCtrl.
From S2P Require Import StreamSend StreamTimer StreamAck StreamRecv StreamDriver StreamSpec StreamLiveness.

Local Open Scope Z_scope.

Section limits.
Context `{P : Profile} {AI : AtomicInstant} {AIL : AtomicInstantLaws AI}.
Implicit Types (st : StreamSt) (sent : list (list byte)).

(** ** Selective acknowledgements *)

Definition range_bytes (r : Z * Z) : list byte := u32_to_le_bytes (fst r) ++ u32_to_le_bytes (snd r).

Lemma sack_ranges_encoded (rs : list (Z * Z)) :
  Forall (fun r => 0 <= fst r < u32_modulus /\ 0 <= snd r < u32_modulus) rs ->
  sack_ranges (concat (map range_bytes rs)) = removelast rs.
Proof.
  intros Hr. induction Hr as [|[a b] rs [Ha Hb] Hrs IH]; [done|].
  destruct rs as [|r rs]; [done|].
  change (removelast ((a, b) :: r :: rs)) with ((a, b) :: removelast (r :: rs)).
  cbn [map concat]. cbn [map concat] in IH. rewrite <- IH. unfold range_bytes at 1. cbn [fst snd app u32_to_le_bytes].
  cbn [fst snd] in Ha, Hb. unfold range_bytes at 1. cbn [app u32_to_le_bytes].
  cbn [sack_ranges]. f_equal. by rewrite !u32_le_bytes_roundtrip.
Qed.

(** The loop bound [i + 8 < buf.len()] never reads the last range of a SACK
    payload: a payload that encodes the ranges [rs] acknowledges only the
    ranges before the last one, and a payload with a single range nothing. *)
Theorem sack_last_range_ignored sent st packet (rs : list (Z * Z)) :
  StreamInv sent st -> len (i_buf packet) < 2 ^ 63 ->
  Forall (fun r => 0 <= fst r < u32_modulus /\ 0 <= snd r < u32_modulus) rs ->
  i_buf packet = concat (map range_bytes rs) ->
  exists st', handle_incoming_sacks packet st = Ret (tt, st') /\
    forall k, s_outgoing (inner st') !! k =
      if existsb (in_range k) (removelast rs) then None else s_outgoing (inner st) !! k.
Proof.
  intros HI Hlen Hr Eb.
  destruct (wp_elim _ _ _ (handle_incoming_sacks_wp sent packet st HI Hlen))
    as ([] & st' & E & _ & A & _). exists st'. split; [done|]. intros k.
  rewrite (ac_outgoing _ _ _ A). unfold sacked. by rewrite Eb, sack_ranges_encoded.
Qed.

(** ** Acknowledgements beyond what was sent *)

(** The sendings of the packet at [l]: how often it is in the send queue or in
    what was handed to the socket. *)
Definition event_refs (ev : EventOutgoing) : list PacketRef :=
  match ev with EvTransmit set => ps_packets set | _ => [] end.

Definition is_copy (l : loc) (r : PacketRef) : bool := match r with Shared l' => Nat.eqb l' l | Owned _ => false end.

Definition count_copies (l : loc) (rs : list PacketRef) : nat := length (filter (fun r => is_copy l r = true) rs).

Definition sendings (l : loc) (st : StreamSt) : nat :=
  count_copies l (concat (map event_refs (w_tx (world st))) ++ s_send_queue (inner st)).

Lemma count_copies_app l rs rs' : count_copies l (rs ++ rs') = (count_copies l rs + count_copies l rs')%nat.
Proof. unfold count_copies. by rewrite filter_app, length_app. Qed.

Lemma count_copies_other l ls : l ∉ ls -> count_copies l (map Shared ls) = 0%nat.
Proof.
  intros Hl. induction ls as [|l' ls IH]; [done|]. apply not_elem_of_cons in Hl as [Hne Hl]. unfold count_copies in *.
  cbn [map]. rewrite filter_cons_False; [by apply IH|]. cbn. intros E%Nat.eqb_eq. congruence.
Qed.

Lemma batch_refs a bs : concat (map event_refs (map (batch_event a) bs)) = concat (map snd bs).
Proof. rewrite map_map. done. Qed.

(** The packet [q] at [l] has the number [k] below the acknowledged position. *)
Record overrun (k : Z) (l : loc) (q : Packet) (st : StreamSt) : Prop := {
  ov_acked : k < s_remote_acked (inner st);
  ov_key : s_outgoing (inner st) !! k = Some l;
  ov_packet : w_store (world st) !! l = Some q;
}.

Lemma overrun_timeouts sent k l q timer_ready st :
  StreamInv sent st -> overrun k l q st ->
  wp (poll_check_timeouts timer_ready) (fun _ st' => StreamInv sent st' /\ keeps st st' /\
    overrun k l q st' /\ sendings l st' = sendings l st) st.
Proof.
  intros HI [Hk Hl Hq]. eapply wp_mono; [by apply (poll_check_timeouts_wp sent)|].
  intros r st' (HI' & [(_ & _ & ->)|(_ & st0 & i & E0 & K & M & _)]); [by split_and!|].
  split_and!; [done|by transitivity st0; [|apply M]| |].
  - split; [by rewrite (mk_remote_acked _ _ _ _ M), E0|by rewrite (mk_outgoing _ _ _ _ M), E0|].
    rewrite (mk_store _ _ _ _ M k l q); [|by rewrite E0..]. by rewrite (proj2 (Z.leb_gt _ _)) by lia.
  - unfold sendings. by rewrite (mk_tx _ _ _ _ M), (mk_queue _ _ _ _ M), E0.
Qed.

Lemma overrun_flush sent k l q st :
  StreamInv sent st -> overrun k l q st ->
  wp flush_waiting_packets (fun _ st' => StreamInv sent st' /\ keeps st st' /\
    overrun k l q st' /\ sendings l st' = sendings l st) st.
Proof.
  intros HI [Hk Hl Hq]. eapply wp_mono; [by apply (flush_waiting_packets_wp sent)|].
  intros [] st' (HI' & ks & i & F & (_ & Hb & _) & _).
  assert (k ∉ ks) as Hn by (intros Hin; rewrite Forall_forall in Hb; specialize (Hb k Hin); cbn in Hb; lia).
  destruct (fl_queue _ _ _ F) as (ls & Eq & Hls).
  assert (l ∉ ls) as Hnl.
  { intros [n Hn']%list_elem_of_lookup_1. destruct (Forall2_lookup_r _ _ _ _ _ Hls Hn') as (k' & Hk' & Hkl & _).
    assert (k' = k) as -> by (eapply (outgoing_inj sent st); [apply HI|done..]).
    apply Hn. by eapply list_elem_of_lookup_2. }
  split_and!; [done|apply F| |].
  - split; [by rewrite (fl_remote_acked _ _ _ F)|by rewrite (fl_outgoing _ _ _ F)|].
    rewrite (fl_store _ _ _ F k l q Hl Hq). by rewrite decide_False.
  - unfold sendings. rewrite (fl_tx _ _ _ F), Eq, !count_copies_app, (count_copies_other l ls Hnl). lia.
Qed.

Lemma overrun_transmit sent k l q st :
  StreamInv sent st -> overrun k l q st -> w_tx_open (world st) = true ->
  wp poll_transmit (fun _ st' => overrun k l q st' /\ sendings l st' = sendings l st) st.
Proof.
  intros HI [] Hopen. eapply wp_mono; [by apply (poll_transmit_wp sent)|]. intros [] st' (bs & Eb & _ & ->).
  split; [by split|]. unfold sendings. cbn. by rewrite map_app, concat_app, batch_refs, Eb, app_nil_r.
Qed.

Lemma overrun_not_drained k l q st : overrun k l q st -> closed_and_drained (inner st) = false.
Proof.
  intros [_ Hl _]. unfold closed_and_drained.
  rewrite (bool_decide_eq_false_2 (s_outgoing _ = ∅)) by (intros E; by rewrite E in Hl). by rewrite andb_false_r.
Qed.

(** No poll sends it again. *)
Lemma overrun_poll sent k l q cx fired st :
  StreamInv sent st -> overrun k l q st -> w_tx_open (world st) = true -> Room 1 0 st ->
  wp (driver_poll cx silence fired) (fun _ st' => overrun k l q st' /\ sendings l st' = sendings l st) st.
Proof.
  intros HI HO Hopen [_ _ _ Htx _ _ _]. unfold driver_poll. apply wp_bind, wp_set_self. fold (unwoken st).
  apply wp_bind, wp_self. change (closed_and_drained (inner (unwoken st))) with (closed_and_drained (inner st)).
  rewrite (overrun_not_drained _ _ _ _ HO). assert (overrun k l q (unwoken st)) as HO0 by (by destruct HO).
  pose proof (frame_waker sent st None HI) as HI0. fold (unwoken st) in HI0.
  apply wp_bind. unfold poll_drive. apply wp_bind. eapply silent_incoming; [done|].
  apply wp_bind. eapply wp_mono; [by apply (overrun_timeouts sent)|]. intros r st1 (HI1 & K1 & HO1 & En1).
  change (sendings l (unwoken st)) with (sendings l st) in En1.
  destruct r as [_|e].
  - apply wp_bind. eapply wp_mono; [by apply (overrun_flush sent)|]. intros [] st2 (HI2 & K2 & HO2 & En2).
    apply wp_bind. eapply wp_mono.
    { apply (overrun_transmit sent); [done|exact HO2|]. by rewrite (ext_tx_open _ _ (kp_ext _ _ K2)), (ext_tx_open _ _ (kp_ext _ _ K1)). }
    intros [] st3 (HO3 & En3). st_run. split; [by destruct HO3|]. change (sendings l st3 = sendings l st). congruence.
  - apply wp_ret, wp_bind, wp_bind. destruct (kp_stats _ _ K1) as (a & b & Es). cbn in Es.
    eapply wp_mono; [apply (terminate_wp sent); [done|rewrite Es; cbn; lia..]|].
    intros [] st2 (_ & C & (p & Eq & _) & _). st_run. destruct HO1. split.
    + split; cbn; rewrite ?(calm_remote_acked _ _ C), ?(calm_outgoing _ _ C), ?(calm_store _ _ C); done.
    + rewrite <- En1. transitivity (sendings l st2); [done|]. unfold sendings. rewrite (calm_tx _ _ C), Eq, !count_copies_app.
      change (count_copies l [Owned p]) with 0%nat. lia.
Qed.

Lemma overrun_polls sent k l q cx fires st :
  StreamInv sent st -> overrun k l q st -> w_tx_open (world st) = true -> Room (len fires) 0 st ->
  wp (silent_polls cx fires) (fun _ st' => overrun k l q st' /\ sendings l st' = sendings l st) st.
Proof.
  revert st. induction fires as [|fired fires IH]; intros st HI HO Hopen HR; cbn [silent_polls]; [by apply wp_ret|].
  rewrite len_cons in HR. pose proof (len_nonneg fires).
  apply wp_bind. eapply wp_mono; [eapply wp_and; [apply (driver_poll_wp sent cx silence fired st HI)|
    apply (overrun_poll sent); try done; eapply Room_weaken, HR; lia]; try done|].
  { change (len (script_packets silence)) with 0. eapply Room_weaken, HR; [lia|done]. }
  intros r st1 [(HI1 & Hcase) [HO1 En1]]. rewrite (overrun_not_drained _ _ _ _ HO) in Hcase.
  destruct Hcase as (_ & D & _). change (script_packets silence) with (@nil IncomingPacket) in D.
  apply wp_bind. eapply wp_mono.
  { apply IH; [exact HI1|exact HO1|by rewrite (ext_tx_open _ _ (dr_ext _ _ _ _ _ D))|].
    eapply (drives_Room sent [] 1); [lia|done|]. change (len []) with 0.
    change (len (concat (map i_buf []))) with 0. eapply Room_weaken, HR; lia. }
  intros rs st2 [HO2 En2]. apply wp_ret. split; [done|congruence].
Qed.

(** C38: acknowledgements beyond what was sent.  [poll_incoming] applies the
    acknowledgement of a packet even when it exceeds every sequence number in
    use ([handle_incoming] ignores such a packet only for congestion control).
    The packets that get the numbers up to it later are then beyond help: in
    every later state of the stream such a packet can be polled over with any
    number of timeouts; it stays in the table as it is, and it is never sent
    again. *)
Theorem overrun_packet_never_retransmitted sent st p :
  StreamInv sent st -> incoming_ok p -> Room 1 (len (i_buf p)) st -> s_seq (inner st) < i_ack p ->
  exists st1, poll_incoming (mk_RecvScript [EvPacket p] false) st = Ret (Ok tt, st1) /\
    s_seq (inner st1) = s_seq (inner st) /\ i_ack p <= s_remote_acked (inner st1) /\
    forall sent2 st2 k l q cx fires,
      ext st1 st2 -> StreamInv sent2 st2 -> w_tx_open (world st2) = true -> Room (len fires) 0 st2 ->
      s_seq (inner st) <= k < i_ack p ->
      s_outgoing (inner st2) !! k = Some l -> w_store (world st2) !! l = Some q ->
      exists rs st3, silent_polls cx fires st2 = Ret (rs, st3) /\
        s_outgoing (inner st3) !! k = Some l /\ w_store (world st3) !! l = Some q /\ sendings l st3 = sendings l st2.
Proof.
  intros HI Hok HR Hlt. assert (concat (map i_buf [p]) = i_buf p) as Eb by (cbn; by rewrite app_nil_r).
  set (rx := mk_RecvScript [EvPacket p] false).
  assert (Forall incoming_ok (script_packets rx)) as Hps by (constructor; [done|constructor]).
  assert (Room (len (script_packets rx)) (len (concat (map i_buf (script_packets rx)))) st) as HRs
    by (change (script_packets rx) with [p]; by rewrite Eb).
  destruct (wp_elim _ _ _ (wp_and _ _ _ _ (poll_incoming_received sent rx st HI Hps HRs) (incoming_drives sent rx st HI Hps HRs)))
    as (r & st1 & E & (_ & _ & -> & Er & _) & (_ & D & _)).
  cbn [rx_closed] in *. exists st1. split_and!; [done|apply D|rewrite Er; cbn; lia|].
  intros sent2 st2 k l q cx fires X HI2 Hopen HR2 Hk Hl Hq. pose proof (ext_remote_acked _ _ X).
  assert (overrun k l q st2) as HO by (split; try done; rewrite Er in *; cbn in *; lia).
  destruct (wp_elim _ _ _ (overrun_polls sent2 k l q cx fires st2 HI2 HO Hopen HR2)) as (rs & st3 & E3 & [] & En).
  by exists rs, st3.
Qed.

(** ** Round-trip samples *)

(** [transmits] counts retransmissions, not transmissions, so acknowledging
    packets that arrived at the first attempt never yields a round-trip
    sample: the estimator and the timeout keep their values. *)
Theorem first_transmission_not_sampled sent st ack :
  StreamInv sent st -> ack <= U32_MAX ->
  (forall k l p, s_outgoing (inner st) !! k = Some l -> w_store (world st) !! l = Some p ->
     p_transmits p = 0) ->
  exists st', handle_incoming_max_remote_ack ack st = Ret (tt, st') /\
    s_srtt (inner st') = s_srtt (inner st) /\ s_rttvar (inner st') = s_rttvar (inner st) /\
    s_rto (inner st') = s_rto (inner st).
Proof.
  intros HI Hack Ht.
  destruct (wp_elim _ _ _ (handle_incoming_max_remote_ack_wp sent ack st HI Hack))
    as ([] & st' & E & _ & Hcase). exists st'. split; [done|].
  destruct Hcase as [[_ ->]|(_ & st1 & A & _ & _ & ->)]; [done|].
  destruct (ac_rtt _ _ _ A) as (E1 & E2 & E3).
  { intros k l p _ Hk Hp. rewrite (Ht k l p Hk Hp). lia. }
  unfold wake_writer. by destruct (_ <=? _).
Qed.

(** ** Reading into a small buffer *)

Section small_read.
Context {B : Type} {RB : ReadBuf B} {RBL : ReadBufLaws B}.

(** C40: when the first ready packet holds more bytes than the buffer takes, the
    read consumes bytes, fills the buffer, and still returns [Pending]. *)
Theorem small_read_pending sent st cx (buf : B) p :
  StreamInv sent st -> s_error (inner st) = None ->
  s_incoming (inner st) !! s_read_cursor (inner st) = Some p ->
  0 < rb_remaining buf < len (i_buf p) - i_read_offset p ->
  exists buf' st', poll_read cx buf st = Ret ((Pending, buf'), st') /\
    rb_filled buf' = rb_filled buf ++ take (Z.to_nat (rb_remaining buf)) (unread (inner st)) /\
    len (unread (inner st')) = len (unread (inner st)) - rb_remaining buf.
Proof.
  intros HI He Hp Hrem. pose proof (inv_recv _ _ HI) as HR.
  destruct (cursor_packet _ _ HR Hp) as (_ & _ & Hoff & Hlen & Hun).
  assert (wp (poll_read cx buf) (fun r st' => let '(res, buf') := r in res = Pending /\
    rb_filled buf' = rb_filled buf ++ take (Z.to_nat (rb_remaining buf)) (unread (inner st)) /\
    len (unread (inner st')) = len (unread (inner st)) - rb_remaining buf) st) as Hwp.
  2:{ destruct (wp_elim _ _ _ Hwp) as ([res buf'] & st' & E & -> & Hf & Hl). by exists buf', st'. }
  unfold poll_read, read_next. apply wp_bind, wp_bind, wp_self.
  destruct (size (s_incoming (inner st))) as [|fuel] eqn:Es.
  { apply map_size_empty_inv in Es. by rewrite Es in Hp. }
  cbn [read_loop]. apply wp_bind, wp_self. cbn [id]. rewrite Hp. apply wp_bind, wp_set_self, wp_bind.
  eapply wp_lift; [apply usize_sub_fits; consts; lia|].
  rewrite Z.gtb_ltb, (proj2 (Z.ltb_lt _ _)) by lia.
  eapply wp_mono; [exact (read_partial_wp false buf p st HR Hp (proj2 Hrem))|].
  intros [did buf'] st1 ((Hf & Hr & R & Ew & _) & Hd & Ec). cbn in Hd. subst did. cbn [negb].
  assert (s_error (inner st1) = None) as He1 by (by rewrite (rd_frame _ _ _ R)).
  st_run. rewrite He1. st_run. split_and!; [done|done|].
  enough (len (unread (inner st1)) = len (unread (inner st)) - rb_remaining buf) by done.
  pose proof (f_equal len (rd_bytes _ _ _ R)) as El. rewrite len_app, len_take in El by lia.
  pose proof (f_equal len Hun) as El'. rewrite len_app, len_drop in El' by lia.
  pose proof (len_nonneg (chunks (s_incoming (inner st)) (s_read_cursor (inner st) + 1)
    (s_ack (inner st)))). lia.
Qed.

End small_read.

(** ** A stream whose socket side is gone *)

(** [n] polls of the driver after the socket has dropped its end of the
    channel, and what they return. *)
Fixpoint polls (n : nat) (cx : Waker) : Act StreamSt (list (poll unit)) :=
  match n with
  | O => mret []
  | Datatypes.S n =>
      r ← driver_poll cx (mk_RecvScript [] true) false;
      rs ← polls n cx;
      mret (r :: rs)
  end.

Lemma queued_not_drained (s : UdxStreamInner) q r : s_send_queue s = q ++ [r] -> closed_and_drained s = false.
Proof.
  intros E. unfold closed_and_drained. rewrite E, bool_decide_eq_false_2; [|by destruct q].
  by destruct (s_error s).
Qed.

(** What [n] such polls leave behind. *)
Record livelocked (cx : Waker) (n : nat) (st st' : StreamSt) : Prop := {
  lv_error : s_error (inner st') =
    match n with O => s_error (inner st) | _ => Some (UdxError_from_io driver_dropped_error) end;
  lv_queue : exists ends, length ends = n /\ Forall (fun p => h_typ (p_header p) = UDX_HEADER_END) ends /\
    s_send_queue (inner st') = s_send_queue (inner st) ++ map Owned ends;
  lv_tx : w_tx (world st') = w_tx (world st);
  lv_woken : exists l, w_woken (world st') = w_woken (world st) ++ l /\ (n <= count_occ Nat.eq_dec l cx)%nat;
  lv_signals : w_signals (world st') = w_signals (world st);
}.

Lemma livelocked_trans cx n m st1 st2 st3 :
  livelocked cx n st1 st2 -> livelocked cx m st2 st3 -> livelocked cx (n + m) st1 st3.
Proof.
  intros [] []. destruct lv_queue0 as (e1 & L1 & F1 & Q1), lv_queue1 as (e2 & L2 & F2 & Q2).
  destruct lv_woken0 as (l1 & W1 & C1), lv_woken1 as (l2 & W2 & C2). split; try congruence.
  - rewrite lv_error1, lv_error0. by destruct n, m.
  - exists (e1 ++ e2). rewrite length_app, Q2, Q1, map_app, app_assoc. split_and!; [lia|by apply Forall_app|done].
  - exists (l1 ++ l2). rewrite W2, W1, app_assoc, count_occ_app. split; [done|lia].
Qed.

(** One poll: the stream is terminated, and the task wakes itself. *)
Lemma livelock_poll sent cx st :
  StreamInv sent st -> Room 1 0 st -> closed_and_drained (inner st) = false ->
  wp (driver_poll cx (mk_RecvScript [] true) false) (fun r st' => r = Pending /\ livelocked cx 1 st st') st.
Proof.
  intros HI [_ _ _ Htx _ _ _] Hcd. unfold driver_poll. apply wp_bind, wp_set_self. fold (unwoken st).
  apply wp_bind, wp_self. change (closed_and_drained (inner (unwoken st))) with (closed_and_drained (inner st)).
  rewrite Hcd. pose proof (frame_waker sent st None HI) as HI0. fold (unwoken st) in HI0.
  apply wp_bind. eapply wp_intro; [reflexivity|]. apply wp_bind, wp_bind.
  eapply wp_mono; [apply (terminate_wp sent); [done|cbn; lia..]|].
  intros [] st1 (_ & C & (p & Eq & Ht & _) & _ & He & _ & _ & _ & _ & Hw). st_run. split; [done|].
  split; cbn; try apply C; [done|exists [p]; by repeat constructor|].
  eexists. rewrite Hw, <- app_assoc. split; [done|]. rewrite count_occ_app. cbn. destruct (Nat.eq_dec cx cx); [lia|done].
Qed.

Lemma polls_wp sent n cx st :
  StreamInv sent st -> Room (Z.of_nat n) 0 st -> w_tx_open (world st) = true ->
  closed_and_drained (inner st) = false ->
  wp (polls n cx) (fun rs st' => rs = replicate n Pending /\
    closed_and_drained (inner st') = false /\ livelocked cx n st st') st.
Proof.
  revert st. induction n as [|n IH]; intros st HI HR Hopen Hcd; cbn [polls].
  { apply wp_ret. split_and!; try done. split; try done; exists []; by rewrite app_nil_r. }
  apply wp_bind. eapply wp_mono.
  { eapply wp_and; [apply (livelock_poll sent); try done; eapply Room_weaken, HR; lia|].
    apply (driver_poll_wp sent); [done|constructor| |done]. change (len (script_packets _)) with 0.
    eapply Room_weaken, HR; [lia|done]. }
  intros r st1 [[-> L1] (HI1 & Hcase)]. rewrite Hcd in Hcase. destruct Hcase as (_ & D & _).
  change (script_packets _) with (@nil IncomingPacket) in D.
  assert (closed_and_drained (inner st1) = false) as Hcd1.
  { destruct (lv_queue _ _ _ _ L1) as ([|p []] & Hl & _ & Eq); try done. by eapply queued_not_drained. }
  apply wp_bind. eapply wp_mono.
  { apply (IH st1); [done| |by rewrite (ext_tx_open _ _ (dr_ext _ _ _ _ _ D))|done].
    eapply (drives_Room sent [] 1); [lia|done|]. change (len []) with 0.
    change (len (concat (map i_buf []))) with 0. eapply Room_weaken, HR; lia. }
  intros rs st2 (-> & Hcd2 & L2). apply wp_ret. split_and!; try done.
  by apply (livelocked_trans cx 1 n st st1 st2).
Qed.

(** C39: once the socket has dropped the stream's channel (a second [connect]
    with the same local id does it), the driver of a stream that is not
    drained never completes: every poll fails, terminates the stream again,
    queues one more END packet that nobody will take (nothing more reaches the
    socket), wakes its own task at once, and never fires the close signal. *)
Theorem dropped_channel_livelock sent n cx st :
  StreamInv sent st -> Room (Z.of_nat n) 0 st -> w_tx_open (world st) = true ->
  closed_and_drained (inner st) = false -> (0 < n)%nat ->
  exists st', polls n cx st = Ret (replicate n Pending, st') /\
    closed_and_drained (inner st') = false /\
    s_error (inner st') = Some (UdxError_from_io driver_dropped_error) /\
    (exists ends, length ends = n /\ Forall (fun p => h_typ (p_header p) = UDX_HEADER_END) ends /\
       s_send_queue (inner st') = s_send_queue (inner st) ++ map Owned ends) /\
    w_tx (world st') = w_tx (world st) /\
    (exists l, w_woken (world st') = w_woken (world st) ++ l /\ (n <= count_occ Nat.eq_dec l cx)%nat) /\
    w_signals (world st') = w_signals (world st).
Proof.
  intros HI HR Hopen Hcd Hn.
  destruct (wp_elim _ _ _ (polls_wp sent n cx st HI HR Hopen Hcd)) as (rs & st' & E & -> & Hcd' & []).
  exists st'. rewrite lv_error0. split_and!; try done. by destruct n; [lia|].
Qed.

End limits.

(** ** Concrete runs *)

#[local] Existing Instance option_instant.
#[local] Existing Instance option_instant_laws.
#[local] Existing Instance demo_profile.

Lemma sack_last_range_ignored_witness :
  exists st', handle_incoming_sacks (demo_packet 4 0 0 (concat (map range_bytes [(0, 1)]))) demo_written
                = Ret (tt, st') /\
    s_outgoing (inner st') !! 0 = s_outgoing (inner demo_written) !! 0.
Proof.
  destruct demo_written_inv as (sent & HI & _).
  destruct (sack_last_range_ignored sent demo_written
    (demo_packet 4 0 0 (concat (map range_bytes [(0, 1)]))) [(0, 1)] HI) as (st' & E & Ho).
  - reflexivity.
  - constructor; [vm_compute; repeat split; congruence|constructor].
  - reflexivity.
  - exists st'. split; [exact E|]. apply (Ho 0).
Defined.

(** The peer acknowledges five packets before any was sent; then one is sent,
    and the timer fires four times. *)
Definition overrun_ack : IncomingPacket := demo_packet 0 0 5 [].

Definition demo_overrun : StreamSt :=
  match poll_incoming (mk_RecvScript [EvPacket overrun_ack] false) demo_start with
  | Ret (_, st) => st
  | _ => demo_start
  end.

Definition demo_overrun_sent : StreamSt :=
  match run_ops [OpWrite 1%nat ab] demo_overrun with Ret (_, st) => st | _ => demo_overrun end.

Lemma overrun_ack_ok : incoming_ok overrun_ack.
Proof. split; [vm_compute; repeat split; congruence|]. by split. Qed.

Lemma demo_overrun_inv : StreamInv [] demo_overrun.
Proof.
  pose proof (poll_incoming_received [] (mk_RecvScript [EvPacket overrun_ack] false) demo_start demo_start_inv) as H.
  destruct (wp_elim _ _ _ (H ltac:(constructor; [exact overrun_ack_ok|constructor])
    (Room_weaken 10 1000 1 0 demo_start ltac:(lia) ltac:(lia) demo_start_room))) as (r & st & E & HI & _).
  unfold demo_overrun. by rewrite E.
Qed.

Lemma demo_overrun_later :
  (exists sent', StreamInv sent' demo_overrun_sent) /\ ext demo_overrun demo_overrun_sent.
Proof.
  destruct (wp_elim _ _ _ (run_ops_wp [OpWrite 1%nat ab] [] demo_overrun demo_overrun_inv
    ltac:(by repeat constructor) ltac:(demo_solve) eq_refl)) as ([] & st & E & [cs HI'] & X).
  assert (demo_overrun_sent = st) as -> by (unfold demo_overrun_sent; by rewrite E).
  split; [by eexists|done].
Qed.

Lemma overrun_packet_never_retransmitted_witness :
  exists rs st, silent_polls 5%nat (replicate 4 true) demo_overrun_sent = Ret (rs, st) /\
    s_remote_acked (inner demo_overrun_sent) = 5 /\ s_seq (inner demo_overrun_sent) = 1 /\
    sendings 0 demo_overrun_sent = 1%nat /\ sendings 0 st = 1%nat.
Proof.
  destruct (overrun_packet_never_retransmitted [] demo_start overrun_ack demo_start_inv) as (st1 & E & _ & _ & Hnever).
  - exact overrun_ack_ok.
  - apply (Room_weaken 10 1000); [vm_compute; congruence..|apply demo_start_room].
  - vm_compute; reflexivity.
  - assert (demo_overrun = st1) as Eo by (unfold demo_overrun; rewrite E; reflexivity). subst st1.
    destruct demo_overrun_later as [[sent HI] X].
    destruct (w_store (world demo_overrun_sent) !! 0%nat) as [q|] eqn:Eq; [|vm_compute in Eq; discriminate].
    destruct (Hnever sent demo_overrun_sent 0 0%nat q 5%nat (replicate 4 true) X HI) as (rs & st & E3 & _ & _ & En).
    + reflexivity.
    + demo_solve.
    + vm_compute. split; congruence.
    + vm_compute. reflexivity.
    + exact Eq.
    + exists rs, st. split; [exact E3|]. rewrite En. vm_compute. auto.
Defined.

Lemma first_transmission_not_sampled_witness :
  exists st', handle_incoming_max_remote_ack 1 demo_written = Ret (tt, st') /\
    s_srtt (inner st') = s_srtt (inner demo_written).
Proof.
  destruct demo_written_inv as (sent & HI & _).
  destruct (first_transmission_not_sampled sent demo_written 1 HI) as (st' & E & Hs & _).
  - vm_compute; congruence.
  - intros k l p Hk Hp. destruct (inv_out _ _ HI k l Hk) as (Hr & _).
    assert (k = 0) as -> by (assert (s_seq (inner demo_written) = 1) by reflexivity; lia).
    vm_compute in Hk. injection Hk as <-. vm_compute in Hp. injection Hp as <-. reflexivity.
  - exists st'. split; [exact E|exact Hs].
Defined.

Lemma small_read_pending_witness :
  exists buf' st', poll_read 2%nat ([] : list byte, 3) demo_received = Ret ((Pending, buf'), st') /\
    len (unread (inner st')) = len (unread (inner demo_received)) - rb_remaining ([] : list byte, 3).
Proof.
  destruct demo_received_inv as (sent & HI & _).
  destruct (s_incoming (inner demo_received) !! s_read_cursor (inner demo_received)) as [p|] eqn:Ep;
    [|vm_compute in Ep; discriminate].
  destruct (small_read_pending sent demo_received 2%nat ([] : list byte, 3) p HI)
    as (buf' & st' & E & _ & Hl).
  - vm_compute; reflexivity.
  - exact Ep.
  - vm_compute in Ep. injection Ep as <-. vm_compute; split; reflexivity.
  - exists buf', st'. split; [exact E|exact Hl].
Defined.

Lemma dropped_channel_livelock_witness :
  exists st', polls 3 5%nat demo_written = Ret ([Pending; Pending; Pending], st') /\
    closed_and_drained (inner st') = false.
Proof.
  destruct demo_written_inv as (sent & HI & _).
  destruct (dropped_channel_livelock sent 3 5%nat demo_written HI) as (st' & E & Hc & _).
  - apply (Room_weaken 10 1000); [vm_compute; congruence..|apply demo_written_room].
  - reflexivity.
  - vm_compute; reflexivity.
  - lia.
  - exists st'. split; [exact E|exact Hc].
Defined.

(** The transmissions of the first packet among the events for the socket. *)
Definition transmissions (st : StreamSt) : nat :=
  length (List.filter (fun r => match r with Shared 0 => true | _ => false end)
    (concat (map (fun ev => match ev with EvTransmit set => ps_packets set | _ => [] end)
      (w_tx (world st))))).

Definition demo_timeouts (n : nat) : StreamSt :=
  demo (OpWrite 1%nat ab :: demo_poll [] false :: replicate n (demo_poll [] true)).

(** The documented limit of 5 transmit attempts per packet is in fact 7: a
    packet that is never acknowledged is sent seven times, once and after each
    of six timeouts, before the seventh timeout fails the stream. *)
Theorem seven_transmissions :
  transmissions (demo_timeouts 6) = 7%nat /\ s_error (inner (demo_timeouts 6)) = None /\
  transmissions (demo_timeouts 7) = 7%nat /\
  s_error (inner (demo_timeouts 7)) = Some (UdxError_from_io max_retransmits_error).
Proof. vm_compute. auto. Qed.
