(* ===== verification/StreamTurn.v ===== *)
(** One poll of a stream driver on which nothing fails: what it takes from the
    channel, what it hands to the socket, and in which order it retransmits. *)

From Stdlib Require Import Sorted.
From S2P Require Import Prelude Constants Errors UdpProto Packet Runtime Stream StreamInv StreamCtrl.
From S2P Require Import StreamSend StreamTimer StreamAck StreamRecv StreamDriver StreamSpec StreamLiveness.

Local Open Scope Z_scope.

Section turn.
Context `{P : Profile} {AI : AtomicInstant} {AIL : AtomicInstantLaws AI}.
Implicit Types (st : StreamSt) (sent : list (list byte)).

(** The retransmission table holds the packet [p], stored at [l], under [k]. *)
Definition tabled st (k : Z) (l : loc) (p : Packet) : Prop :=
  s_outgoing (inner st) !! k = Some l /\ w_store (world st) !! l = Some p.

(** Nothing below the acknowledgement is in the table. *)
Definition tidy st : Prop :=
  forall k, is_Some (s_outgoing (inner st) !! k) -> s_remote_acked (inner st) <= k.

(** When a packet waits for its retransmission, so do the packets after it. *)
Definition in_order st : Prop :=
  forall k l p k' l' p', tabled st k l p -> tabled st k' l' p' -> k <= k' ->
    p_waiting p = true -> p_waiting p' = true.

(** No packet has used up its transmissions. *)
Definition patient st : Prop :=
  forall k l p, tabled st k l p -> p_transmits p <= UDX_MAX_TRANSMITS.

Lemma tabled_stored sent st k l : StreamInv sent st -> s_outgoing (inner st) !! k = Some l ->
  exists p, tabled st k l p /\ 0 <= k < s_seq (inner st).
Proof. intros HI Hk. destruct (inv_out _ _ HI k l Hk) as (? & p & Hp & _). by exists p. Qed.

Lemma tabled_sub st st' :
  (forall k l p, tabled st' k l p -> tabled st k l p) ->
  (in_order st -> in_order st') /\ (patient st -> patient st').
Proof.
  intros Hs. split.
  - intros Ho k l p k' l' p' H1 H2. apply (Ho k l p k' l' p'); auto.
  - intros Hp k l p Hk. apply (Hp k l p); auto.
Qed.

(** ** Packets from the peer *)

Record heard (ps : list IncomingPacket) (st st' : StreamSt) : Prop := {
  he_error : s_error (inner st') = s_error (inner st);
  he_acked : s_remote_acked (inner st') = Z.max (s_remote_acked (inner st)) (max_ack 0 ps);
  he_table : forall k l p, tabled st' k l p -> tabled st k l p;
  he_tidy : tidy st -> tidy st';
  he_queue : exists q, s_send_queue (inner st') = s_send_queue (inner st) ++ q /\ len q <= 2 * len ps;
  he_tx : w_tx (world st') = w_tx (world st);
  he_ext : ext st st';
  he_seq : s_seq (inner st') = s_seq (inner st);
  he_answer : forall p, ps = [p] -> passes (inner st) p && has_type p UDX_HEADER_DATA = true ->
    answered st' /\ s_incoming (inner st') = insert_incoming p (inner st);
}.

Lemma acked_tabled sent gone st st' k l p :
  StreamInv sent st -> acked gone st st' -> tabled st' k l p -> tabled st k l p.
Proof.
  intros HI A [Hk Hp]. rewrite (ac_outgoing _ _ _ A) in Hk. destruct (gone k) eqn:Eg; [done|].
  destruct (tabled_stored sent st k l HI Hk) as (q & [_ Hq] & _).
  pose proof (ac_store _ _ _ A k l q Hk Hq) as Hs. rewrite Eg in Hs. by simplify_eq.
Qed.

(** A single data packet is answered. *)
Lemma incoming_answered sent rx st :
  let ps := script_packets rx in
  StreamInv sent st -> Forall incoming_ok ps -> Room (len ps) (len (concat (map i_buf ps))) st -> rx_closed rx = false ->
  wp (poll_incoming rx) (fun _ st' => forall p, ps = [p] ->
    passes (inner st) p && has_type p UDX_HEADER_DATA = true ->
    answered st' /\ s_incoming (inner st') = insert_incoming p (inner st)) st.
Proof.
  intros ps HI Hok HR Hcl.
  assert ((exists p, ps = [p]) \/ forall p, ps <> [p]) as [[p Eps]|Hno]
    by (destruct ps as [|p [|]]; [right|left|right]; by eauto).
  2:{ eapply wp_mono; [by apply (poll_incoming_wp sent)|]. intros r st' _ p Ep. by destruct (Hno p). }
  rewrite Eps in Hok, HR. assert (rx = mk_RecvScript [EvPacket p] false) as ->.
  { destruct rx as [evs c]. cbn in Hcl. subst c. f_equal. pose proof (script_events (mk_RecvScript evs false)) as Ev.
    unfold ps in Eps. by rewrite Eps in Ev. }
  apply Forall_cons_1 in Hok as [Hok _]. cbn [map concat] in HR. rewrite app_nil_r in HR.
  eapply wp_mono; [by apply (receive_packet_wp sent p)|].
  intros r st' (_ & _ & _ & Hd & _) p' Ep Hp. assert (p' = p) as -> by congruence. by destruct (Hd Hp).
Qed.

Lemma incoming_heard sent rx st :
  let ps := script_packets rx in
  StreamInv sent st -> Forall incoming_ok ps -> Room (len ps) (len (concat (map i_buf ps))) st ->
  rx_closed rx = false -> no_sacks ps -> no_ends ps ->
  wp (poll_incoming rx) (fun r st' => r = Ok tt /\ StreamInv sent st' /\ heard ps st st') st.
Proof.
  intros ps HI Hok HR Hcl Hns Hne.
  eapply wp_mono; [apply wp_and; [by apply (incoming_answered sent)|by apply (poll_incoming_wp sent)]|]. fold ps.
  intros r st' (Hans & HI' & st1 & HI1 & H1 & Ht & He & Hcase). specialize (Ht Hns) as [Eo Es]. specialize (He Hne).
  destruct Hcase as [(Hc & _)|(_ & -> & Hcase)]; [congruence|]. split; [done|]. split; [done|].
  pose proof (hd_remote_acked _ _ _ _ _ _ _ H1) as Era. destruct (hd_queue _ _ _ _ _ _ _ H1) as (q & Eq & Hq).
  assert (forall k l p, tabled st1 k l p -> tabled st k l p) as Hsub
    by (intros k l p [Hk Hp]; rewrite Eo in Hk; rewrite Es in Hp; done).
  destruct Hcase as [[Hle ->]|(Hlt & st2 & A & HI2 & Era2 & ->)].
  - split; try done; [lia| |by eauto|apply H1|apply H1|apply H1].
    intros Htd k Hk. rewrite Era. apply Htd. by rewrite <- Eo.
  - set (st' := rearmed _ _) in *.
    assert (s_error (inner st') = s_error (inner st2) /\ s_remote_acked (inner st') = s_remote_acked (inner st2) /\
      s_outgoing (inner st') = s_outgoing (inner st2) /\ s_send_queue (inner st') = s_send_queue (inner st2) /\
      s_seq (inner st') = s_seq (inner st2) /\ w_store (world st') = w_store (world st2) /\
      w_tx (world st') = w_tx (world st2)) as (E1 & E2 & E3 & E4 & E5 & Ews & Ewt)
      by (unfold st', wake_writer; by destruct (_ <=? _)).
    assert (ext st2 st') as X2 by apply (kp_ext _ _ (rearmed_keeps _ st2)).
    pose proof (ac_keeps _ _ _ A) as K.
    split; try done; rewrite ?E1, ?E2, ?E4, ?E5, ?Ewt.
    + by rewrite (kp_error _ _ K).
    + rewrite Era2. lia.
    + intros k l p [Hk Hp]. rewrite Ews in Hp. rewrite E3 in Hk. apply Hsub.
      by eapply (acked_tabled sent).
    + intros Htd k Hk. rewrite E3 in Hk. rewrite E2, Era2. destruct Hk as [l Hk].
      rewrite (ac_outgoing _ _ _ A) in Hk. assert (is_Some (s_outgoing (inner st1) !! k)) as Hk1
        by (destruct (_ && _); [done|by exists l]). rewrite Eo in Hk1. apply Htd in Hk1. rewrite Era in *.
      destruct (Z.ltb_spec k (max_ack 0 ps)); [|lia]. by rewrite (proj2 (Z.leb_le _ _)) in Hk by lia.
    + rewrite (ac_queue _ _ _ A). by eauto.
    + rewrite (ac_tx _ _ _ A). apply H1.
    + etransitivity; [apply H1|]. etransitivity; [apply K|done].
    + rewrite (kp_seq _ _ K). apply H1.
Qed.

(** ** The timer *)

(** A timeout with patience left makes every packet of the table wait. *)
Lemma timeouts_patient sent fired st :
  StreamInv sent st -> tidy st -> (fired = true -> patient st) ->
  wp (poll_check_timeouts fired) (fun r st' => r = Ok tt /\ StreamInv sent st' /\ keeps st st' /\
    s_outgoing (inner st') = s_outgoing (inner st) /\ s_remote_acked (inner st') = s_remote_acked (inner st) /\
    s_send_queue (inner st') = s_send_queue (inner st) /\ w_tx (world st') = w_tx (world st) /\
    if fired then forall k l p, tabled st' k l p -> p_waiting p = true else st' = st) st.
Proof.
  intros HI Htd Hpt. eapply wp_mono; [by apply (poll_check_timeouts_wp sent)|]. intros r st' (HI' & Hcase).
  destruct Hcase as [(Hn & -> & ->)|([-> _] & st0 & i & E0 & K0 & M & Hr)].
  { split_and!; try done. destruct fired; [|done]. intros k l p [Hk _]. exfalso. apply Hn. split; [done|].
    destruct (tabled_stored sent st k l HI Hk) as (_ & _ & Hlt). specialize (Htd k ltac:(by exists l)). lia. }
  destruct Hr as [[-> Hi]|(_ & l & p & Hk & Hp & _ & Hgt)].
  2:{ specialize (Hpt eq_refl i l p (conj Hk Hp)). lia. }
  split_and!; [done|done|transitivity st0; [done|apply M]|..];
    try (rewrite ?(mk_outgoing _ _ _ _ M), ?(mk_remote_acked _ _ _ _ M), ?(mk_queue _ _ _ _ M), ?(mk_tx _ _ _ _ M), E0; done).
  intros k l p [Hk Hp]. rewrite (mk_outgoing _ _ _ _ M) in Hk. pose proof Hk as Hk0. rewrite E0 in Hk.
  destruct (tabled_stored sent st k l HI Hk) as (q & [_ Hq] & Hlt). specialize (Htd k ltac:(by exists l)).
  pose proof (mk_store _ _ _ _ M k l q Hk0 ltac:(by rewrite E0)) as Hs.
  rewrite (proj2 (Z.leb_le _ _)), (proj2 (Z.ltb_lt _ _)) in Hs by lia.
  cbn in Hs. simplify_eq. unfold lost_mark. by destruct (p_waiting q) eqn:E.
Qed.

(** ** Retransmission *)

Lemma flushed_tabled sent ks st st' k l p :
  StreamInv sent st -> flushed ks st st' -> tabled st' k l p ->
  exists q, tabled st k l q /\ p = if decide (k ∈ ks) then flush_mark q else q.
Proof.
  intros HI F [Hk Hp]. rewrite (fl_outgoing _ _ _ F) in Hk.
  destruct (tabled_stored sent st k l HI Hk) as (q & [_ Hq] & _). exists q. split; [done|].
  rewrite (fl_store _ _ _ F k l q Hk Hq) in Hp. by simplify_eq.
Qed.

Lemma flushed_patient sent ks st st' : StreamInv sent st -> flushed ks st st' -> patient st -> patient st'.
Proof.
  intros HI F Hp k l p Hk. destruct (flushed_tabled sent ks st st' k l p HI F Hk) as (q & Hq & ->).
  specialize (Hp k l q Hq). by case_decide.
Qed.

(** What does not wait any more was queued, or did not wait before. *)
Lemma flushed_flown sent ks st st' k l p :
  StreamInv sent st -> flushed ks st st' -> tabled st' k l p -> p_waiting p = false ->
  Shared l ∈ s_send_queue (inner st') \/ tabled st k l p.
Proof.
  intros HI F Hk Hw. destruct (flushed_tabled sent ks st st' k l p HI F Hk) as (q & Hq & ->).
  case_decide as Hd; [left|by right]. destruct (fl_queue _ _ _ F) as (ls & -> & HF).
  apply elem_of_app. right. apply list_elem_of_fmap. exists l. split; [done|].
  apply list_elem_of_lookup in Hd as [n Hn]. destruct (Forall2_lookup_l _ _ _ _ _ HF Hn) as (l' & Hl' & Hkl & _).
  destruct Hq as [Hq _]. simplify_eq. by eapply list_elem_of_lookup_2.
Qed.

Lemma sorted_bounded ks a b :
  StronglySorted Z.lt ks -> Forall (fun k => a <= k < b) ks -> a <= b -> len ks <= b - a.
Proof.
  intros Hs. revert a. induction Hs as [|k ks Hs IH Hk]; intros a Hb Hab; [unfold len; cbn; lia|].
  apply Forall_cons_1 in Hb as [Hb Hbs]. rewrite len_cons.
  assert (len ks <= b - (k + 1)); [|lia]. apply IH; [|lia].
  rewrite Forall_forall in Hk, Hbs |- *. intros x Hx. specialize (Hk x Hx). specialize (Hbs x Hx). lia.
Qed.

Lemma flush_in_order sent st :
  StreamInv sent st -> tidy st ->
  wp flush_waiting_packets (fun _ st' => StreamInv sent st' /\ exists ks, flushed ks st st' /\
    (in_order st -> in_order st' /\
       forall l p, tabled st' (s_remote_acked (inner st)) l p -> p_waiting p = false) /\
    len ks <= Z.max 0 (s_seq (inner st) - s_remote_acked (inner st))) st.
Proof.
  intros HI Htd. eapply wp_mono; [by apply (flush_waiting_packets_wp sent)|].
  intros [] st' (HI' & ks & i & F & Hsc & Hi). split; [done|]. exists ks. pose proof Hsc as (_ & Hks & Hall).
  rewrite Forall_forall in Hks.
  assert (forall k l p, tabled st' k l p -> p_waiting p = true -> tabled st k l p /\ i <= k) as Hback.
  { intros k l p Hk Hw. destruct (flushed_tabled sent ks st st' k l p HI F Hk) as (q & Hq & Ep).
    case_decide as Hd; [by rewrite Ep in Hw|]. subst q. split; [done|].
    destruct (Z.le_gt_cases i k) as [|Hlt]; [done|]. destruct Hd. destruct Hq as [Hq1 Hq2].
    apply (Hall k l p); try done. split; [|lia]. apply Htd. by exists l. }
  split; [done|]. split; [intros Ho; split|].
  - intros k l p k' l' p' Hk Hk' Hle Hw. destruct (Hback k l p Hk Hw) as [Hk0 Hik].
    destruct (flushed_tabled sent ks st st' k' l' p' HI F Hk') as (q & Hq & ->).
    rewrite decide_False; [by eapply (Ho k l p)|]. intros Hin. specialize (Hks k' Hin). lia.
  - intros l p Hk. destruct (p_waiting p) eqn:Hw; [exfalso|done]. destruct (Hback _ l p Hk Hw) as [Hk0 Hik].
    set (k := s_remote_acked (inner st)) in *.
    assert (k ∈ ks) as Hin; [|specialize (Hks k Hin); lia].
    eapply (flushed_lowest sent k l p ks i st st'); try done.
    + destruct Hk0. split; try done. intros k' l' Hk'. apply Htd. by exists l'.
    + intros k' l' Hk'. destruct (tabled_stored sent st k' l' HI Hk') as (q & Hq & _). exists q.
      split; [apply Hq|]. eapply (Ho k l p); try done. apply Htd. by exists l'.
  - destruct ks as [|k ks]; [unfold len; cbn; lia|]. set (ra := s_remote_acked (inner st)) in *.
    destruct (fl_queue _ _ _ F) as (ls & _ & HF).
    assert (Forall (fun k => ra <= k < s_seq (inner st)) (k :: ks)) as Hb.
    { apply Forall_forall. intros x Hx. split; [by apply Hks|].
      apply list_elem_of_lookup in Hx as [n Hn]. destruct (Forall2_lookup_l _ _ _ _ _ HF Hn) as (l & _ & Hl & _).
      destruct (tabled_stored sent st x l HI Hl) as (_ & _ & Hlt). apply Hlt. }
    pose proof Hb as [? _]%Forall_cons_1. etransitivity; [apply (sorted_bounded _ ra (s_seq (inner st))); try done|]; [apply Hsc|lia..].
Qed.

(** ** The whole poll *)

(** The state after a poll of the driver that took the packets [ps], with or
    without a timeout, given as the batches [bs] it handed to the socket. *)
Record turned (fired : bool) (ps : list IncomingPacket) (bs : list (Z * list PacketRef)) (st st' : StreamSt)
  : Prop := {
  tu_error : s_error (inner st') = s_error (inner st);
  tu_acked : s_remote_acked (inner st') = Z.max (s_remote_acked (inner st)) (max_ack 0 ps);
  tu_seq : s_seq (inner st') = s_seq (inner st);
  tu_order : fired = true \/ in_order st -> in_order st' /\
    forall l p, tabled st' (s_remote_acked (inner st')) l p -> p_waiting p = false;
  tu_patient : fired = false -> patient st -> patient st';
  tu_tx : w_tx (world st') = w_tx (world st) ++ map (batch_event (s_remote_addr (inner st))) bs;
  tu_batches : Forall (batch_ok (w_store (world st')) MAX_SEGMENTS) bs;
  tu_count : len (concat (map snd bs)) <= len (s_send_queue (inner st)) + 2 * len ps +
    Z.max 0 (s_seq (inner st') - s_remote_acked (inner st'));
  tu_queue : s_send_queue (inner st') = [];
  tu_flown : forall k l p, tabled st' k l p -> p_waiting p = false ->
    Shared l ∈ concat (map snd bs) \/ fired = false /\ exists q, tabled st k l q /\ p_waiting q = false;
  tu_answer : forall p, ps = [p] -> passes (inner st) p && has_type p UDX_HEADER_DATA = true ->
    s_incoming (inner st') = insert_incoming p (inner st) /\
    exists sp : Packet, Owned sp ∈ concat (map snd bs) /\ state_packet sp /\ h_ack (p_header sp) = s_ack (inner st') /\
      p_skip sp = false /\
      h_typ (p_header sp) = match s_error (inner st) with Some _ => UDX_HEADER_END | None => 0 end;
}.

Lemma poll_drive_turned sent rx (fired : bool) st :
  let ps := script_packets rx in
  StreamInv sent st -> Forall incoming_ok ps -> Room (len ps) (len (concat (map i_buf ps))) st ->
  w_tx_open (world st) = true -> rx_closed rx = false -> no_sacks ps -> no_ends ps -> tidy st ->
  (fired = true -> patient st) ->
  wp (poll_drive rx fired) (fun r st' => r = Ok false /\ exists bs, turned fired ps bs st st') st.
Proof.
  intros ps HI Hok HR Hopen Hcl Hns Hne Htd Hf. unfold poll_drive. apply wp_bind.
  eapply wp_mono; [by apply (incoming_heard sent)|]. fold ps. intros r st1 (-> & HI1 & H1).
  destruct (tabled_sub st st1 (he_table _ _ _ H1)) as [Ho1 Hp1]. pose proof (he_tidy _ _ _ H1 Htd) as Htd1.
  apply wp_bind. eapply wp_mono; [apply (timeouts_patient sent fired); [done|done|by intros ->; auto]|].
  intros r st2 (-> & HI2 & K2 & Eo2 & Era2 & Eq2 & Etx2 & Hw2).
  assert (tidy st2) as Htd2 by (intros k Hk; rewrite Eo2 in Hk; rewrite Era2; by apply Htd1).
  assert (fired = true \/ in_order st -> in_order st2) as Ho2.
  { destruct fired; [intros _|subst st2; intros [?|?]; [done|by apply Ho1]].
    intros k l p k' l' p' _ Hk' _ _. by eapply Hw2. }
  apply wp_bind. eapply wp_mono; [by apply (flush_in_order sent)|].
  intros [] st3 (HI3 & ks & F & Ho3 & Hlen). pose proof (fl_keeps _ _ _ F) as K3.
  destruct (fl_queue _ _ _ F) as (ls & Eq3 & HF).
  assert (ext st st3) as X by (etransitivity; [apply H1|]; etransitivity; [apply K2|apply K3]).
  apply wp_bind. eapply wp_mono; [apply (poll_transmit_wp sent); [done|by rewrite (ext_tx_open _ _ X)]|].
  intros [] st4 (bs & Ebs & Hbs & E4). apply wp_ret. split; [done|]. exists bs.
  assert (forall k l p, tabled st4 k l p <-> tabled st3 k l p) as Et4 by (intros k l p; by rewrite E4).
  destruct (he_queue _ _ _ H1) as (q & Eq1 & Hq).
  assert (s_remote_acked (inner st4) = s_remote_acked (inner st2)) as Era4 by (rewrite E4; apply F).
  split.
  - rewrite E4. cbn. by rewrite (kp_error _ _ K3), (kp_error _ _ K2), (he_error _ _ _ H1).
  - rewrite Era4, Era2. apply H1.
  - rewrite E4. cbn. by rewrite (kp_seq _ _ K3), (kp_seq _ _ K2), (he_seq _ _ _ H1).
  - intros [Ho4 Hfirst]%Ho2%Ho3. split.
    + intros k l p k' l' p' Hk Hk'. rewrite Et4 in Hk, Hk'. by eapply (Ho4 k l p k' l' p').
    + intros l p Hk. rewrite Et4, Era4 in Hk. by apply (Hfirst l).
  - intros -> Hpt k l p Hk. rewrite Et4 in Hk. subst st2.
    by apply (flushed_patient sent ks st1 st3 HI1 F (Hp1 Hpt) k l p).
  - rewrite E4. cbn. by rewrite (fl_tx _ _ _ F), Etx2, (he_tx _ _ _ H1), (ext_remote_addr _ _ X).
  - rewrite E4. cbn. eapply Forall_impl; [exact Hbs|]. intros b [? ?]. split; [lia|done].
  - rewrite Ebs, Eq3, Eq2, Eq1, !len_app, Era4. replace (s_seq (inner st4)) with (s_seq (inner st2))
      by (rewrite E4; cbn; by rewrite (kp_seq _ _ K3)).
    assert (len (map Shared ls) = len ks); [|lia]. unfold len. rewrite length_map.
    by rewrite (Forall2_length _ _ _ HF).
  - by rewrite E4.
  - intros k l p Hk Hw. rewrite Et4 in Hk. rewrite Ebs.
    destruct (flushed_flown sent ks st2 st3 k l p HI2 F Hk Hw) as [|Hk2]; [by left|right].
    destruct fired; [by rewrite (Hw2 k l p Hk2) in Hw|]. subst st2. split; [done|].
    exists p. split; [by apply (he_table _ _ _ H1)|done].
  - intros p Ep Hp. destruct (he_answer _ _ _ H1 p Ep Hp) as [(q' & sp & Eq' & Hsp & Ha & Hsk & Hty) Ein].
    split; [rewrite E4; cbn; by rewrite (kp_incoming _ _ K3), (kp_incoming _ _ K2)|].
    exists sp. rewrite Ebs, Eq3, Eq2, Eq'. split_and!; [|done| |done|by rewrite Hty, (he_error _ _ _ H1)].
    { apply elem_of_app. left. apply elem_of_app. right. by apply list_elem_of_singleton. }
    rewrite Ha, E4. cbn. by rewrite (kp_ack _ _ K3), (kp_ack _ _ K2).
Qed.

(** One poll of the task of a stream that has not failed. *)
Lemma driver_poll_turned sent cx rx (fired : bool) st :
  let ps := script_packets rx in
  StreamInv sent st -> Forall incoming_ok ps -> Room (len ps) (len (concat (map i_buf ps))) st ->
  w_tx_open (world st) = true -> rx_closed rx = false -> no_sacks ps -> no_ends ps -> tidy st ->
  s_error (inner st) = None -> (fired = true -> patient st) ->
  wp (driver_poll cx rx fired) (fun r st' => r = Pending /\ exists bs, turned fired ps bs st st') st.
Proof.
  intros ps HI Hok HR Hopen Hcl Hns Hne Htd He Hf. unfold driver_poll. apply wp_bind, wp_set_self, wp_bind, wp_self.
  replace (closed_and_drained _) with false by (unfold closed_and_drained; cbn; by rewrite He).
  apply wp_bind. pose proof (frame_waker sent st None HI) as HI0. eapply wp_mono.
  { apply (poll_drive_turned sent rx fired); try done. by destruct HR. }
  intros r st' (-> & bs & T). st_run. split; [done|]. exists bs. destruct T. by split.
Qed.

End turn.
