(* ===== verification/StreamPeer.v ===== *)
(** A stream and its peer.

    What an operation of a stream means for the stream at the other end, with
    no network or socket between them: [PeerInv] relates the tables and
    positions of a stream to the payloads that its peer has sent and to the
    acknowledgement that its peer has reached, and every operation keeps it. *)

From S2P Require Import Prelude Constants Errors UdpProto Packet Runtime Stream StreamInv StreamCtrl.
From S2P Require Import StreamSend StreamTimer StreamAck StreamRecv StreamDriver StreamSpec.

Local Open Scope Z_scope.

Section peer.
Context `{P : Profile} {AI : AtomicInstant} {AIL : AtomicInstantLaws AI}.
Context {B : Type} {RB : ReadBuf B} {RBL : ReadBufLaws B}.
Implicit Types (st : StreamSt) (sent psent : list (list byte)) (pack : Z).

(** A received packet of a peer that has sent the payloads [sent] and
    acknowledged everything below [ack]. *)
Definition packet_fine sent (ack : Z) (p : IncomingPacket) : Prop :=
  incoming_ok p /\ i_ack p <= ack /\ has_type p UDX_HEADER_SACK = false /\
  (has_type p UDX_HEADER_DATA = true -> sent !! Z.to_nat (i_seq p) = Some (i_buf p)) /\
  len (i_buf p) <= UDX_MAX_DATA_SIZE.

Lemma packet_fine_mono sent sent' a a' p :
  sent `prefix_of` sent' -> a <= a' -> packet_fine sent a p -> packet_fine sent' a' p.
Proof.
  intros [k ->] Ha (Hok & Hack & Hs & Hd & Hl). split_and!; try done; [lia|].
  intros Hdt. apply lookup_app_l_Some. auto.
Qed.

(** The prefix of the buffer that a write accepted. *)
Definition accepted (r : poll (result Z io_error)) (buf : list byte) : list byte :=
  match r with Ready (Ok n) => take (Z.to_nat n) buf | _ => [] end.

(** What a call of [poll_read] did: the room that the caller's buffer had, the
    bytes that were put into it, and whether the call returned [Ready(Ok)].  A
    caller that brings a new buffer for every call, as [AsyncReadExt::read]
    does, sees the bytes only in that case; one that keeps its buffer, as
    [AsyncReadExt::read_exact] does, keeps the others as well. *)
Record Reading := mk_Reading {
  re_room : Z;
  re_ok : bool;
  re_bytes : list byte;
}.

Definition reading (buf : B) (r : poll (result unit io_error) * B) : Reading :=
  mk_Reading (rb_remaining buf) (match fst r with Ready (Ok _) => true | _ => false end)
    (drop (length (rb_filled buf)) (rb_filled (snd r))).

(** The bytes that reads took from the stream, and the ones that they returned. *)
Definition taken (rs : list Reading) : list byte := concat (map re_bytes rs).
Definition returned (rs : list Reading) : list byte := concat (map re_bytes (filter (fun r => re_ok r = true) rs)).

(** A read never overfills its buffer; one that did not return [Ready(Ok)] took
    nothing, or filled a buffer that is smaller than a packet may be. *)
Definition sound_reading (r : Reading) : Prop :=
  len (re_bytes r) <= re_room r /\
  (re_ok r = false -> re_bytes r = [] \/ len (re_bytes r) = re_room r /\ re_room r < UDX_MAX_DATA_SIZE).

Lemma taken_app rs rs' : taken (rs ++ rs') = taken rs ++ taken rs'.
Proof. unfold taken. by rewrite map_app, concat_app. Qed.

Lemma returned_app rs rs' : returned (rs ++ rs') = returned rs ++ returned rs'.
Proof. unfold returned. by rewrite filter_app, map_app, concat_app. Qed.

Lemma returned_cons r rs : returned (r :: rs) = (if re_ok r then re_bytes r else []) ++ returned rs.
Proof. unfold returned. rewrite filter_cons. by destruct (re_ok r). Qed.

Lemma returned_sublist rs : returned rs `sublist_of` taken rs.
Proof.
  induction rs as [|r rs IH]; [done|]. rewrite returned_cons. change (taken (r :: rs)) with (re_bytes r ++ taken rs).
  apply sublist_app; [|done]. destruct (re_ok r); [done|apply sublist_nil_l].
Qed.

(** With buffers that hold a packet nothing is lost on the way to the caller. *)
Lemma returned_taken rs :
  Forall sound_reading rs -> Forall (fun r => UDX_MAX_DATA_SIZE <= re_room r) rs -> returned rs = taken rs.
Proof.
  induction rs as [|r rs IH]; [done|]. intros [[_ Hs] Hrs]%Forall_cons_1 [Hr Hrooms]%Forall_cons_1.
  rewrite returned_cons, (IH Hrs Hrooms). change (taken (r :: rs)) with (re_bytes r ++ taken rs). f_equal.
  destruct (re_ok r); [done|]. destruct (Hs eq_refl) as [->|[_ ?]]; [done|lia].
Qed.

(** What reads of a prefix of [written] mean for their callers. *)
Lemma faithful_reads rs (written : list byte) :
  Forall sound_reading rs -> taken rs `prefix_of` written ->
  taken rs `prefix_of` written /\ returned rs `sublist_of` written /\ Forall sound_reading rs /\
  (Forall (fun r => UDX_MAX_DATA_SIZE <= re_room r) rs -> returned rs `prefix_of` written).
Proof.
  intros Hs [more ->]. split_and!; [by eexists| |done|].
  - apply sublist_inserts_r, returned_sublist.
  - intros Hr. rewrite (returned_taken rs Hs Hr). by eexists.
Qed.

(** A stream that has sent the payloads [sent], and whose reader has made the
    calls [rd], against a peer that has sent [psent] and acknowledged [pack]. *)
Record PeerInv sent psent pack (rd : list Reading) st : Prop := {
  pi_stream : StreamInv sent st;
  pi_incoming : forall k p, s_incoming (inner st) !! k = Some p -> psent !! Z.to_nat k = Some (i_buf p);
  pi_fits : forall k p, s_incoming (inner st) !! k = Some p -> len (i_buf p) <= UDX_MAX_DATA_SIZE;
  pi_reads : Forall sound_reading rd;
  pi_read : taken rd ++ unread (inner st) = concat (take (Z.to_nat (s_ack (inner st))) psent);
  pi_ack : s_ack (inner st) <= len psent;
  pi_acked : s_remote_acked (inner st) <= pack;
  pi_kept : forall k, s_remote_acked (inner st) <= k < s_seq (inner st) -> is_Some (s_outgoing (inner st) !! k);
  pi_above : forall k, is_Some (s_outgoing (inner st) !! k) -> s_remote_acked (inner st) <= k;
  pi_pack : pack <= s_seq (inner st);
}.

(** What a step shows to the rest of its host: nothing but packets of its own
    in the store and events of its own for the socket. *)
Record moved sent st st' : Prop := {
  mv_ext : ext st st';
  mv_tx : exists evs, w_tx (world st') = w_tx (world st) ++ evs /\ Forall (event_ok sent st') evs;
}.

Lemma moved_quiet sent st st' : ext st st' -> w_tx (world st') = w_tx (world st) -> moved sent st st'.
Proof. intros X E. split; [done|]. exists []. rewrite app_nil_r. by split; [|constructor]. Qed.

(** The peer may go on. *)
Lemma PeerInv_peer sent psent psent' pack pack' rd st :
  psent `prefix_of` psent' -> pack <= pack' <= s_seq (inner st) ->
  PeerInv sent psent pack rd st -> PeerInv sent psent' pack' rd st.
Proof.
  intros Hp Ha []. split; try done; [..|lia|lia].
  - intros k p Hk. destruct Hp as [l ->]. apply lookup_app_l_Some. eauto.
  - rewrite pi_read0. destruct Hp as [l ->]. rewrite take_app_le; [done|]. unfold len in *. lia.
  - destruct Hp as [l ->]. rewrite len_app. pose proof (len_nonneg l). lia.
Qed.

(** A step that leaves the tables and the positions alone. *)
Lemma quiet_PeerInv sent psent pack rd st st' :
  PeerInv sent psent pack rd st -> StreamInv sent st' ->
  s_incoming (inner st') = s_incoming (inner st) -> s_read_cursor (inner st') = s_read_cursor (inner st) ->
  s_ack (inner st') = s_ack (inner st) -> s_remote_acked (inner st') = s_remote_acked (inner st) ->
  s_seq (inner st') = s_seq (inner st) -> s_outgoing (inner st') = s_outgoing (inner st) ->
  PeerInv sent psent pack rd st'.
Proof.
  intros [] HI Ein Ec Ea Era Es Eo. split; rewrite ?Ein, ?Ea, ?Era, ?Es, ?Eo; try done.
  unfold unread in *. by rewrite Ein, Ec, Ea.
Qed.

(** ** Writing and reading *)

Lemma wrote_PeerInv sent psent pack rd st buf cs st' :
  PeerInv sent psent pack rd st -> wrote sent st buf cs st' ->
  PeerInv (sent ++ cs) psent pack rd st' /\ moved (sent ++ cs) st st' /\
  accepted (Ready (Ok (len (concat cs)))) buf = concat cs.
Proof.
  intros [] ((more & Epay & _) & HI' & W & _).
  destruct (wr_recv _ _ _ _ W) as (E1 & E2 & E3). destruct (wr_outgoing _ _ _ _ W) as [Hsub Hnew].
  pose proof (ext_seq _ _ (wr_ext _ _ _ _ W)). split_and!; [split|by apply moved_quiet; apply W|].
  - done.
  - by rewrite E1.
  - by rewrite E1.
  - done.
  - unfold unread in *. by rewrite E1, E2, E3.
  - by rewrite E2.
  - by rewrite (wr_remote_acked _ _ _ _ W).
  - rewrite (wr_remote_acked _ _ _ _ W). intros k Hk. destruct (decide (k < s_seq (inner st))) as [Hlt|Hge].
    + destruct (pi_kept0 k) as [l Hl]; [lia|]. exists l. by eapply lookup_weaken.
    + rewrite Hnew by lia. by eexists.
  - rewrite (wr_remote_acked _ _ _ _ W). intros k [Hk|Hk]%(wr_new _ _ _ _ W); [by apply pi_above0|]. lia.
  - lia.
  - cbn. rewrite <- (concat_payloads buf), Epay, concat_app. unfold len. by rewrite Nat2Z.id, take_app_length.
Qed.

Lemma write_moves sent psent pack rd st cx buf :
  PeerInv sent psent pack rd st -> len buf < 2 ^ 63 -> Room (len buf) (len buf) st ->
  wp (poll_write cx buf) (fun r st' => exists cs, PeerInv (sent ++ cs) psent pack rd st' /\
    moved (sent ++ cs) st st' /\ s_ack (inner st') = s_ack (inner st) /\ accepted r buf = concat cs) st.
Proof.
  intros HP Hlen HR. pose proof (pi_stream _ _ _ _ _ HP) as HI. pose proof (len_nonneg buf).
  assert (exists cs, PeerInv (sent ++ cs) psent pack rd st /\ moved (sent ++ cs) st st /\
    s_ack (inner st) = s_ack (inner st) /\ [] = concat cs) as Hsame
    by (exists []; rewrite app_nil_r; split_and!; try done; by apply moved_quiet).
  destruct (s_error (inner st)) as [er|] eqn:He.
  { unfold poll_write. st_run. cbn. rewrite He. by st_run. }
  destruct (decide (len buf = 0)) as [E0|].
  { unfold poll_write. st_run. cbn. rewrite He, E0. change (0 =? 0) with true. cbn iota. by st_run. }
  eapply wp_mono; [apply (poll_write_wp sent); try done; lia|].
  intros r st' [(cs & Hw & -> & _)|(-> & _ & ->)].
  - exists cs. destruct (wrote_PeerInv _ _ _ _ _ _ _ _ HP Hw) as (? & ? & ?). split_and!; try done.
    destruct Hw as (_ & _ & W & _). by destruct (wr_recv _ _ _ _ W) as (_ & ? & _).
  - exists []. rewrite app_nil_r. split_and!; try done; [|by apply moved_quiet].
    eapply quiet_PeerInv; [exact HP|..]; try done.
    eapply StreamInv_frame, HI; try done. eapply CtrlInv_frame, HI; try done; apply HI.
Qed.

(** Reading on in the packet at the cursor. *)
Lemma reads_within bytes (s s' : UdxStreamInner) q :
  RecvInv s -> reads bytes s s' -> s_read_cursor s' = s_read_cursor s ->
  s_incoming s' !! s_read_cursor s' = Some q ->
  exists p, s_incoming s !! s_read_cursor s = Some p /\ i_buf q = i_buf p /\
    len bytes = i_read_offset q - i_read_offset p /\ 0 <= i_read_offset p.
Proof.
  intros HR R Ec Hq. pose proof (rd_inv _ _ _ R) as HR'.
  destruct (rd_sub _ _ _ R _ q Hq) as (p & Hp & Eq). rewrite Ec in Hp.
  destruct (cursor_packet s p HR Hp) as (_ & _ & Ho & _ & Eu).
  destruct (cursor_packet s' q HR' Hq) as (_ & _ & Ho' & _ & Eu').
  assert (s_ack s' = s_ack s) as Ea by by rewrite (rd_frame _ _ _ R).
  assert (chunks (s_incoming s') (s_read_cursor s + 1) (s_ack s) = chunks (s_incoming s) (s_read_cursor s + 1) (s_ack s)) as Ech.
  { apply chunks_ext. intros k Hk. destruct (inv_contiguous _ HR' k) as [x Hx]; [lia|].
    destruct (rd_sub _ _ _ R k x Hx) as (y & Hy & Exy). rewrite Hx, Hy. f_equal.
    destruct (inv_in _ HR' k x Hx) as (_ & _ & _ & Hx0). destruct (inv_in _ HR k y Hy) as (_ & _ & _ & Hy0).
    rewrite Exy. destruct y as [h b o fr]. cbn in *. f_equal.
    destruct (decide (i_read_offset x = 0)), (decide (o = 0)); lia. }
  exists p. assert (i_buf q = i_buf p) as Eb by by rewrite Eq. split_and!; [done|done| |lia].
  pose proof (f_equal len (rd_bytes _ _ _ R)) as El.
  rewrite Eb in Ho', Eu'. rewrite Eu, Eu', Ec, Ea, Ech, !len_app, !len_drop in El by lia. lia.
Qed.

Lemma poll_read_sound sent st cx (buf : B) :
  StreamInv sent st -> (forall k p, s_incoming (inner st) !! k = Some p -> len (i_buf p) <= UDX_MAX_DATA_SIZE) ->
  wp (poll_read cx buf) (fun r _ => sound_reading (reading buf r)) st.
Proof.
  intros HI Hfit. pose proof (inv_recv _ _ HI) as HR. eapply wp_mono; [by apply (poll_read_wp sent)|].
  intros [res buf'] st' (st1 & _ & Efill & Erem & R & _ & Hend & Hres). unfold sound_reading, reading.
  cbn [re_room re_ok re_bytes fst snd]. rewrite Efill, drop_app_length. pose proof (rb_remaining_nonneg buf).
  split; [rewrite len_take by lia; lia|]. intros Hno. pose proof (rd_cursor _ _ _ R) as Hc.
  assert (s_read_cursor (inner st1) = s_read_cursor (inner st)) as Ec.
  { destruct (_ <? _) eqn:E in Hres; b2p; [|lia]. by destruct Hres as [-> _]. }
  destruct Hend as [Ea|(q & Hq & Hlt & H0)].
  - left. assert (s_ack (inner st1) = s_ack (inner st)) as Ea1 by by rewrite (rd_frame _ _ _ R).
    unfold unread. by rewrite chunks_empty, take_nil by lia.
  - right. destruct (reads_within _ _ _ q HR R Ec Hq) as (p & Hp & Eb & El & Ho).
    pose proof (Hfit _ _ Hp). rewrite Eb in Hlt. lia.
Qed.

(** A buffer that is large enough takes and returns all there is. *)
Lemma poll_read_all sent st cx (buf : B) :
  StreamInv sent st -> len (unread (inner st)) <= rb_remaining buf ->
  wp (poll_read cx buf) (fun r _ => taken [reading buf r] = unread (inner st) /\
    returned [reading buf r] = unread (inner st)) st.
Proof.
  intros HI Hlen. eapply wp_mono; [by apply (poll_read_wp sent)|].
  intros [res buf'] st' (st1 & _ & Efill & _ & R & _ & Hend & Hres).
  rewrite take_ge in Efill, R by (unfold len in Hlen; lia).
  assert (re_bytes (reading buf (res, buf')) = unread (inner st)) as Eb
    by (unfold reading; cbn [re_bytes snd]; by rewrite Efill, drop_app_length).
  rewrite returned_cons. change (taken [?r]) with (re_bytes r ++ []). change (returned []) with (@nil byte).
  rewrite Eb, !app_nil_r. split; [done|]. unfold reading. cbn [re_ok fst].
  destruct (_ <? _) eqn:Ec in Hres; [by destruct Hres as [-> _]|]. b2p. pose proof (rd_cursor _ _ _ R).
  assert (unread (inner st) = []) as ->; [|by repeat case_match].
  assert (unread (inner st1) = []) as Eu.
  { pose proof (f_equal len (rd_bytes _ _ _ R)) as El. rewrite len_app in El.
    destruct (unread (inner st1)); [done|]. unfold len in El. cbn [length] in El. lia. }
  destruct Hend as [Ea|(q & Hq & Hlt & _)].
  - assert (s_ack (inner st1) = s_ack (inner st)) as Ea1 by by rewrite (rd_frame _ _ _ R).
    unfold unread. apply chunks_empty. lia.
  - exfalso. destruct (cursor_packet _ q (rd_inv _ _ _ R) Hq) as (_ & _ & Ho & _ & Eu').
    rewrite Eu in Eu'. symmetry in Eu'. apply app_eq_nil in Eu' as [Ed _].
    apply (f_equal len) in Ed. rewrite len_drop in Ed by lia. change (len []) with 0 in Ed. lia.
Qed.

Lemma read_moves sent psent pack rd st cx (buf : B) :
  PeerInv sent psent pack rd st ->
  wp (poll_read cx buf) (fun r st' =>
    PeerInv sent psent pack (rd ++ [reading buf r]) st' /\ moved sent st st' /\ s_ack (inner st') = s_ack (inner st)) st.
Proof.
  intros HP. pose proof (pi_stream _ _ _ _ _ HP) as HI.
  eapply wp_mono; [eapply wp_and; [by apply (poll_read_wp sent)|by eapply poll_read_sound; [|apply HP]]|].
  intros [res buf'] st' [(st1 & HI' & Efill & _ & R & Ew & _ & Hres) Hsound].
  assert (re_bytes (reading buf (res, buf')) = take (Z.to_nat (rb_remaining buf)) (unread (inner st))) as Egot
    by (unfold reading; cbn [re_bytes snd]; by rewrite Efill, drop_app_length).
  set (bytes := take _ _) in *. pose proof (rd_frame _ _ _ R) as Ef.
  assert (world st' = world st /\ exists w, inner st' = (inner st1) <| s_read_waker := w |>) as (Ew' & w & Ei).
  { assert (exists w, inner st1 = (inner st1) <| s_read_waker := w |>)
      by (exists (s_read_waker (inner st1)); by destruct (inner st1)).
    destruct (_ <? _); [destruct Hres as [_ ->]; by split|].
    destruct (s_error _); destruct Hres as [_ ->]; split; try done. by eexists. }
  assert (ext st st') as X.
  { split; rewrite ?Ew'; try done; rewrite Ei, Ef; cbn; done || lia. }
  assert (s_ack (inner st') = s_ack (inner st) /\ unread (inner st') = unread (inner st1) /\
    s_incoming (inner st') = s_incoming (inner st1) /\ s_remote_acked (inner st') = s_remote_acked (inner st) /\
    s_seq (inner st') = s_seq (inner st) /\ s_outgoing (inner st') = s_outgoing (inner st))
    as (Ea & Eu & Ein & Era & Es & Eo) by (rewrite Ei, Ef; by split_and!).
  split_and!; [|apply moved_quiet; [done|by rewrite Ew']|done].
  destruct HP. split; rewrite ?Ea, ?Era, ?Es, ?Eo; try done.
  - intros k p Hp. rewrite Ein in Hp. destruct (rd_sub _ _ _ R k p Hp) as (q & Hq & ->). cbn.
    by apply pi_incoming0.
  - intros k p Hp. rewrite Ein in Hp. destruct (rd_sub _ _ _ R k p Hp) as (q & Hq & ->). cbn. by eapply pi_fits0.
  - apply Forall_app. by split; [|constructor].
  - rewrite taken_app, Eu, <- app_assoc. change (taken [?r]) with (re_bytes r ++ []).
    by rewrite Egot, app_nil_r, <- (rd_bytes _ _ _ R).
Qed.

(** ** Closing *)

Lemma terminate_moves sent psent pack rd st er :
  PeerInv sent psent pack rd st -> Room 1 0 st ->
  wp (terminate er) (fun _ st' => PeerInv sent psent pack rd st' /\ moved sent st st' /\
    s_ack (inner st') = s_ack (inner st)) st.
Proof.
  intros HP HR. pose proof HR as []. eapply wp_mono; [apply (terminate_wp sent); [apply HP|lia..]|].
  intros [] st' (HI' & C & _). split_and!; [|apply moved_quiet; apply C|apply C].
  eapply quiet_PeerInv; [exact HP|done|..]; apply C.
Qed.

Lemma close_moves sent psent pack rd st tx :
  PeerInv sent psent pack rd st -> Room 1 0 st ->
  wp (close tx) (fun _ st' => PeerInv sent psent pack rd st' /\ moved sent st st' /\
    s_ack (inner st') = s_ack (inner st)) st.
Proof.
  intros HP HR. unfold close. apply wp_bind. eapply wp_mono; [by eapply terminate_moves|].
  intros [] st' (HP' & M & Ea). apply wp_set_self. pose proof (pi_stream _ _ _ _ _ HP') as HI'.
  split_and!; [|by destruct M as [[] ?]; split; [split|]|done]. eapply quiet_PeerInv; [exact HP'|..]; try done.
  eapply StreamInv_frame, HI'; try done. eapply CtrlInv_frame, HI'; try done; apply HI'.
Qed.

Lemma drop_moves sent psent pack rd st n :
  PeerInv sent psent pack rd st -> Room 1 0 st ->
  wp (drop_stream n) (fun _ st' => PeerInv sent psent pack rd st' /\ moved sent st st' /\
    s_ack (inner st') = s_ack (inner st)) st.
Proof.
  intros HP HR. unfold drop_stream. destruct (n <=? 2); [by apply terminate_moves|].
  apply wp_ret. split_and!; try done. by apply moved_quiet.
Qed.

(** ** Polling the driver *)

(** The payloads that become readable are the next ones of the peer. *)
Lemma chunks_sent psent (m : gmap Z IncomingPacket) a b :
  0 <= a <= b -> a <= len psent ->
  (forall k, a <= k < b -> exists p, m !! k = Some p /\ i_read_offset p = 0 /\
     psent !! Z.to_nat k = Some (i_buf p)) ->
  b <= len psent /\
  concat (take (Z.to_nat b) psent) = concat (take (Z.to_nat a) psent) ++ chunks m a b.
Proof.
  intros Hab Ha Hm. remember (Z.to_nat (b - a)) as n eqn:En. revert b Hab Hm En.
  induction n as [|n IH]; intros b Hab Hm En.
  { assert (b = a) as -> by lia. rewrite chunks_empty by lia. by rewrite app_nil_r. }
  destruct (IH (b - 1)) as [_ Eb]; [lia| |lia|]. { intros k Hk. apply Hm. lia. }
  destruct (Hm (b - 1)) as (p & Hp & Hoff & Hs); [lia|].
  assert (Z.to_nat b = Datatypes.S (Z.to_nat (b - 1))) as EZ by lia.
  apply lookup_lt_Some in Hs as Hlt. split; [unfold len; lia|].
  rewrite EZ, (take_S_r _ _ _ Hs), concat_app, Eb, <- app_assoc. f_equal.
  rewrite (chunks_split m a (b - 1) b) by lia. f_equal. cbn [concat]. rewrite app_nil_r.
  pose proof (chunks_one m (b - 1)) as E1. replace (b - 1 + 1) with b in E1 by lia.
  rewrite E1. unfold chunk. by rewrite Hp, Hoff.
Qed.

Lemma max_ack_le acc ps pack :
  acc <= pack -> Forall (fun p => i_ack p <= pack) ps -> max_ack acc ps <= pack.
Proof.
  intros Ha Hps. revert acc Ha. induction Hps as [|p ps Hp _ IH]; intros acc Ha; [done|].
  change (max_ack acc (p :: ps)) with (max_ack (Z.max acc (i_ack p)) ps). apply IH. lia.
Qed.

(** Absorbed packets are payloads of the peer. *)
Lemma absorbed_incoming sent psent pack rd st ps st' k q :
  PeerInv sent psent pack rd st -> Forall (packet_fine psent pack) ps -> StreamInv sent st' ->
  absorbed ps (inner st) (inner st') -> s_incoming (inner st') !! k = Some q ->
  psent !! Z.to_nat k = Some (i_buf q).
Proof.
  intros HP Hps HI' Hab Hk. destruct (ab_new _ _ _ Hab k q Hk) as [Hold|[Hq Hd]].
  - by apply (pi_incoming _ _ _ _ _ HP).
  - destruct (inv_in _ (inv_recv _ _ HI') k q Hk) as (_ & <- & _).
    rewrite Forall_forall in Hps. by apply (Hps q Hq).
Qed.

(** The new readable ones have not been started. *)
Lemma absorbed_fresh sent psent pack rd st ps st' k :
  PeerInv sent psent pack rd st -> Forall (packet_fine psent pack) ps -> StreamInv sent st' ->
  absorbed ps (inner st) (inner st') -> s_ack (inner st) <= k < s_ack (inner st') ->
  exists q, s_incoming (inner st') !! k = Some q /\ i_read_offset q = 0.
Proof.
  intros HP Hps HI' Hab Hk. pose proof (pi_stream _ _ _ _ _ HP) as HI.
  pose proof (inv_cursor _ (inv_recv _ _ HI)). pose proof (ab_cursor _ _ _ Hab) as Ec.
  destruct (inv_contiguous _ (inv_recv _ _ HI') k) as [q Hq]; [lia|]. exists q. split; [done|].
  destruct (inv_in _ (inv_recv _ _ HI') k q Hq) as (_ & _ & _ & Hoff).
  destruct (decide (i_read_offset q = 0)) as [|Hne]; [done|exfalso]. specialize (Hoff Hne).
  assert (k = s_ack (inner st)) as -> by lia.
  destruct (ab_new _ _ _ Hab _ q Hq) as [Hold|[Hin' _]].
  - pose proof (inv_gap _ (inv_recv _ _ HI)). congruence.
  - rewrite Forall_forall in Hps. by destruct (Hps q Hin') as ((_ & ? & _) & _).
Qed.

Lemma drives_PeerInv sent psent pack rd st ps c st' :
  PeerInv sent psent pack rd st -> Forall (packet_fine psent pack) ps ->
  StreamInv sent st' -> drives sent ps c st st' -> PeerInv sent psent pack rd st'.
Proof.
  intros HP Hps HI' D. pose proof (pi_stream _ _ _ _ _ HP) as HI. pose proof (dr_absorbed _ _ _ _ _ D) as Hab.
  assert (no_sacks ps) as Hns by (eapply Forall_impl; [exact Hps|]; by intros p (_ & _ & ? & _)).
  pose proof (inv_cursor _ (inv_recv _ _ HI)) as Hcur. pose proof (ab_ack _ _ _ Hab) as Hle.
  destruct (chunks_sent psent (s_incoming (inner st')) (s_ack (inner st)) (s_ack (inner st'))) as [Hack Etk].
  { lia. }
  { apply HP. }
  { intros k Hk. destruct (absorbed_fresh _ _ _ _ _ _ _ k HP Hps HI' Hab Hk) as (q & Hq & Hoff).
    exists q. split_and!; [done..|]. by eapply (absorbed_incoming sent psent pack rd st ps st'). }
  pose proof (dr_remote_acked _ _ _ _ _ D). pose proof (pi_acked _ _ _ _ _ HP).
  pose proof (inv_remote_acked _ (inv_ctrl _ _ HI)). pose proof (ext_remote_acked _ _ (dr_ext _ _ _ _ _ D)).
  split; try done; rewrite ?(dr_seq _ _ _ _ _ D).
  - intros k q. by eapply (absorbed_incoming sent psent pack rd st ps st').
  - intros k q Hk. destruct (ab_new _ _ _ Hab k q Hk) as [Hold|[Hq _]]; [by eapply (pi_fits _ _ _ _ _ HP)|].
    rewrite Forall_forall in Hps. by apply (Hps q Hq).
  - apply HP.
  - rewrite (absorbed_unread ps (inner st)); [|apply HI|done]. by rewrite app_assoc, (pi_read _ _ _ _ _ HP), Etk.
  - assert (max_ack 0 ps <= pack); [|lia]. apply max_ack_le; [lia|].
    eapply Forall_impl; [exact Hps|]. by intros p (_ & ? & _).
  - intros k Hk. rewrite (dr_kept _ _ _ _ _ D Hns k) by lia. apply HP. lia.
  - intros k [l Hk]. destruct (Z.le_gt_cases (s_remote_acked (inner st')) k) as [|Hlt]; [done|exfalso].
    pose proof (dr_above _ _ _ _ _ D k l Hk Hlt). assert (s_remote_acked (inner st) <= k); [|lia].
    apply HP. exists l. by eapply map_subseteq_spec; [apply D|].
  - apply HP.
Qed.

Lemma finished_moves sent psent pack rd st :
  PeerInv sent psent pack rd st -> StreamInv sent (finished st) ->
  PeerInv sent psent pack rd (finished st) /\ moved sent st (finished st).
Proof.
  intros HP HI'. split; [by eapply (quiet_PeerInv _ _ _ _ st)|]. split; [done|]. cbn.
  destruct (w_tx_open (world st)); [|exists []; by rewrite app_nil_r].
  eexists. split; [done|]. by repeat constructor.
Qed.

Lemma poll_moves sent psent pack rd st cx rx timer_ready :
  let ps := script_packets rx in
  PeerInv sent psent pack rd st -> Forall (packet_fine psent pack) ps ->
  Room (len ps + 1) (len (concat (map i_buf ps))) st -> w_tx_open (world st) = true ->
  wp (driver_poll cx rx timer_ready) (fun _ st' => PeerInv sent psent pack rd st' /\ moved sent st st' /\
    s_ack (inner st) <= s_ack (inner st')) st.
Proof.
  intros ps HP Hps HR Ho. eapply wp_mono.
  { apply (driver_poll_wp sent); try done; [apply HP|].
    eapply Forall_impl; [exact Hps|]. by intros p [? _]. }
  fold ps. intros r st' [HI' Hcase]. destruct (closed_and_drained (inner st)).
  - destruct Hcase as [_ ->]. destruct (finished_moves _ _ _ _ _ HP HI'). by split_and!.
  - destruct Hcase as (_ & D & _). split_and!; [by eapply drives_PeerInv|by split; apply D|].
    apply (ab_ack _ _ _ (dr_absorbed _ _ _ _ _ D)).
Qed.

(** ** What others do to the world of a stream *)

Lemma restamped_ext (p : Packet) t : packet_ext p (p <| p_time_sent := t |>).
Proof. by split_and!. Qed.

(** Only sending times change in the packets of the table. *)
Definition undisturbed (s : UdxStreamInner) (w w' : World) : Prop :=
  store_ext (w_store w) (w_store w') /\
  forall k l p, s_outgoing s !! k = Some l -> w_store w !! l = Some p ->
    exists t, w_store w' !! l = Some (p <| p_time_sent := t |>).

Lemma StreamInv_world sent s (w w' : World) :
  StreamInv sent (mk_StreamSt s w) -> undisturbed s w w' ->
  (forall n, 0 <= w_clock w' n <= CLOCK_BOUND) -> 1 <= w_max_gso_segments w' -> StreamInv sent (mk_StreamSt s w').
Proof.
  intros HI [Hx Hs] Hclk Hgso.
  assert (forall f, (forall p t, f (p <| p_time_sent := t |>) = f p) ->
    out_sum (w_store w') f (s_outgoing s) = out_sum (w_store w) f (s_outgoing s)) as Hsum.
  { intros f Hf. apply out_sum_ext. intros k l Hl.
    destruct (inv_out _ _ HI k l Hl) as (_ & p & Hp & _). cbn in Hp.
    destruct (Hs k l p Hl Hp) as (t & Ht). unfold at_loc. by rewrite Ht, Hp, Hf. }
  split; [|apply HI|destruct (inv_ctrl _ _ HI); by split].
  pose proof (inv_send _ _ HI) as []. split; try done; cbn in *.
  - intros k l Hl. destruct (inv_out k l Hl) as (Hr & p & Hp & Hok). split; [done|].
    destruct (Hs k l p Hl Hp) as (t & Ht). eexists. split; [exact Ht|].
    eapply out_packet_ok_mono; [done|done|apply restamped_ext|apply Hok|done|done].
  - by eapply queue_ok_mono, inv_queue.
  - by rewrite Hsum.
  - by rewrite Hsum.
Qed.

Lemma PeerInv_world sent psent pack rd s w w' :
  PeerInv sent psent pack rd (mk_StreamSt s w) -> undisturbed s w w' ->
  (forall n, 0 <= w_clock w' n <= CLOCK_BOUND) -> 1 <= w_max_gso_segments w' ->
  PeerInv sent psent pack rd (mk_StreamSt s w').
Proof. intros [] Hu Hc Hg. split; try done. by eapply StreamInv_world. Qed.

(** A step of another stream with other packets in its table. *)
Lemma moved_undisturbed sent st st' s :
  moved sent st st' ->
  (forall k k' l, s_outgoing s !! k = Some l -> s_outgoing (inner st) !! k' <> Some l) ->
  undisturbed s (world st) (world st').
Proof.
  intros [X _] Hd. split; [apply X|]. intros k l p Hk Hp. exists (p_time_sent p).
  rewrite (ext_frame _ _ X l p Hp) by (intros k'; by eapply Hd). by destruct p.
Qed.

(** ** The beginning *)

Lemma connect_PeerInv psent c dest rid lid w :
  0 <= rid < u32_modulus -> (forall n, 0 <= w_clock w n <= CLOCK_BOUND) -> 1 <= w_max_gso_segments w ->
  PeerInv [] psent 0 [] (mk_StreamSt (connect c dest rid lid) w).
Proof.
  intros Hid Hc Hg. split; try done; cbn.
  - by apply connect_StreamInv.
  - apply len_nonneg.
  - intros. lia.
  - intros k [l Hk]. by rewrite lookup_empty in Hk.
Qed.

End peer.
