(* ===== verification/Socket.v ===== *)
(** The socket: [src/src/socket.rs].

    [UdxSocketInner] and its operations.  The socket shares with its streams
    the [World] of [Runtime.v]: the events that streams send are the front of
    [w_tx], which the socket consumes.  The channels to the streams are kept in
    a table of their own.  What the operating system answers ([poll_send] and
    [poll_recv] of the UDP socket) is an input of the operations. *)

From S2P Require Import Prelude Constants Errors UdpProto Packet Runtime Stream.

Local Open Scope Z_scope.

Definition MAX_LOOP : Z := 60.
Definition RECV_QUEUE_MAX_LEN : Z := 1024.

(** [udx_udp::BATCH_SIZE]: [unix.rs] works on batches, except on Apple systems;
    there and in [fallback.rs] a batch is one message. *)
Definition BATCH_SIZE `{Profile} : Z := if batching then 32 else 1.

Lemma BATCH_SIZE_cases `{Profile} : BATCH_SIZE = 32 \/ BATCH_SIZE = 1.
Proof. unfold BATCH_SIZE. destruct batching; auto. Qed.

(** Bounds on batches, for both sizes. *)
Ltac batch_lia :=
  destruct BATCH_SIZE_cases as [BS|BS]; rewrite ?BS in *; clear BS; unfold UDX_MTU, MAX_LOOP in *; lia.

(** An unbounded channel from the socket to a stream. *)
Record Chan := mk_Chan {
  ch_queue : list EventIncoming;
  ch_rx_alive : bool;
  ch_tx_alive : bool;
}.

#[export] Instance Chan_eta : Eta Chan := fun c => mk_Chan (ch_queue c) (ch_rx_alive c) (ch_tx_alive c).

(** [recv_tx] is a channel of the table. *)
Record StreamHandle := mk_StreamHandle { recv_tx : nat }.

Record SocketStats := mk_SocketStats {
  so_tx_transmits : Z;
  so_tx_dgrams : Z;
  so_tx_bytes : Z;
  so_rx_bytes : Z;
  so_rx_dgrams : Z;
  so_tx_window_start : option Z;
  so_tx_window_bytes : Z;
  so_tx_window_dgrams : Z;
}.

#[export] Instance SocketStats_eta : Eta SocketStats := fun s =>
  mk_SocketStats (so_tx_transmits s) (so_tx_dgrams s) (so_tx_bytes s) (so_rx_bytes s) (so_rx_dgrams s)
    (so_tx_window_start s) (so_tx_window_bytes s) (so_tx_window_dgrams s).

Definition SocketStats_default : SocketStats := mk_SocketStats 0 0 0 0 0 None 0 0.

Section socket.
Context `{Profile} `{AtomicInstant}.

Record UdxSocketInner := mk_UdxSocketInner {
  k_local_addr : SocketAddr;          (* of the bound UDP socket *)
  k_streams : gmap Z StreamHandle;
  k_outgoing_transmits : list Transmit;
  k_outgoing_packet_sets : list PacketSet;
  k_recv_buf : option Z;              (* the length of the buffer, when it is not taken *)
  k_stats : SocketStats;
  k_has_refs : bool;
  k_drive_waker : option Waker;
  k_send_overflow_timer : option Z;   (* its deadline *)
  k_recv_dgrams : list Dgram;
  k_recv_waker : option Waker;
}.

#[export] Instance UdxSocketInner_eta : Eta UdxSocketInner := fun s =>
  mk_UdxSocketInner (k_local_addr s) (k_streams s) (k_outgoing_transmits s) (k_outgoing_packet_sets s)
    (k_recv_buf s) (k_stats s) (k_has_refs s) (k_drive_waker s) (k_send_overflow_timer s)
    (k_recv_dgrams s) (k_recv_waker s).

Record SocketSt := mk_SocketSt {
  sock : UdxSocketInner;
  chans : list Chan;
  sworld : World;
}.

#[export] Instance SocketSt_eta : Eta SocketSt := fun st => mk_SocketSt (sock st) (chans st) (sworld st).

Definition sself {A} (f : UdxSocketInner -> A) : Act SocketSt A := gets (fun st => f (sock st)).
Definition set_sock (f : UdxSocketInner -> UdxSocketInner) : Act SocketSt unit :=
  modify (fun st => st <| sock ::= f |>).
Definition on_sworld {A} (m : Act World A) : Act SocketSt A := fun st =>
  match m (sworld st) with
  | Ret (a, w) => Ret (a, st <| sworld := w |>)
  | Panic e => Panic e
  | NoFuel => NoFuel
  end.

(** [UdxSocketInner::bind] after the system calls have succeeded. *)
Definition bind (local_addr : SocketAddr) : UdxSocketInner :=
  mk_UdxSocketInner local_addr ∅ [] [] (Some (UDX_MTU * BATCH_SIZE)) SocketStats_default true
    None None [] None.

(** Dropping a [StreamHandle] drops the sender of its channel. *)
Definition drop_handle (h : option StreamHandle) : Act SocketSt unit :=
  match h with
  | Some h => modify (fun st => st <| chans ::= alter (fun c => c <| ch_tx_alive := false |>) (recv_tx h) |>)
  | None => mret tt
  end.

(** [self.streams.remove(&id)]. *)
Definition remove_stream (id : Z) : Act SocketSt unit :=
  m ← sself k_streams;
  _ ← set_sock (fun s => s <| k_streams := delete id m |>);
  drop_handle (m !! id).

(** [UdxSocketInner::connect]: a fresh channel, the stream, and its handle in
    the table (a previous handle under the same id is dropped).  The result is
    the stream and the index of the channel whose receiver it holds. *)
Definition socket_connect (dest : SocketAddr) (local_id remote_id : Z)
  : Act SocketSt (UdxStreamInner * nat) :=
  cs ← gets chans;
  let c := length cs in
  _ ← modify (fun st => st <| chans ::= fun l => l ++ [mk_Chan [] true true] |>);
  now ← on_sworld instant_now;
  let stream := connect now dest remote_id local_id in
  m ← sself k_streams;
  _ ← set_sock (fun s => s <| k_streams := <[local_id := mk_StreamHandle c]> m |>);
  _ ← drop_handle (m !! local_id);
  mret (stream, c).

(** [UdxSocket::send]; the socket itself keeps the channel open, so that the
    [unwrap] succeeds while it is alive. *)
Definition socket_send (dest : SocketAddr) (buf : list byte) : Act SocketSt unit :=
  ok ← on_sworld (send_event (EvTransmitDgram (Dgram_new dest buf)));
  if (ok : bool) then mret tt else lift (Panic UnwrapFailed).

(** [RecvFuture::poll]. *)
Definition recv_poll (cx : Waker) : Act SocketSt (poll (result (SocketAddr * list byte) io_error)) :=
  q ← sself k_recv_dgrams;
  match q with
  | dgram :: rest =>
      _ ← set_sock (fun s => s <| k_recv_dgrams := rest |>);
      mret (Ready (Ok (dg_dest dgram, dg_buf dgram)))
  | [] =>
      _ ← set_sock (fun s => s <| k_recv_waker := Some cx |>);
      mret Pending
  end.

(** [impl Drop for UdxSocket]. *)
Definition drop_socket (strong_count : Z) : Act SocketSt unit :=
  if strong_count =? 2 then
    _ ← set_sock (fun s => s <| k_has_refs := false |>);
    w ← sself k_drive_waker;
    _ ← set_sock (fun s => s <| k_drive_waker := None |>);
    on_sworld (wake w)
  else mret tt.

(** ** Sending *)

Definition upd_stats (f : SocketStats -> SocketStats) : Act SocketSt unit :=
  set_sock (fun s => s <| k_stats ::= f |>).

(** [SocketStats::track_tx].  [elapsed] saturates at zero. *)
Definition track_tx (transmit : Transmit) : Act SocketSt unit :=
  s ← sself k_stats;
  a ← lift (usize_add (so_tx_bytes s) (len (t_contents transmit)));
  _ ← upd_stats (fun s => s <| so_tx_bytes := a |>);
  b ← lift (usize_add (so_tx_transmits s) 1);
  _ ← upd_stats (fun s => s <| so_tx_transmits := b |>);
  n ← lift (num_segments transmit);
  c ← lift (usize_add (so_tx_dgrams s) n);
  _ ← upd_stats (fun s => s <| so_tx_dgrams := c |>);
  d ← lift (usize_add (so_tx_window_bytes s) (len (t_contents transmit)));
  _ ← upd_stats (fun s => s <| so_tx_window_bytes := d |>);
  e ← lift (usize_add (so_tx_window_dgrams s) n);
  _ ← upd_stats (fun s => s <| so_tx_window_dgrams := e |>);
  _ ← (match so_tx_window_start s with
       | None => t ← on_sworld instant_now; upd_stats (fun s => s <| so_tx_window_start := Some t |>)
       | Some _ => mret tt
       end);
  start ← sself (fun s => so_tx_window_start (k_stats s));
  start ← lift (unwrap start);
  now ← on_sworld instant_now;
  if Z.max 0 (now - start) >? from_millis 1000 then
    _ ← on_sworld instant_now;
    _ ← upd_stats (fun s => s <| so_tx_window_bytes := 0 |>);
    _ ← upd_stats (fun s => s <| so_tx_window_dgrams := 0 |>);
    t ← on_sworld instant_now;
    upd_stats (fun s => s <| so_tx_window_start := Some t |>)
  else mret tt.

(** One event of [send_rx]. *)
Definition take_event (ev : EventOutgoing) : Act SocketSt unit :=
  match ev with
  | EvStreamDropped local_id => remove_stream local_id
  | EvTransmitDgram dgram =>
      set_sock (fun s => s <| k_outgoing_transmits ::= fun q => q ++ [into_transmit dgram] |>)
  | EvTransmit packet_set =>
      store ← on_sworld (gets w_store);
      transmit ← lift (to_transmit store packet_set);
      _ ← set_sock (fun s => s <| k_outgoing_transmits ::= fun q => q ++ [transmit] |>);
      set_sock (fun s => s <| k_outgoing_packet_sets ::= fun q => q ++ [packet_set] |>)
  end.

(** The inner [while] loop of [poll_transmit]: whether [send_rx] was pending.
    The [Ready(None)] branch is unreachable because the socket keeps a sender. *)
Fixpoint fill_loop (fuel : nat) : Act SocketSt bool :=
  q ← sself k_outgoing_transmits;
  if len q <? BATCH_SIZE then
    evs ← on_sworld (gets w_tx);
    match evs with
    | [] => mret true
    | ev :: rest =>
        match fuel with
        | O => out_of_fuel
        | Datatypes.S fuel =>
            _ ← on_sworld (modify (fun w => w <| w_tx := rest |>));
            _ ← take_event ev;
            fill_loop fuel
        end
    end
  else mret false.

Fixpoint track_all (ts : list Transmit) : Act SocketSt unit :=
  match ts with
  | [] => mret tt
  | t :: ts => _ ← track_tx t; track_all ts
  end.

(** [packet.time_sent.set_now()] for the given packets. *)
Fixpoint stamp_all (ls : list loc) : Act SocketSt unit :=
  match ls with
  | [] => mret tt
  | l :: ls =>
      t ← on_sworld instant_now;
      _ ← on_sworld (arc_update l (fun p => p <| p_time_sent := ai_now t |>));
      stamp_all ls
  end.

(** What the UDP socket does in one poll: [as_slices().0] of the ring buffer is
    its first [ss_slice] elements, and [poll_send] of them answers [ss_answer]. *)
Record SendScript := mk_SendScript {
  ss_slice : nat;
  ss_answer : list Transmit -> poll (result Z io_error);
}.

(** One iteration of the outer [loop] of [poll_transmit]; it is left in its
    first iteration, because [iters > 0] holds there.  That the operating system
    took the first [n] transmits is recorded in [w_sent]. *)
Definition transmit_iter (ss : SendScript) : Act SocketSt (flow (result bool io_error)) :=
  evs ← on_sworld (gets w_tx);
  send_rx_pending ← fill_loop (length evs);
  q ← sself k_outgoing_transmits;
  match q with
  | [] => mret (Break (Ok false))
  | _ =>
      match ss_answer ss (take (ss_slice ss) q) with
      | Pending => mret (Break (Ok false))
      | Ready (Err err) =>
          if decide (ioe_kind err = Interrupted) then
            now ← on_sworld instant_now;
            _ ← set_sock (fun s => s <| k_send_overflow_timer := Some (now + from_millis 20) |>);
            mret (Break (Ok false))
          else mret (Break (Err err))
      | Ready (Ok n) =>
          drained ← lift (slice q 0 n);
          rest ← lift (slice q n (len q));
          _ ← on_sworld (modify (fun w => w <| w_sent ::= fun l => l ++ drained |>));
          _ ← set_sock (fun s => s <| k_outgoing_transmits := rest |>);
          _ ← track_all drained;
          sets ← sself k_outgoing_packet_sets;
          let m := Z.min n (len sets) in
          sent ← lift (slice sets 0 m);
          rest ← lift (slice sets m (len sets));
          _ ← set_sock (fun s => s <| k_outgoing_packet_sets := rest |>);
          _ ← stamp_all (concat (map iter_shared sent));
          if (send_rx_pending : bool) then mret (Break (Ok false)) else mret (Break (Ok true))
      end
  end.

Definition socket_poll_transmit (ss : SendScript) : Act SocketSt (result bool io_error) :=
  loop 1 (transmit_iter ss).

(** ** Receiving *)

Definition on_recv_dgram (data : list byte) (meta : RecvMeta) : Act SocketSt unit :=
  q ← sself k_recv_dgrams;
  if len q <? RECV_QUEUE_MAX_LEN then
    _ ← set_sock (fun s => s <| k_recv_dgrams := q ++ [Dgram_new (m_addr meta) data] |>);
    w ← sself k_recv_waker;
    _ ← set_sock (fun s => s <| k_recv_waker := None |>);
    on_sworld (wake w)
  else mret tt.

(** [Sender::send]: fails when the receiver was dropped. *)
Definition chan_send (c : nat) (ev : EventIncoming) : Act SocketSt bool :=
  cs ← gets chans;
  match cs !! c with
  | Some ch =>
      if ch_rx_alive ch then
        _ ← modify (fun st => st <| chans ::= alter (fun ch => ch <| ch_queue ::= fun q => q ++ [ev] |>) c |>);
        mret true
      else mret false
  | None => mret false
  end.

(** [local_addr().unwrap()] at the start asks the bound UDP socket for its own
    address, for the log only; that a bound socket has one is taken for granted. *)
Definition process_packet (data : list byte) (meta : RecvMeta) : Act SocketSt (result unit (list byte)) :=
  s ← sself k_stats;
  a ← lift (usize_add (so_rx_bytes s) (len data));
  _ ← upd_stats (fun s => s <| so_rx_bytes := a |>);
  b ← lift (usize_add (so_rx_dgrams s) 1);
  _ ← upd_stats (fun s => s <| so_rx_dgrams := b |>);
  r ← lift (from_bytes data);
  match r with
  | Err _ => mret (Err data)
  | Ok header =>
      let stream_id := h_stream_id header in
      m ← sself k_streams;
      match m !! stream_id with
      | Some handle =>
          buf ← lift (slice data UDX_HEADER_SIZE (len data));
          let incoming := mk_IncomingPacket header buf 0 (m_addr meta) in
          ok ← chan_send (recv_tx handle) (EvPacket incoming);
          _ ← (if (ok : bool) then mret tt else remove_stream stream_id);
          mret (Ok tt)
      | None => mret (Err data)
      end
  end.

(** One received message: its meta data and the content of its I/O vector. *)
Record RecvMsg := mk_RecvMsg {
  rm_meta : RecvMeta;
  rm_iov : list byte;
}.

Definition receive_one (m : RecvMsg) : Act SocketSt unit :=
  data ← lift (slice (rm_iov m) 0 (m_len (rm_meta m)));
  r ← process_packet data (rm_meta m);
  match r with
  | Ok _ => mret tt
  | Err data => on_recv_dgram data (rm_meta m)
  end.

Fixpoint receive_all (ms : list RecvMsg) : Act SocketSt unit :=
  match ms with
  | [] => mret tt
  | m :: ms => _ ← receive_one m; receive_all ms
  end.

(** What [poll_recv] of the UDP socket answers: a batch of messages for each
    call, then an error or [Pending]. *)
Record RecvBatches := mk_RecvBatches {
  rb_batches : list (list RecvMsg);
  rb_error : option io_error;
}.

(** The loop of [poll_recv] with [iters] iterations behind it. *)
Fixpoint recv_batches (iters : Z) (batches : list (list RecvMsg)) (error : option io_error)
  : Act SocketSt (result bool io_error) :=
  if iters + 1 =? MAX_LOOP then mret (Ok true) else
  match batches with
  | msgs :: rest =>
      _ ← receive_all (take (Z.to_nat BATCH_SIZE) msgs);
      recv_batches (iters + 1) rest error
  | [] => mret (match error with Some e => Err e | None => Ok false end)
  end.

(** The lengths of the pieces that [chunks_mut(size)] cuts [total] bytes into. *)
Fixpoint chunk_lens (fuel : nat) (size total : Z) : list Z :=
  match fuel with
  | O => []
  | Datatypes.S fuel =>
      if total <=? 0 then [] else Z.min size total :: chunk_lens fuel size (total - size)
  end.

(** [iovectors_from_buf::<N>]: the lengths of the I/O vectors it writes.  The
    array has room for [n] of them; more would be written out of bounds, fewer
    would leave some uninitialised. *)
Definition iovectors_from_buf (n buf_len : Z) : outcome (list Z) :=
  size ← usize_div buf_len n;
  if size =? 0 then Panic AssertionFailed
  else Ret (chunk_lens (Z.to_nat (buf_len / size + 1)) size buf_len).

Definition socket_poll_recv (rx : RecvBatches) : Act SocketSt (result bool io_error) :=
  buf ← sself k_recv_buf;
  recv_buf ← lift (unwrap buf);
  _ ← set_sock (fun s => s <| k_recv_buf := None |>);
  _ ← lift (iovectors_from_buf BATCH_SIZE recv_buf);
  res ← recv_batches 0 (rb_batches rx) (rb_error rx);
  _ ← set_sock (fun s => s <| k_recv_buf := Some recv_buf |>);
  mret res.

(** ** The socket driver *)

(** [SocketDriver::poll]; [timer_ready] answers the poll of the overflow timer. *)
Definition socket_driver_poll (cx : Waker) (rx : RecvBatches) (timer_ready : bool) (ss : SendScript)
  : Act SocketSt (poll (result unit io_error)) :=
  r ← socket_poll_recv rx;
  match r with
  | Err e => mret (Ready (Err e))
  | Ok c1 =>
      timer ← sself k_send_overflow_timer;
      r ← (match timer with
           | Some _ =>
               if timer_ready then
                 _ ← set_sock (fun s => s <| k_send_overflow_timer := None |>);
                 mret (Ok true)
               else mret (Ok false)
           | None => socket_poll_transmit ss
           end);
      match r with
      | Err e => mret (Ready (Err e))
      | Ok c2 =>
          let should_continue := c1 || c2 in
          has_refs ← sself k_has_refs;
          streams ← sself k_streams;
          if negb should_continue && negb has_refs && bool_decide (streams = ∅) then
            mret (Ready (Ok tt))
          else
            _ ← (if should_continue then on_sworld (wake (Some cx))
                 else set_sock (fun s => s <| k_drive_waker := Some cx |>));
            mret Pending
      end
  end.

End socket.
