(* ===== verification/SocketSpec.v ===== *)
(** What the socket guarantees: routing of received datagrams, the order of
    transmissions, and the life cycle of its driver. *)

From S2P Require Import Prelude Constants Errors UdpProto Packet Runtime Stream Socket.

Local Open Scope Z_scope.

Section lemmas.
Context `{P : Profile} {AI : AtomicInstant}.
Implicit Types (st : SocketSt).

Lemma wp_on_sworld {A} (m : Act World A) (Q : A -> SocketSt -> Prop) st :
  wp m (fun a w => Q a (st <| sworld := w |>)) (sworld st) -> wp (on_sworld m) Q st.
Proof. unfold wp, on_sworld. by destruct (m (sworld st)) as [[a w]| |]. Qed.

Lemma wp_sself {A} (f : UdxSocketInner -> A) (Q : A -> SocketSt -> Prop) st :
  Q (f (sock st)) st -> wp (sself f) Q st.
Proof. done. Qed.

Lemma wp_set_sock f (Q : unit -> SocketSt -> Prop) st :
  Q tt (st <| sock ::= f |>) -> wp (set_sock f) Q st.
Proof. done. Qed.

Lemma wp_upd_stats f (Q : unit -> SocketSt -> Prop) st :
  Q tt (st <| sock ::= fun s => s <| k_stats ::= f |> |>) -> wp (upd_stats f) Q st.
Proof. done. Qed.

Lemma wp_sworld_gets {A} (f : World -> A) (Q : A -> SocketSt -> Prop) st :
  Q (f (sworld st)) st -> wp (on_sworld (gets f)) Q st.
Proof. intros HQ. apply wp_on_sworld, wp_gets. by destruct st. Qed.

Lemma wp_wake_sock o (Q : unit -> SocketSt -> Prop) st :
  Q tt (st <| sworld ::= fun w => w <| w_woken ::= fun l => l ++ option_list o |> |>) ->
  wp (on_sworld (wake o)) Q st.
Proof.
  intros HQ. apply wp_on_sworld. destruct o; [done|]. unfold wp. cbn in *.
  rewrite app_nil_r in HQ. by destruct st as [? ? []].
Qed.

Lemma wp_now_sock (Q : Z -> SocketSt -> Prop) st :
  Q (w_clock (sworld st) (w_ticks (sworld st))) (st <| sworld ::= fun w => w <| w_ticks ::= Datatypes.S |> |>) ->
  wp (on_sworld instant_now) Q st.
Proof. done. Qed.

End lemmas.

(** Runs the straight-line part of a socket method. *)
Ltac so_step :=
  lazymatch goal with
  | |- wp (sself _) _ _ => apply wp_sself
  | |- wp (set_sock _) _ _ => apply wp_set_sock
  | |- wp (upd_stats _) _ _ => apply wp_upd_stats
  | |- wp (on_sworld (wake _)) _ _ => apply wp_wake_sock
  | |- wp (on_sworld instant_now) _ _ => apply wp_now_sock
  | |- wp (on_sworld (gets _)) _ _ => apply wp_sworld_gets
  | |- wp (lift (Ret _)) _ _ => eapply wp_lift; [reflexivity|]
  | _ => wp_step
  end.
Ltac so_run := repeat (so_step; cbv beta).
Ltac so_fits :=
  eapply wp_lift; [ apply usize_add_fits; cbn in *; unfold usize_modulus in *; lia | ].

Section spec.
Context `{P : Profile} {AI : AtomicInstant}.
Implicit Types (st : SocketSt).

(** ** Receiving *)

(** The counters can take [n] more datagrams with [b] bytes. *)
Record RxRoom (n b : Z) st : Prop := {
  rx_room_bytes : 0 <= so_rx_bytes (k_stats (sock st)) /\
    so_rx_bytes (k_stats (sock st)) + b < usize_modulus;
  rx_room_dgrams : 0 <= so_rx_dgrams (k_stats (sock st)) /\
    so_rx_dgrams (k_stats (sock st)) + n < usize_modulus;
}.

(** The state after the statistics have counted a datagram of [n] bytes. *)
Definition counted (n : Z) (st : SocketSt) : SocketSt :=
  st <| sock ::= fun s => s <| k_stats ::= fun t =>
    t <| so_rx_bytes ::= fun k => k + n |> <| so_rx_dgrams ::= fun k => k + 1 |> |> |>.

(** Appending an event to channel [c]. *)
Definition chan_push (c : nat) (ev : EventIncoming) (st : SocketSt) : SocketSt :=
  st <| chans ::= alter (fun ch => ch <| ch_queue ::= fun q => q ++ [ev] |>) c |>.

Definition stream_removed (id : Z) (c : nat) (st : SocketSt) : SocketSt :=
  st <| sock ::= fun s => s <| k_streams ::= delete id |> |>
     <| chans ::= alter (fun ch => ch <| ch_tx_alive := false |>) c |>.

(** Where a datagram goes. *)
Definition routed (data : list byte) (meta : RecvMeta) (st : SocketSt)
    (r : result unit (list byte)) (st' : SocketSt) : Prop :=
  match from_bytes data with
  | Ret (Ok header) =>
      match k_streams (sock st) !! h_stream_id header with
      | Some handle =>
          r = Ok tt /\
          match chans st !! recv_tx handle with
          | Some ch =>
              if ch_rx_alive ch
              then st' = chan_push (recv_tx handle)
                     (EvPacket (mk_IncomingPacket header (drop 20 data) 0 (m_addr meta)))
                     (counted (len data) st)
              else st' = stream_removed (h_stream_id header) (recv_tx handle) (counted (len data) st)
          | None => st' = stream_removed (h_stream_id header) (recv_tx handle) (counted (len data) st)
          end
      | None => r = Err data /\ st' = counted (len data) st
      end
  | _ => r = Err data /\ st' = counted (len data) st
  end.

Lemma remove_stream_wp id h (Q : unit -> SocketSt -> Prop) st :
  k_streams (sock st) !! id = Some h -> Q tt (stream_removed id (recv_tx h) st) ->
  wp (remove_stream id) Q st.
Proof. intros Hh HQ. unfold remove_stream. so_run. rewrite Hh. cbn [drop_handle]. so_run. exact HQ. Qed.

Lemma process_packet_wp data meta st :
  RxRoom 1 (len data) st -> wp (process_packet data meta) (routed data meta st) st.
Proof.
  intros [Hb Hd]. pose proof (len_nonneg data). unfold process_packet, routed.
  so_run. so_fits. so_run. so_fits. so_run.
  match goal with |- wp _ _ ?x => change x with (counted (len data) st) end.
  destruct (from_bytes_cases data) as [(h & rest & Hw & Ed)|Er].
  2:{ eapply wp_lift; [exact Er|]. rewrite Er. so_run. done. }
  assert (from_bytes data = Ret (Ok h)) as Er by (rewrite Ed; by apply from_bytes_header_bytes).
  assert (slice data UDX_HEADER_SIZE (len data) = Ret (drop 20 data)) as Esl.
  { assert (UDX_HEADER_SIZE <= len data)
      by (rewrite Ed, len_app, len_header_bytes; pose proof (len_nonneg rest); lia).
    rewrite slice_fits by (unfold UDX_HEADER_SIZE in *; lia).
    rewrite take_ge; [done|]. rewrite length_drop. unfold len, UDX_HEADER_SIZE. lia. }
  eapply wp_lift; [exact Er|]. rewrite Er. so_run. change (k_streams (sock (counted _ st))) with
    (k_streams (sock st)).
  destruct (k_streams (sock st) !! h_stream_id h) as [handle|] eqn:Eh; [|by so_run].
  so_run. eapply wp_lift; [exact Esl|]. unfold chan_send. so_run.
  change (chans (counted _ st)) with (chans st).
  destruct (chans st !! recv_tx handle) as [ch|]; [destruct (ch_rx_alive ch)|].
  - so_run. done.
  - so_run. eapply remove_stream_wp; [exact Eh|]. by so_run.
  - so_run. eapply remove_stream_wp; [exact Eh|]. by so_run.
Qed.

(** The queue of datagrams for [recv] is bounded. *)
Definition queue_bounded st : Prop := len (k_recv_dgrams (sock st)) <= RECV_QUEUE_MAX_LEN.

(** Handing a datagram to the application, or dropping it when the queue is full. *)
Definition surfaced (data : list byte) (meta : RecvMeta) (st : SocketSt) : SocketSt :=
  if len (k_recv_dgrams (sock st)) <? RECV_QUEUE_MAX_LEN then
    st <| sock ::= fun s => s <| k_recv_dgrams ::= fun q => q ++ [Dgram_new (m_addr meta) data] |>
                              <| k_recv_waker := None |> |>
       <| sworld ::= fun w => w <| w_woken ::= fun l => l ++ option_list (k_recv_waker (sock st)) |> |>
  else st.

Lemma on_recv_dgram_wp data meta st :
  wp (on_recv_dgram data meta) (fun _ st' => st' = surfaced data meta st) st.
Proof. unfold on_recv_dgram, surfaced. so_run; done. Qed.

(** A message that [recvmmsg] can produce for one I/O vector. *)
Definition msg_ok (m : RecvMsg) : Prop :=
  len (rm_iov m) = UDX_MTU /\ 0 <= m_len (rm_meta m) <= UDX_MTU.

Definition msg_data (m : RecvMsg) : list byte := take (Z.to_nat (m_len (rm_meta m))) (rm_iov m).

(** What receiving leaves alone, and what it keeps. *)
Record received (n b : Z) (st st' : SocketSt) : Prop := {
  rv_room : forall n' b', RxRoom (n + n') (b + b') st -> RxRoom n' b' st';
  rv_bounded : queue_bounded st -> queue_bounded st';
  rv_transmits : k_outgoing_transmits (sock st') = k_outgoing_transmits (sock st) /\
    k_outgoing_packet_sets (sock st') = k_outgoing_packet_sets (sock st);
  rv_streams : k_streams (sock st') ⊆ k_streams (sock st);
  rv_recv_buf : k_recv_buf (sock st') = k_recv_buf (sock st);
  rv_world : w_store (sworld st') = w_store (sworld st) /\ w_tx (sworld st') = w_tx (sworld st);
  rv_control : k_has_refs (sock st') = k_has_refs (sock st) /\
    k_send_overflow_timer (sock st') = k_send_overflow_timer (sock st);
  rv_stats : exists a b', k_stats (sock st') =
    (k_stats (sock st)) <| so_rx_bytes := a |> <| so_rx_dgrams := b' |>;
}.

Lemma received_stats_same st st' :
  k_stats (sock st') = k_stats (sock st) -> exists a b, k_stats (sock st') =
    (k_stats (sock st)) <| so_rx_bytes := a |> <| so_rx_dgrams := b |>.
Proof.
  intros ->. exists (so_rx_bytes (k_stats (sock st))), (so_rx_dgrams (k_stats (sock st))).
  by destruct (k_stats (sock st)).
Qed.

Lemma received_refl st : received 0 0 st st.
Proof. split; try done. by apply received_stats_same. Qed.

Lemma received_trans n b n' b' s1 s2 s3 :
  received n b s1 s2 -> received n' b' s2 s3 -> received (n + n') (b + b') s1 s3.
Proof.
  intros R1 R2. destruct (rv_stats _ _ _ _ R1) as (a1 & b1 & E1), (rv_stats _ _ _ _ R2) as (a2 & b2 & E2).
  destruct R1, R2. destruct_and!. split; try (split_and?; congruence).
  - intros m c. rewrite <- !Z.add_assoc. eauto.
  - auto.
  - by transitivity (k_streams (sock s2)).
  - exists a2, b2. rewrite E2, E1. by destruct (k_stats (sock s1)).
Qed.

Lemma counted_received n st : 0 <= n -> received 1 n st (counted n st).
Proof.
  intros Hn. split; try done; [intros n' b' [[] []]; split; cbn; lia|]. by eexists _, _.
Qed.

Lemma routed_received data meta st r st' :
  routed data meta st r st' -> received 1 (len data) st st'.
Proof.
  intros Hr. pose proof (counted_received (len data) st (len_nonneg data)) as Hc.
  assert (forall id c, received 0 0 (counted (len data) st) (stream_removed id c (counted (len data) st)))
    as Hrm.
  { intros id c. split; try done; [intros ? ? []; by split|cbn; apply delete_subseteq|].
    by apply received_stats_same. }
  assert (forall c ev, received 0 0 (counted (len data) st) (chan_push c ev (counted (len data) st)))
    as Hpush.
  { intros c ev. split; try done; [intros ? ? []; by split|]. by apply received_stats_same. }
  assert (forall s, received 0 0 (counted (len data) st) s -> received 1 (len data) st s) as Hgo.
  { intros s Hs. pose proof (received_trans _ _ _ _ _ _ _ Hc Hs) as Ht.
    by rewrite !Z.add_0_r in Ht. }
  unfold routed in Hr. destruct (from_bytes data) as [[h|]| |]; try (by destruct Hr as [_ ->]).
  destruct (k_streams (sock st) !! h_stream_id h) as [handle|]; [|by destruct Hr as [_ ->]].
  destruct Hr as [_ Hr]. destruct (chans st !! recv_tx handle) as [ch|]; [destruct (ch_rx_alive ch)|];
    subst; auto.
Qed.

Lemma surfaced_received data meta st : received 0 0 st (surfaced data meta st).
Proof.
  unfold surfaced. destruct (_ <? _) eqn:E; [|apply received_refl]. b2p.
  split; try done; [intros ? ? []; by split| |by apply received_stats_same].
  unfold queue_bounded. cbn. rewrite len_app. change (len [_]) with 1. lia.
Qed.

(** A packet that a message of [ms] brings to channel [c]. *)
Definition comes_from (streams : gmap Z StreamHandle) (ms : list RecvMsg) (c : nat)
    (p : IncomingPacket) : Prop :=
  exists m h handle, m ∈ ms /\ from_bytes (msg_data m) = Ret (Ok h) /\
    streams !! h_stream_id h = Some handle /\ recv_tx handle = c /\
    p = mk_IncomingPacket h (drop 20 (msg_data m)) 0 (m_addr (rm_meta m)).

(** What the messages [ms] do to the channels: each grows by packets that come
    from them; of the world only the wakers are touched. *)
Record delivered (ms : list RecvMsg) (st st' : SocketSt) : Prop := {
  dv_chans : forall c ch', chans st' !! c = Some ch' -> exists ch q, chans st !! c = Some ch /\
    ch_queue ch' = ch_queue ch ++ map EvPacket q /\ ch_rx_alive ch' = ch_rx_alive ch /\
    Forall (comes_from (k_streams (sock st)) ms c) q;
  dv_length : length (chans st') = length (chans st);
  dv_streams : k_streams (sock st') ⊆ k_streams (sock st);
  dv_world : sworld st' = (sworld st) <| w_woken := w_woken (sworld st') |>;
  dv_recv_buf : k_recv_buf (sock st') = k_recv_buf (sock st);
  dv_transmits : k_outgoing_transmits (sock st') = k_outgoing_transmits (sock st);
}.

Lemma comes_from_mono streams streams' ms ms' c p :
  streams' ⊆ streams -> ms' ⊆ ms -> comes_from streams' ms' c p -> comes_from streams ms c p.
Proof.
  intros Hs Hm (m & h & handle & Hin & Hh & Hl & Hc & Hp). exists m, h, handle.
  split_and!; try done; [by apply Hm|by eapply lookup_weaken].
Qed.

Lemma delivered_trans ms1 ms2 s1 s2 s3 :
  delivered ms1 s1 s2 -> delivered ms2 s2 s3 -> delivered (ms1 ++ ms2) s1 s3.
Proof.
  intros D1 D2. split.
  - intros c ch3 H3. destruct (dv_chans _ _ _ D2 c ch3 H3) as (ch2 & q2 & H2 & Eq2 & Er2 & F2).
    destruct (dv_chans _ _ _ D1 c ch2 H2) as (ch1 & q1 & H1 & Eq1 & Er1 & F1).
    exists ch1, (q1 ++ q2). split; [done|]. rewrite map_app, Eq2, Eq1, app_assoc.
    split_and!; [done|congruence|]. apply Forall_app. split; eapply Forall_impl; eauto; intros p;
      apply comes_from_mono; try done; try apply D1; set_solver.
  - destruct D1, D2. congruence.
  - destruct D1, D2. by transitivity (k_streams (sock s2)).
  - rewrite (dv_world _ _ _ D2), (dv_world _ _ _ D1). by destruct (sworld s1).
  - destruct D1, D2. congruence.
  - destruct D1, D2. congruence.
Qed.

Lemma delivered_more ms ms' st st' : ms ⊆ ms' -> delivered ms st st' -> delivered ms' st st'.
Proof.
  intros Hm []. split; try done. intros c ch' Hc.
  destruct (dv_chans0 c ch' Hc) as (ch & q & ? & ? & ? & Hq). exists ch, q. split_and!; try done.
  eapply Forall_impl; [exact Hq|]. intros p. by apply comes_from_mono.
Qed.

(** Changes that leave the queues alone. *)
Definition same_queues (cs cs' : list Chan) : Prop :=
  length cs' = length cs /\ forall c ch', cs' !! c = Some ch' ->
    exists ch, cs !! c = Some ch /\ ch_queue ch' = ch_queue ch /\ ch_rx_alive ch' = ch_rx_alive ch.

#[export] Instance same_queues_preorder : PreOrder same_queues.
Proof.
  split; [intros cs; split; [done|]; eauto|].
  intros c1 c2 c3 [L1 H1] [L2 H2]. split; [congruence|]. intros c ch3 Hc3.
  destruct (H2 c ch3 Hc3) as (ch2 & Hc2 & E2 & R2). destruct (H1 c ch2 Hc2) as (ch1 & Hc1 & E1 & R1).
  exists ch1. split_and!; congruence.
Qed.

Lemma same_queues_close cs c :
  same_queues cs (alter (fun ch => ch <| ch_tx_alive := false |>) c cs).
Proof.
  split; [apply length_alter|]. intros c' ch'. destruct (decide (c' = c)) as [->|Hne].
  - rewrite list_lookup_alter_eq. destruct (cs !! c) as [ch|] eqn:E; [|done]. cbn.
    intros [= <-]. by exists ch.
  - rewrite list_lookup_alter_ne by done. eauto.
Qed.

Lemma delivered_quiet ms st st' :
  same_queues (chans st) (chans st') -> k_streams (sock st') ⊆ k_streams (sock st) ->
  sworld st' = (sworld st) <| w_woken := w_woken (sworld st') |> ->
  k_recv_buf (sock st') = k_recv_buf (sock st) ->
  k_outgoing_transmits (sock st') = k_outgoing_transmits (sock st) -> delivered ms st st'.
Proof.
  intros [Hl Hq] Hs Hw Ha Ht. split; try done. intros c ch' Hc. destruct (Hq c ch' Hc) as (ch & ? & ? & ?).
  exists ch, []. rewrite app_nil_r. by split_and!.
Qed.

Lemma sworld_woken_same (w : World) : w = w <| w_woken := w_woken w |>.
Proof. by destruct w. Qed.

Lemma surfaced_delivered data meta ms st : delivered ms st (surfaced data meta st).
Proof.
  unfold surfaced. destruct (_ <? _); apply delivered_quiet; try done. apply sworld_woken_same.
Qed.

Lemma routed_delivered m st r st' :
  routed (msg_data m) (rm_meta m) st r st' -> delivered [m] st st'.
Proof.
  intros Hr. unfold routed in Hr.
  assert (delivered [m] st (counted (len (msg_data m)) st)) as Hc
    by (apply delivered_quiet; try done; apply sworld_woken_same).
  destruct (from_bytes (msg_data m)) as [[h|]| |] eqn:Eh; try (by destruct Hr as [_ ->]).
  destruct (k_streams (sock st) !! h_stream_id h) as [handle|] eqn:Es; [|by destruct Hr as [_ ->]].
  destruct Hr as [_ Hr].
  assert (delivered [m] st (stream_removed (h_stream_id h) (recv_tx handle)
    (counted (len (msg_data m)) st))) as Hrm.
  { apply delivered_quiet; try done; [apply same_queues_close|cbn; apply delete_subseteq|].
    apply sworld_woken_same. }
  destruct (chans st !! recv_tx handle) as [ch|] eqn:Ec; [destruct (ch_rx_alive ch)|]; subst st'; try done.
  split; try done; cbn; [|apply length_alter|apply sworld_woken_same].
  intros c ch'. destruct (decide (c = recv_tx handle)) as [->|Hne].
  - rewrite list_lookup_alter_eq, Ec. cbn. intros [= <-]. eexists ch, [_]. cbn.
    split_and!; try done. constructor; [|constructor]. exists m, h, handle.
    split_and!; try done. set_solver.
  - rewrite list_lookup_alter_ne by done. intros Hc'. exists ch', []. rewrite app_nil_r. by split_and!.
Qed.

(** One message: routed to its stream, or handed to the application. *)
Lemma receive_one_wp m st :
  msg_ok m -> RxRoom 1 UDX_MTU st ->
  wp (receive_one m) (fun _ st' => received 1 UDX_MTU st st' /\ delivered [m] st st') st.
Proof.
  intros [Hiov Hlen] HR. unfold receive_one. apply wp_bind.
  eapply wp_lift; [apply slice_fits; lia|]. rewrite Z.sub_0_r.
  change (drop (Z.to_nat 0) (rm_iov m)) with (rm_iov m). fold (msg_data m).
  assert (0 <= len (msg_data m) <= UDX_MTU) as Hd
    by (unfold msg_data; rewrite len_take; unfold UDX_MTU in *; lia).
  apply wp_bind. eapply wp_mono; [apply process_packet_wp; destruct HR; split; lia|].
  intros r st1 Hr. pose proof (routed_received _ _ _ _ _ Hr) as Hrec.
  assert (forall s, received 0 0 st1 s -> received 1 UDX_MTU st s) as Hgo.
  { intros s Hs. pose proof (received_trans _ _ _ _ _ _ _ Hrec Hs) as Ht.
    rewrite !Z.add_0_r in Ht. destruct Ht. split; try done.
    intros n' b' [[] []]. apply rv_room0. split; lia. }
  destruct r as [[]|data].
  - apply wp_ret. split; [apply Hgo, received_refl|]. by eapply routed_delivered.
  - eapply wp_mono; [apply on_recv_dgram_wp|]. intros [] st' ->.
    split; [apply Hgo, surfaced_received|]. apply (delivered_trans [m] [] st st1).
    + by eapply routed_delivered.
    + apply surfaced_delivered.
Qed.

Lemma receive_all_wp ms st :
  Forall msg_ok ms -> RxRoom (len ms) (UDX_MTU * len ms) st ->
  wp (receive_all ms) (fun _ st' => received (len ms) (UDX_MTU * len ms) st st' /\
    delivered ms st st') st.
Proof.
  intros Hms. revert st. induction Hms as [|m ms Hm _ IH]; intros st HR; cbn [receive_all].
  { apply wp_ret. split; [apply received_refl|]. apply delivered_quiet; try done.
    apply sworld_woken_same. }
  rewrite len_cons in *. pose proof (len_nonneg ms).
  apply wp_bind. eapply wp_mono.
  { apply receive_one_wp; [done|]. destruct HR as [[] []]; split; unfold UDX_MTU in *; lia. }
  intros [] st1 [R1 D1]. eapply wp_mono.
  { apply IH. apply R1. destruct HR as [[] []]; split; unfold UDX_MTU in *; lia. }
  intros [] st2 [R2 D2]. pose proof (received_trans _ _ _ _ _ _ _ R1 R2) as Ht.
  split; [|by eapply (delivered_trans [m])].
  by replace (UDX_MTU * (1 + len ms)) with (UDX_MTU + UDX_MTU * len ms) by lia.
Qed.

(** ** The receive loop *)

Lemma recv_batches_wp batches error iters st :
  0 <= iters < MAX_LOOP -> Forall (Forall msg_ok) batches ->
  RxRoom (BATCH_SIZE * (MAX_LOOP - iters)) (UDX_MTU * BATCH_SIZE * (MAX_LOOP - iters)) st ->
  wp (recv_batches iters batches error) (fun r st' =>
    (exists n b, received n b st st' /\ n <= BATCH_SIZE * (MAX_LOOP - iters) /\
      b <= UDX_MTU * BATCH_SIZE * (MAX_LOOP - iters)) /\ delivered (concat batches) st st' /\
    r = if iters + len batches >=? MAX_LOOP - 1 then Ok true
        else match error with Some e => Err e | None => Ok false end) st.
Proof.
  assert (forall i (s : SocketSt), 0 <= i < MAX_LOOP -> exists n b, received n b s s /\
    n <= BATCH_SIZE * (MAX_LOOP - i) /\ b <= UDX_MTU * BATCH_SIZE * (MAX_LOOP - i)) as Hno.
  { intros i s Hi. exists 0, 0. split; [apply received_refl|]. batch_lia. }
  intros Hi Hms. revert iters st Hi. induction Hms as [|ms batches Hm Hms IH]; intros iters st Hi HR;
    cbn [recv_batches]; rewrite Z.geb_leb; destruct (Z.eqb_spec (iters + 1) MAX_LOOP) as [E|E].
  1,3: apply wp_ret; split; [by apply Hno|];
    (split; [apply delivered_quiet; try done; apply sworld_woken_same|]);
    match goal with |- context [_ + len ?l] => pose proof (len_nonneg l) end;
    rewrite (proj2 (Z.leb_le _ _)) by lia; done.
  - apply wp_ret. split; [by apply Hno|].
    split; [apply delivered_quiet; try done; apply sworld_woken_same|]. change (len []) with 0.
    rewrite (proj2 (Z.leb_gt _ _)) by lia. done.
  - set (part := take (Z.to_nat BATCH_SIZE) ms).
    assert (0 <= len part <= BATCH_SIZE) as Hp.
    { unfold part. pose proof (len_nonneg ms). rewrite len_take by batch_lia. batch_lia. }
    apply wp_bind. eapply wp_mono.
    { apply receive_all_wp; [by apply Forall_take|].
      destruct HR as [[] []]. split; batch_lia. }
    intros [] st1 [R1 D1]. eapply wp_mono.
    { apply (IH (iters + 1) st1); [unfold MAX_LOOP in *; lia|].
      apply R1. destruct HR as [[] []]. split; batch_lia. }
    intros r st2 ((n & b & R2 & Hn & Hb) & D2 & ->). split.
    { eexists _, _. split; [by eapply received_trans|]. batch_lia. }
    split.
    { cbn [concat]. eapply delivered_trans; [|exact D2]. eapply delivered_more; [|exact D1].
      intros x Hx. rewrite <- (take_drop (Z.to_nat BATCH_SIZE) ms). apply elem_of_app. by left. }
    rewrite len_cons, Z.geb_leb. by replace (iters + 1 + len batches) with (iters + (1 + len batches)) by lia.
Qed.

(** ** Sending *)

(** A transmit that the statistics can count. *)
Definition transmit_ok (t : Transmit) : Prop :=
  match t_segment_size t with Some sz => 0 < sz | None => True end.

Definition tx_cost (t : Transmit) : Z := len (t_contents t) + 1.

Definition tx_total (ts : list Transmit) : Z := fold_right (fun t acc => tx_cost t + acc) 0 ts.

(** The sending statistics can take [c] more. *)
Definition TxRoom (c : Z) (t : SocketStats) : Prop :=
  (0 <= so_tx_bytes t /\ so_tx_bytes t + c < usize_modulus) /\
  (0 <= so_tx_transmits t /\ so_tx_transmits t + c < usize_modulus) /\
  (0 <= so_tx_dgrams t /\ so_tx_dgrams t + c < usize_modulus) /\
  (0 <= so_tx_window_bytes t /\ so_tx_window_bytes t + c < usize_modulus) /\
  (0 <= so_tx_window_dgrams t /\ so_tx_window_dgrams t + c < usize_modulus).

(** Only the statistics and the number of clock readings differ. *)
Definition only_stats (st st' : SocketSt) : Prop :=
  st' = st <| sock ::= fun s => s <| k_stats := k_stats (sock st') |> |>
           <| sworld ::= fun w => w <| w_ticks := w_ticks (sworld st') |> |>.

#[export] Instance only_stats_preorder : PreOrder only_stats.
Proof.
  split.
  - intros [[] ? []]. done.
  - unfold only_stats. intros s1 s2 s3 E1 E2. rewrite E2, E1. by destruct s1 as [[] ? []].
Qed.

Lemma num_segments_range t :
  transmit_ok t -> exists n, num_segments t = Ret n /\ 0 <= n <= tx_cost t.
Proof.
  intros Ht. unfold num_segments, transmit_ok, tx_cost in *. pose proof (len_nonneg (t_contents t)).
  destruct (t_segment_size t) as [sz|]; [|exists 1; split; [done|lia]].
  unfold usize_div. rewrite (proj2 (Z.eqb_neq _ _)) by lia. eexists. split; [done|].
  split; [apply Z.div_pos; lia|].
  transitivity (len (t_contents t)); [apply Z.div_le_upper_bound; nia|lia].
Qed.

(** The statistics after transmits of cost [d] were counted: the receiving ones
    are as before, and the sending ones have [d] less room. *)
Definition tx_counted (d : Z) (t t' : SocketStats) : Prop :=
  so_rx_bytes t' = so_rx_bytes t /\ so_rx_dgrams t' = so_rx_dgrams t /\
  (forall c : Z, 0 <= c -> TxRoom (d + c) t -> TxRoom c t').

Lemma tx_counted_trans d d' t t' t'' :
  0 <= d' -> tx_counted d t t' -> tx_counted d' t' t'' -> tx_counted (d + d') t t''.
Proof.
  intros Hd (E1 & E2 & H1) (E3 & E4 & H2). split_and!; [congruence..|].
  intros c Hc HR. apply H2; [done|]. apply H1; [lia|]. by rewrite Z.add_assoc.
Qed.

Lemma tx_total_nonneg ts : 0 <= tx_total ts.
Proof.
  induction ts as [|t ts IH]; cbn; [lia|]. unfold tx_total, tx_cost in *.
  pose proof (len_nonneg (t_contents t)). lia.
Qed.

Lemma tx_total_app a b : tx_total (a ++ b) = tx_total a + tx_total b.
Proof. induction a as [|t a IH]; [done|]. unfold tx_total in *. cbn. lia. Qed.

Lemma TxRoom_weaken c c' t : c' <= c -> TxRoom c t -> TxRoom c' t.
Proof. unfold TxRoom. lia. Qed.

Lemma track_tx_wp t st :
  transmit_ok t -> TxRoom (tx_cost t) (k_stats (sock st)) ->
  wp (track_tx t) (fun _ st' => only_stats st st' /\
    tx_counted (tx_cost t) (k_stats (sock st)) (k_stats (sock st'))) st.
Proof.
  intros Ht HR. destruct (num_segments_range t Ht) as (n & En & Hn).
  pose proof (len_nonneg (t_contents t)). unfold tx_cost in *. destruct_and!.
  unfold TxRoom in HR. destruct_and!. unfold track_tx.
  so_run. so_fits. so_run. so_fits. so_run. eapply wp_lift; [exact En|]. so_run. so_fits. so_run.
  so_fits. so_run. so_fits. so_run.
  all: cbn; rewrite ?E; try (eapply wp_lift; [reflexivity|]); so_run;
    (split; [by destruct st as [[] ? []]|split_and!; [done..|unfold TxRoom; cbn; lia]]).
Qed.

Lemma track_all_wp ts st :
  Forall transmit_ok ts -> TxRoom (tx_total ts) (k_stats (sock st)) ->
  wp (track_all ts) (fun _ st' => only_stats st st' /\
    tx_counted (tx_total ts) (k_stats (sock st)) (k_stats (sock st'))) st.
Proof.
  intros Hts. revert st. induction Hts as [|t ts Ht Hts IH]; intros st HR; cbn [track_all].
  { apply wp_ret. by split. }
  change (tx_total (t :: ts)) with (tx_cost t + tx_total ts) in *. pose proof (tx_total_nonneg ts).
  apply wp_bind. eapply wp_mono; [apply track_tx_wp; [done|by eapply TxRoom_weaken, HR; lia]|].
  intros [] st1 [O1 C1]. eapply wp_mono; [apply IH, C1; [done|done]|].
  intros [] st2 [O2 C2]. split; [by transitivity st1|by eapply tx_counted_trans].
Qed.

(** The store after the packets [ls] got a sending time. *)
Definition stamped (ls : list loc) (s s' : list Packet) : Prop :=
  forall l p, s !! l = Some p -> exists c, s' !! l = Some (p <| p_time_sent := c |>) /\
    (l ∉ ls -> c = p_time_sent p) /\ (l ∈ ls -> exists t, c = ai_now t).

(** Only the store and the number of clock readings differ. *)
Definition only_store (st st' : SocketSt) : Prop :=
  st' = st <| sworld ::= fun w => w <| w_store := w_store (sworld st') |>
                                    <| w_ticks := w_ticks (sworld st') |> |>.

#[export] Instance only_store_preorder : PreOrder only_store.
Proof.
  split.
  - intros [? ? []]. done.
  - unfold only_store. intros s1 s2 s3 E1 E2. rewrite E2, E1. by destruct s1 as [? ? []].
Qed.

Lemma stamp_all_wp ls st :
  wp (stamp_all ls) (fun _ st' => only_store st st' /\
    stamped ls (w_store (sworld st)) (w_store (sworld st'))) st.
Proof.
  revert st. induction ls as [|l ls IH]; intros st; cbn [stamp_all].
  { apply wp_ret. split; [done|]. intros l p Hp. exists (p_time_sent p).
    split; [by destruct p|]. split; [done|]. by intros ?%elem_of_nil. }
  so_run. apply wp_on_sworld. unfold arc_update. wp_run. eapply wp_mono; [apply IH|].
  set (t := w_clock (sworld st) (w_ticks (sworld st))).
  intros [] st' [O Hst]. split.
  { etransitivity; [|exact O]. by destruct st as [? ? []]. }
  intros l' p Hp. cbn in Hst. destruct (decide (l' = l)) as [->|Hne].
  - destruct (Hst l (p <| p_time_sent := ai_now t |>)) as (c & Hc & Hout & Hin).
    { by rewrite list_lookup_alter_eq, Hp. }
    exists c. split; [done|]. split; [intros Hn; destruct Hn; by constructor|].
    intros _. destruct (decide (l ∈ ls)); [by apply Hin|]. exists t. by rewrite Hout.
  - destruct (Hst l' p) as (c & Hc & Hout & Hin); [by rewrite list_lookup_alter_ne|].
    exists c. split; [done|]. rewrite !elem_of_cons. split; [tauto|].
    intros [?|?]; [done|by apply Hin].
Qed.

(** ** Taking events from the streams *)

(** The transmits and packet sets an event adds. *)
Definition ev_transmits (store : list Packet) (ev : EventOutgoing) : list Transmit :=
  match ev with
  | EvStreamDropped _ => []
  | EvTransmitDgram d => [into_transmit d]
  | EvTransmit set => match to_transmit store set with Ret t => [t] | _ => [] end
  end.

Definition ev_sets (ev : EventOutgoing) : list PacketSet :=
  match ev with EvTransmit set => [set] | _ => [] end.

(** A packet set can be turned into a transmit. *)
Definition event_ready (store : list Packet) (ev : EventOutgoing) : Prop :=
  match ev with
  | EvTransmit set => exists t, to_transmit store set = Ret t /\ transmit_ok t
  | _ => True
  end.

Definition all_transmits (store : list Packet) (evs : list EventOutgoing) : list Transmit :=
  concat (map (ev_transmits store) evs).

Definition dropped_ids (evs : list EventOutgoing) : list Z :=
  concat (map (fun ev => match ev with EvStreamDropped id => [id] | _ => [] end) evs).

(** The state after the events [evs] have been taken. *)
Record filled (evs rest : list EventOutgoing) (st st' : SocketSt) : Prop := {
  fd_events : w_tx (sworld st) = evs ++ rest;
  fd_rest : w_tx (sworld st') = rest;
  fd_transmits : k_outgoing_transmits (sock st') =
    k_outgoing_transmits (sock st) ++ all_transmits (w_store (sworld st)) evs;
  fd_sets : k_outgoing_packet_sets (sock st') =
    k_outgoing_packet_sets (sock st) ++ concat (map ev_sets evs);
  fd_store : w_store (sworld st') = w_store (sworld st);
  fd_streams : forall id, k_streams (sock st') !! id =
    if decide (id ∈ dropped_ids evs) then None else k_streams (sock st) !! id;
  fd_stats : k_stats (sock st') = k_stats (sock st);
  fd_chans : same_queues (chans st) (chans st');
  fd_alive : dropped_ids evs = [] -> chans st' = chans st;
  fd_world : sworld st' = (sworld st) <| w_tx := rest |>;
  fd_control : k_has_refs (sock st') = k_has_refs (sock st) /\
    k_send_overflow_timer (sock st') = k_send_overflow_timer (sock st) /\
    k_recv_buf (sock st') = k_recv_buf (sock st);
}.

Lemma filled_nil st : filled [] (w_tx (sworld st)) st st.
Proof. split; try done; try (by rewrite app_nil_r). by destruct (sworld st). Qed.

Lemma filled_app evs1 evs2 rest1 rest2 s1 s2 s3 :
  filled evs1 rest1 s1 s2 -> filled evs2 rest2 s2 s3 -> filled (evs1 ++ evs2) rest2 s1 s3.
Proof.
  intros [] []. destruct_and!. split; try (split_and?; congruence); [| | | |by etransitivity| |].
  - rewrite <- app_assoc. congruence.
  - unfold all_transmits in *.
    by rewrite fd_transmits1, fd_transmits0, fd_store0, map_app, concat_app, app_assoc.
  - by rewrite fd_sets1, fd_sets0, map_app, concat_app, app_assoc.
  - intros id. rewrite fd_streams1, fd_streams0. unfold dropped_ids. rewrite map_app, concat_app.
    repeat case_decide; try done; rewrite elem_of_app in *; tauto.
  - unfold dropped_ids in *. rewrite map_app, concat_app. intros [? ?]%app_eq_nil.
    rewrite fd_alive1, fd_alive0; done.
  - rewrite fd_world1, fd_world0. by destruct (sworld s1).
Qed.

Lemma drop_handle_wp h (Q : unit -> SocketSt -> Prop) st :
  (forall cs, same_queues (chans st) cs -> Q tt (st <| chans := cs |>)) -> wp (drop_handle h) Q st.
Proof.
  intros HQ. destruct h; unfold drop_handle; so_run.
  - apply HQ, same_queues_close.
  - specialize (HQ (chans st) (reflexivity _)). by destruct st.
Qed.

Lemma take_event_wp ev rest st :
  w_tx (sworld st) = ev :: rest -> event_ready (w_store (sworld st)) ev ->
  wp (take_event ev) (fun _ st' => filled [ev] rest st st')
    (st <| sworld ::= fun w => w <| w_tx := rest |> |>).
Proof.
  intros Htx Hev. destruct ev as [set|d|id]; cbn [take_event].
  - destruct Hev as (t & Et & _). so_run. eapply wp_lift; [exact Et|]. so_run.
    split; try done; unfold all_transmits; cbn; by rewrite ?Et.
  - so_run. split; try done. cbn. by rewrite app_nil_r.
  - unfold remove_stream. so_run. apply drop_handle_wp. intros cs Hcs.
    split; try done; cbn; [by rewrite app_nil_r..|]. intros id'.
    case_decide as Hd; unfold dropped_ids in Hd; cbn in Hd;
      rewrite list_elem_of_singleton in Hd; [subst; apply lookup_delete_eq|by apply lookup_delete_ne].
Qed.

Lemma fill_loop_wp fuel st :
  Forall (event_ready (w_store (sworld st))) (w_tx (sworld st)) ->
  (length (w_tx (sworld st)) <= fuel)%nat ->
  wp (fill_loop fuel) (fun r st' => exists evs rest, filled evs rest st st' /\
    if (r : bool) then rest = [] else BATCH_SIZE <= len (k_outgoing_transmits (sock st'))) st.
Proof.
  revert st. induction fuel as [|fuel IH]; intros st Hev Hf; cbn [fill_loop];
    pose proof (filled_nil st) as F0; apply wp_bind, wp_sself;
    destruct (len (k_outgoing_transmits (sock st)) <? BATCH_SIZE) eqn:E; b2p.
  2,4: apply wp_ret; eexists [], _; split; [exact F0|lia].
  all: apply wp_bind, wp_sworld_gets; destruct (w_tx (sworld st)) as [|ev rest] eqn:Etx.
  1,3: apply wp_ret; eexists [], _; split; [exact F0|done].
  { cbn in Hf. lia. }
  inversion_clear Hev as [|? ? Hev1 Hrest]. apply wp_bind, wp_on_sworld, wp_modify, wp_bind.
  eapply wp_mono; [by apply take_event_wp|].
  intros [] st1 F1. pose proof (fd_store _ _ _ _ F1) as Es. pose proof (fd_rest _ _ _ _ F1) as Er.
  eapply wp_mono; [apply IH; rewrite Er, ?Es; [done|cbn in Hf; lia]|].
  intros r st2 (evs & rest2 & F2 & Hr). exists (ev :: evs), rest2. split; [|done].
  by eapply (filled_app [ev]).
Qed.

(** ** Contracts *)

(** The receive buffer is cut into exactly [BATCH_SIZE] vectors of one MTU. *)
Lemma socket_iovectors :
  iovectors_from_buf BATCH_SIZE (UDX_MTU * BATCH_SIZE) = Ret (replicate (Z.to_nat BATCH_SIZE) UDX_MTU).
Proof. destruct BATCH_SIZE_cases as [-> | ->]; vm_compute; reflexivity. Qed.

(** [poll_send] reports at most as many transmits as it was given. *)
Definition send_script_ok (ss : SendScript) : Prop :=
  forall ts n, ss_answer ss ts = Ready (Ok n) -> 0 <= n <= len ts.

Lemma ev_transmits_ok store evs :
  Forall (event_ready store) evs -> Forall transmit_ok (all_transmits store evs).
Proof.
  intros Hev. unfold all_transmits. induction Hev as [|ev evs He _ IH]; [constructor|].
  cbn. apply Forall_app. split; [|done]. destruct ev as [set|d|id]; cbn; [|by repeat constructor|done].
  destruct He as (t & -> & Ht). by constructor.
Qed.

(** The result of one [poll_transmit] for the transmits [ts] waiting in it. *)
Definition transmitted (ss : SendScript) (pending : bool) (ts : list Transmit) (st1 : SocketSt)
    (r : result bool io_error) (st' : SocketSt) : Prop :=
  match ts with
  | [] => r = Ok false /\ st' = st1
  | _ =>
      match ss_answer ss (take (ss_slice ss) ts) with
      | Pending => r = Ok false /\ st' = st1
      | Ready (Err err) =>
          if decide (ioe_kind err = Interrupted) then
            r = Ok false /\ k_outgoing_transmits (sock st') = ts /\
            k_send_overflow_timer (sock st') =
              Some (w_clock (sworld st1) (w_ticks (sworld st1)) + from_millis 20)
          else r = Err err /\ st' = st1
      | Ready (Ok n) =>
          r = Ok (negb pending) /\
          k_outgoing_transmits (sock st') = drop (Z.to_nat n) ts /\
          w_sent (sworld st') = w_sent (sworld st1) ++ take (Z.to_nat n) ts /\
          k_outgoing_packet_sets (sock st') =
            drop (Z.to_nat n) (k_outgoing_packet_sets (sock st1)) /\
          stamped (concat (map iter_shared (take (Z.to_nat n) (k_outgoing_packet_sets (sock st1)))))
            (w_store (sworld st1)) (w_store (sworld st')) /\
          w_tx (sworld st') = w_tx (sworld st1) /\
          k_send_overflow_timer (sock st') = k_send_overflow_timer (sock st1)
      end
  end.

(** What handing transmits to the operating system can change: the statistics
    and queues of the socket, and the sending times in the store. *)
Record sending (st st' : SocketSt) : Prop := {
  sd_chans : chans st' = chans st;
  sd_streams : k_streams (sock st') = k_streams (sock st);
  sd_recv_buf : k_recv_buf (sock st') = k_recv_buf (sock st);
  sd_has_refs : k_has_refs (sock st') = k_has_refs (sock st);
  sd_world : sworld st' = (sworld st) <| w_store := w_store (sworld st') |>
    <| w_sent := w_sent (sworld st') |> <| w_ticks := w_ticks (sworld st') |>;
  sd_store : exists ls, stamped ls (w_store (sworld st)) (w_store (sworld st'));
  sd_queue : exists n, k_outgoing_transmits (sock st') = drop n (k_outgoing_transmits (sock st)) /\
    w_sent (sworld st') = w_sent (sworld st) ++ take n (k_outgoing_transmits (sock st)) /\
    tx_counted (tx_total (take n (k_outgoing_transmits (sock st)))) (k_stats (sock st)) (k_stats (sock st'));
}.

Lemma stamped_nil (s : list Packet) : stamped [] s s.
Proof.
  intros l p Hp. exists (p_time_sent p). split; [by destruct p|]. split; [done|].
  by intros ?%elem_of_nil.
Qed.

Lemma sending_refl st : sending st st.
Proof.
  split; try done.
  - by destruct (sworld st).
  - exists []. apply stamped_nil.
  - exists O. rewrite take_0, app_nil_r. by split_and!.
Qed.

Lemma take_min_drop {A} (l : list A) n :
  0 <= n -> take (Z.to_nat (Z.min n (len l))) l = take (Z.to_nat n) l /\
  drop (Z.to_nat (Z.min n (len l))) l = drop (Z.to_nat n) l.
Proof.
  intros Hn. destruct (decide (n <= len l)); [by rewrite Z.min_l|].
  rewrite Z.min_r by lia. by rewrite !take_ge, !drop_ge by (unfold len in *; lia).
Qed.

Lemma slice_prefix {A} (l : list A) n : 0 <= n <= len l -> slice l 0 n = Ret (take (Z.to_nat n) l).
Proof. intros Hn. rewrite slice_fits by lia. by rewrite Z.sub_0_r. Qed.

Lemma slice_suffix {A} (l : list A) n : 0 <= n <= len l -> slice l n (len l) = Ret (drop (Z.to_nat n) l).
Proof.
  intros Hn. rewrite slice_fits by lia. rewrite take_ge; [done|].
  rewrite length_drop. unfold len in *. lia.
Qed.

(** The bookkeeping after the operating system took [n] of the transmits. *)
Lemma transmit_sent_wp n (pending : bool) st :
  let ts := k_outgoing_transmits (sock st) in
  0 <= n <= len ts -> Forall transmit_ok ts -> TxRoom (tx_total ts) (k_stats (sock st)) ->
  wp (drained ← lift (slice ts 0 n);
      rest ← lift (slice ts n (len ts));
      _ ← on_sworld (modify (fun w => w <| w_sent ::= fun l => l ++ drained |>));
      _ ← set_sock (fun s => s <| k_outgoing_transmits := rest |>);
      _ ← track_all drained;
      sets ← sself k_outgoing_packet_sets;
      let m := Z.min n (len sets) in
      sent ← lift (slice sets 0 m);
      rest ← lift (slice sets m (len sets));
      _ ← set_sock (fun s => s <| k_outgoing_packet_sets := rest |>);
      _ ← stamp_all (concat (map iter_shared sent));
      if pending then mret (Break (Ok false)) else mret (Break (Ok true)))
    (fun fl st' => fl = Break (Ok (negb pending) : result bool io_error) /\
      k_outgoing_transmits (sock st') = drop (Z.to_nat n) ts /\
      w_sent (sworld st') = w_sent (sworld st) ++ take (Z.to_nat n) ts /\
      k_outgoing_packet_sets (sock st') = drop (Z.to_nat n) (k_outgoing_packet_sets (sock st)) /\
      stamped (concat (map iter_shared (take (Z.to_nat n) (k_outgoing_packet_sets (sock st)))))
        (w_store (sworld st)) (w_store (sworld st')) /\
      w_tx (sworld st') = w_tx (sworld st) /\
      k_send_overflow_timer (sock st') = k_send_overflow_timer (sock st) /\ sending st st') st.
Proof.
  intros ts Hn Hts HR.
  so_run. eapply wp_lift; [by apply slice_prefix|]. so_run. eapply wp_lift; [by apply slice_suffix|].
  so_run. apply wp_on_sworld, wp_modify. so_run. eapply wp_mono.
  { apply (track_all_wp (take (Z.to_nat n) ts)); [by apply Forall_take|]. eapply TxRoom_weaken, HR.
    rewrite <- (take_drop (Z.to_nat n) ts) at 2. rewrite tx_total_app.
    pose proof (tx_total_nonneg (drop (Z.to_nat n) ts)). lia. }
  intros [] st2 [O2 C2]. unfold only_stats in O2. apply wp_bind, wp_sself.
  assert (k_outgoing_packet_sets (sock st2) = k_outgoing_packet_sets (sock st)) as Eset
    by by rewrite O2.
  rewrite Eset. set (sets := k_outgoing_packet_sets (sock st)) in *.
  destruct (take_min_drop sets n ltac:(lia)) as [Etk Edr].
  assert (0 <= Z.min n (len sets) <= len sets) as Hm by (pose proof (len_nonneg sets); lia).
  apply wp_bind. eapply wp_lift; [by apply slice_prefix|]. rewrite Etk.
  apply wp_bind. eapply wp_lift; [by apply slice_suffix|]. rewrite Edr.
  apply wp_bind, wp_set_sock, wp_bind. eapply wp_mono; [apply stamp_all_wp|].
  intros [] st3 [O3 Hst]. unfold only_store in O3.
  assert (sock st3 = (sock st2) <| k_outgoing_packet_sets := drop (Z.to_nat n) sets |>) as Esock
    by (rewrite O3; done).
  assert (k_outgoing_transmits (sock st3) = drop (Z.to_nat n) ts) as Et
    by (rewrite Esock; cbn; by rewrite O2).
  assert (w_sent (sworld st3) = w_sent (sworld st) ++ take (Z.to_nat n) ts) as Esent
    by (rewrite O3; cbn; by rewrite O2).
  cbn in Hst. replace (w_store (sworld st2)) with (w_store (sworld st)) in Hst by (by rewrite O2).
  assert (sending st st3) as Hs.
  { split; try (rewrite Esock; cbn; by rewrite O2); try by eexists.
    - rewrite O3. cbn. by rewrite O2.
    - rewrite O3. cbn. rewrite O2. cbn. by destruct (sworld st).
    - exists (Z.to_nat n). split_and!; [done..|]. by rewrite Esock. }
  destruct pending; apply wp_ret; split_and!; try done; try (by rewrite Esock);
    try (rewrite Esock; cbn; by rewrite O2); rewrite O3; cbn; by rewrite O2.
Qed.

Lemma transmit_iter_wp ss st :
  send_script_ok ss -> Forall (event_ready (w_store (sworld st))) (w_tx (sworld st)) ->
  Forall transmit_ok (k_outgoing_transmits (sock st)) ->
  TxRoom (tx_total (k_outgoing_transmits (sock st) ++ all_transmits (w_store (sworld st)) (w_tx (sworld st))))
    (k_stats (sock st)) ->
  wp (transmit_iter ss) (fun fl st' => exists r evs rest st1 pending,
    fl = Break r /\ filled evs rest st st1 /\
    (if (pending : bool) then rest = [] else BATCH_SIZE <= len (k_outgoing_transmits (sock st1))) /\
    transmitted ss pending (k_outgoing_transmits (sock st1)) st1 r st' /\ sending st1 st' /\
    fill_loop (length (w_tx (sworld st))) st = Ret (pending, st1)) st.
Proof.
  intros Hss Hev Hts HR. unfold transmit_iter. so_run.
  eapply wp_mono; [by apply wp_run_eq, fill_loop_wp|]. intros pending st1 [(evs & rest & F & Hp) Efill].
  apply wp_bind, wp_sself.
  set (ts := k_outgoing_transmits (sock st1)).
  assert (Forall transmit_ok ts /\ TxRoom (tx_total ts) (k_stats (sock st1))) as [Hts1 HR1].
  { unfold ts. rewrite (fd_transmits _ _ _ _ F), (fd_stats _ _ _ _ F).
    rewrite (fd_events _ _ _ _ F) in Hev, HR. apply Forall_app in Hev as [Hev1 Hev2].
    split; [apply Forall_app; split; [done|by apply ev_transmits_ok]|].
    unfold all_transmits in HR. rewrite map_app, concat_app, app_assoc, tx_total_app in HR.
    pose proof (tx_total_nonneg (concat (map (ev_transmits (w_store (sworld st))) rest))).
    unfold TxRoom, all_transmits in *. lia. }
  assert (forall r st', transmitted ss pending ts st1 r st' -> sending st1 st' ->
    exists r0 evs rest st1 pending, Break r = Break r0 /\ filled evs rest st st1 /\
    (if (pending : bool) then rest = [] else BATCH_SIZE <= len (k_outgoing_transmits (sock st1))) /\
    transmitted ss pending (k_outgoing_transmits (sock st1)) st1 r0 st' /\ sending st1 st' /\
    fill_loop (length (w_tx (sworld st))) st = Ret (pending, st1)) as Hgo
    by (intros r st' Ht Hs; by exists r, evs, rest, st1, pending).
  pose proof (transmit_sent_wp) as Hsent. unfold transmitted in Hgo at 1.
  destruct ts as [|t0 ts0] eqn:Ets; [apply wp_ret, Hgo; [done|apply sending_refl]|].
  rewrite <- Ets in *.
  destruct (ss_answer ss (take (ss_slice ss) ts)) as [[n|err]|] eqn:Ea.
  - assert (0 <= n <= len ts) as Hn.
    { pose proof (Hss _ _ Ea) as Hn. unfold len in *. rewrite length_take in Hn. lia. }
    eapply wp_mono; [by apply (Hsent n pending st1)|].
    intros fl st' (-> & ? & ? & ? & ? & ? & ? & ?). apply Hgo; [by split_and!|done].
  - destruct (decide (ioe_kind err = Interrupted)) as [Ei|Ei]; so_run; apply Hgo; try done;
      [|apply sending_refl].
    destruct (sending_refl st1). split; try done.
  - apply wp_ret, Hgo; [done|apply sending_refl].
Qed.

Lemma socket_poll_transmit_wp ss st :
  send_script_ok ss -> Forall (event_ready (w_store (sworld st))) (w_tx (sworld st)) ->
  Forall transmit_ok (k_outgoing_transmits (sock st)) ->
  TxRoom (tx_total (k_outgoing_transmits (sock st) ++ all_transmits (w_store (sworld st)) (w_tx (sworld st))))
    (k_stats (sock st)) ->
  wp (socket_poll_transmit ss) (fun r st' => exists evs rest st1 pending,
    filled evs rest st st1 /\
    (if (pending : bool) then rest = [] else BATCH_SIZE <= len (k_outgoing_transmits (sock st1))) /\
    transmitted ss pending (k_outgoing_transmits (sock st1)) st1 r st' /\ sending st1 st' /\
    fill_loop (length (w_tx (sworld st))) st = Ret (pending, st1)) st.
Proof.
  intros Hss Hev Hts HR. unfold socket_poll_transmit.
  eapply (wp_loop (fun s => s = st) (fun _ => O)); [done|lia|].
  intros s ->. eapply wp_mono; [by apply transmit_iter_wp|].
  intros fl st' (r & evs & rest & st1 & pending & -> & F & Hp & Ht & Hs & E).
  by exists evs, rest, st1, pending.
Qed.

(** C22: [poll_transmit] of the socket.  It takes the events of the streams in
    order, as long as fewer than [BATCH_SIZE] transmits wait, turns packet sets
    and datagrams into transmits at the end of the queue and removes dropped
    streams; it hands a prefix of the queue to the operating system and removes
    exactly the [n] transmits reported as sent from its front.  So no transmit
    is lost, duplicated or reordered; when nothing could be sent everything
    stays queued, an interrupted send arms the overflow timer for 20 ms, and
    other errors are passed on.  It runs one iteration and never panics. *)
Theorem socket_poll_transmit_contract ss st :
  send_script_ok ss -> Forall (event_ready (w_store (sworld st))) (w_tx (sworld st)) ->
  Forall transmit_ok (k_outgoing_transmits (sock st)) ->
  TxRoom (tx_total (k_outgoing_transmits (sock st) ++
    all_transmits (w_store (sworld st)) (w_tx (sworld st)))) (k_stats (sock st)) ->
  exists r st' evs rest st1 pending, socket_poll_transmit ss st = Ret (r, st') /\
    w_tx (sworld st) = evs ++ rest /\
    (if (pending : bool) then rest = [] else BATCH_SIZE <= len (k_outgoing_transmits (sock st1))) /\
    filled evs rest st st1 /\
    transmitted ss pending
      (k_outgoing_transmits (sock st) ++ all_transmits (w_store (sworld st)) evs) st1 r st'.
Proof.
  intros Hss Hev Hts HR.
  destruct (wp_elim _ _ _ (socket_poll_transmit_wp ss st Hss Hev Hts HR))
    as (r & st' & E & evs & rest & st1 & pending & F & Hp & Ht & _).
  exists r, st', evs, rest, st1, pending. rewrite <- (fd_transmits _ _ _ _ F).
  split_and!; try done. apply F.
Qed.

(** C21: routing.  A datagram whose header decodes and names a stream of this
    socket goes to that stream's channel as one packet with the decoded
    header, the bytes after the header and the sender's address; when the
    stream is gone its entry is removed.  Everything else, bad headers and
    unknown streams, is handed back unchanged for [recv].  No datagram makes it
    panic. *)
Theorem process_packet_contract data meta st :
  RxRoom 1 (len data) st ->
  exists r st', process_packet data meta st = Ret (r, st') /\ routed data meta st r st'.
Proof. intros HR. exact (wp_elim _ _ _ (process_packet_wp data meta st HR)). Qed.

(** [poll_recv] of the socket.  Whatever the network delivers, it does not
    panic, it stops after 59 batches and then asks to be called again, it puts
    the receive buffer back, it keeps the queue for [recv] at 1024 datagrams at
    most, and it touches neither the send queues nor the packet store. *)
Theorem socket_poll_recv_contract rx st :
  k_recv_buf (sock st) = Some (UDX_MTU * BATCH_SIZE) -> Forall (Forall msg_ok) (rb_batches rx) ->
  RxRoom (BATCH_SIZE * MAX_LOOP) (UDX_MTU * BATCH_SIZE * MAX_LOOP) st -> queue_bounded st ->
  exists st', socket_poll_recv rx st =
    Ret (if len (rb_batches rx) >=? MAX_LOOP - 1 then Ok true
         else match rb_error rx with Some e => Err e | None => Ok false end, st') /\
    k_recv_buf (sock st') = Some (UDX_MTU * BATCH_SIZE) /\ queue_bounded st' /\
    k_outgoing_transmits (sock st') = k_outgoing_transmits (sock st) /\
    k_streams (sock st') ⊆ k_streams (sock st) /\
    w_store (sworld st') = w_store (sworld st) /\ w_tx (sworld st') = w_tx (sworld st).
Proof.
  intros Hbuf Hms HR Hq.
  assert (wp (socket_poll_recv rx) (fun r st' =>
    r = (if len (rb_batches rx) >=? MAX_LOOP - 1 then Ok true
         else match rb_error rx with Some e => Err e | None => Ok false end) /\
    k_recv_buf (sock st') = Some (UDX_MTU * BATCH_SIZE) /\ queue_bounded st' /\
    k_outgoing_transmits (sock st') = k_outgoing_transmits (sock st) /\
    k_streams (sock st') ⊆ k_streams (sock st) /\
    w_store (sworld st') = w_store (sworld st) /\ w_tx (sworld st') = w_tx (sworld st)) st) as Hwp.
  2:{ destruct (wp_elim _ _ _ Hwp) as (r & st' & E & -> & Hrest). by exists st'. }
  unfold socket_poll_recv. so_run. rewrite Hbuf. eapply wp_lift; [reflexivity|]. so_run.
  eapply wp_lift; [exact socket_iovectors|]. so_run.
  eapply wp_mono.
  { apply recv_batches_wp; [by unfold MAX_LOOP|done|]. rewrite Z.sub_0_r. destruct HR; by split. }
  intros r st1 ((m & b & R & _) & _ & ->). so_run. rewrite Z.add_0_l.
  pose proof (rv_bounded _ _ _ _ R Hq). pose proof (rv_transmits _ _ _ _ R).
  pose proof (rv_streams _ _ _ _ R). pose proof (rv_world _ _ _ _ R). destruct_and!. by split_and!.
Qed.

(** The receive loop leaves what sending needs as it is. *)
Lemma socket_poll_recv_wp rx st :
  k_recv_buf (sock st) = Some (UDX_MTU * BATCH_SIZE) -> Forall (Forall msg_ok) (rb_batches rx) ->
  RxRoom (BATCH_SIZE * MAX_LOOP) (UDX_MTU * BATCH_SIZE * MAX_LOOP) st ->
  wp (socket_poll_recv rx) (fun r st' => exists m b st0, received m b st0 st' /\
    m <= BATCH_SIZE * MAX_LOOP /\ b <= UDX_MTU * BATCH_SIZE * MAX_LOOP /\
    sock st0 = sock st /\ sworld st0 = sworld st /\
    k_recv_buf (sock st') = Some (UDX_MTU * BATCH_SIZE) /\ delivered (concat (rb_batches rx)) st st') st.
Proof.
  intros Hbuf Hms HR. unfold socket_poll_recv. so_run. rewrite Hbuf. eapply wp_lift; [reflexivity|].
  so_run. eapply wp_lift; [exact socket_iovectors|]. so_run. eapply wp_mono.
  { apply recv_batches_wp; [by unfold MAX_LOOP|done|]. rewrite Z.sub_0_r. destruct HR; by split. }
  intros r st1 ((m & b & R & Hm & Hb) & D & _). so_run. exists m, b, st. rewrite Z.sub_0_r in Hm, Hb. split_and!; try done.
  2:{ destruct D. split; try done. }
  destruct R. split; try done; try (cbn; by rewrite Hbuf).
  intros n' b' []. destruct (rv_room0 n' b'); by split.
Qed.

(** Changes of the wakers and the overflow timer only. *)
Record idle (st st' : SocketSt) : Prop := {
  id_chans : chans st' = chans st;
  id_sock : sock st' = (sock st) <| k_drive_waker := k_drive_waker (sock st') |>
    <| k_send_overflow_timer := k_send_overflow_timer (sock st') |>;
  id_world : sworld st' = (sworld st) <| w_woken := w_woken (sworld st') |>;
}.

#[export] Instance idle_preorder : PreOrder idle.
Proof.
  split.
  - intros [[] ? []]. done.
  - intros s1 s2 s3 [C1 S1 W1] [C2 S2 W2]. split; [congruence|..].
    + rewrite S2, S1. by destruct (sock s1).
    + rewrite W2, W1. by destruct (sworld s1).
Qed.

(** Receiving leaves the counters in range and does not count as sending. *)
Definition rx_counted (st st' : SocketSt) : Prop :=
  RxRoom 0 0 st' /\ forall c, TxRoom c (k_stats (sock st)) -> TxRoom c (k_stats (sock st')).

(** One poll of the socket driver: it receives the messages [ms], takes events
    and sends, and leaves a waker. *)
Definition driven (ms : list RecvMsg) (st st' : SocketSt) : Prop :=
  exists st1 st2 st3 evs rest, (delivered ms st st1 /\ rx_counted st st1) /\ filled evs rest st1 st2 /\
    sending st2 st3 /\ idle st3 st'.

Lemma driven_received ms st st1 st' :
  delivered ms st st1 -> rx_counted st st1 -> idle st1 st' -> driven ms st st'.
Proof.
  intros D Hc Hi. exists st1, st1, st1, [], (w_tx (sworld st1)). split_and!; try done.
  - apply filled_nil.
  - apply sending_refl.
Qed.

Lemma received_counted m b st st0 st' :
  received m b st0 st' -> sock st0 = sock st -> m <= BATCH_SIZE * MAX_LOOP -> b <= UDX_MTU * BATCH_SIZE * MAX_LOOP ->
  RxRoom (BATCH_SIZE * MAX_LOOP) (UDX_MTU * BATCH_SIZE * MAX_LOOP) st -> rx_counted st st'.
Proof.
  intros R Es Hm Hb []. split.
  - apply R. rewrite !Z.add_0_r. split; rewrite Es; lia.
  - destruct (rv_stats _ _ _ _ R) as (a & b' & Estat). intros c. by rewrite Estat, Es.
Qed.

Lemma idle_recv_buf st st' : idle st st' -> k_recv_buf (sock st') = k_recv_buf (sock st).
Proof. intros Hi. by rewrite (id_sock _ _ Hi). Qed.

Lemma socket_driver_wp cx rx timer_ready ss st :
  k_recv_buf (sock st) = Some (UDX_MTU * BATCH_SIZE) -> Forall (Forall msg_ok) (rb_batches rx) ->
  RxRoom (BATCH_SIZE * MAX_LOOP) (UDX_MTU * BATCH_SIZE * MAX_LOOP) st ->
  send_script_ok ss -> Forall (event_ready (w_store (sworld st))) (w_tx (sworld st)) ->
  Forall transmit_ok (k_outgoing_transmits (sock st)) ->
  TxRoom (tx_total (k_outgoing_transmits (sock st) ++
    all_transmits (w_store (sworld st)) (w_tx (sworld st)))) (k_stats (sock st)) ->
  wp (socket_driver_poll cx rx timer_ready ss) (fun r st' =>
    driven (concat (rb_batches rx)) st st' /\
    k_recv_buf (sock st') = Some (UDX_MTU * BATCH_SIZE) /\
    match r with
    | Ready (Ok _) => k_has_refs (sock st') = false /\ k_streams (sock st') = ∅
    | Ready (Err _) => True
    | Pending => (exists l, w_woken (sworld st') = l ++ [cx]) \/ k_drive_waker (sock st') = Some cx
    end) st.
Proof.
  intros Hbuf Hms HR Hss Hev Hts Htx. unfold socket_driver_poll.
  apply wp_bind. eapply wp_mono; [by eapply socket_poll_recv_wp|].
  intros r1 st1 (m & b & st0 & R & Hm & Hb & Es & Ew & Hb1 & D).
  assert (rx_counted st st1) as Hc by by eapply received_counted.
  pose proof (rv_transmits _ _ _ _ R) as [Et _]. pose proof (rv_world _ _ _ _ R) as [Est Etx].
  destruct (rv_stats _ _ _ _ R) as (a & b' & Estat). rewrite Es in Et, Estat. rewrite Ew in Est, Etx.
  destruct r1 as [c1|e].
  2:{ apply wp_ret. split_and!; [by eapply driven_received|done|done]. }
  apply wp_bind, wp_sself. apply wp_bind.
  apply wp_mono with (Q := fun _ st' => driven (concat (rb_batches rx)) st st' /\
    k_recv_buf (sock st') = Some (UDX_MTU * BATCH_SIZE)).
  - destruct (k_send_overflow_timer (sock st1)).
    { destruct timer_ready; so_run; (split; [eapply driven_received; [done..|]|done]); [|done].
      split; [done..|]. apply sworld_woken_same. }
    eapply wp_mono; [apply (socket_poll_transmit_wp ss st1)|].
    + done.
    + by rewrite Est, Etx.
    + by rewrite Et.
    + by rewrite Et, Est, Etx, Estat.
    + intros r st' (evs & rest & st2 & pending & F & _ & Ht & Hs & _). split.
      * exists st1, st2, st', evs, rest. by split_and!.
      * rewrite (sd_recv_buf _ _ Hs). pose proof (fd_control _ _ _ _ F). destruct_and!. congruence.
  - intros [c2|e] st2 [(sa & sb & sc & evs & rest & D' & F & S & Hi) Hb2];
      [|apply wp_ret; split_and!; [by exists sa, sb, sc, evs, rest|done|done]].
    assert (forall st', idle st2 st' -> driven (concat (rb_batches rx)) st st' /\
      k_recv_buf (sock st') = Some (UDX_MTU * BATCH_SIZE)) as Hfin.
    { intros st' Hi'. split; [|by rewrite (idle_recv_buf _ _ Hi')].
      exists sa, sb, sc, evs, rest. do 3 (split; [done|]). by transitivity st2. }
    apply wp_bind, wp_sself, wp_bind, wp_sself.
    destruct (negb (c1 || c2) && negb (k_has_refs (sock st2)) &&
      bool_decide (k_streams (sock st2) = ∅)) eqn:E.
    + apply wp_ret. apply andb_true_iff in E as [[_ Hr%negb_true_iff]%andb_true_iff Hs%bool_decide_eq_true].
      destruct (Hfin st2 (reflexivity _)). by split_and!.
    + destruct (c1 || c2); so_run; (match goal with |- driven _ _ ?s /\ _ => destruct (Hfin s) end;
        [by destruct st2 as [[] ? []]|]); split_and!; try done; [left; by eexists|by right].
Qed.

(** C23: the socket driver.  A poll never panics; it completes successfully only
    when the last handle has been dropped and no stream is left; otherwise it
    has re-scheduled itself or stored its waker, or it reports the I/O error of
    the operating system. *)
Theorem socket_driver_contract cx rx timer_ready ss st :
  k_recv_buf (sock st) = Some (UDX_MTU * BATCH_SIZE) -> Forall (Forall msg_ok) (rb_batches rx) ->
  RxRoom (BATCH_SIZE * MAX_LOOP) (UDX_MTU * BATCH_SIZE * MAX_LOOP) st ->
  send_script_ok ss -> Forall (event_ready (w_store (sworld st))) (w_tx (sworld st)) ->
  Forall transmit_ok (k_outgoing_transmits (sock st)) ->
  TxRoom (tx_total (k_outgoing_transmits (sock st) ++
    all_transmits (w_store (sworld st)) (w_tx (sworld st)))) (k_stats (sock st)) ->
  exists r st', socket_driver_poll cx rx timer_ready ss st = Ret (r, st') /\
    match r with
    | Ready (Ok _) => k_has_refs (sock st') = false /\ k_streams (sock st') = ∅
    | Ready (Err _) => True
    | Pending => (exists l, w_woken (sworld st') = l ++ [cx]) \/ k_drive_waker (sock st') = Some cx
    end.
Proof.
  intros Hbuf Hms HR Hss Hev Hts Htx.
  destruct (wp_elim _ _ _ (socket_driver_wp cx rx timer_ready ss st Hbuf Hms HR Hss Hev Hts Htx))
    as (r & st' & E & _ & _ & Hr). by exists r, st'.
Qed.

End spec.

(** ** Examples and limits *)

#[local] Existing Instance option_instant.
#[local] Instance socket_profile : Profile := mk_Profile true true.

Definition here : SocketAddr := SocketAddrV4 [Byte.x0a; Byte.x00; Byte.x00; Byte.x01] 4000.
Definition there : SocketAddr := SocketAddrV4 [Byte.x0a; Byte.x00; Byte.x00; Byte.x02] 4000.

Definition world0 : World := mk_World [] 4 true [] [] [] [] (fun n => Z.of_nat n) 0.

(** A bound socket with one stream: local id 9, remote id 7. *)
Definition socket0 : SocketSt :=
  match socket_connect there 9 7 (mk_SocketSt (bind here) [] world0) with
  | Ret (_, st) => st
  | _ => mk_SocketSt (bind here) [] world0
  end.

Definition pk (skip : bool) : Packet :=
  mk_Packet false skip None 0 there (mk_Header 1 0 7 U32_MAX 0 0)
    (Data (header_bytes (mk_Header 1 0 7 U32_MAX 0 0) ++ [Byte.x61])).

(** [socket0] after the events [evs] were sent to it, with the store [store]. *)
Definition socket_with (store : list Packet) (evs : list EventOutgoing) : SocketSt :=
  socket0 <| sworld ::= fun w => w <| w_store := store |> <| w_tx := evs |> |>.

Definition set0 : EventOutgoing := EvTransmit (PacketSet_new there [Shared 0%nat] 21).
Definition dgram0 : EventOutgoing := EvTransmitDgram (Dgram_new there [Byte.x62]).

(** The operating system takes one transmit. *)
Definition sends_one : SendScript := mk_SendScript 32 (fun ts => Ready (Ok (Z.min 1 (len ts)))).

Lemma sends_one_ok : send_script_ok sends_one.
Proof. intros ts n [= <-]. pose proof (len_nonneg ts). lia. Qed.

Lemma socket_poll_transmit_contract_witness :
  exists r st', socket_poll_transmit sends_one (socket_with [pk false] [dgram0; set0]) = Ret (r, st') /\
    k_outgoing_transmits (sock st') =
      drop 1 (all_transmits [pk false] [dgram0; set0]).
Proof.
  destruct (socket_poll_transmit_contract sends_one (socket_with [pk false] [dgram0; set0]))
    as (r & st' & evs & rest & st1 & pending & E & Hsplit & Hp & F & Ht).
  - apply sends_one_ok.
  - constructor; [exact I|]. constructor; [|constructor]. eexists. split; [vm_compute; reflexivity|exact I].
  - constructor.
  - vm_compute. repeat split; congruence.
  - exists r, st'. split; [exact E|].
    vm_compute in E. injection E as <- <-. vm_compute. reflexivity.
Defined.

(** A datagram for stream 9. *)
Definition dgram_in : list byte := header_bytes (mk_Header 1 0 9 U32_MAX 0 0) ++ [Byte.x61; Byte.x62].

Lemma process_packet_contract_witness :
  exists r st', process_packet dgram_in (mk_RecvMeta there 22 None None) socket0 = Ret (r, st') /\
    routed dgram_in (mk_RecvMeta there 22 None None) socket0 r st'.
Proof.
  apply process_packet_contract. split; vm_compute; split; congruence.
Defined.

Definition msg_in : RecvMsg :=
  mk_RecvMsg (mk_RecvMeta there 22 None None) (dgram_in ++ replicate 1378 Byte.x00).

Lemma msg_in_ok : msg_ok msg_in.
Proof. split; [vm_compute; reflexivity|vm_compute; split; congruence]. Qed.

Lemma socket_poll_recv_contract_witness :
  exists st', socket_poll_recv (mk_RecvBatches [[msg_in]] None) socket0 = Ret (Ok false, st') /\
    k_recv_buf (sock st') = Some (UDX_MTU * BATCH_SIZE) /\ queue_bounded st'.
Proof.
  destruct (socket_poll_recv_contract (mk_RecvBatches [[msg_in]] None) socket0)
    as (st' & E & Hb & Hq & _).
  - reflexivity.
  - constructor; [constructor; [apply msg_in_ok|constructor]|constructor].
  - split; vm_compute; split; congruence.
  - vm_compute; congruence.
  - exists st'. split; [exact E|]. split; [exact Hb|exact Hq].
Defined.

Lemma socket_driver_contract_witness :
  exists r st', socket_driver_poll 5%nat (mk_RecvBatches [[msg_in]] None) false sends_one
    (socket_with [pk false] [set0]) = Ret (r, st') /\ r <> Ready (Ok tt).
Proof.
  destruct (socket_driver_contract 5%nat (mk_RecvBatches [[msg_in]] None) false sends_one
    (socket_with [pk false] [set0])) as (r & st' & E & Hr).
  - reflexivity.
  - constructor; [constructor; [apply msg_in_ok|constructor]|constructor].
  - split; vm_compute; split; congruence.
  - apply sends_one_ok.
  - constructor; [|constructor]. eexists. split; [vm_compute; reflexivity|exact I].
  - constructor.
  - vm_compute. repeat split; congruence.
  - exists r, st'. split; [exact E|]. vm_compute in E. injection E as <- _. discriminate.
Defined.

(** Packets are stamped with their sending time by counting transmits, not
    by matching them: when a plain datagram is queued before a packet set and
    the operating system takes only the datagram, the packets of the set are
    marked as sent although their transmit still waits. *)
Theorem datagram_shifts_send_times :
  exists r st', socket_poll_transmit sends_one (socket_with [pk false] [dgram0; set0]) = Ret (r, st') /\
    len (k_outgoing_transmits (sock st')) = 1 /\
    k_outgoing_packet_sets (sock st') = [] /\
    (exists p, w_store (sworld st') !! 0%nat = Some p /\ ai_is_empty (p_time_sent p) = false).
Proof. eexists _, _. split; [vm_compute; reflexivity|]. vm_compute. repeat split. by eexists. Qed.

(** A packet set whose packets have all been acknowledged before it reaches
    the socket still produces a transmit, with empty contents. *)
Theorem skipped_set_sends_empty (P' : Profile) (AI' : AtomicInstant) st s ps sz :
  ps_segment_size s = Some sz -> 0 < sz -> derefs st (ps_packets s) ps -> len ps * sz < 2 ^ 63 ->
  Forall (fun p => p_skip p = true) ps ->
  exists t, @to_transmit P' AI' st s = Ret t /\ t_contents t = [].
Proof.
  intros Hsz Hpos Hd Hbound Hskip. unfold to_transmit. rewrite Hsz.
  assert (len (ps_packets s) = len ps) as Hn by (unfold len; f_equal; eapply Forall2_length, Hd).
  pose proof (len_nonneg ps).
  rewrite Hn, usize_mul_fits by (unfold usize_modulus; nia).
  cbn [mbind outcome_bind]. unfold vec_with_capacity.
  rewrite (proj2 (Z.ltb_lt _ _) Hbound). cbn [mbind outcome_bind].
  rewrite (put_packets_spec _ _ _ _ Hd). cbn [mbind outcome_bind app].
  eexists. split; [reflexivity|]. cbn.
  clear Hd Hn Hbound. induction Hskip as [|p ps Hp _ IH]; [done|].
  unfold live_bufs in *. cbn. rewrite Hp. cbn. apply IH; lia || apply len_nonneg.
Qed.

Lemma skipped_set_sends_empty_witness :
  exists t, to_transmit [pk true] (PacketSet_new there [Shared 0%nat] 21) = Ret t /\ t_contents t = [].
Proof.
  apply (skipped_set_sends_empty (mk_Profile true true) option_instant [pk true] _ [pk true] 21); try reflexivity.
  - repeat constructor.
  - repeat constructor.
Defined.

(** Connecting a second stream under a local id that is in use drops the
    sender of the first stream's channel, which its driver reports as the
    socket driver being gone. *)
Theorem connect_reuse_closes_channel (P' : Profile) (AI' : AtomicInstant) (st : @SocketSt AI') dest id rid h ch :
  k_streams (sock st) !! id = Some h -> chans st !! recv_tx h = Some ch ->
  exists s c st', @socket_connect AI' dest id rid st = Ret ((s, c), st') /\
    k_streams (sock st') !! id = Some (mk_StreamHandle c) /\ c <> recv_tx h /\
    chans st' !! recv_tx h = Some (ch <| ch_tx_alive := false |>).
Proof.
  intros Hh Hc.
  assert (@socket_connect AI' dest id rid st = Ret
    ((connect (w_clock (sworld st) (w_ticks (sworld st))) dest rid id, length (chans st)),
     st <| sock ::= fun s => s <| k_streams ::= <[id := mk_StreamHandle (length (chans st))]> |> |>
        <| chans ::= fun l => alter (fun c => c <| ch_tx_alive := false |>) (recv_tx h)
                       (l ++ [mk_Chan [] true true]) |>
        <| sworld ::= fun w => w <| w_ticks ::= Datatypes.S |> |>)) as E.
  { unfold socket_connect, sself, gets, set_sock, modify, on_sworld, instant_now, mbind, act_bind, mret,
      act_ret. cbn. rewrite Hh. done. }
  eexists _, _, _. split; [exact E|]. cbn. split; [apply lookup_insert_eq|].
  pose proof (lookup_lt_Some _ _ _ Hc). split; [lia|].
  rewrite list_lookup_alter_eq. by rewrite (lookup_app_l_Some _ _ _ _ Hc).
Qed.

Lemma connect_reuse_closes_channel_witness :
  exists s c st', socket_connect there 9 7 socket0 = Ret ((s, c), st') /\
    k_streams (sock st') !! 9 = Some (mk_StreamHandle c) /\ c <> 0%nat /\
    chans st' !! 0%nat = Some (mk_Chan [] true false).
Proof.
  apply (connect_reuse_closes_channel (mk_Profile true true) option_instant socket0 there 9 7 (mk_StreamHandle 0)
    (mk_Chan [] true true)); reflexivity.
Defined.

(** The safety comment of [iovectors_from_buf] asks for a buffer longer than
    the number of vectors; that is not enough.  Three bytes for two vectors are
    cut into three pieces, one more than the array holds. *)
Theorem iovectors_need_multiple : iovectors_from_buf 2 3 = Ret [1; 1; 1].
Proof. reflexivity. Qed.
