(* ===== verification/Network.v ===== *)
(** Two endpoints and the network between them.

    Each endpoint is a process with a socket and one stream connected to the
    other endpoint, as [UdxSocket::bind] and [UdxSocket::connect] set them up.
    The operations of [Stream.v] and [Socket.v] are the steps of the system;
    what the operating system accepted for sending on one side may be received
    on the other side never, late, several times and in any order. *)

From S2P Require Import Prelude Constants Errors UdpProto Packet Runtime Stream StreamInv StreamCtrl.
From S2P Require Import StreamSend StreamTimer StreamAck StreamRecv StreamDriver StreamSpec.
From S2P Require Import StreamPeer Socket SocketSpec.

Local Open Scope Z_scope.

(** ** Segmentation offload

    The kernel cuts the contents of a transmit with a segment size into
    datagrams of that size ([UDP_SEGMENT]); without one the contents are one
    datagram. *)
Class KernelGso := kernel_segments : Transmit -> list (list byte).

Class KernelGsoLaws `{KernelGso} : Prop := {
  kernel_plain t : t_segment_size t = None -> kernel_segments t = [t_contents t];
  kernel_gso t sz bs : t_segment_size t = Some sz -> 0 < sz ->
    Forall (fun b => len b = sz) bs -> bs <> [] -> t_contents t = concat bs -> kernel_segments t = bs;
  kernel_empty t : t_contents t = [] -> Forall (fun b => b = []) (kernel_segments t);
}.

(** The two sides of the system. *)
Abbreviation side := bool (only parsing).

Definition upd {A} (f : side -> A) (i : side) (a : A) : side -> A :=
  fun j => if Bool.eqb i j then a else f j.

Section model.
Context `{Profile} {AI : AtomicInstant} `{KernelGso} {B : Type} `{ReadBuf B}.

(** ** An endpoint *)

Record Endpoint := mk_Endpoint {
  ep_stream : UdxStreamInner;
  ep_chan : nat;                 (* the channel whose receiver the stream holds *)
  ep_running : bool;             (* the driver task has not completed *)
  ep_socket : SocketSt;
}.

#[export] Instance Endpoint_eta : Eta Endpoint := fun e =>
  mk_Endpoint (ep_stream e) (ep_chan e) (ep_running e) (ep_socket e).

(** The stream shares the world of its socket. *)
Definition ep_st (e : Endpoint) : StreamSt := mk_StreamSt (ep_stream e) (sworld (ep_socket e)).

Definition on_stream {A} (m : Act StreamSt A) : Act Endpoint A := fun e =>
  match m (ep_st e) with
  | Ret (a, st) =>
      Ret (a, e <| ep_stream := inner st |> <| ep_socket ::= fun k => k <| sworld := world st |> |>)
  | Panic w => Panic w
  | NoFuel => NoFuel
  end.

Definition on_socket {A} (m : Act SocketSt A) : Act Endpoint A := fun e =>
  match m (ep_socket e) with
  | Ret (a, k) => Ret (a, e <| ep_socket := k |>)
  | Panic w => Panic w
  | NoFuel => NoFuel
  end.

(** The datagram layer met an I/O error and switched segmentation offload off
    in the [UdpState] that the socket and its streams share. *)
Definition halt_gso : Act SocketSt unit :=
  modify (fun st => st <| sworld ::= fun w => w <| w_max_gso_segments ::= fun n => if n >? 1 then 1 else n |> |>).

(** The channel of the stream; a missing one counts as closed and empty. *)
Definition ep_queue (e : Endpoint) : Chan :=
  match chans (ep_socket e) !! ep_chan e with
  | Some ch => ch
  | None => mk_Chan [] false false
  end.

(** What a poll of the stream driver that takes at most [k] events sees of the
    channel: tokio may stop a task after some number of events, and reports
    the end of the channel once it is empty and its sender is gone. *)
Definition ep_script (e : Endpoint) (k : nat) : RecvScript :=
  mk_RecvScript (take k (ch_queue (ep_queue e)))
    (bool_decide (length (ch_queue (ep_queue e)) <= k)%nat && negb (ch_tx_alive (ep_queue e))).

(** One poll of the stream driver task.  A stream that is closed and drained
    finishes without looking at the channel. *)
Definition ep_poll (cx : Waker) (k : nat) (timer_ready : bool) : Act Endpoint (poll unit) :=
  e ← get;
  r ← on_stream (driver_poll cx (ep_script e k) timer_ready);
  _ ← (if closed_and_drained (ep_stream e) then mret tt
       else modify (fun e => e <| ep_socket ::= fun s => s <| chans ::=
              alter (fun ch => ch <| ch_queue ::= drop k |>) (ep_chan e) |> |>));
  _ ← modify (fun e => e <| ep_running := match r with Ready _ => false | Pending => true end |>);
  mret r.

(** The receiver goes away with the last reference to the stream. *)
Definition ep_release : Act Endpoint unit :=
  modify (fun e => e <| ep_socket ::= fun s => s <| chans ::=
    alter (fun ch => ch <| ch_rx_alive := false |>) (ep_chan e) |> |>).

(** [UdxSocket::bind] at [local] and [UdxSocket::connect] to [dest]. *)
Definition endpoint (local dest : SocketAddr) (local_id remote_id : Z) (w : World) : outcome Endpoint :=
  match socket_connect dest local_id remote_id (mk_SocketSt (bind local) [] w) with
  | Ret ((stream, c), k) => Ret (mk_Endpoint stream c true k)
  | Panic e => Panic e
  | NoFuel => NoFuel
  end.

(** ** The system *)

Record Net := mk_Net {
  net_ep : side -> Endpoint;
  net_written : side -> list byte;   (* the bytes that writes accepted *)
  net_reads : side -> list Reading;  (* the calls of [poll_read], in order *)
}.

(** The bytes that reads took from the stream of a side, and the bytes that
    they returned. *)
Definition net_taken (n : Net) (i : side) : list byte := taken (net_reads n i).
Definition net_read (n : Net) (i : side) : list byte := returned (net_reads n i).

Inductive net_op :=
  | NWrite (i : side) (cx : Waker) (buf : list byte)
  | NRead (i : side) (cx : Waker) (buf : B)
  | NClose (i : side) (tx : Oneshot)
  | NDrop (i : side) (strong_count : Z)
  | NPoll (i : side) (cx : Waker) (k : nat) (timer_ready : bool)
  | NRelease (i : side)
  | NSocket (i : side) (cx : Waker) (rx : RecvBatches) (timer_ready : bool) (ss : SendScript)
  | NSend (i : side) (dest : SocketAddr) (buf : list byte)
  | NRecv (i : side) (cx : Waker)
  | NDropSocket (i : side) (strong_count : Z)
  | NHaltGso (i : side).

Definition op_side (op : net_op) : side :=
  match op with
  | NWrite i _ _ | NRead i _ _ | NClose i _ | NDrop i _ | NPoll i _ _ _ | NRelease i
  | NSocket i _ _ _ _ | NSend i _ _ | NRecv i _ | NDropSocket i _ | NHaltGso i => i
  end.

(** What an operation does at its endpoint, with the bytes that it accepted
    from a writer and what it did for a reader. *)
Definition ep_run (op : net_op) : Act Endpoint (list byte * list Reading) :=
  match op with
  | NWrite _ cx buf =>
      r ← on_stream (poll_write cx buf);
      mret (accepted r buf, [])
  | NRead _ cx buf =>
      r ← on_stream (poll_read cx buf);
      mret ([], [reading buf r])
  | NClose _ tx => _ ← on_stream (close tx); mret ([], [])
  | NDrop _ n => _ ← on_stream (drop_stream n); mret ([], [])
  | NPoll _ cx k timer_ready => _ ← ep_poll cx k timer_ready; mret ([], [])
  | NRelease _ => _ ← ep_release; mret ([], [])
  | NSocket _ cx rx timer_ready ss =>
      _ ← on_socket (socket_driver_poll cx rx timer_ready ss); mret ([], [])
  | NSend _ dest buf => _ ← on_socket (socket_send dest buf); mret ([], [])
  | NRecv _ cx => _ ← on_socket (recv_poll cx); mret ([], [])
  | NDropSocket _ n => _ ← on_socket (drop_socket n); mret ([], [])
  | NHaltGso _ => _ ← on_socket halt_gso; mret ([], [])
  end.

Definition net_run (op : net_op) (n : Net) : outcome Net :=
  let i := op_side op in
  match ep_run op (net_ep n i) with
  | Ret ((w, r), e) =>
      Ret (mk_Net (upd (net_ep n) i e) (upd (net_written n) i (net_written n i ++ w))
             (upd (net_reads n) i (net_reads n i ++ r)))
  | Panic e => Panic e
  | NoFuel => NoFuel
  end.

Definition net_start (addr : side -> SocketAddr) (id : side -> Z) (w : side -> World) : outcome Net :=
  a ← endpoint (addr true) (addr false) (id true) (id false) (w true);
  b ← endpoint (addr false) (addr true) (id false) (id true) (w false);
  Ret (mk_Net (fun i => if i then a else b) (fun _ => []) (fun _ => [])).

(** ** The network *)

(** Bytes that no socket takes for a packet. *)
Definition harmless (d : list byte) : Prop := forall h, from_bytes d <> Ret (Ok h).

(** A datagram from somewhere else does not name the stream of side [i]. *)
Definition foreign (id : side -> Z) (i : side) (d : list byte) : Prop :=
  forall h, from_bytes d = Ret (Ok h) -> h_stream_id h <> id i.

(** What side [i] can receive: a foreign datagram, or one that was sent to its
    address; longer ones are cut to the size of the receive buffers. *)
Definition deliverable (addr : side -> SocketAddr) (id : side -> Z) (n : Net) (i : side) (m : RecvMsg)
  : Prop :=
  msg_ok m /\ exists d, msg_data m = take (Z.to_nat UDX_MTU) d /\
    (foreign id i d \/
     exists j t, t ∈ w_sent (sworld (ep_socket (net_ep n j))) /\ t_destination t = addr i /\
       d ∈ kernel_segments t).

(** When an operation is enabled.  The bounds keep the counters of streams and
    sockets within their width; application datagrams must not pose as
    packets. *)
Definition net_ok (addr : side -> SocketAddr) (id : side -> Z) (n : Net) (op : net_op) : Prop :=
  let e := net_ep n (op_side op) in
  match op with
  | NWrite _ _ buf => len buf < 2 ^ 63 /\ Room (len buf) (len buf) (ep_st e)
  | NRead _ _ _ | NRecv _ _ | NDropSocket _ _ | NHaltGso _ => True
  | NClose _ _ | NDrop _ _ => Room 1 0 (ep_st e)
  | NPoll _ _ k _ =>
      let ps := script_packets (ep_script e k) in
      ep_running e = true /\ Room (len ps + 1) (len (concat (map i_buf ps))) (ep_st e)
  | NRelease _ => ep_running e = false
  | NSocket i _ rx _ ss =>
      Forall (Forall (deliverable addr id n i)) (rb_batches rx) /\ send_script_ok ss /\
      RxRoom (BATCH_SIZE * MAX_LOOP) (UDX_MTU * BATCH_SIZE * MAX_LOOP) (ep_socket e) /\
      TxRoom (tx_total (k_outgoing_transmits (sock (ep_socket e)) ++
        all_transmits (w_store (sworld (ep_socket e))) (w_tx (sworld (ep_socket e)))))
        (k_stats (sock (ep_socket e)))
  | NSend _ _ buf => harmless buf
  end.

(** One enabled operation of either side. *)
Definition net_step (addr : side -> SocketAddr) (id : side -> Z) (n n' : Net) : Prop :=
  exists op, net_ok addr id n op /\ net_run op n = Ret n'.

Inductive net_reachable (addr : side -> SocketAddr) (id : side -> Z) (w : side -> World) : Net -> Prop :=
  | reach_start n : net_start addr id w = Ret n -> net_reachable addr id w n
  | reach_step n op n' : net_reachable addr id w n -> net_ok addr id n op -> net_run op n = Ret n' ->
      net_reachable addr id w n'.

End model.
