(* ===== verification/NetworkSpec.v ===== *)
(** What two connected streams guarantee to each other over a network that
    loses, delays, reorders and duplicates datagrams. *)

From S2P Require Import Prelude Constants Errors UdpProto Packet Runtime Stream StreamInv StreamCtrl.
From S2P Require Import StreamSend StreamTimer StreamAck StreamRecv StreamDriver StreamSpec.
From S2P Require Import StreamPeer Socket SocketSpec Network.

Local Open Scope Z_scope.

Section inv.
Context `{P : Profile} {AI : AtomicInstant} {AIL : AtomicInstantLaws AI}.
Context `{KG : KernelGso} {KGL : KernelGsoLaws}.
Context {B : Type} {RB : ReadBuf B} {RBL : ReadBufLaws B}.
Implicit Types (st : StreamSt) (sent : list (list byte)) (e : Endpoint).

(** ** What travels *)

(** A datagram of stream [s] that has cut its writes into the payloads [sent]. *)
Definition genuine sent (s : UdxStreamInner) (d : list byte) : Prop :=
  exists h body, d = header_bytes h ++ body /\ wire_header h /\ len d <= UDX_MTU /\
    h_stream_id h = s_remote_id s /\ h_ack h <= s_ack s /\
    ((h_typ h = UDX_HEADER_DATA /\ sent !! Z.to_nat (h_seq h) = Some body) \/
     ((h_typ h = 0 \/ h_typ h = UDX_HEADER_END) /\ body = [])).

Definition event_packet (ev : EventIncoming) : IncomingPacket := match ev with EvPacket p => p end.

(** A datagram of a transmit to [dest]: harmless, or genuine and for the peer. *)
Definition dgram_fine sent (s : UdxStreamInner) (dest : SocketAddr) (d : list byte) : Prop :=
  harmless d \/ (genuine sent s d /\ dest = s_remote_addr s).

Definition transmit_fine sent (s : UdxStreamInner) (t : Transmit) : Prop :=
  Forall (dgram_fine sent s (t_destination t)) (kernel_segments t).

Definition event_fine sent st (ev : EventOutgoing) : Prop :=
  event_ok sent st ev \/ exists d, ev = EvTransmitDgram d /\ harmless (dg_buf d).

Lemma genuine_mono sent sent' s s' d :
  sent `prefix_of` sent' -> s_ack s <= s_ack s' -> s_remote_id s' = s_remote_id s ->
  genuine sent s d -> genuine sent' s' d.
Proof.
  intros [k ->] Ha Er (h & body & Ed & Hw & Hlen & Hid & Hack & Hk). exists h, body.
  split_and!; try done; [congruence|lia|]. destruct Hk as [[? ?]|?]; [left|by right].
  split; [done|]. by apply lookup_app_l_Some.
Qed.

Lemma transmit_fine_mono sent sent' s s' t :
  sent `prefix_of` sent' -> same_peer s s' -> transmit_fine sent s t -> transmit_fine sent' s' t.
Proof.
  intros Hp (Hr & Hid & Ha) Ht. eapply Forall_impl; [exact Ht|]. intros d [Hd|[Hg Hdst]]; [by left|right].
  split; [by eapply genuine_mono|congruence].
Qed.

Lemma event_fine_mono sent sent' st st' ev :
  sent `prefix_of` sent' -> same_peer (inner st) (inner st') ->
  s_local_id (inner st') = s_local_id (inner st) ->
  store_ext (w_store (world st)) (w_store (world st')) ->
  event_fine sent st ev -> event_fine sent' st' ev.
Proof. intros ? ? ? ? [He|Hd]; [left; by eapply event_ok_mono|by right]. Qed.

(** The type bits of the packets a stream sends. *)
Lemma has_type_data h b o f : h_typ h = UDX_HEADER_DATA ->
  has_type (mk_IncomingPacket h b o f) UDX_HEADER_SACK = false /\
  has_type (mk_IncomingPacket h b o f) UDX_HEADER_DATA = true.
Proof. intros Ht. unfold has_type. cbn. by rewrite Ht. Qed.

Lemma has_type_state h b o f : h_typ h = 0 \/ h_typ h = UDX_HEADER_END ->
  has_type (mk_IncomingPacket h b o f) UDX_HEADER_SACK = false /\
  has_type (mk_IncomingPacket h b o f) UDX_HEADER_DATA = false.
Proof. unfold has_type. cbn. by intros [-> | ->]. Qed.

(** Decoding a genuine datagram gives a fine packet. *)
Lemma genuine_packet sent s d h a :
  genuine sent s d -> from_bytes d = Ret (Ok h) ->
  packet_fine sent (s_ack s) (mk_IncomingPacket h (drop 20 d) 0 a).
Proof.
  intros (h' & body & -> & Hw & Hlen & _ & Hack & Hk) E.
  rewrite from_bytes_header_bytes in E by done. injection E as <-.
  assert (drop 20 (header_bytes h' ++ body) = body) as Eb by (by rewrite drop_app_length' by done).
  rewrite Eb. rewrite len_app, len_header_bytes in Hlen.
  assert (len body <= UDX_MAX_DATA_SIZE) by (unfold UDX_MTU, UDX_HEADER_SIZE, UDX_MAX_DATA_SIZE in *; lia).
  assert (len body < 2 ^ 63) by (unfold UDX_MAX_DATA_SIZE in *; lia).
  destruct Hk as [[Ht Hb]|[Ht ->]].
  - destruct (has_type_data h' body 0 a Ht). by split_and!.
  - destruct (has_type_state h' [] 0 a Ht) as [E1 E2]. split_and!; try done. congruence.
Qed.

(** ** From packet sets to datagrams *)

Lemma packet_ok_genuine sent s p : packet_ok sent s p -> genuine sent s (as_slice (p_buf p)).
Proof.
  intros Hok. pose proof (packet_ok_len sent s p Hok) as [_ Hlen].
  destruct Hok as (_ & Hw & Hid & Hack & [(Ht & body & Hb & _ & Es)|[Ht Es]]).
  - exists (p_header p), body. split_and!; try done. by left.
  - exists (p_header p), []. rewrite app_nil_r. split_and!; try done. by right.
Qed.

Lemma harmless_nil : harmless [].
Proof. intros h. rewrite from_bytes_short; [done|]. done. Qed.

Lemma sized_derefs sent st sz rs :
  Forall (sized_ref_ok sent st sz) rs -> exists ps, derefs (w_store (world st)) rs ps /\
    Forall (fun p => packet_ok sent (inner st) p /\ Packet_len p = sz) ps.
Proof.
  induction 1 as [|r rs (p & Hd & Hok & Hl) _ (ps & Hds & Hps)]; [exists []; by split; constructor|].
  exists (p :: ps). split; by constructor.
Qed.

(** A packet set of the stream becomes a transmit whose datagrams are the live
    packets, or an empty one when all of them are skipped. *)
Lemma set_transmit_segments sent st set :
  event_ok sent st (EvTransmit set) -> exists t ps, to_transmit (w_store (world st)) set = Ret t /\
    derefs (w_store (world st)) (ps_packets set) ps /\ Forall (packet_ok sent (inner st)) ps /\
    t_destination t = s_remote_addr (inner st) /\ transmit_ok t /\
    len (t_contents t) <= UDX_MTU * len (ps_packets set) /\
    (kernel_segments t = live_bufs ps \/ live_bufs ps = [] /\ t_contents t = []).
Proof.
  intros (Hdst & Hlen & sz & Hsz & Hall). destruct (sized_derefs _ _ _ _ Hall) as (ps & Hd & Hps).
  assert (len ps = len (ps_packets set)) as El by (unfold len; by rewrite (Forall2_length _ _ _ Hd)).
  destruct ps as [|p0 ps0] eqn:Eps; [exfalso; change (len []) with 0 in El; lia|]. rewrite <- Eps in *.
  assert (UDX_HEADER_SIZE <= sz <= UDX_MTU) as Hs.
  { rewrite Eps in Hps. apply Forall_cons_1 in Hps as [[Hok <-] _]. by eapply packet_ok_len. }
  assert (Forall (fun p => Packet_len p = sz) ps) as Hpl by (eapply Forall_impl; [exact Hps|]; by intros p []).
  assert (0 < sz /\ len ps * sz < 2 ^ 63) as [Hpos Hbound]
    by (unfold MAX_SEGMENTS, UDX_MTU, UDX_HEADER_SIZE in *; nia).
  destruct (to_transmit_wp (w_store (world st)) set ps sz Hsz Hpos Hd Hpl Hbound)
    as (t & Et & Edst & Ec & Hlb & E1 & Emany).
  pose proof (live_bufs_le ps) as Hle. exists t, ps. split_and!; try done; [|congruence|..].
  - eapply Forall_impl; [exact Hps|]. by intros p [].
  - unfold transmit_ok. destruct (decide (len ps = 1)) as [Hone|Hmany]; [by rewrite E1|].
    by rewrite (proj1 (Emany Hmany)).
  - rewrite Ec, (len_concat_uniform sz) by done. nia.
  - destruct (live_bufs ps) as [|b bs] eqn:Elb; [right; by rewrite Ec|left].
    destruct (decide (len ps = 1)) as [Hone|Hmany].
    + rewrite kernel_plain by auto. destruct bs as [|b' bs]; [by rewrite Ec; cbn; rewrite app_nil_r|].
      exfalso. rewrite !len_cons in Hle. pose proof (len_nonneg bs). lia.
    + destruct (Emany Hmany) as [Eseg _]. by rewrite (kernel_gso t sz (b :: bs)).
Qed.

(** The transmit of a packet set of the stream carries genuine datagrams. *)
Lemma set_transmit_fine sent st set :
  event_ok sent st (EvTransmit set) -> exists t, to_transmit (w_store (world st)) set = Ret t /\
    transmit_ok t /\ transmit_fine sent (inner st) t.
Proof.
  intros Hev. destruct (set_transmit_segments _ _ _ Hev) as (t & ps & Et & _ & Hps & Ed & Hok & _ & Hseg).
  exists t. split_and!; [done..|]. unfold transmit_fine. destruct Hseg as [-> |[_ Ec]].
  - apply live_bufs_Forall. eapply Forall_impl; [exact Hps|]. intros p Hp. right.
    split; [by apply packet_ok_genuine|done].
  - eapply Forall_impl; [by apply kernel_empty|]. intros d ->. left. apply harmless_nil.
Qed.

(** A live packet of a set is one of the datagrams of its transmit. *)
Lemma set_transmit_carries sent st set r p :
  event_ok sent st (EvTransmit set) -> r ∈ ps_packets set -> deref (w_store (world st)) r = Ret p ->
  p_skip p = false ->
  exists t, to_transmit (w_store (world st)) set = Ret t /\ t_destination t = s_remote_addr (inner st) /\
    as_slice (p_buf p) ∈ kernel_segments t.
Proof.
  intros Hev Hr Hp Hsk. destruct (set_transmit_segments _ _ _ Hev) as (t & ps & Et & Hd & _ & Ed & _ & _ & Hseg).
  exists t. split_and!; [done..|].
  assert (as_slice (p_buf p) ∈ live_bufs ps) as Hin.
  { apply list_elem_of_lookup in Hr as [x Hx]. destruct (Forall2_lookup_l _ _ _ _ _ Hd Hx) as (q & Hq & Eq).
    assert (q = p) as -> by congruence. unfold live_bufs. apply list_elem_of_fmap. exists p. split; [done|].
    apply list_elem_of_filter. split; [done|]. apply list_elem_of_lookup. by exists x. }
  destruct Hseg as [-> |[E _]]; [done|]. rewrite E in Hin. by apply elem_of_nil in Hin.
Qed.

(** ** The invariant of an endpoint

    [sent] are the payloads of this side, [psent] and [pack] the payloads and
    the acknowledgement of the peer. *)

Context (addr : side -> SocketAddr) (id : side -> Z).

Record EndInv (i : side) sent (psent : list (list byte)) (pack : Z) e (written : list byte) (read : list Reading)
  : Prop := {
  ei_stream : StreamInv sent (ep_st e);
  ei_written : concat sent = written;
  ei_events : Forall (event_fine sent (ep_st e)) (w_tx (sworld (ep_socket e)));
  ei_transmits : Forall (fun t => transmit_ok t /\ transmit_fine sent (ep_stream e) t)
    (k_outgoing_transmits (sock (ep_socket e)));
  ei_sent : Forall (transmit_fine sent (ep_stream e)) (w_sent (sworld (ep_socket e)));
  ei_queue : Forall (fun ev => packet_fine psent pack (event_packet ev)) (ch_queue (ep_queue e));
  ei_incoming : forall k p, s_incoming (ep_stream e) !! k = Some p ->
    psent !! Z.to_nat k = Some (i_buf p);
  ei_fits : forall k p, s_incoming (ep_stream e) !! k = Some p -> len (i_buf p) <= UDX_MAX_DATA_SIZE;
  ei_reads : Forall sound_reading read;
  ei_read : taken read ++ unread (ep_stream e) = concat (take (Z.to_nat (s_ack (ep_stream e))) psent);
  ei_ack : s_ack (ep_stream e) <= len psent;
  ei_acked : s_remote_acked (ep_stream e) <= pack;
  ei_kept : forall k, s_remote_acked (ep_stream e) <= k < s_seq (ep_stream e) ->
    is_Some (s_outgoing (ep_stream e) !! k);
  ei_above : forall k, is_Some (s_outgoing (ep_stream e) !! k) -> s_remote_acked (ep_stream e) <= k;
  ei_pack : pack <= s_seq (ep_stream e);
  ei_peer : s_remote_addr (ep_stream e) = addr (negb i) /\ s_local_id (ep_stream e) = id i /\
    s_remote_id (ep_stream e) = id (negb i);
  ei_streams : forall x h, k_streams (sock (ep_socket e)) !! x = Some h ->
    x = id i /\ recv_tx h = ep_chan e;
  ei_recv_buf : k_recv_buf (sock (ep_socket e)) = Some (UDX_MTU * BATCH_SIZE);
  ei_open : w_tx_open (sworld (ep_socket e)) = true;
}.

(** The peer may go on. *)
Lemma EndInv_peer i sent psent psent' pack pack' e written read :
  psent `prefix_of` psent' -> pack <= pack' <= s_seq (ep_stream e) ->
  EndInv i sent psent pack e written read -> EndInv i sent psent' pack' e written read.
Proof.
  intros Hp Ha []. split; try done.
  - eapply Forall_impl; [exact ei_queue0|]. intros ev. apply packet_fine_mono; [done|lia].
  - intros k p Hk. destruct Hp as [l ->]. apply lookup_app_l_Some. eauto.
  - rewrite ei_read0. destruct Hp as [l ->]. rewrite take_app_le; [done|].
    unfold len in *. lia.
  - destruct Hp as [l ->]. rewrite len_app. pose proof (len_nonneg l). lia.
  - lia.
  - lia.
Qed.

(** *** Steps of the stream *)

Definition with_st e st : Endpoint :=
  e <| ep_stream := inner st |> <| ep_socket ::= fun k => k <| sworld := world st |> |>.

Lemma ext_same_peer st st' : ext st st' -> same_peer (inner st) (inner st').
Proof. intros X. split_and!; apply X. Qed.

Lemma EndInv_PeerInv i sent psent pack e written read :
  EndInv i sent psent pack e written read -> PeerInv sent psent pack read (ep_st e).
Proof. by intros []. Qed.

(** A step that cuts off the payloads [cs] and returns the bytes [r]. *)
Lemma stream_EndInv i sent cs psent pack e written read r st' :
  EndInv i sent psent pack e written read ->
  PeerInv (sent ++ cs) psent pack (read ++ r) st' -> moved (sent ++ cs) (ep_st e) st' ->
  EndInv i (sent ++ cs) psent pack (with_st e st') (written ++ concat cs) (read ++ r).
Proof.
  intros HE [HI Hin Hfit Hrds Hrd Hack Hra Hk Hab Hpk] [X (evs & Etx & Hevs)]. pose proof (ext_same_peer _ _ X) as Hsp.
  assert (sent `prefix_of` sent ++ cs) as Hpre by by eexists.
  destruct HE. split; try done; cbn.
  - by destruct st'.
  - rewrite concat_app. congruence.
  - rewrite Etx. apply Forall_app. split; eapply Forall_impl; eauto.
    + intros ev. apply event_fine_mono; try done; apply X.
    + intros ev Hev. left. by destruct st'.
  - eapply Forall_impl; [exact ei_transmits0|]. intros t [? ?]. split; [done|].
    by eapply (transmit_fine_mono sent _ (ep_stream e)).
  - rewrite (ext_sent _ _ X). eapply Forall_impl; [exact ei_sent0|]. intros t. by apply transmit_fine_mono.
  - by rewrite (ext_remote_addr _ _ X), (ext_local_id _ _ X), (ext_remote_id _ _ X).
  - by rewrite (ext_tx_open _ _ X).
Qed.

(** One that does neither. *)
Lemma moved_EndInv i sent psent pack e written read st' :
  EndInv i sent psent pack e written read -> PeerInv sent psent pack read st' -> moved sent (ep_st e) st' ->
  EndInv i sent psent pack (with_st e st') written read.
Proof.
  intros HE HP M. pose proof (stream_EndInv i sent [] psent pack e written read [] st' HE) as Hgo.
  rewrite !app_nil_r in Hgo. by apply Hgo.
Qed.

(** The outcome of an operation that accepted and returned the bytes [wr]. *)
Definition end_post i sent psent pack e written read (wr : list byte * list Reading) (e' : Endpoint)
  : Prop :=
  (exists cs, EndInv i (sent ++ cs) psent pack e' (written ++ fst wr) (read ++ snd wr)) /\
  s_ack (ep_stream e) <= s_ack (ep_stream e').

Lemma end_post_same i sent psent pack e written read e' :
  EndInv i sent psent pack e' written read -> s_ack (ep_stream e) <= s_ack (ep_stream e') ->
  end_post i sent psent pack e written read ([], []) e'.
Proof. intros HE Ha. split; [exists []|done]. cbn. by rewrite !app_nil_r. Qed.

Lemma wp_on_stream {A} (m : Act StreamSt A) (Q : A -> Endpoint -> Prop) e :
  wp m (fun a st' => Q a (with_st e st')) (ep_st e) -> wp (on_stream m) Q e.
Proof. unfold wp, on_stream. by destruct (m (ep_st e)) as [[a st']| |]. Qed.

Lemma wp_on_socket {A} (m : Act SocketSt A) (Q : A -> Endpoint -> Prop) e :
  wp m (fun a k => Q a (e <| ep_socket := k |>)) (ep_socket e) -> wp (on_socket m) Q e.
Proof. unfold wp, on_socket. by destruct (m (ep_socket e)) as [[a k]| |]. Qed.

Lemma with_st_same e : with_st e (ep_st e) = e.
Proof. by destruct e as [? ? ? []]. Qed.

Lemma write_step i sent psent pack e written read j cx buf :
  EndInv i sent psent pack e written read ->
  len buf < 2 ^ 63 -> Room (len buf) (len buf) (ep_st e) ->
  wp (ep_run (NWrite j cx buf)) (end_post i sent psent pack e written read) e.
Proof.
  intros HE Hlen HR. cbn [ep_run]. apply wp_bind, wp_on_stream.
  eapply wp_mono; [by eapply write_moves; [eapply EndInv_PeerInv|..]|].
  intros r st' (cs & HP & M & Ea & ->). apply wp_ret. split; [exists cs|cbn in *; lia]. cbn [fst snd].
  eapply (stream_EndInv i sent cs _ _ _ _ read []); [done|by rewrite app_nil_r|done].
Qed.

Lemma read_step i sent psent pack e written read j cx (buf : B) :
  EndInv i sent psent pack e written read ->
  wp (ep_run (NRead j cx buf)) (end_post i sent psent pack e written read) e.
Proof.
  intros HE. cbn [ep_run]. apply wp_bind, wp_on_stream.
  eapply wp_mono; [by eapply read_moves, EndInv_PeerInv|].
  intros [res buf'] st' (HP & M & Ea). apply wp_ret. split; [exists []|cbn in *; lia]. cbn [fst snd] in *.
  apply (stream_EndInv i sent []); by rewrite ?app_nil_r.
Qed.

(** Operations that neither accept nor return bytes. *)
Lemma silent_step {A} (m : Act StreamSt A) i sent psent pack e written read :
  EndInv i sent psent pack e written read ->
  wp m (fun _ st' => PeerInv sent psent pack read st' /\ moved sent (ep_st e) st' /\
    s_ack (inner st') = s_ack (ep_stream e)) (ep_st e) ->
  wp (_ ← on_stream m; mret ([], [])) (end_post i sent psent pack e written read) e.
Proof.
  intros HE Hm. apply wp_bind, wp_on_stream. eapply wp_mono; [exact Hm|].
  intros a st' (HP & M & Ea). apply wp_ret, end_post_same; [by apply moved_EndInv|cbn; lia].
Qed.

Lemma close_step i sent psent pack e written read j tx :
  EndInv i sent psent pack e written read -> Room 1 0 (ep_st e) ->
  wp (ep_run (NClose j tx)) (end_post i sent psent pack e written read) e.
Proof. intros HE HR. apply silent_step; [done|]. eapply close_moves; [by eapply EndInv_PeerInv|done]. Qed.

Lemma drop_step i sent psent pack e written read j n :
  EndInv i sent psent pack e written read -> Room 1 0 (ep_st e) ->
  wp (ep_run (NDrop j n)) (end_post i sent psent pack e written read) e.
Proof. intros HE HR. apply silent_step; [done|]. eapply drop_moves; [by eapply EndInv_PeerInv|done]. Qed.

(** *** Polling the stream driver *)

(** The socket half of an endpoint changes nothing but the queue. *)
Lemma chan_EndInv i sent psent pack e written read e' :
  EndInv i sent psent pack e written read -> ep_st e' = ep_st e ->
  sock (ep_socket e') = sock (ep_socket e) -> ep_chan e' = ep_chan e ->
  (forall ev, ev ∈ ch_queue (ep_queue e') -> ev ∈ ch_queue (ep_queue e)) ->
  EndInv i sent psent pack e' written read.
Proof.
  intros [] Est Esk Ec Hq. assert (ep_stream e' = ep_stream e /\ sworld (ep_socket e') = sworld (ep_socket e))
    as [Es Ew] by (unfold ep_st in Est; by injection Est).
  split; rewrite ?Est, ?Esk, ?Ec, ?Es, ?Ew; try done.
  rewrite Forall_forall in ei_queue0 |- *. eauto.
Qed.

Lemma script_fine i sent psent pack e written read k :
  EndInv i sent psent pack e written read ->
  Forall (packet_fine psent pack) (script_packets (ep_script e k)).
Proof.
  intros HE. pose proof (ei_queue _ _ _ _ _ _ _ HE) as Hq.
  unfold script_packets, ep_script. cbn. apply Forall_map.
  eapply Forall_impl; [apply Forall_take; exact Hq|]. by intros [].
Qed.

Lemma poll_step i sent psent pack e written read j cx k timer_ready :
  let ps := script_packets (ep_script e k) in
  EndInv i sent psent pack e written read ->
  Room (len ps + 1) (len (concat (map i_buf ps))) (ep_st e) ->
  wp (ep_run (NPoll j cx k timer_ready)) (end_post i sent psent pack e written read) e.
Proof.
  intros ps HE HR. pose proof (script_fine _ _ _ _ _ _ _ k HE) as Hps. fold ps in Hps.
  cbn [ep_run]. unfold ep_poll. apply wp_bind, wp_bind, wp_get, wp_bind, wp_on_stream. eapply wp_mono.
  { eapply poll_moves; [by eapply EndInv_PeerInv|done|done|apply HE]. }
  intros r st' (HP & M & Ha). pose proof (moved_EndInv _ _ _ _ _ _ _ _ HE HP M) as HE'.
  destruct (closed_and_drained (ep_stream e)); wp_run; apply end_post_same; try done.
  - by eapply (chan_EndInv _ _ _ _ (with_st e st')).
  - eapply (chan_EndInv _ _ _ _ (with_st e st')); try done. intros ev. unfold ep_queue. cbn.
    rewrite list_lookup_alter_eq. destruct (_ !! _) as [ch|]; cbn; [|done].
    intros Hev. rewrite <- (take_drop k (ch_queue ch)). apply elem_of_app. by right.
Qed.

Lemma release_step i sent psent pack e written read j :
  EndInv i sent psent pack e written read ->
  wp (ep_run (NRelease j)) (end_post i sent psent pack e written read) e.
Proof.
  intros HE. cbn [ep_run]. unfold ep_release. wp_run. apply end_post_same; [|done].
  eapply (chan_EndInv _ _ _ _ e); try done. intros ev. unfold ep_queue. cbn.
  rewrite list_lookup_alter_eq. by destruct (_ !! _).
Qed.

(** *** Polling the socket driver *)

Definition with_socket e k : Endpoint := e <| ep_socket := k |>.

(** A message that can be routed to the stream of side [i] is a packet of the
    peer. *)
Definition msg_fine (i : side) psent pack (m : RecvMsg) : Prop :=
  forall h, from_bytes (msg_data m) = Ret (Ok h) -> h_stream_id h = id i ->
    packet_fine psent pack (mk_IncomingPacket h (drop 20 (msg_data m)) 0 (m_addr (rm_meta m))).

Lemma delivered_EndInv i sent psent pack e written read ms k :
  EndInv i sent psent pack e written read -> Forall (msg_fine i psent pack) ms ->
  delivered ms (ep_socket e) k -> EndInv i sent psent pack (with_socket e k) written read.
Proof.
  intros HE Hms D. pose proof HE as [].
  assert (StreamInv sent (ep_st (with_socket e k)) /\
    store_ext (w_store (sworld (ep_socket e))) (w_store (sworld k))) as [HI' Hst].
  { unfold ep_st. cbn. rewrite (dv_world _ _ _ D). split; [|done].
    eapply StreamInv_frame, ei_stream0; try done. eapply CtrlInv_frame, ei_stream0; try done.
    apply ei_stream0. }
  pose proof (dv_world _ _ _ D) as Ew.
  split; try done; cbn.
  - rewrite Ew. cbn. eapply Forall_impl; [exact ei_events0|]. intros ev. by apply event_fine_mono.
  - by rewrite (dv_transmits _ _ _ D).
  - by rewrite Ew.
  - unfold ep_queue. cbn. destruct (chans k !! ep_chan e) as [ch'|] eqn:Ec; [|constructor].
    destruct (dv_chans _ _ _ D _ _ Ec) as (ch & q & Hch & -> & _ & Hq).
    unfold ep_queue in ei_queue0. rewrite Hch in ei_queue0. apply Forall_app. split; [done|].
    apply Forall_map. eapply Forall_impl; [exact Hq|].
    intros p (m & h & handle & Hm & Hh & Hs & _ & ->). rewrite Forall_forall in Hms.
    cbn. apply Hms; try done. by destruct (ei_streams0 _ _ Hs).
  - intros x h Hx. apply ei_streams0. eapply lookup_weaken; [exact Hx|apply D].
  - by rewrite (dv_recv_buf _ _ _ D).
  - by rewrite Ew.
Qed.

(** Taken events become fine transmits. *)
Lemma events_transmits sent st evs :
  Forall (event_fine sent st) evs ->
  Forall (fun t => transmit_ok t /\ transmit_fine sent (inner st) t)
    (all_transmits (w_store (world st)) evs) /\
  Forall (event_ready (w_store (world st))) evs.
Proof.
  unfold all_transmits. induction 1 as [|ev evs Hev _ [IH1 IH2]]; [by split|].
  cbn [map concat]. rewrite Forall_app, Forall_cons. split_and!; try done.
  - destruct Hev as [Hev|(d & -> & Hd)].
    + destruct ev as [set|d|x]; cbn; [|done|done].
      destruct (set_transmit_fine _ _ _ Hev) as (t & -> & ? & ?). by repeat constructor.
    + cbn. constructor; [|constructor]. split; [done|]. unfold transmit_fine.
      rewrite kernel_plain by done. constructor; [by left|constructor].
  - destruct Hev as [Hev|(d & -> & Hd)]; [|done]. destruct ev as [set|d|x]; try done.
    destruct (set_transmit_fine _ _ _ Hev) as (t & Et & ? & _). by exists t.
Qed.

Lemma filled_EndInv i sent psent pack e written read evs rest k :
  EndInv i sent psent pack e written read -> filled evs rest (ep_socket e) k ->
  EndInv i sent psent pack (with_socket e k) written read.
Proof.
  intros HE F. pose proof HE as []. pose proof (fd_world _ _ _ _ F) as Ew.
  rewrite (fd_events _ _ _ _ F) in ei_events0. apply Forall_app in ei_events0 as [Hevs Hrest].
  assert (StreamInv sent (ep_st (with_socket e k))) as HI'.
  { unfold ep_st. cbn. rewrite Ew. eapply StreamInv_frame, ei_stream0; try done.
    eapply CtrlInv_frame, ei_stream0; try done. apply ei_stream0. }
  destruct (events_transmits sent (ep_st e) evs Hevs) as [Hts _].
  split; try done; cbn.
  - rewrite Ew. cbn. eapply Forall_impl; [exact Hrest|]. intros ev.
    apply event_fine_mono; try done. cbn. by rewrite Ew.
  - rewrite (fd_transmits _ _ _ _ F). by apply Forall_app.
  - by rewrite Ew.
  - destruct (fd_chans _ _ _ _ F) as [_ Hq]. unfold ep_queue in *. cbn.
    destruct (chans k !! ep_chan e) as [ch'|] eqn:Ec; [|constructor].
    destruct (Hq _ _ Ec) as (ch & Hch & -> & _). by rewrite Hch in ei_queue0.
  - intros x h. rewrite (fd_streams _ _ _ _ F). case_decide; [done|]. apply ei_streams0.
  - pose proof (fd_control _ _ _ _ F). destruct_and!. congruence.
  - by rewrite Ew.
Qed.

Lemma stamped_store_ext ls (s s' : list Packet) : stamped ls s s' -> store_ext s s'.
Proof.
  intros Hs l p Hp. destruct (Hs l p Hp) as (c & Hc & _). eexists. split; [exact Hc|apply restamped_ext].
Qed.

(** Stamping packets does not disturb a stream. *)
Lemma stamped_undisturbed ls s (w w' : World) : stamped ls (w_store w) (w_store w') -> undisturbed s w w'.
Proof.
  intros Hs. split; [by eapply stamped_store_ext|]. intros k l p _ Hp. destruct (Hs l p Hp) as (c & Hc & _). by exists c.
Qed.

Lemma sending_EndInv i sent psent pack e written read k :
  EndInv i sent psent pack e written read -> sending (ep_socket e) k ->
  EndInv i sent psent pack (with_socket e k) written read.
Proof.
  intros HE S. pose proof HE as []. pose proof (sd_world _ _ S) as Ew.
  destruct (sd_store _ _ S) as [ls Hst]. destruct (sd_queue _ _ S) as (n & Et & Esent & _).
  assert (StreamInv sent (ep_st (with_socket e k))) as HI'
    by (eapply StreamInv_world; [exact ei_stream0|by eapply stamped_undisturbed|cbn; rewrite Ew; apply ei_stream0..]).
  split; try done; cbn.
  - rewrite Ew. cbn. eapply Forall_impl; [exact ei_events0|]. intros ev.
    apply event_fine_mono; try done. by eapply stamped_store_ext.
  - rewrite Et. by apply Forall_drop.
  - rewrite Esent. apply Forall_app. split; [done|].
    eapply Forall_take, Forall_impl; [exact ei_transmits0|]. by intros t [].
  - unfold ep_queue in *. cbn. by rewrite (sd_chans _ _ S).
  - by rewrite (sd_streams _ _ S).
  - by rewrite (sd_recv_buf _ _ S).
  - by rewrite Ew.
Qed.

Lemma idle_EndInv i sent psent pack e written read k :
  EndInv i sent psent pack e written read -> idle (ep_socket e) k ->
  EndInv i sent psent pack (with_socket e k) written read.
Proof.
  intros HE Hi. pose proof (id_sock _ _ Hi) as Es. eapply (delivered_EndInv _ _ _ _ _ _ _ []); [done|constructor|].
  apply delivered_quiet; try (by rewrite Es); [by rewrite (id_chans _ _ Hi)|apply Hi].
Qed.

Lemma socket_step i sent psent pack e written read j cx rx timer_ready ss :
  EndInv i sent psent pack e written read ->
  Forall (Forall msg_ok) (rb_batches rx) -> Forall (msg_fine i psent pack) (concat (rb_batches rx)) ->
  send_script_ok ss ->
  RxRoom (BATCH_SIZE * MAX_LOOP) (UDX_MTU * BATCH_SIZE * MAX_LOOP) (ep_socket e) ->
  TxRoom (tx_total (k_outgoing_transmits (sock (ep_socket e)) ++
    all_transmits (w_store (sworld (ep_socket e))) (w_tx (sworld (ep_socket e)))))
    (k_stats (sock (ep_socket e))) ->
  wp (ep_run (NSocket j cx rx timer_ready ss)) (end_post i sent psent pack e written read) e.
Proof.
  intros HE Hok Hfine Hss HR HT. cbn [ep_run]. apply wp_bind, wp_on_socket. eapply wp_mono.
  { apply socket_driver_wp; try done; try apply HE.
    - apply (events_transmits sent (ep_st e)). apply HE.
    - eapply Forall_impl; [apply HE|]. by intros t []. }
  intros r k ((k1 & k2 & k3 & evs & rest & [D _] & F & S & Hi) & _). apply wp_ret, end_post_same; [|done].
  eapply delivered_EndInv in HE; [|exact Hfine|exact D].
  eapply (filled_EndInv _ _ _ _ _ _ _ _ _ k2) in HE; [|exact F].
  eapply (sending_EndInv _ _ _ _ _ _ _ k3) in HE; [|exact S].
  by eapply (idle_EndInv _ _ _ _ _ _ _ k) in HE.
Qed.

Lemma send_step i sent psent pack e written read j dest buf :
  EndInv i sent psent pack e written read -> harmless buf ->
  wp (ep_run (NSend j dest buf)) (end_post i sent psent pack e written read) e.
Proof.
  intros HE Hh. cbn [ep_run]. apply wp_bind, wp_on_socket. unfold socket_send. apply wp_bind, wp_on_sworld.
  unfold send_event. wp_run; [|pose proof (ei_open _ _ _ _ _ _ _ HE); congruence].
  apply end_post_same; [|done]. pose proof HE as []. split; try done; cbn.
  - eapply StreamInv_frame, ei_stream0; try done. eapply CtrlInv_frame, ei_stream0; try done.
    apply ei_stream0.
  - apply Forall_app. split; [eapply Forall_impl; [exact ei_events0|]; intros ev; by apply event_fine_mono|].
    constructor; [|constructor]. right. by eexists.
Qed.

(** [recv] and dropping a handle of the socket do not touch the stream. *)
Lemma recv_step i sent psent pack e written read j cx :
  EndInv i sent psent pack e written read ->
  wp (ep_run (NRecv j cx)) (end_post i sent psent pack e written read) e.
Proof.
  intros HE. cbn [ep_run]. apply wp_bind, wp_on_socket. unfold recv_poll. so_run.
  assert (forall k, delivered [] (ep_socket e) k -> end_post i sent psent pack e written read ([], [])
    (with_socket e k)) as Hgo.
  { intros k D. apply end_post_same; [|done]. by eapply delivered_EndInv. }
  destruct (k_recv_dgrams _); so_run; apply Hgo, delivered_quiet; try done; apply sworld_woken_same.
Qed.

Lemma drop_socket_step i sent psent pack e written read j n :
  EndInv i sent psent pack e written read ->
  wp (ep_run (NDropSocket j n)) (end_post i sent psent pack e written read) e.
Proof.
  intros HE. cbn [ep_run]. apply wp_bind, wp_on_socket. unfold drop_socket.
  assert (forall k, delivered [] (ep_socket e) k -> end_post i sent psent pack e written read ([], [])
    (with_socket e k)) as Hgo.
  { intros k D. apply end_post_same; [|done]. by eapply delivered_EndInv. }
  so_run; apply Hgo, delivered_quiet; try done; apply sworld_woken_same.
Qed.

Lemma halt_gso_step i sent psent pack e written read j :
  EndInv i sent psent pack e written read ->
  wp (ep_run (NHaltGso j)) (end_post i sent psent pack e written read) e.
Proof.
  intros HE. cbn [ep_run]. apply wp_bind, wp_on_socket. unfold halt_gso. wp_run.
  apply end_post_same; [|done]. pose proof HE as []. split; try done; cbn.
  pose proof (inv_gso _ (inv_ctrl _ _ ei_stream0)) as Hg. cbn in Hg.
  eapply StreamInv_world; [exact ei_stream0|by eapply (stamped_undisturbed []), stamped_nil|apply ei_stream0|].
  cbn. destruct (Z.gtb_spec (w_max_gso_segments (sworld (ep_socket e))) 1); lia.
Qed.

(** ** The whole system *)

Definition NetInv (n : Net) (sent : side -> list (list byte)) : Prop :=
  forall i, EndInv i (sent i) (sent (negb i)) (s_ack (ep_stream (net_ep n (negb i)))) (net_ep n i)
    (net_written n i) (net_reads n i).

Lemma upd_same {A} (f : side -> A) i a : upd f i a i = a.
Proof. unfold upd. by destruct i. Qed.

Lemma upd_other {A} (f : side -> A) i a : upd f i a (negb i) = f (negb i).
Proof. unfold upd. by destruct i. Qed.

Lemma side_cases i j : j = i \/ j = negb i.
Proof. destruct i, j; auto. Qed.

(** Cutting a datagram does not change its header. *)
Lemma from_bytes_take d n h : from_bytes (take n d) = Ret (Ok h) -> from_bytes d = Ret (Ok h).
Proof.
  intros (Hw & rest & E)%from_bytes_Ok_inv. rewrite <- (take_drop n d), E, <- app_assoc.
  by apply from_bytes_header_bytes.
Qed.

Lemma genuine_len sent s d : genuine sent s d -> take (Z.to_nat UDX_MTU) d = d.
Proof. intros (h & body & _ & _ & Hlen & _). apply take_ge. unfold len in Hlen. lia. Qed.

Hypothesis addr_inj : addr true <> addr false.

Lemma deliverable_fine n (sent : side -> list (list byte)) i m :
  NetInv n sent -> deliverable addr id n i m ->
  msg_fine i (sent (negb i)) (s_ack (ep_stream (net_ep n (negb i)))) m.
Proof.
  intros HN (_ & d & Ed & Hd) h Hh Hid. rewrite Ed in *.
  apply from_bytes_take in Hh as Hh'. destruct Hd as [Hf|(j & t & Ht & Hdst & Hin)].
  { by destruct (Hf h Hh'). }
  pose proof (ei_sent _ _ _ _ _ _ _ (HN j)) as Hs. rewrite Forall_forall in Hs.
  specialize (Hs t Ht). unfold transmit_fine in Hs. rewrite Forall_forall in Hs.
  destruct (Hs d Hin) as [Hharm|[Hg Hdst']]; [by destruct (Hharm h)|].
  destruct (ei_peer _ _ _ _ _ _ _ (HN j)) as [Hpa _].
  assert (j = negb i) as ->.
  { destruct i, j; try done; exfalso; apply addr_inj; cbn in *; congruence. }
  rewrite (genuine_len _ _ _ Hg) in *. by apply genuine_packet.
Qed.

(** Every operation is carried out and keeps the invariant of its endpoint. *)
Lemma op_step n (sent : side -> list (list byte)) op :
  NetInv n sent -> net_ok addr id n op ->
  let i := op_side op in
  wp (ep_run op) (end_post i (sent i) (sent (negb i)) (s_ack (ep_stream (net_ep n (negb i))))
    (net_ep n i) (net_written n i) (net_reads n i)) (net_ep n i).
Proof.
  intros HN Hok i. pose proof (HN i) as HE. unfold net_ok in Hok. fold i in Hok.
  destruct op; cbn [op_side] in i; subst i.
  - destruct Hok. by apply write_step.
  - by apply read_step.
  - by apply close_step.
  - by apply drop_step.
  - destruct Hok. by apply poll_step.
  - by apply release_step.
  - destruct Hok as (Hd & Hss & HR & HT). apply socket_step; try done.
    + eapply Forall_impl; [exact Hd|]. intros ms Hms. eapply Forall_impl; [exact Hms|]. by intros m [? _].
    + apply Forall_concat. eapply Forall_impl; [exact Hd|]. intros ms Hms.
      eapply Forall_impl; [exact Hms|]. intros m. by apply deliverable_fine.
  - by apply send_step.
  - by apply recv_step.
  - by apply drop_socket_step.
  - by apply halt_gso_step.
Qed.

Lemma net_step_grows n (sent : side -> list (list byte)) op :
  NetInv n sent -> net_ok addr id n op ->
  exists n' (sent' : side -> list (list byte)), net_run op n = Ret n' /\ NetInv n' sent' /\
    forall j, sent j `prefix_of` sent' j.
Proof.
  intros HN Hok. set (i := op_side op).
  destruct (wp_elim _ _ _ (op_step n sent op HN Hok)) as ([w r] & e' & E & [cs HE'] & Ha). fold i in HE', E, Ha.
  exists (mk_Net (upd (net_ep n) i e') (upd (net_written n) i (net_written n i ++ w))
             (upd (net_reads n) i (net_reads n i ++ r))), (upd sent i (sent i ++ cs)).
  split_and!; [unfold net_run; fold i; by rewrite E| |].
  - intros j. destruct (side_cases i j) as [-> | ->]; cbn.
    + by rewrite !upd_same, !upd_other.
    + rewrite !upd_other, !negb_involutive, !upd_same.
      eapply EndInv_peer; [| |]; [by eexists|split; [exact Ha|]|].
      { pose proof (ei_ack _ _ _ _ _ _ _ HE') as Hle. 
        pose proof (inv_seq _ _ (ei_stream _ _ _ _ _ _ _ (HN (negb i)))) as Es. cbn in Es. by rewrite Es. } specialize (HN (negb i)). by rewrite negb_involutive in HN.
  - intros j. destruct (side_cases i j) as [-> | ->]; [rewrite upd_same; by eexists|by rewrite upd_other].
Qed.

Lemma net_step_inv n (sent : side -> list (list byte)) op :
  NetInv n sent -> net_ok addr id n op ->
  exists n' (sent' : side -> list (list byte)), net_run op n = Ret n' /\ NetInv n' sent'.
Proof.
  intros HN Hok. destruct (net_step_grows n sent op HN Hok) as (n' & sent' & ? & ? & _). by exists n', sent'.
Qed.

(** A world in which nothing has happened yet. *)
Record world_fresh (w : World) : Prop := {
  wf_tx : w_tx w = [];
  wf_sent : w_sent w = [];
  wf_open : w_tx_open w = true;
  wf_clock : forall n, 0 <= w_clock w n <= CLOCK_BOUND;
  wf_gso : 1 <= w_max_gso_segments w;
}.

Lemma endpoint_EndInv i w :
  world_fresh w -> 0 <= id (negb i) < u32_modulus ->
  exists e, endpoint (addr i) (addr (negb i)) (id i) (id (negb i)) w = Ret e /\
    s_ack (ep_stream e) = 0 /\ EndInv i [] [] 0 e [] [].
Proof.
  intros [] Hid. eexists. split; [reflexivity|]. split; [done|].
  split; try done; cbn; rewrite ?wf_tx0, ?wf_sent0; try done.
  - by apply connect_StreamInv.
  - intros. lia.
  - intros k [l Hk]. by rewrite lookup_empty in Hk.
  - intros x h Hx. apply lookup_insert_Some in Hx as [[<- <-]|[_ Hx]]; [done|].
    by rewrite lookup_empty in Hx.
Qed.

Context (w : side -> World).
Hypothesis worlds_fresh : forall i, world_fresh (w i).
Hypothesis ids_u32 : forall i, 0 <= id i < u32_modulus.

Lemma start_inv : exists n, net_start addr id w = Ret n /\ NetInv n (fun _ => []).
Proof.
  destruct (endpoint_EndInv true (w true)) as (a & Ea & Aa & HA); [done|apply ids_u32|].
  destruct (endpoint_EndInv false (w false)) as (b & Eb & Ab & HB); [done|apply ids_u32|].
  cbn in Ea, Eb. unfold net_start. rewrite Ea. cbn [mbind outcome_bind]. rewrite Eb.
  cbn [mbind outcome_bind]. eexists. split; [done|].
  intros []; cbn; [by rewrite Ab|by rewrite Aa].
Qed.

Lemma reachable_inv n : net_reachable addr id w n -> exists sent : side -> list (list byte), NetInv n sent.
Proof.
  induction 1 as [n Hn|n op n' _ [sent IH] Hok Hrun].
  - destruct start_inv as (n0 & E & HN). rewrite Hn in E. injection E as ->. by eexists.
  - destruct (net_step_inv n sent op IH Hok) as (n2 & sent' & E & HN). rewrite Hrun in E.
    injection E as ->. by eexists.
Qed.

(** ** End-to-end properties *)

(** What a side has taken is a prefix of what the other side has written. *)
Lemma taken_prefix n (sent : side -> list (list byte)) i :
  NetInv n sent -> net_taken n i `prefix_of` net_written n (negb i).
Proof.
  intros HN. rewrite <- (ei_written _ _ _ _ _ _ _ (HN (negb i))).
  exists (unread (ep_stream (net_ep n i)) ++
    concat (drop (Z.to_nat (s_ack (ep_stream (net_ep n i)))) (sent (negb i)))).
  unfold net_taken. rewrite app_assoc, (ei_read _ _ _ _ _ _ _ (HN i)), <- concat_app. by rewrite take_drop.
Qed.

(** C4: end-to-end integrity.  Two streams are connected over a network that may
    lose, duplicate, delay and reorder every datagram and deliver anything
    from third parties that does not name their streams.  Whatever the two
    applications, the drivers, the timers and the operating systems do:
    the bytes that reads took from one side are at every moment a prefix of
    what the other side has written, and the bytes that they returned are some
    of these in their order, so no byte is invented, duplicated or reordered.
    A byte can only be lost between [poll_read] and its caller, by a call that
    fills a buffer smaller than a packet and does not return [Ready(Ok)]; when
    all buffers hold [UDX_MAX_DATA_SIZE] bytes, what the reads returned is
    itself a prefix of what was written. *)
Theorem stream_delivers_prefix n i :
  net_reachable addr id w n ->
  net_taken n i `prefix_of` net_written n (negb i) /\
  net_read n i `sublist_of` net_written n (negb i) /\
  Forall sound_reading (net_reads n i) /\
  (Forall (fun r => UDX_MAX_DATA_SIZE <= re_room r) (net_reads n i) ->
   net_read n i `prefix_of` net_written n (negb i)).
Proof.
  intros [sent HN]%reachable_inv. apply faithful_reads; [|by eapply taken_prefix].
  apply (ei_reads _ _ _ _ _ _ _ (HN i)).
Qed.

(** C5: reliability.  The acknowledgements a stream has seen never exceed what
    its peer has received, and the peer never acknowledges more than was sent.
    The bytes written are the payloads of the packets 0, 1, 2, ...; the peer
    has exactly the payloads below its acknowledgement, read or ready to be
    read; and every packet that the peer has not acknowledged is still in the
    retransmission table of the sender with its payload.  So a lost packet is
    never forgotten, and once everything is acknowledged everything has
    arrived. *)
Theorem unacknowledged_payloads_kept n i :
  net_reachable addr id w n ->
  let s := ep_stream (net_ep n i) in
  let peer := ep_stream (net_ep n (negb i)) in
  s_remote_acked s <= s_ack peer <= s_seq s /\
  exists payloads, concat payloads = net_written n i /\ len payloads = s_seq s /\
    net_taken n (negb i) ++ unread peer = concat (take (Z.to_nat (s_ack peer)) payloads) /\
    forall k, s_ack peer <= k < s_seq s ->
      exists l p body, s_outgoing s !! k = Some l /\
        w_store (sworld (ep_socket (net_ep n i))) !! l = Some p /\
        payloads !! Z.to_nat k = Some body /\ h_seq (p_header p) = k /\
        as_slice (p_buf p) = header_bytes (p_header p) ++ body.
Proof.
  intros [sent HN]%reachable_inv s peer. pose proof (HN i) as HE.
  pose proof (HN (negb i)) as HE'. rewrite negb_involutive in HE'.
  pose proof (ei_stream _ _ _ _ _ _ _ HE) as HI. pose proof (inv_seq _ _ HI) as Hseq. cbn in Hseq.
  pose proof (ei_acked _ _ _ _ _ _ _ HE). pose proof (ei_ack _ _ _ _ _ _ _ HE').
  split; [subst s peer; lia|]. exists (sent i). split_and!; [apply HE|done|apply HE'|].
  intros k Hk. destruct (ei_kept _ _ _ _ _ _ _ HE k) as [l Hl]; [subst s peer; lia|].
  destruct (inv_out _ _ HI k l Hl) as (_ & p & Hp & _ & (_ & body & Hb & _ & Hs) & Hsq & _).
  exists l, p, body. rewrite <- Hsq at 2. by split_and!.
Qed.

(** C7: the state of a stream is coherent at every moment.  The retransmission
    table holds exactly the packets from the last acknowledgement seen up to
    the next sequence number, each under its own number; [inflight] is the sum
    of the packets of the table that do not wait for their retransmission, and
    the statistics agree with the table; the reassembly map holds everything
    between the read cursor and [ack] but not [ack] itself, each packet under
    its own number and only the one at the cursor partly read; the window and
    the timeout keep their minimum; and the stream is closed locally exactly
    when it has an error. *)
Theorem stream_state_coherent n i :
  net_reachable addr id w n ->
  let s := ep_stream (net_ep n i) in
  let store := w_store (sworld (ep_socket (net_ep n i))) in
  (forall k, is_Some (s_outgoing s !! k) <-> s_remote_acked s <= k < s_seq s) /\
  (forall k l, s_outgoing s !! k = Some l -> exists p, store !! l = Some p /\ h_seq (p_header p) = k /\
     h_typ (p_header p) = UDX_HEADER_DATA /\ 0 <= p_transmits p <= UDX_MAX_TRANSMITS + 1) /\
  (s_inflight s = out_sum store flight_len (s_outgoing s) /\
   inflight_bytes (s_stats s) = out_sum store Packet_data_len (s_outgoing s) /\
   inflight_packets (s_stats s) = Z.of_nat (size (s_outgoing s))) /\
  (forall k p, s_incoming s !! k = Some p -> s_read_cursor s <= k /\ i_seq p = k /\
     0 <= i_read_offset p <= len (i_buf p) /\ (i_read_offset p <> 0 -> k = s_read_cursor s)) /\
  (forall k, s_read_cursor s <= k < s_ack s -> is_Some (s_incoming s !! k)) /\ s_incoming s !! s_ack s = None /\
  UDX_MTU <= s_cwnd s /\ from_millis 1000 <= s_rto s /\
  (local_closed (s_state s) = true <-> is_Some (s_error s)).
Proof.
  intros [sent HN]%reachable_inv s store. pose proof (HN i) as HE. pose proof (ei_stream _ _ _ _ _ _ _ HE) as HI.
  destruct HI as [HS HR HC]. split_and!; try apply HS; try apply HR; try apply HC.
  - intros k. split; [intros Hk|apply HE]. split; [by apply HE|].
    destruct Hk as [l Hl]. apply (inv_out _ _ HS k l Hl).
  - intros k l Hl. destruct (inv_out _ _ HS k l Hl) as (_ & p & Hp & _ & (Ht & _) & Hk & Htr & _). by exists p.
Qed.

(** C6: safety of the whole system.  In every reachable state every enabled
    operation of either side returns: no panic, no overflow, no failed unwrap
    and no loop that does not end, in the streams, the sockets and what they
    share. *)
Theorem network_never_panics n op :
  net_reachable addr id w n -> net_ok addr id n op -> exists n', net_run op n = Ret n'.
Proof.
  intros [sent HN]%reachable_inv Hok. destruct (net_step_inv n sent op HN Hok) as (n' & _ & E & _).
  by exists n'.
Qed.

(** What an operation leaves behind. *)
Lemma net_run_eq op n wr e :
  ep_run op (net_ep n (op_side op)) = Ret (wr, e) ->
  net_run op n = Ret (mk_Net (upd (net_ep n) (op_side op) e)
    (upd (net_written n) (op_side op) (net_written n (op_side op) ++ fst wr))
    (upd (net_reads n) (op_side op) (net_reads n (op_side op) ++ snd wr))).
Proof. unfold net_run. intros ->. by destruct wr. Qed.

End inv.

(** ** The properties at work *)

(** Segmentation as the kernel documents it. *)
Fixpoint split_segments (fuel : nat) (sz : Z) (l : list byte) : list (list byte) :=
  match fuel, l with
  | O, _ | _, [] => []
  | Datatypes.S fuel, _ => take (Z.to_nat sz) l :: split_segments fuel sz (drop (Z.to_nat sz) l)
  end.

#[local] Instance udp_segment : KernelGso := fun t =>
  match t_segment_size t, t_contents t with
  | None, l => [l]
  | Some _, [] => [[]]
  | Some sz, l => split_segments (length l) sz l
  end.

Lemma split_segments_uniform fuel sz bs :
  0 < sz -> Forall (fun b => len b = sz) bs -> (length (concat bs) <= fuel)%nat ->
  split_segments fuel sz (concat bs) = bs.
Proof.
  intros Hsz Hbs. revert fuel. induction Hbs as [|b bs Hb _ IH]; intros fuel Hf; [by destruct fuel|].
  destruct b as [|x b]; [change (len []) with 0 in Hb; lia|].
  destruct fuel as [|fuel]; [cbn in Hf; lia|]. cbn [concat].
  assert (Z.to_nat sz = length (x :: b)) as Ez by (unfold len in Hb; lia).
  cbn [split_segments app]. change (x :: b ++ concat bs) with ((x :: b) ++ concat bs).
  rewrite Ez, take_app_length, drop_app_length. f_equal. apply IH.
  cbn [concat] in Hf. rewrite length_app in Hf. cbn in Hf. lia.
Qed.

#[local] Instance udp_segment_laws : KernelGsoLaws.
Proof.
  split; unfold kernel_segments, udp_segment.
  - by intros t ->.
  - intros t sz bs -> Hsz Hbs Hne Ec. rewrite Ec. destruct (concat bs) as [|x l] eqn:E.
    + destruct bs as [|[|y b] bs]; [done| |done].
      apply Forall_cons_1 in Hbs as [Hb _]. change (len []) with 0 in Hb. lia.
    + rewrite <- E. by apply split_segments_uniform.
  - intros t ->. destruct (t_segment_size t); by repeat constructor.
Qed.

#[local] Existing Instance option_instant.
#[local] Existing Instance option_instant_laws.
#[local] Instance net_profile : Profile := mk_Profile true true.

(** Two endpoints; side [true] writes two bytes, its first datagram is lost and
    the second one arrives twice. *)
Definition two_addrs (i : side) : SocketAddr := if i then here else there.
Definition two_ids (i : side) : Z := if i then 9 else 7.
Definition two_worlds (i : side) : World := fresh_world 4.

Definition word : list byte := [Byte.x68; Byte.x69].

(** The operating system takes everything. *)
Definition sends_all : SendScript := mk_SendScript 32 (fun ts => Ready (Ok (len ts))).

Definition nothing : RecvBatches := mk_RecvBatches [] None.

Definition data_msg : RecvMsg :=
  let d := header_bytes (mk_Header 1 0 7 U32_MAX 0 0) ++ word in
  mk_RecvMsg (mk_RecvMeta here 22 None None) (d ++ replicate 1378 Byte.x00).

Definition demo_net_op := net_op (B := list byte * Z).

Definition demo_ops : list demo_net_op :=
  [NWrite true 1%nat word;
   NPoll true 2%nat 10 false;
   NSocket true 3%nat nothing false sends_all;
   NSocket false 4%nat (mk_RecvBatches [[data_msg; data_msg]] None) false sends_all;
   NPoll false 5%nat 10 false;
   NRead false 6%nat ([], 1500)].

(** *** Checking a run by computation *)

Definition room_b (n b : Z) (st : StreamSt) : bool :=
  let s := inner st in
  (s_seq s + n <=? U32_MAX) &&
  (s_read_cursor s + Z.of_nat (size (s_incoming s)) + n <=? U32_MAX) &&
  (s_cwnd s + UDX_MTU * n <? usize_modulus) &&
  ((0 <=? tx_packets (s_stats s)) && (tx_packets (s_stats s) + 2 * n + 1 <? usize_modulus)) &&
  ((0 <=? tx_bytes (s_stats s)) && (tx_bytes (s_stats s) + b <? usize_modulus)) &&
  ((0 <=? rx_packets (s_stats s)) && (rx_packets (s_stats s) + n <? usize_modulus)) &&
  ((0 <=? rx_bytes (s_stats s)) && (rx_bytes (s_stats s) + b <? usize_modulus)).

Lemma room_b_spec n b st : room_b n b st = true -> Room n b st.
Proof. unfold room_b. intros Hr. b2p. by split. Qed.

Definition fits_b (a c : Z) : bool := (0 <=? a) && (a + c <? usize_modulus).

Lemma fits_b_spec a c : fits_b a c = true -> 0 <= a /\ a + c < usize_modulus.
Proof. unfold fits_b. intros Hr. by b2p. Qed.

Definition deliverable_b (n : Net) (i : side) (m : RecvMsg) : bool :=
  (len (rm_iov m) =? UDX_MTU) && (0 <=? m_len (rm_meta m)) && (m_len (rm_meta m) <=? UDX_MTU) &&
  existsb (fun j => existsb (fun t => bool_decide (t_destination t = two_addrs i) &&
      existsb (fun d => bool_decide (msg_data m = take (Z.to_nat UDX_MTU) d)) (kernel_segments t))
    (w_sent (sworld (ep_socket (net_ep n j))))) [true; false].

Lemma deliverable_b_spec n i m : deliverable_b n i m = true -> deliverable two_addrs two_ids n i m.
Proof.
  unfold deliverable_b. intros Hd. apply andb_prop in Hd as [Hd Hex]. b2p. split; [by split|].
  apply existsb_exists in Hex as (j & _ & Hex). apply existsb_exists in Hex as (t & Ht & Hex).
  apply andb_prop in Hex as [Hdst%bool_decide_eq_true Hex].
  apply existsb_exists in Hex as (d & Hin & Ed%bool_decide_eq_true).
  exists d. split; [done|]. right. exists j, t. by split_and!; [apply list_elem_of_In| |apply list_elem_of_In].
Qed.

Definition stats_b (c : Z) (t : SocketStats) : bool :=
  fits_b (so_tx_bytes t) c && fits_b (so_tx_transmits t) c && fits_b (so_tx_dgrams t) c &&
  fits_b (so_tx_window_bytes t) c && fits_b (so_tx_window_dgrams t) c.

(** The decidable part of [net_ok], for the operations of the examples. *)
Definition net_ok_b (n : Net) (op : demo_net_op) : bool :=
  let e := net_ep n (op_side op) in
  let k := ep_socket e in
  match op with
  | NWrite _ _ buf => (len buf <? 2 ^ 63) && room_b (len buf) (len buf) (ep_st e)
  | NRead _ _ _ | NRecv _ _ | NDropSocket _ _ | NHaltGso _ => true
  | NClose _ _ | NDrop _ _ => room_b 1 0 (ep_st e)
  | NPoll _ _ m _ =>
      let ps := script_packets (ep_script e m) in
      ep_running e && room_b (len ps + 1) (len (concat (map i_buf ps))) (ep_st e)
  | NRelease _ => negb (ep_running e)
  | NSocket i _ rx _ _ =>
      forallb (forallb (deliverable_b n i)) (rb_batches rx) &&
      fits_b (so_rx_bytes (k_stats (sock k))) (UDX_MTU * BATCH_SIZE * MAX_LOOP) &&
      fits_b (so_rx_dgrams (k_stats (sock k))) (BATCH_SIZE * MAX_LOOP) &&
      stats_b (tx_total (k_outgoing_transmits (sock k) ++
        all_transmits (w_store (sworld k)) (w_tx (sworld k)))) (k_stats (sock k))
  | NSend _ _ _ => false
  end.

Definition script_ok (op : demo_net_op) : Prop :=
  match op with NSocket _ _ _ _ ss => send_script_ok ss | _ => True end.

Lemma net_ok_b_spec n op : script_ok op -> net_ok_b n op = true -> net_ok two_addrs two_ids n op.
Proof.
  destruct op; cbn [net_ok_b script_ok]; intros Hss Hok; unfold net_ok; cbn [op_side] in *; try done.
  - b2p. split; [done|]. by apply room_b_spec.
  - by apply room_b_spec.
  - by apply room_b_spec.
  - b2p. split; [done|]. by apply room_b_spec.
  - by b2p.
  - apply andb_prop in Hok as [Hok Hst]. apply andb_prop in Hok as [Hok Hd].
    apply andb_prop in Hok as [Hm Hb]. apply fits_b_spec in Hd, Hb. split_and!; [|done|by split|].
    + apply Forall_forall. intros ms Hms. apply Forall_forall. intros m Hin.
      apply deliverable_b_spec. rewrite forallb_forall in Hm.
      apply list_elem_of_In in Hms, Hin. specialize (Hm ms Hms). rewrite forallb_forall in Hm. auto.
    + unfold stats_b in Hst. rewrite !andb_true_iff in Hst.
      destruct Hst as ((((? & ?) & ?) & ?) & ?). unfold TxRoom. repeat (split; [by apply fits_b_spec|]). by apply fits_b_spec.
Qed.

(** Runs enabled operations. *)
Fixpoint check_run (ops : list demo_net_op) (n : Net) : option Net :=
  match ops with
  | [] => Some n
  | op :: ops =>
      if net_ok_b n op then
        match net_run op n with Ret n' => check_run ops n' | _ => None end
      else None
  end.

Abbreviation demo_reachable := (net_reachable (B := list byte * Z) two_addrs two_ids two_worlds).

Lemma check_run_reachable ops n n' :
  demo_reachable n -> Forall script_ok ops -> check_run ops n = Some n' -> demo_reachable n'.
Proof.
  intros HR Hs. revert n HR. induction Hs as [|op ops Hop _ IH]; intros n HR E; cbn in E; [congruence|].
  destruct (net_ok_b n op) eqn:Eok; [|done]. destruct (net_run op n) as [n1| |] eqn:E1; try done.
  apply (IH n1); [|done]. eapply reach_step; [done|by apply net_ok_b_spec|done].
Qed.

Lemma sends_all_ok : send_script_ok sends_all.
Proof. intros ts n [= <-]. pose proof (len_nonneg ts). lia. Qed.

Definition demo_net0 : Net :=
  match net_start two_addrs two_ids two_worlds with
  | Ret n => n
  | _ => mk_Net (fun _ => mk_Endpoint (connect 0 here 0 0) 0 true (mk_SocketSt (bind here) [] (fresh_world 4)))
           (fun _ => []) (fun _ => [])
  end.

Definition demo_net (ops : list demo_net_op) : Net :=
  match check_run ops demo_net0 with Some n => n | None => demo_net0 end.

Lemma demo_net_reachable ops : Forall script_ok ops -> demo_reachable (demo_net ops).
Proof.
  intros Hs. assert (demo_reachable demo_net0) as H0 by (apply reach_start; reflexivity).
  unfold demo_net. destruct (check_run ops demo_net0) eqn:E; [by eapply check_run_reachable|done].
Qed.

Lemma demo_scripts : Forall script_ok demo_ops.
Proof. do 6 (constructor; [apply sends_all_ok || exact I|]). constructor. Qed.

Lemma two_addrs_inj : two_addrs true <> two_addrs false.
Proof. discriminate. Qed.

Lemma two_worlds_fresh i : world_fresh (two_worlds i).
Proof. split; try done. apply fresh_clock. Qed.

Lemma two_ids_u32 i : 0 <= two_ids i < u32_modulus.
Proof. unfold u32_modulus. destruct i; cbn; lia. Qed.

(** A first read into a buffer of one byte: its byte is not returned. *)
Definition spilling_ops : list demo_net_op :=
  take 5 demo_ops ++ [NRead false 6%nat ([], 1); NRead false 6%nat ([], 1500)].

Lemma spilling_scripts : Forall script_ok spilling_ops.
Proof. apply Forall_app. split; [apply Forall_take, demo_scripts|by repeat constructor]. Qed.

(** With large buffers the two bytes are read; after a small one, only the
    second of them. *)
Lemma stream_delivers_prefix_witness :
  net_read (demo_net demo_ops) false = word /\
  net_read (demo_net demo_ops) false `prefix_of` net_written (demo_net demo_ops) true /\
  net_read (demo_net spilling_ops) false = [Byte.x69] /\
  net_read (demo_net spilling_ops) false `sublist_of` net_written (demo_net spilling_ops) true.
Proof.
  split; [vm_compute; reflexivity|]. split; [|split; [vm_compute; reflexivity|]].
  - apply (stream_delivers_prefix two_addrs two_ids two_addrs_inj two_worlds two_worlds_fresh two_ids_u32
      (demo_net demo_ops) false (demo_net_reachable demo_ops demo_scripts)).
    assert (map re_room (net_reads (demo_net demo_ops) false) = [1500]) as E by (vm_compute; reflexivity).
    apply (proj1 (Forall_fmap re_room (fun z => UDX_MAX_DATA_SIZE <= z) _)).
    change (re_room <$> ?l) with (map re_room l). rewrite E. repeat constructor. vm_compute; discriminate.
  - apply (stream_delivers_prefix two_addrs two_ids two_addrs_inj two_worlds two_worlds_fresh two_ids_u32
      (demo_net spilling_ops) false (demo_net_reachable spilling_ops spilling_scripts)).
Defined.

Lemma unacknowledged_payloads_kept_witness :
  s_ack (ep_stream (net_ep (demo_net (take 3 demo_ops)) false)) = 0 /\
  s_seq (ep_stream (net_ep (demo_net (take 3 demo_ops)) true)) = 1 /\
  exists l, s_outgoing (ep_stream (net_ep (demo_net (take 3 demo_ops)) true)) !! 0 = Some l.
Proof.
  assert (s_ack (ep_stream (net_ep (demo_net (take 3 demo_ops)) false)) = 0) as Ha
    by (vm_compute; reflexivity).
  assert (s_seq (ep_stream (net_ep (demo_net (take 3 demo_ops)) true)) = 1) as Hs
    by (vm_compute; reflexivity).
  split; [exact Ha|]. split; [exact Hs|].
  destruct (unacknowledged_payloads_kept two_addrs two_ids two_addrs_inj two_worlds two_worlds_fresh two_ids_u32
    (demo_net (take 3 demo_ops)) true (demo_net_reachable _ (Forall_take _ 3 _ demo_scripts)))
    as [_ (bodies & _ & _ & _ & Hk)].
  destruct (Hk 0) as (l & _ & _ & Hl & _); [|by exists l].
  cbn [negb]. rewrite Ha, Hs. lia.
Defined.

(** Two bytes are in flight. *)
Lemma stream_state_coherent_witness :
  s_inflight (ep_stream (net_ep (demo_net (take 3 demo_ops)) true)) = 22 /\
  is_Some (s_outgoing (ep_stream (net_ep (demo_net (take 3 demo_ops)) true)) !! 0).
Proof.
  split; [vm_compute; reflexivity|].
  apply (stream_state_coherent two_addrs two_ids two_addrs_inj two_worlds two_worlds_fresh two_ids_u32
    (demo_net (take 3 demo_ops)) true (demo_net_reachable _ (Forall_take _ 3 _ demo_scripts))).
  vm_compute. split; congruence.
Defined.

Lemma network_never_panics_witness :
  exists n', net_run (NRead false 6%nat ([], 100)) (demo_net (take 5 demo_ops)) = Ret n'.
Proof.
  apply (network_never_panics two_addrs two_ids two_addrs_inj two_worlds two_worlds_fresh two_ids_u32).
  - apply demo_net_reachable, Forall_take, demo_scripts.
  - apply net_ok_b_spec; [exact I|reflexivity].
Defined.
