(* ===== verification/NetworkPump.v ===== *)
(** Getting everything out: the socket driver, polled often enough, hands all
    that the stream and the socket have queued to the operating system; and
    what it receives reaches the channel of the stream. *)

From S2P Require Import Prelude Constants Errors UdpProto Packet Runtime Stream StreamInv StreamCtrl.
From S2P Require Import StreamSend StreamTimer StreamAck StreamRecv StreamDriver StreamSpec StreamLiveness StreamTurn.
From S2P Require Import Socket SocketSpec Network NetworkSpec.

Local Open Scope Z_scope.

Section socket.
Context `{P : Profile} {AI : AtomicInstant}.
Implicit Types (k : SocketSt) (s : list Packet).

(** ** Sending times do not matter to a transmit *)

Definition restamped s s' : Prop :=
  forall l p, s !! l = Some p -> exists c, s' !! l = Some (p <| p_time_sent := c |>).

#[export] Instance restamped_preorder : PreOrder restamped.
Proof.
  split.
  - intros s l p Hp. exists (p_time_sent p). by destruct p.
  - intros s1 s2 s3 H1 H2 l p Hp. destruct (H1 l p Hp) as [c Hc]. destruct (H2 l _ Hc) as [c' Hc']. by exists c'.
Qed.

Lemma stamped_restamped ls s s' : stamped ls s s' -> restamped s s'.
Proof. intros Hs l p Hp. destruct (Hs l p Hp) as (c & Hc & _). by exists c. Qed.

Lemma deref_restamped s s' r p :
  restamped s s' -> deref s r = Ret p -> exists c, deref s' r = Ret (p <| p_time_sent := c |>).
Proof.
  intros Hs. destruct r as [q|l]; cbn.
  - intros [= ->]. exists (p_time_sent p). by destruct p.
  - unfold deref_loc. destruct (s !! l) as [q|] eqn:Hl; [|done]. intros [= ->].
    destruct (Hs l p Hl) as [c ->]. by exists c.
Qed.

Lemma put_packets_restamped s s' buf rs b :
  restamped s s' -> put_packets s buf rs = Ret b -> put_packets s' buf rs = Ret b.
Proof.
  intros Hs. revert buf. induction rs as [|r rs IH]; intros buf; cbn [put_packets]; [done|].
  destruct (deref s r) as [p| |] eqn:Hr; try done. cbn [mbind outcome_bind].
  destruct (deref_restamped s s' r p Hs Hr) as [c ->]. cbn. apply IH.
Qed.

Lemma to_transmit_restamped s s' set t :
  restamped s s' -> to_transmit s set = Ret t -> to_transmit s' set = Ret t.
Proof.
  intros Hs. unfold to_transmit. destruct (ps_segment_size set) as [sz|].
  - destruct (usize_mul _ _); try done. cbn [mbind outcome_bind]. destruct (vec_with_capacity _); try done.
    cbn [mbind outcome_bind]. destruct (put_packets s [] _) as [b| |] eqn:Hb; try done.
    by rewrite (put_packets_restamped s s' [] _ b Hs Hb).
  - destruct (negb _); [done|]. destruct (unwrap _) as [r| |]; try done. cbn [mbind outcome_bind].
    destruct (deref s r) as [p| |] eqn:Hr; try done. by destruct (deref_restamped s s' r p Hs Hr) as [c ->].
Qed.

Lemma all_transmits_restamped s s' evs :
  restamped s s' -> Forall (event_ready s) evs -> all_transmits s' evs = all_transmits s evs.
Proof.
  intros Hs Hev. unfold all_transmits. induction Hev as [|ev evs He _ IH]; [done|]. cbn. rewrite IH. f_equal.
  destruct ev as [set| |]; try done. destruct He as (t & Et & _). cbn.
  by rewrite Et, (to_transmit_restamped s s' set t Hs Et).
Qed.

(** ** What a socket still has to send, and all it ever had *)

Definition pending k : list Transmit :=
  k_outgoing_transmits (sock k) ++ all_transmits (w_store (sworld k)) (w_tx (sworld k)).

Definition traffic k : list Transmit := w_sent (sworld k) ++ pending k.

Definition backlog k : nat := length (w_tx (sworld k)) + length (k_outgoing_transmits (sock k)).

(** What polls of the socket driver without messages keep. *)
Record pumped k k' : Prop := {
  pm_traffic : traffic k' = traffic k;
  pm_room : forall c, 0 <= c -> TxRoom (tx_total (pending k) + c) (k_stats (sock k)) ->
    TxRoom (tx_total (pending k') + c) (k_stats (sock k'));
  pm_rx : forall n b, RxRoom n b k -> RxRoom n b k';
  pm_chans : chans k' = chans k;
  pm_streams : k_streams (sock k') = k_streams (sock k);
  pm_timer : k_send_overflow_timer (sock k') = k_send_overflow_timer (sock k);
  pm_dropped : dropped_ids (w_tx (sworld k')) = [];
  pm_store : restamped (w_store (sworld k)) (w_store (sworld k'));
}.

Lemma pumped_refl k : dropped_ids (w_tx (sworld k)) = [] -> pumped k k.
Proof. by split. Qed.

Lemma pumped_trans k1 k2 k3 : pumped k1 k2 -> pumped k2 k3 -> pumped k1 k3.
Proof. intros [] []. split; try congruence; eauto. by etransitivity. Qed.

Lemma all_transmits_app s a b : all_transmits s (a ++ b) = all_transmits s a ++ all_transmits s b.
Proof. unfold all_transmits. by rewrite map_app, concat_app. Qed.

Lemma filled_pumped evs rest k k' :
  dropped_ids (w_tx (sworld k)) = [] -> filled evs rest k k' -> pumped k k'.
Proof.
  intros Hd F. rewrite (fd_events _ _ _ _ F) in Hd. unfold dropped_ids in Hd. rewrite map_app, concat_app in Hd.
  apply app_eq_nil in Hd as [Hd1 Hd2]. pose proof (fd_control _ _ _ _ F) as (_ & Et & _).
  assert (pending k' = pending k) as Ep.
  { unfold pending. rewrite (fd_transmits _ _ _ _ F), (fd_store _ _ _ _ F), (fd_rest _ _ _ _ F), (fd_events _ _ _ _ F).
    by rewrite all_transmits_app, app_assoc. }
  split; try done.
  - unfold traffic. rewrite Ep, (fd_world _ _ _ _ F). done.
  - by rewrite Ep, (fd_stats _ _ _ _ F).
  - intros n b []. split; by rewrite (fd_stats _ _ _ _ F).
  - by apply (fd_alive _ _ _ _ F).
  - apply map_eq. intros x. rewrite (fd_streams _ _ _ _ F). unfold dropped_ids. by rewrite Hd1, decide_False by set_solver.
  - by rewrite (fd_rest _ _ _ _ F).
  - by rewrite (fd_store _ _ _ _ F).
Qed.

Lemma sending_pumped k k' :
  dropped_ids (w_tx (sworld k)) = [] -> Forall (event_ready (w_store (sworld k))) (w_tx (sworld k)) ->
  k_send_overflow_timer (sock k') = k_send_overflow_timer (sock k) -> sending k k' -> pumped k k'.
Proof.
  intros Hd Hev Ht S. destruct (sd_queue _ _ S) as (n & Eq & Es & E1 & E2 & Hc). destruct (sd_store _ _ S) as [ls Hst].
  apply stamped_restamped in Hst.
  assert (w_tx (sworld k') = w_tx (sworld k)) as Ew by by rewrite (sd_world _ _ S).
  assert (all_transmits (w_store (sworld k')) (w_tx (sworld k')) = all_transmits (w_store (sworld k)) (w_tx (sworld k)))
    as Ea by (rewrite Ew; by apply all_transmits_restamped).
  split; try done; try apply S.
  - unfold traffic, pending. rewrite Ea, Eq, Es, <- app_assoc. f_equal. by rewrite app_assoc, take_drop.
  - intros c Hc0 HR. apply Hc.
    + pose proof (tx_total_nonneg (pending k')). lia.
    + unfold pending in *. rewrite Ea, Eq. rewrite !tx_total_app in *.
      rewrite <- (take_drop n (k_outgoing_transmits (sock k))) in HR. rewrite tx_total_app in HR.
      by rewrite <- !Z.add_assoc in *.
  - intros a b []. split; by rewrite ?E1, ?E2.
  - by rewrite Ew.
Qed.

Lemma idle_pumped k k' :
  dropped_ids (w_tx (sworld k)) = [] -> k_send_overflow_timer (sock k') = k_send_overflow_timer (sock k) ->
  idle k k' -> pumped k k' /\ backlog k' = backlog k.
Proof.
  intros Hd Ht [Ec Es Ew].
  assert (k_outgoing_transmits (sock k') = k_outgoing_transmits (sock k) /\ k_stats (sock k') = k_stats (sock k) /\
    k_streams (sock k') = k_streams (sock k)) as (E1 & E2 & E3) by by rewrite Es.
  assert (w_tx (sworld k') = w_tx (sworld k) /\ w_store (sworld k') = w_store (sworld k) /\
    w_sent (sworld k') = w_sent (sworld k)) as (E4 & E5 & E6) by by rewrite Ew.
  unfold backlog. rewrite E1, E4. split; [|done].
  split; unfold traffic, pending; rewrite ?E1, ?E2, ?E4, ?E5, ?E6; try done.
  intros n b []. split; by rewrite E2.
Qed.

(** ** One poll of the socket driver *)

(** The driver after [poll_recv] and [poll_transmit] have gone well. *)
Lemma driver_rest_wp cx (c : bool) (Q : SocketSt -> Prop) k :
  (forall k', idle k k' -> k_send_overflow_timer (sock k') = k_send_overflow_timer (sock k) -> Q k') ->
  wp (has_refs ← sself k_has_refs;
      streams ← sself k_streams;
      if negb c && negb has_refs && bool_decide (streams = ∅) then mret (Ready (Ok tt : result unit io_error))
      else
        _ ← (if c then on_sworld (wake (Some cx)) else set_sock (fun s : UdxSocketInner => s <| k_drive_waker := Some cx |>));
        mret Pending) (fun _ k' => Q k') k.
Proof.
  intros HQ. apply wp_bind, wp_sself, wp_bind, wp_sself.
  destruct (_ && _); [apply wp_ret, HQ; done|]. apply wp_bind. destruct c; so_run; apply HQ; try done.
  - split; try done; cbn; by destruct (sock k).
  - split; try done; cbn; by destruct (sworld k).
Qed.

Lemma recv_nothing k :
  k_recv_buf (sock k) = Some (UDX_MTU * BATCH_SIZE) -> socket_poll_recv nothing k = Ret (Ok false, k).
Proof.
  destruct k as [[] cs w]; cbn. intros ->. unfold socket_poll_recv, BATCH_SIZE. destruct batching; reflexivity.
Qed.

Lemma transmit_nothing ss k :
  w_tx (sworld k) = [] -> k_outgoing_transmits (sock k) = [] -> socket_poll_transmit ss k = Ret (Ok false, k).
Proof.
  intros Hw Hq. destruct k as [[] cs []]. cbn in Hw, Hq. subst.
  destruct P as [? []]; reflexivity.
Qed.

(** A poll without messages takes a batch out of the socket. *)
Lemma pump_wp cx k :
  k_recv_buf (sock k) = Some (UDX_MTU * BATCH_SIZE) -> k_send_overflow_timer (sock k) = None ->
  dropped_ids (w_tx (sworld k)) = [] -> Forall (event_ready (w_store (sworld k))) (w_tx (sworld k)) ->
  Forall transmit_ok (k_outgoing_transmits (sock k)) ->
  TxRoom (tx_total (pending k)) (k_stats (sock k)) ->
  wp (socket_driver_poll cx nothing false sends_all) (fun _ k' => pumped k k' /\
    (backlog k' < backlog k \/ backlog k' = 0)%nat) k.
Proof.
  intros Hb Ht Hd Hev Hok HR. unfold socket_driver_poll. apply wp_bind.
  eapply wp_intro; [by apply recv_nothing|]. apply wp_bind, wp_sself. rewrite Ht. apply wp_bind.
  eapply wp_mono; [by apply (socket_poll_transmit_wp sends_all); [apply sends_all_ok|..]|].
  intros r k2 (evs & rest & k1 & pend & F & Hp & T & S & _).
  pose proof (filled_pumped evs rest k k1 Hd F) as P1.
  assert (Forall (event_ready (w_store (sworld k1))) (w_tx (sworld k1))) as Hev1.
  { rewrite (fd_rest _ _ _ _ F), (fd_store _ _ _ _ F). rewrite (fd_events _ _ _ _ F) in Hev. by apply Forall_app in Hev as [_ ?]. }
  assert (backlog k1 <= backlog k)%nat as Hb1.
  { unfold backlog. rewrite (fd_rest _ _ _ _ F), (fd_events _ _ _ _ F), (fd_transmits _ _ _ _ F), !length_app.
    assert (length (all_transmits (w_store (sworld k)) evs) <= length evs)%nat; [|lia].
    unfold all_transmits. clear. induction evs as [|ev evs IH]; cbn; [lia|]. rewrite length_app.
    assert (length (ev_transmits (w_store (sworld k)) ev) <= 1)%nat; [|lia].
    destruct ev; cbn; [destruct (to_transmit _ _); cbn|..]; lia. }
  assert (exists b, r = Ok b /\ k_send_overflow_timer (sock k2) = k_send_overflow_timer (sock k1) /\
    (backlog k2 < backlog k1 \/ backlog k2 = 0)%nat) as (b & -> & Et2 & Hb2).
  { unfold transmitted in T. destruct (k_outgoing_transmits (sock k1)) as [|t ts] eqn:Eq.
    - destruct T as [-> ->]. exists false. split_and!; try done. right. unfold backlog. rewrite Eq.
      destruct pend; [by rewrite (fd_rest _ _ _ _ F), Hp|]. change (len []) with 0 in Hp. batch_lia.
    - cbn [sends_all ss_answer ss_slice] in T. destruct T as (-> & Eq2 & _ & _ & _ & Ew & Et). eexists.
      split_and!; [done|done|left]. unfold backlog. rewrite Ew, Eq2, Eq, length_drop. unfold len.
      rewrite Nat2Z.id, length_take. cbn [length]. lia. }
  assert (pumped k1 k2) as P2 by (by apply sending_pumped; [apply P1|..]).
  apply (driver_rest_wp cx (false || b)). intros k3 I3 Et3.
  destruct (idle_pumped k2 k3) as [P3 Hb3]; [apply P2|done|done|].
  split; [by eapply pumped_trans; [exact P1|]; eapply pumped_trans|]. lia.
Qed.

(** ** One message *)

(** The socket after an event [ev] has come in for channel [c]. *)
Record arrival (c : nat) (ev : EventIncoming) k k' : Prop := {
  ar_chans : chans k' = alter (fun ch => ch <| ch_queue ::= fun q => q ++ [ev] |>) c (chans k);
  ar_streams : k_streams (sock k') = k_streams (sock k);
  ar_timer : k_send_overflow_timer (sock k') = k_send_overflow_timer (sock k);
  ar_outgoing : k_outgoing_transmits (sock k') = k_outgoing_transmits (sock k);
  ar_world : sworld k' = (sworld k) <| w_woken := w_woken (sworld k') |>;
  ar_tx_room : forall x, TxRoom x (k_stats (sock k)) -> TxRoom x (k_stats (sock k'));
  ar_rx_room : forall n b, RxRoom (n + 1) (b + UDX_MTU) k -> RxRoom n b k';
}.

Definition one_message (m : RecvMsg) : RecvBatches := mk_RecvBatches [[m]] None.

Lemma receive_one_arrives m h x handle ch k :
  msg_ok m -> RxRoom 1 UDX_MTU k -> from_bytes (msg_data m) = Ret (Ok h) -> h_stream_id h = x ->
  k_streams (sock k) !! x = Some handle -> chans k !! recv_tx handle = Some ch -> ch_rx_alive ch = true ->
  let ev := EvPacket (mk_IncomingPacket h (drop 20 (msg_data m)) 0 (m_addr (rm_meta m))) in
  wp (receive_one m) (fun _ k' => k' = chan_push (recv_tx handle) ev (counted (len (msg_data m)) k)) k.
Proof.
  intros [Hiov Hlen] HR Hh Hx Hs Hc Hal. unfold receive_one.
  assert (slice (rm_iov m) 0 (m_len (rm_meta m)) = Ret (msg_data m)) as Es by (apply slice_prefix; lia).
  assert (len (msg_data m) <= UDX_MTU) as Hl by (unfold msg_data; rewrite len_take; lia).
  apply wp_bind. eapply wp_lift; [exact Es|]. apply wp_bind. eapply wp_mono.
  { apply process_packet_wp. destruct HR. split; lia. }
  intros r k' Hr. unfold routed in Hr. rewrite Hh, Hx, Hs in Hr. destruct Hr as [-> Hr]. rewrite Hc, Hal in Hr.
  by apply wp_ret.
Qed.

(** A message for the stream reaches its channel. *)
Lemma message_arrives cx m h x handle ch k :
  k_recv_buf (sock k) = Some (UDX_MTU * BATCH_SIZE) -> k_send_overflow_timer (sock k) = None ->
  w_tx (sworld k) = [] -> k_outgoing_transmits (sock k) = [] ->
  msg_ok m -> RxRoom 1 UDX_MTU k -> from_bytes (msg_data m) = Ret (Ok h) -> h_stream_id h = x ->
  k_streams (sock k) !! x = Some handle -> chans k !! recv_tx handle = Some ch -> ch_rx_alive ch = true ->
  let ev := EvPacket (mk_IncomingPacket h (drop 20 (msg_data m)) 0 (m_addr (rm_meta m))) in
  wp (socket_driver_poll cx (one_message m) false sends_all) (fun _ k' => arrival (recv_tx handle) ev k k') k.
Proof.
  intros Hb Ht Hw Hq Hm HR Hh Hx Hs Hc Hal ev. unfold socket_driver_poll. apply wp_bind.
  unfold socket_poll_recv. apply wp_bind, wp_sself. rewrite Hb.
  apply wp_bind. eapply wp_lift; [reflexivity|]. apply wp_bind, wp_set_sock, wp_bind.
  eapply wp_lift; [apply socket_iovectors|]. apply wp_bind. cbn [one_message rb_batches rb_error recv_batches].
  change (0 + 1 =? MAX_LOOP) with false. cbn iota. apply wp_bind.
  rewrite (take_ge [m]) by (cbn [length]; batch_lia). cbn [receive_all]. apply wp_bind.
  eapply wp_mono; [apply (receive_one_arrives m h x handle ch); try done; by destruct HR|]. intros [] k1 E1. apply wp_ret, wp_ret.
  apply wp_bind, wp_set_sock, wp_ret. fold ev in E1. set (k2 := update_field sock _ k1).
  assert (len (msg_data m) <= UDX_MTU) as Hl by (destruct Hm; unfold msg_data; rewrite len_take; lia).
  pose proof (len_nonneg (msg_data m)) as Hl0.
  assert (arrival (recv_tx handle) ev k k2) as A.
  { unfold k2. rewrite E1. split; try done; cbn; [by destruct (sworld k)|].
    intros n b []. split; cbn in *; lia. }
  apply wp_bind, wp_sself. rewrite (ar_timer _ _ _ _ A), Ht. apply wp_bind.
  assert (w_tx (sworld k2) = []) as Hw2 by by rewrite (ar_world _ _ _ _ A).
  assert (k_outgoing_transmits (sock k2) = []) as Hq2 by by rewrite (ar_outgoing _ _ _ _ A).
  eapply wp_intro; [by apply transmit_nothing|].
  cbn beta iota. apply (driver_rest_wp cx (false || false)). intros k3 I3 Et3.
  destruct A, I3 as [Ec Ek Ew]. split; rewrite ?Ec, ?Et3; try done.
  - by rewrite Ek.
  - by rewrite Ek.
  - rewrite Ew, ar_world0. cbn. by destruct (sworld k).
  - intros y Hy. rewrite Ek. by apply ar_tx_room0.
  - intros n b Hn. destruct (ar_rx_room0 n b Hn). split; by rewrite Ek.
Qed.

End socket.
