(* ===== verification/NetworkDelivery.v ===== *)
(** Delivery: from every reachable state in which both endpoints are up, the
    network can carry all that was written to its reader. *)

From S2P Require Import Prelude Constants Errors UdpProto Packet Runtime Stream StreamInv StreamCtrl.
From S2P Require Import StreamSend StreamTimer StreamAck StreamRecv StreamDriver StreamSpec StreamLiveness StreamTurn.
From S2P Require Import StreamPeer Socket SocketSpec Network NetworkSpec NetworkPump.

Local Open Scope Z_scope.

Section delivery.
Context `{P : Profile} {AI : AtomicInstant} {AIL : AtomicInstantLaws AI}.
Context `{KG : KernelGso} {KGL : KernelGsoLaws}.
Context {B : Type} {RB : ReadBuf B} {RBL : ReadBufLaws B}.
Context (addr : side -> SocketAddr) (id : side -> Z).
Hypothesis addr_inj : addr true <> addr false.
Implicit Types (e : Endpoint) (n : Net) (k : SocketSt).

Local Abbreviation NetInv := (NetInv addr id).
Local Abbreviation net_step := (net_step (B := B) addr id).

(** ** Runs in which one endpoint moves *)

Record moved (i : side) e n n' : Prop := {
  mv_self : net_ep n' i = e;
  mv_other : net_ep n' (negb i) = net_ep n (negb i);
  mv_written : forall j, net_written n' j = net_written n j;
  mv_reads : forall j, net_reads n' j = net_reads n j;
}.

Lemma moved_refl i n : moved i (net_ep n i) n n.
Proof. by split. Qed.

Lemma moved_trans i e e' n n' n'' : moved i e n n' -> moved i e' n' n'' -> moved i e' n n''.
Proof. intros [] []. split; intros; congruence. Qed.

Lemma run_step n (sent : side -> list (list byte)) op e :
  NetInv n sent -> net_ok addr id n op -> ep_run (B := B) op (net_ep n (op_side op)) = Ret (([], []), e) ->
  exists n' (sent' : side -> list (list byte)), net_step n n' /\ NetInv n' sent' /\ moved (op_side op) e n n'.
Proof.
  intros HN Hok E. destruct (net_step_grows addr id addr_inj n sent op HN Hok) as (n' & sent' & Hrun & HN' & _).
  exists n', sent'. split; [by exists op|]. split; [done|].
  rewrite (net_run_eq op n _ e E) in Hrun. injection Hrun as <-. cbn [fst snd].
  split; cbn; [by rewrite upd_same|by rewrite upd_other|..];
    intros j; destruct (side_cases (op_side op) j) as [-> | ->]; rewrite ?upd_same, ?upd_other, ?app_nil_r; done.
Qed.

(** ** Endpoints that are up *)

(** The stream has not failed and its driver runs; the socket knows it, the
    channel between them is open on both ends and carries no END packet; and
    no send has overflowed. *)
Record Open (i : side) e : Prop := {
  op_running : ep_running e = true;
  op_error : s_error (ep_stream e) = None;
  op_firewall : s_on_firewall (ep_stream e) = None;
  op_stream : k_streams (sock (ep_socket e)) !! id i = Some (mk_StreamHandle (ep_chan e));
  op_chan : chans (ep_socket e) !! ep_chan e = Some (mk_Chan (ch_queue (ep_queue e)) true true);
  op_ends : no_ends (map event_packet (ch_queue (ep_queue e)));
  op_dropped : dropped_ids (w_tx (sworld (ep_socket e))) = [];
  op_timer : k_send_overflow_timer (sock (ep_socket e)) = None;
}.

(** Nothing is left to be handed to the operating system. *)
Definition settled e : Prop :=
  w_tx (sworld (ep_socket e)) = [] /\ k_outgoing_transmits (sock (ep_socket e)) = [].

(** The counters of an endpoint have room for [c] more packets with [b] bytes,
    [r] more messages, and transmits of cost [t] besides the pending ones. *)
Record Budget (c b r t : Z) e : Prop := {
  bu_room : Room c b (ep_st e);
  bu_rx : RxRoom (BATCH_SIZE * MAX_LOOP + r) (UDX_MTU * BATCH_SIZE * MAX_LOOP + UDX_MTU * r) (ep_socket e);
  bu_tx : TxRoom (tx_total (pending (ep_socket e)) + t) (k_stats (sock (ep_socket e)));
}.

Lemma Budget_weaken c b r t c' b' r' t' e :
  c' <= c -> b' <= b -> r' <= r -> t' <= t -> Budget c b r t e -> Budget c' b' r' t' e.
Proof.
  intros ? ? ? ? []. split; [by eapply Room_weaken, bu_room0|destruct bu_rx0; split; unfold UDX_MTU in *; lia|].
  eapply TxRoom_weaken, bu_tx0. lia.
Qed.

Lemma RxRoom_weaken x y x' y' k : x' <= x -> y' <= y -> RxRoom x y k -> RxRoom x' y' k.
Proof. intros ? ? []. split; lia. Qed.

Lemma Room_inner c b st st' : inner st' = inner st -> Room c b st -> Room c b st'.
Proof. intros E []. split; by rewrite E. Qed.

(** *** Pumping *)

Lemma pumped_Open i e k : Open i e -> pumped (ep_socket e) k -> Open i (with_socket e k).
Proof.
  intros [] []. assert (ep_queue (with_socket e k) = ep_queue e) as Eq by (unfold ep_queue; cbn; by rewrite pm_chans).
  split; rewrite ?Eq; cbn; try done; congruence.
Qed.

Lemma pumped_Budget c b r t e k : 0 <= t -> Budget c b r t e -> pumped (ep_socket e) k -> Budget c b r t (with_socket e k).
Proof. intros Ht [] []. split; cbn; [by eapply Room_inner, bu_room0|auto|auto]. Qed.

Lemma pump_net i n (sent : side -> list (list byte)) c b r t :
  NetInv n sent -> Open i (net_ep n i) -> Budget c b r t (net_ep n i) -> 0 <= r -> 0 <= t ->
  exists n' (sent' : side -> list (list byte)) k, rtc net_step n n' /\ NetInv n' sent' /\
    moved i (with_socket (net_ep n i) k) n n' /\ pumped (ep_socket (net_ep n i)) k /\
    settled (with_socket (net_ep n i) k).
Proof.
  remember (backlog (ep_socket (net_ep n i))) as m eqn:Em. revert n sent Em.
  induction (lt_wf m) as [m _ IH]; intros n sent Em HN HO HB Hr Ht. set (e := net_ep n i) in *.
  destruct (decide (m = 0)%nat) as [E0|Hne].
  { exists n, sent, (ep_socket e). split_and!; [done|done|..].
    - assert (with_socket e (ep_socket e) = e) as -> by (by destruct e). apply moved_refl.
    - apply pumped_refl, HO.
    - rewrite Em in E0. unfold backlog in E0. unfold settled. cbn.
      split; apply length_zero_iff_nil; lia. }
  pose proof (HN i) as HE. fold e in HE.
  destruct (events_transmits _ _ _ (ei_events _ _ _ _ _ _ _ _ _ HE)) as [_ Hev].
  assert (Forall transmit_ok (k_outgoing_transmits (sock (ep_socket e)))) as Hok
    by (eapply Forall_impl; [apply (ei_transmits _ _ _ _ _ _ _ _ _ HE)|]; by intros ? []).
  assert (TxRoom (tx_total (pending (ep_socket e))) (k_stats (sock (ep_socket e)))) as HR
    by (eapply TxRoom_weaken, HB; lia).
  destruct (wp_elim _ _ _ (pump_wp 0%nat (ep_socket e) (ei_recv_buf _ _ _ _ _ _ _ _ _ HE) (op_timer _ _ HO)
    (op_dropped _ _ HO) Hev Hok HR)) as (res & k & Ek & Pk & Hk).
  destruct (run_step n sent (NSocket i 0%nat nothing false sends_all) (with_socket e k))
    as (n1 & sent1 & Hs1 & HN1 & M1); [done| | |].
  { cbn. split_and!; [constructor|apply sends_all_ok| |exact HR]. fold e.
    eapply RxRoom_weaken, HB; unfold UDX_MTU; lia. }
  { cbn. fold e. unfold on_socket. unfold mbind, act_bind. by rewrite Ek. }
  cbn [op_side] in M1. pose proof (mv_self _ _ _ _ M1) as Ee.
  assert (Open i (net_ep n1 i)) as HO1 by (rewrite Ee; by apply pumped_Open).
  assert (Budget c b r t (net_ep n1 i)) as HB1 by (rewrite Ee; by apply pumped_Budget).
  destruct (IH (backlog k)) with (n := n1) (sent := sent1) as (n2 & sent2 & k2 & Hs2 & HN2 & M2 & P2 & S2); try done.
  { destruct Hk as [Hk|Hk]; lia. }
  { by rewrite Ee. }
  rewrite Ee in M2, P2, S2. exists n2, sent2, k2. split_and!; [|done|by eapply moved_trans|by eapply pumped_trans|done].
  by eapply rtc_l.
Qed.

(** *** Delivering a datagram *)

(** The endpoint has sent the datagram [d] to its peer. *)
Definition on_wire e (d : list byte) : Prop :=
  exists t, t ∈ w_sent (sworld (ep_socket e)) /\ t_destination t = s_remote_addr (ep_stream e) /\
    d ∈ kernel_segments t.

(** A message with the datagram [d], as [recvmmsg] fills it in. *)
Definition message (from : SocketAddr) (d : list byte) : RecvMsg :=
  mk_RecvMsg (mk_RecvMeta from (len d) None None) (d ++ replicate (Z.to_nat (UDX_MTU - len d)) Byte.x00).

Lemma message_ok from d : len d <= UDX_MTU -> msg_ok (message from d) /\ msg_data (message from d) = d.
Proof.
  intros Hd. pose proof (len_nonneg d). split; [split|].
  - cbn. rewrite len_app, len_replicate. lia.
  - cbn. lia.
  - unfold msg_data. cbn. unfold len. by rewrite Nat2Z.id, take_app_length.
Qed.

Lemma deliver_net i n (sent : side -> list (list byte)) c b r t h body :
  let d := header_bytes h ++ body in
  let e := net_ep n i in
  NetInv n sent -> Open i e -> settled e -> Budget c b (r + 1) t e -> 0 <= r -> 0 <= t ->
  on_wire (net_ep n (negb i)) d -> wire_header h -> len d <= UDX_MTU -> h_stream_id h = id i ->
  Z.land (h_typ h) UDX_HEADER_END = 0 ->
  exists n' (sent' : side -> list (list byte)) k, net_step n n' /\ NetInv n' sent' /\
    moved i (with_socket e k) n n' /\ Open i (with_socket e k) /\ settled (with_socket e k) /\
    Budget c b r t (with_socket e k) /\
    sworld k = (sworld (ep_socket e)) <| w_woken := w_woken (sworld k) |> /\
    ch_queue (ep_queue (with_socket e k)) =
      ch_queue (ep_queue e) ++ [EvPacket (mk_IncomingPacket h body 0 (addr (negb i)))].
Proof.
  intros d e HN HO [Hw Hq] HB Hr Ht (tr & Htr & Hdst & Hseg) Hwire Hlen Hid Hend.
  pose proof (HN i) as HE. fold e in HE.
  destruct (message_ok (addr (negb i)) d Hlen) as [Hm Hdata].
  assert (from_bytes (msg_data (message (addr (negb i)) d)) = Ret (Ok h)) as Hh
    by (rewrite Hdata; by apply from_bytes_header_bytes).
  assert (RxRoom 1 UDX_MTU (ep_socket e)) as HR1
    by (eapply RxRoom_weaken, HB; batch_lia).
  destruct (wp_elim _ _ _ (message_arrives 0%nat _ h (id i) _ _ (ep_socket e) (ei_recv_buf _ _ _ _ _ _ _ _ _ HE)
    (op_timer _ _ HO) Hw Hq Hm HR1 Hh Hid (op_stream _ _ HO) (op_chan _ _ HO) eq_refl)) as (res & k & Ek & A).
  destruct (run_step n sent (NSocket i 0%nat (one_message (message (addr (negb i)) d)) false sends_all) (with_socket e k))
    as (n1 & sent1 & Hs1 & HN1 & M1); [done| | |].
  { cbn. fold e. split_and!; [|apply sends_all_ok|eapply RxRoom_weaken, HB; unfold UDX_MTU; lia|].
    - do 2 (constructor; [|constructor]). split; [done|]. exists d. rewrite Hdata. split; [by rewrite take_ge by (unfold len, UDX_MTU in *; lia)|].
      right. exists (negb i), tr. split_and!; [done| |done].
      destruct (ei_peer _ _ _ _ _ _ _ _ _ (HN (negb i))) as [Hp _]. by rewrite negb_involutive in Hp; rewrite <- Hp.
    - eapply TxRoom_weaken, HB. unfold pending. lia. }
  { cbn. fold e. unfold on_socket. unfold mbind, act_bind. by rewrite Ek. }
  exists n1, sent1, k. cbn [recv_tx] in A. destruct A.
  assert (ep_queue (with_socket e k) = mk_Chan (ch_queue (ep_queue e) ++
    [EvPacket (mk_IncomingPacket h (drop 20 (msg_data (message (addr (negb i)) d))) 0 (addr (negb i)))]) true true) as Eq.
  { unfold ep_queue at 1. cbn. rewrite ar_chans, list_lookup_alter_eq, (op_chan _ _ HO). done. }
  assert (drop 20 (msg_data (message (addr (negb i)) d)) = body) as Eb.
  { rewrite Hdata. unfold d. by rewrite <- (header_bytes_length h), drop_app_length. }
  rewrite Eb in Eq, ar_chans. split_and!; [done|done|done|..].
  - pose proof HO as []. split; rewrite ?Eq; cbn; try done; try congruence.
    + rewrite ar_chans, list_lookup_alter_eq, op_chan0. done.
    + rewrite map_app. apply Forall_app. split; [done|]. constructor; [|constructor].
      unfold has_type. cbn. by rewrite Hend.
    + by rewrite ar_world.
  - unfold settled. cbn. by rewrite ar_world, ar_outgoing.
  - destruct HB. split; cbn; [by eapply Room_inner, bu_room0|apply ar_rx_room; eapply RxRoom_weaken, bu_rx0; unfold UDX_MTU; lia|].
    apply ar_tx_room. unfold pending in *. by rewrite ar_outgoing, ar_world.
  - done.
  - by rewrite Eq.
Qed.

(** *** Polling the stream driver *)

(** The packets in the channel of the stream. *)
Definition queued e : list IncomingPacket := map event_packet (ch_queue (ep_queue e)).

(** The endpoint after a poll that took the first [m] events. *)
Definition polled e (st : StreamSt) (m : nat) : Endpoint :=
  (with_st e st) <| ep_socket ::= fun k => k <| chans ::= alter (fun ch => ch <| ch_queue ::= drop m |>) (ep_chan e) |> |>
                 <| ep_running := true |>.

Lemma poll_run i cx m fired e st :
  driver_poll cx (ep_script e m) fired (ep_st e) = Ret (Pending, st) -> closed_and_drained (ep_stream e) = false ->
  ep_run (B := B) (NPoll i cx m fired) e = Ret (([], []), polled e st m).
Proof.
  intros E Hc. cbn [ep_run]. unfold ep_poll, get, on_stream, modify, mbind, act_bind. cbn. rewrite E. cbn. by rewrite Hc.
Qed.

Lemma batch_cost sent st bs :
  Forall (event_ok sent st) (map (batch_event (s_remote_addr (inner st))) bs) ->
  tx_total (all_transmits (w_store (world st)) (map (batch_event (s_remote_addr (inner st))) bs)) <=
    (UDX_MTU + 1) * len (concat (map snd bs)).
Proof.
  induction bs as [|[sz q] bs IH]; cbn [map]; intros Hev; [by cbn|]. apply Forall_cons_1 in Hev as [Hev Hevs].
  specialize (IH Hevs). change (all_transmits ?s (?x :: ?l)) with (ev_transmits s x ++ all_transmits s l).
  cbn [concat]. rewrite tx_total_app, len_app.
  destruct (set_transmit_segments _ _ _ Hev) as (t & ps & Et & _ & _ & _ & _ & Hl & _). cbn [snd] in *.
  destruct Hev as (_ & Hlen & _). cbn [batch_event PacketSet_new ps_packets snd] in Hlen, Hl.
  assert (tx_total (ev_transmits (w_store (world st)) (batch_event (s_remote_addr (inner st)) (sz, q))) <=
    (UDX_MTU + 1) * len q); [|lia].
  cbn [batch_event ev_transmits]. cbn [snd fst] in *. rewrite Et. unfold tx_total, tx_cost. cbn [fold_right]. lia.
Qed.

Lemma polled_Open i e st :
  Open i e -> s_error (inner st) = None -> s_on_firewall (inner st) = None -> dropped_ids (w_tx (world st)) = [] ->
  Open i (polled e st (length (ch_queue (ep_queue e)))) /\
  ch_queue (ep_queue (polled e st (length (ch_queue (ep_queue e))))) = [].
Proof.
  intros [] He Hf Hd. set (e' := polled e st _).
  assert (chans (ep_socket e') !! ep_chan e' = Some (mk_Chan [] true true)) as Ec.
  { unfold e'. cbn. rewrite list_lookup_alter_eq, op_chan0. cbn. by rewrite drop_all. }
  assert (ep_queue e' = mk_Chan [] true true) as Eq by (unfold ep_queue; by rewrite Ec).
  split; [|by rewrite Eq]. split; rewrite ?Eq; try done. constructor.
Qed.

Lemma queued_script e : ep_queue e = mk_Chan (ch_queue (ep_queue e)) true true ->
  script_packets (ep_script e (length (ch_queue (ep_queue e)))) = queued e /\
  rx_closed (ep_script e (length (ch_queue (ep_queue e)))) = false.
Proof.
  intros Eq. unfold script_packets, ep_script, queued. cbn. rewrite take_ge by done. split; [done|].
  rewrite Eq. cbn. by rewrite andb_false_r.
Qed.

Lemma poll_net i fired n (sent : side -> list (list byte)) c b r t D :
  let e := net_ep n i in
  let ps := queued e in
  NetInv n sent -> Open i e -> settled e -> (fired = true -> patient (ep_st e)) ->
  Budget (c + len ps + 1) (b + len (concat (map i_buf ps))) r
    (t + (UDX_MTU + 1) * (len (s_send_queue (ep_stream e)) + 2 * len ps + D)) e ->
  0 <= c -> 0 <= b -> 0 <= t -> 0 <= D -> s_seq (ep_stream e) - s_remote_acked (ep_stream e) <= D ->
  exists n' (sent' : side -> list (list byte)) st bs, net_step n n' /\ NetInv n' sent' /\
    let e' := polled e st (length (ch_queue (ep_queue e))) in
    moved i e' n n' /\ Open i e' /\ ch_queue (ep_queue e') = [] /\ Budget c b r t e' /\
    StreamInv (sent i) st /\ drives (sent i) ps 1 (ep_st e) st /\ turned fired ps bs (ep_st e) st.
Proof.
  intros e ps HN HO [Hw Hq] Hpt HB Hc Hb Ht HD0 HD. pose proof (HN i) as HE. fold e in HE.
  assert (ep_queue e = mk_Chan (ch_queue (ep_queue e)) true true) as Eq
    by (unfold ep_queue at 1; by rewrite (op_chan _ _ HO)).
  destruct (queued_script e Eq) as [Eps Hcl]. set (m := length (ch_queue (ep_queue e))) in *.
  pose proof (script_fine _ _ _ _ _ _ _ _ _ m HE) as Hfine. rewrite Eps in Hfine. fold ps in Eps, Hfine.
  assert (Forall incoming_ok ps) as Hin by (eapply Forall_impl; [exact Hfine|]; by intros p []).
  assert (no_sacks ps) as Hns by (eapply Forall_impl; [exact Hfine|]; by intros p (_ & _ & ? & _)).
  assert (tidy (ep_st e)) as Htd by exact (ei_above _ _ _ _ _ _ _ _ _ HE).
  pose proof (len_nonneg ps) as Hlp. pose proof (len_nonneg (concat (map i_buf ps))) as Hlb.
  assert (Room (len ps + 1) (len (concat (map i_buf ps))) (ep_st e)) as HR by (eapply Room_weaken, HB; lia).
  assert (Room (len ps) (len (concat (map i_buf ps))) (ep_st e)) as HR' by (eapply Room_weaken, HB; lia).
  pose proof (ei_stream _ _ _ _ _ _ _ _ _ HE) as HI. pose proof (ei_open _ _ _ _ _ _ _ _ _ HE) as Hopen.
  assert (closed_and_drained (ep_stream e) = false) as Hcd by (unfold closed_and_drained; by rewrite (op_error _ _ HO)).
  pose proof (driver_poll_wp (sent i) 0%nat (ep_script e m) fired (ep_st e)) as W1. rewrite Eps in W1.
  pose proof (driver_poll_turned (sent i) 0%nat (ep_script e m) fired (ep_st e)) as W2. rewrite Eps in W2.
  destruct (wp_elim _ _ _ (wp_and _ _ _ _ (W1 HI Hin HR Hopen)
    (W2 HI Hin HR' Hopen Hcl Hns (op_ends _ _ HO) Htd (op_error _ _ HO) Hpt)))
    as (res & st & Est & (HI' & Hrest) & -> & bs & T). cbn [ep_st inner] in Hrest. rewrite Hcd in Hrest.
  destruct Hrest as (_ & Dr & _).
  destruct (run_step n sent (NPoll i 0%nat m fired) (polled e st m)) as (n1 & sent1 & Hs1 & HN1 & M1); [done| | |].
  { cbn beta iota zeta delta [net_ok op_side]. fold e. rewrite Eps. split; [apply HO|done]. }
  { by apply poll_run. }
  pose proof (tu_tx _ _ _ _ _ T) as Etx. cbn [ep_st world inner] in Etx. rewrite Hw in Etx. cbn [app] in Etx.
  assert (Forall (event_ok (sent i) st) (map (batch_event (s_remote_addr (inner st))) bs) /\
    s_remote_addr (inner st) = s_remote_addr (ep_stream e)) as [Hev Ea].
  { pose proof (ext_remote_addr _ _ (dr_ext _ _ _ _ _ Dr)) as Ea. split; [|exact Ea]. rewrite Ea. cbn [ep_st inner].
    destruct (dr_tx _ _ _ _ _ Dr) as (evs & E1 & E2). cbn [ep_st world] in E1. rewrite Hw, Etx in E1. cbn [app] in E1.
    by rewrite E1. }
  destruct (polled_Open i e st HO) as [HO1 Hq1].
  { rewrite (tu_error _ _ _ _ _ T). apply HO. }
  { rewrite (ext_firewall _ _ (dr_ext _ _ _ _ _ Dr)). apply HO. }
  { rewrite Etx. clear. induction bs as [|[] bs IH]; cbn; done. }
  exists n1, sent1, st, bs. cbn zeta. split_and!; [done|done|exact M1|done|done| |done|done|done].
  destruct HB. split.
  - apply (Room_inner _ _ st); [done|]. eapply (drives_Room _ _ 1); [lia|exact Dr|]. by eapply Room_weaken, bu_room0; lia.
  - by destruct bu_rx0.
  - assert (pending (ep_socket e) = []) as Ep by (unfold pending; by rewrite Hw, Hq). rewrite Ep in bu_tx0.
    eapply TxRoom_weaken, bu_tx0. unfold pending. cbn. rewrite Hq, Etx, <- Ea. cbn [app].
    pose proof (batch_cost _ _ _ Hev). pose proof (tu_count _ _ _ _ _ T) as Hcnt. cbn [ep_st inner] in Hcnt.
    pose proof (ext_remote_acked _ _ (dr_ext _ _ _ _ _ Dr)). pose proof (tu_seq _ _ _ _ _ T). cbn in *.
    unfold UDX_MTU in *. lia.
Qed.

(** *** A turn: a poll of the stream driver, and everything is sent *)

(** The endpoint [e'] after a turn of [e] that took the packets [ps]; [st] is
    the stream after the poll and [bs] are the batches it sent. *)
Record turn (fired : bool) (sent : list (list byte)) (bs : list (Z * list PacketRef)) e st e' : Prop := {
  tr_queue : ch_queue (ep_queue e') = [];
  tr_stream : ep_stream e' = inner st;
  tr_inv : StreamInv sent st;
  tr_drives : drives sent (queued e) 1 (ep_st e) st;
  tr_turned : turned fired (queued e) bs (ep_st e) st;
  tr_store : restamped (w_store (world st)) (w_store (sworld (ep_socket e')));
  tr_kept : forall d, on_wire e d -> on_wire e' d;
  tr_wire : forall r p, r ∈ concat (map snd bs) -> deref (w_store (world st)) r = Ret p -> p_skip p = false ->
    on_wire e' (as_slice (p_buf p)) /\ packet_ok sent (inner st) p;
}.

Lemma batches_carry sent st bs r p :
  Forall (event_ok sent st) (map (batch_event (s_remote_addr (inner st))) bs) ->
  r ∈ concat (map snd bs) -> deref (w_store (world st)) r = Ret p -> p_skip p = false ->
  packet_ok sent (inner st) p /\
  exists t, t ∈ all_transmits (w_store (world st)) (map (batch_event (s_remote_addr (inner st))) bs) /\
    t_destination t = s_remote_addr (inner st) /\ as_slice (p_buf p) ∈ kernel_segments t.
Proof.
  intros Hev Hr Hp Hsk. apply list_elem_of_In, in_concat in Hr as (q & Hq & Hr).
  apply in_map_iff in Hq as ([sz q'] & <- & Hb). cbn [snd] in Hr. apply list_elem_of_In in Hr.
  assert (batch_event (s_remote_addr (inner st)) (sz, q') ∈ map (batch_event (s_remote_addr (inner st))) bs) as Hin
    by (by apply list_elem_of_In, in_map).
  rewrite Forall_forall in Hev. pose proof (Hev _ Hin) as He. split.
  - destruct He as (_ & _ & sz' & _ & Hall). rewrite Forall_forall in Hall.
    destruct (Hall r Hr) as (p' & Hp' & Hok & _). by assert (p' = p) as <- by congruence.
  - destruct (set_transmit_carries _ _ _ r p He Hr Hp Hsk) as (t & Et & Hd & Hs). exists t. split; [|done].
    unfold all_transmits. apply list_elem_of_In, in_concat. eexists. split.
    + apply in_map, list_elem_of_In, Hin.
    + cbn [batch_event ev_transmits]. rewrite Et. by left.
Qed.

Lemma turn_net i fired n (sent : side -> list (list byte)) c b r t D :
  let e := net_ep n i in
  let ps := queued e in
  NetInv n sent -> Open i e -> settled e -> (fired = true -> patient (ep_st e)) ->
  Budget (c + len ps + 1) (b + len (concat (map i_buf ps))) r
    (t + (UDX_MTU + 1) * (len (s_send_queue (ep_stream e)) + 2 * len ps + D)) e ->
  0 <= c -> 0 <= b -> 0 <= r -> 0 <= t -> 0 <= D -> s_seq (ep_stream e) - s_remote_acked (ep_stream e) <= D ->
  exists n' (sent' : side -> list (list byte)) e' st bs, rtc net_step n n' /\ NetInv n' sent' /\
    moved i e' n n' /\ Open i e' /\ settled e' /\ Budget c b r t e' /\ turn fired (sent i) bs e st e'.
Proof.
  intros e ps HN HO Hset Hpt HB Hc Hb Hr Ht HD0 HD.
  destruct (poll_net i fired n sent c b r t D HN HO Hset Hpt HB) as
    (n1 & sent1 & st & bs & Hs1 & HN1 & M1 & HO1 & Hq1 & HB1 & HI & Dr & T); try done.
  fold e in M1, HO1, Hq1, HB1, Dr, T. fold ps in Dr, T. set (e1 := polled e st _) in *.
  pose proof (mv_self _ _ _ _ M1) as Ee1.
  destruct (pump_net i n1 sent1 c b r t) as (n2 & sent2 & k & Hs2 & HN2 & M2 & Pk & Hset2);
    [done|by rewrite Ee1|by rewrite Ee1|done|done|]. rewrite Ee1 in M2, Pk, Hset2.
  exists n2, sent2, (with_socket e1 k), st, bs.
  split_and!; [by eapply rtc_l|done|by eapply moved_trans|by apply pumped_Open|done|by apply pumped_Budget|].
  assert (w_sent (sworld k) = w_sent (sworld (ep_socket e)) ++ all_transmits (w_store (world st)) (w_tx (world st))) as Es.
  { pose proof (pm_traffic _ _ Pk) as Et. unfold traffic, pending in Et. destruct Hset2 as [Hw2 Hq2]. cbn in Hw2, Hq2.
    rewrite Hw2, Hq2 in Et. cbn in Et. rewrite app_nil_r in Et. rewrite Et.
    destruct Hset as [_ Hq]. rewrite Hq. by rewrite (ext_sent _ _ (dr_ext _ _ _ _ _ Dr)). }
  assert (s_remote_addr (inner st) = s_remote_addr (ep_stream e)) as Ea by apply (ext_remote_addr _ _ (dr_ext _ _ _ _ _ Dr)).
  assert (w_tx (world st) = map (batch_event (s_remote_addr (inner st))) bs) as Etx.
  { rewrite (tu_tx _ _ _ _ _ T), Ea. cbn. by rewrite (proj1 Hset). }
  split; try done.
  - unfold ep_queue in *. cbn. by rewrite (pm_chans _ _ Pk).
  - apply (pm_store _ _ Pk).
  - intros d (tr & Htr & Hd & Hk). exists tr. cbn. rewrite Es, Ea. split_and!; [|done|done]. apply elem_of_app. by left.
  - intros x p Hx Hp Hsk. destruct (batches_carry (sent i) st bs x p) as [Hok (tr & Htr & Hd & Hk)]; try done.
    { destruct (dr_tx _ _ _ _ _ Dr) as (evs & E1 & E2). cbn in E1. rewrite (proj1 Hset) in E1. cbn in E1.
      by rewrite <- Etx, E1. }
    split; [|done]. exists tr. cbn. rewrite Es, Etx. split_and!; [apply elem_of_app; by right|done|done].
Qed.

(** ** Senders in full swing *)

(** Retransmissions are in order, the first unacknowledged packet does not
    wait, and every packet that does not wait has been sent. *)
Record streaming e : Prop := {
  sm_order : in_order (ep_st e);
  sm_first : forall l p, tabled (ep_st e) (s_remote_acked (ep_stream e)) l p -> p_waiting p = false;
  sm_flown : forall x l p, tabled (ep_st e) x l p -> p_waiting p = false -> on_wire e (as_slice (p_buf p));
}.

Lemma turn_tabled fired sent bs e st e' x l p :
  turn fired sent bs e st e' -> tabled (ep_st e') x l p ->
  exists q c, tabled st x l q /\ p = q <| p_time_sent := c |>.
Proof.
  intros T [Hx Hp]. cbn in Hx, Hp. rewrite (tr_stream _ _ _ _ _ _ T) in Hx.
  destruct (tabled_stored sent st x l (tr_inv _ _ _ _ _ _ T) Hx) as (q & [_ Hq] & _).
  destruct (tr_store _ _ _ _ _ _ T l q Hq) as [c Hc]. exists q, c. split; [done|]. by simplify_eq.
Qed.

Lemma turn_streaming fired sent bs e st e' :
  turn fired sent bs e st e' -> fired = true \/ streaming e -> streaming e'.
Proof.
  intros T Hs. pose proof (tr_turned _ _ _ _ _ _ T) as Tu.
  destruct (tu_order _ _ _ _ _ Tu) as [Ho Hf]; [destruct Hs as [|[]]; auto|]. split.
  - intros x l p x' l' p' Hx Hx'. destruct (turn_tabled _ _ _ _ _ _ _ _ _ T Hx) as (q & c & Hq & ->).
    destruct (turn_tabled _ _ _ _ _ _ _ _ _ T Hx') as (q' & c' & Hq' & ->). by apply (Ho x l q x' l' q').
  - intros l p Hx. destruct (turn_tabled _ _ _ _ _ _ _ _ _ T Hx) as (q & c & Hq & ->).
    rewrite (tr_stream _ _ _ _ _ _ T) in Hq. by apply (Hf l q).
  - intros x l p Hx Hw. destruct (turn_tabled _ _ _ _ _ _ _ _ _ T Hx) as (q & c & Hq & ->). cbn in Hw |- *.
    destruct (tu_flown _ _ _ _ _ Tu x l q Hq Hw) as [Hin|(-> & q0 & Hq0 & Hw0)].
    + apply (tr_wire _ _ _ _ _ _ T (Shared l) q Hin); destruct Hq as [Hk Hl].
      * cbn. unfold deref_loc. by rewrite Hl.
      * destruct (inv_out _ _ (tr_inv _ _ _ _ _ _ T) x l Hk) as (_ & q1 & Hq1 & _ & _ & _ & _ & Hsk). by simplify_eq.
    + destruct Hs as [|Hs]; [done|]. destruct Hq as [_ Hl]. destruct Hq0 as [Hk0 Hl0].
      destruct (ext_store _ _ (dr_ext _ _ _ _ _ (tr_drives _ _ _ _ _ _ T)) l q0 Hl0) as (q1 & Hq1 & (_ & Eb & _)).
      simplify_eq. rewrite Eb. apply (tr_kept _ _ _ _ _ _ T). by eapply (sm_flown _ Hs x l q0).
Qed.

Lemma turn_patient sent bs e st e' :
  turn false sent bs e st e' -> patient (ep_st e) -> patient (ep_st e').
Proof.
  intros T Hp x l p Hx. destruct (turn_tabled _ _ _ _ _ _ _ _ _ T Hx) as (q & c & Hq & ->).
  by apply (tu_patient _ _ _ _ _ (tr_turned _ _ _ _ _ _ T) eq_refl Hp x l q).
Qed.

(** An endpoint between two rounds: nothing queued anywhere, at most [D]
    packets unacknowledged, and counters with room for [R] rounds. *)
Record at_rest (i : side) (D R : Z) e : Prop := {
  rs_open : Open i e;
  rs_settled : settled e;
  rs_queue : ch_queue (ep_queue e) = [];
  rs_send_queue : s_send_queue (ep_stream e) = [];
  rs_outstanding : s_seq (ep_stream e) - s_remote_acked (ep_stream e) <= D;
  rs_budget : Budget (2 * R) (UDX_MTU * R) R ((UDX_MTU + 1) * (R * (2 + D))) e;
}.

Lemma turn_at_rest i D R fired sent bs e st e' :
  turn fired sent bs e st e' -> Open i e' -> settled e' ->
  s_seq (ep_stream e) - s_remote_acked (ep_stream e) <= D ->
  Budget (2 * R) (UDX_MTU * R) R ((UDX_MTU + 1) * (R * (2 + D))) e' -> at_rest i D R e'.
Proof.
  intros T HO HS HD HB. pose proof (tr_turned _ _ _ _ _ _ T) as Tu. pose proof (tr_stream _ _ _ _ _ _ T) as Es.
  split; try done; [apply T|rewrite Es; apply Tu|].
  rewrite Es, (tu_seq _ _ _ _ _ Tu). pose proof (ext_remote_acked _ _ (dr_ext _ _ _ _ _ (tr_drives _ _ _ _ _ _ T))).
  cbn in *. lia.
Qed.

(** ** A round: a packet to the peer, and its answer back *)

Lemma same_world_streaming e e' :
  ep_stream e' = ep_stream e ->
  sworld (ep_socket e') = (sworld (ep_socket e)) <| w_woken := w_woken (sworld (ep_socket e')) |> ->
  streaming e -> streaming e'.
Proof.
  intros Es Ew []. assert (w_store (sworld (ep_socket e')) = w_store (sworld (ep_socket e)) /\
    w_sent (sworld (ep_socket e')) = w_sent (sworld (ep_socket e))) as [E1 E2] by by rewrite Ew.
  split; unfold in_order, tabled, on_wire in *; cbn in *; rewrite ?Es, ?E1, ?E2; done.
Qed.

(** Side [i] receives one packet that its peer has sent, and takes a turn. *)
Lemma handover i n (sent : side -> list (list byte)) h body D R :
  let e := net_ep n i in
  NetInv n sent -> at_rest i D (R + 1) e -> 0 <= R -> 0 <= D ->
  on_wire (net_ep n (negb i)) (header_bytes h ++ body) -> wire_header h -> len (header_bytes h ++ body) <= UDX_MTU ->
  h_stream_id h = id i -> Z.land (h_typ h) UDX_HEADER_END = 0 ->
  exists n' (sent' : side -> list (list byte)) e1 e' payloads st bs, rtc net_step n n' /\ NetInv n' sent' /\
    moved i e' n n' /\ at_rest i D R e' /\ ep_stream e1 = ep_stream e /\ (streaming e -> streaming e1) /\
    queued e1 = [mk_IncomingPacket h body 0 (addr (negb i))] /\ turn false payloads bs e1 st e'.
Proof.
  intros e HN [HO HS Hq Hsq HD HB] HR HD0 Hwire Hw Hlen Hid Hend.
  destruct (deliver_net i n sent (2 * R + 2) (UDX_MTU * R + UDX_MTU) R ((UDX_MTU + 1) * ((R + 1) * (2 + D))) h body)
    as (n1 & sent1 & k & Hs1 & HN1 & M1 & HO1 & HS1 & HB1 & Ew & Eq); try done.
  { eapply Budget_weaken, HB; unfold UDX_MTU; lia. }
  { unfold UDX_MTU. nia. }
  fold e in M1, HO1, HS1, HB1, Ew, Eq. set (e1 := with_socket e k) in *. rewrite Hq in Eq. cbn [app] in Eq.
  assert (queued e1 = [mk_IncomingPacket h body 0 (addr (negb i))]) as Eps by (unfold queued; by rewrite Eq).
  pose proof (mv_self _ _ _ _ M1) as Ee1. rewrite len_app in Hlen. pose proof (len_nonneg (header_bytes h)).
  destruct (turn_net i false n1 sent1 (2 * R) (UDX_MTU * R) R ((UDX_MTU + 1) * (R * (2 + D))) D)
    as (n2 & sent2 & e2 & st & bs & Hs2 & HN2 & M2 & HO2 & HS2 & HB2 & T); rewrite ?Ee1; try done; try (unfold UDX_MTU; nia).
  { rewrite Eps. change (s_send_queue (ep_stream e1)) with (s_send_queue (ep_stream e)). rewrite Hsq.
    cbn [map concat app i_buf]. rewrite app_nil_r. autorewrite with udx_len.
    eapply Budget_weaken, HB1; unfold UDX_MTU in *; lia. }
  rewrite Ee1 in T. exists n2, sent2, e1, e2, (sent1 i), st, bs.
  split_and!; [by eapply rtc_l|done|by eapply moved_trans|by eapply turn_at_rest|done| |done|done].
  by apply same_world_streaming.
Qed.

(** The first unacknowledged packet of a sender in full swing is on the wire. *)
Lemma first_on_wire i n (sent : side -> list (list byte)) :
  let e := net_ep n i in
  let x := s_remote_acked (ep_stream e) in
  NetInv n sent -> streaming e -> x < s_seq (ep_stream e) ->
  exists h body, on_wire e (header_bytes h ++ body) /\ wire_header h /\ len (header_bytes h ++ body) <= UDX_MTU /\
    h_stream_id h = id (negb i) /\ h_typ h = UDX_HEADER_DATA /\ h_seq h = x.
Proof.
  intros e x HN Hs Hlt. pose proof (HN i) as HE. fold e in HE.
  destruct (ei_kept _ _ _ _ _ _ _ _ _ HE x) as [l Hl]; [subst x; lia|].
  destruct (inv_out _ _ (ei_stream _ _ _ _ _ _ _ _ _ HE) x l Hl) as (_ & p & Hp & (_ & Hw & Hid & _) & (Ht & body & _ & Hb & Hs2) & Hseq & _).
  exists (p_header p), body. rewrite <- Hs2. destruct (ei_peer _ _ _ _ _ _ _ _ _ HE) as (_ & _ & Hrid).
  split_and!; [|done| |by rewrite Hid|done|done].
  - apply (sm_flown _ Hs x l); [done|]. by apply (sm_first _ Hs l).
  - rewrite Hs2, len_app, len_header_bytes. unfold UDX_MAX_DATA_SIZE, UDX_HEADER_SIZE, UDX_MTU in *. lia.
Qed.

(** The answer to a data packet acknowledges it and is on the wire. *)
Lemma answer_on_wire sent bs e st e' h body from :
  RecvInv (ep_stream e) -> s_error (ep_stream e) = None -> s_on_firewall (ep_stream e) = None ->
  turn false sent bs e st e' -> queued e = [mk_IncomingPacket h body 0 from] ->
  h_typ h = UDX_HEADER_DATA -> h_seq h <= s_ack (ep_stream e) ->
  exists h', on_wire e' (header_bytes h' ++ []) /\ wire_header h' /\ len (header_bytes h' ++ []) <= UDX_MTU /\
    h_stream_id h' = s_remote_id (ep_stream e') /\ h_typ h' = 0 /\ h_seq h < h_ack h'.
Proof.
  intros HR He Hf T Eq Ht Hle. pose proof (tr_drives _ _ _ _ _ _ T) as Dr. pose proof (tr_turned _ _ _ _ _ _ T) as Tu.
  set (p := mk_IncomingPacket h body 0 from) in *. rewrite Eq in Dr, Tu.
  assert (passes (ep_stream e) p && has_type p UDX_HEADER_DATA = true) as Hp
    by (unfold passes, has_type; rewrite Hf; cbn; by rewrite Ht).
  destruct (tu_answer _ _ _ _ _ Tu p eq_refl Hp) as (Ein & sp & Hsp & [_ Hbuf] & Ha & Hsk & Hty).
  destruct (tr_wire _ _ _ _ _ _ T (Owned sp) sp Hsp eq_refl Hsk) as [Hwire (_ & Hwh & Hid & _)].
  cbn [ep_st inner] in Hty. rewrite He in Hty. rewrite Hbuf in Hwire. exists (p_header sp). rewrite app_nil_r.
  split_and!; [done|done| |by rewrite (tr_stream _ _ _ _ _ _ T)|done|].
  - rewrite len_header_bytes. unfold UDX_HEADER_SIZE, UDX_MTU. lia.
  - rewrite Ha. pose proof (dr_absorbed _ _ _ _ _ Dr) as Ab. pose proof (ab_ack _ _ _ Ab) as Hack. cbn [ep_st inner] in *.
    destruct (decide (h_seq h = s_ack (ep_stream e))) as [E|]; [|lia].
    destruct (absorbed_gap p _ _ HR (inv_recv _ _ (tr_inv _ _ _ _ _ _ T)) Ab Ein) as [Hlt _]; [done|done|lia].
Qed.

(** A round acknowledges at least one more packet. *)
Lemma round i n (sent : side -> list (list byte)) D D' R :
  let e := net_ep n i in
  NetInv n sent -> at_rest i D (R + 1) e -> streaming e -> at_rest (negb i) D' (R + 1) (net_ep n (negb i)) ->
  0 <= R -> 0 <= D -> 0 <= D' -> s_remote_acked (ep_stream e) < s_seq (ep_stream e) ->
  exists n' (sent' : side -> list (list byte)), rtc net_step n n' /\ NetInv n' sent' /\
    at_rest i D R (net_ep n' i) /\ streaming (net_ep n' i) /\ at_rest (negb i) D' R (net_ep n' (negb i)) /\
    s_remote_acked (ep_stream e) < s_remote_acked (ep_stream (net_ep n' i)) /\
    s_seq (ep_stream (net_ep n' i)) = s_seq (ep_stream e) /\
    forall j, net_written n' j = net_written n j /\ net_reads n' j = net_reads n j.
Proof.
  intros e HN Ri Hs Rj HR HD HD' Hlt.
  destruct (first_on_wire i n sent HN Hs Hlt) as (h & body & Hw & Hwh & Hlen & Hid & Hty & Hseq). fold e in Hw, Hseq.
  destruct (handover (negb i) n sent h body D' R HN Rj) as
    (n1 & sent1 & e1 & e1' & pl & st1 & bs1 & Hs1 & HN1 & M1 & Rj1 & Es1 & _ & Eq1 & T1); try done.
  { by rewrite negb_involutive. }
  { by rewrite Hty. }
  pose proof (mv_self _ _ _ _ M1) as Ej1. pose proof (mv_other _ _ _ _ M1) as Ei1. rewrite negb_involutive in Ei1.
  destruct (answer_on_wire pl bs1 e1 st1 e1' h body (addr (negb (negb i)))) as (h' & Hw' & Hwh' & Hlen' & Hid' & Hty' & Hack);
    rewrite ?Es1; try done.
  { apply (ei_stream _ _ _ _ _ _ _ _ _ (HN (negb i))). }
  { apply Rj. }
  { apply Rj. }
  { rewrite Hseq. apply (ei_acked _ _ _ _ _ _ _ _ _ (HN i)). }
  destruct (handover i n1 sent1 h' [] D R) as
    (n2 & sent2 & e2 & e2' & pl2 & st2 & bs2 & Hs2 & HN2 & M2 & Ri2 & Es2 & Hst2 & Eq2 & T2); rewrite ?Ei1, ?Ej1; try done.
  { rewrite Hid'. destruct (ei_peer _ _ _ _ _ _ _ _ _ (HN1 (negb i))) as (_ & _ & Hp).
    by rewrite Ej1, negb_involutive in Hp. }
  { by rewrite Hty'. }
  rewrite Ei1 in Es2, Hst2. fold e in Es2, Hst2. pose proof (mv_self _ _ _ _ M2) as Ei2.
  pose proof (mv_other _ _ _ _ M2) as Ej2. exists n2, sent2. rewrite Ei2, Ej2, Ej1.
  pose proof (tr_turned _ _ _ _ _ _ T2) as Tu. pose proof (tr_stream _ _ _ _ _ _ T2) as Est2.
  split_and!; [by etransitivity|done|done| |done| | |].
  - eapply turn_streaming; [exact T2|]. right. by apply Hst2.
  - rewrite Est2, (tu_acked _ _ _ _ _ Tu), Eq2. cbn [ep_st inner]. rewrite Es2. unfold max_ack. cbn. unfold i_ack. cbn. lia.
  - rewrite Est2, (tu_seq _ _ _ _ _ Tu). cbn [ep_st inner]. by rewrite Es2.
  - intros x. rewrite (mv_written _ _ _ _ M2), (mv_reads _ _ _ _ M2). split; apply M1.
Qed.

Lemma acked_le_seq i n (sent : side -> list (list byte)) :
  NetInv n sent -> 0 <= s_seq (ep_stream (net_ep n i)) - s_remote_acked (ep_stream (net_ep n i)).
Proof.
  intros HN. pose proof (ei_acked _ _ _ _ _ _ _ _ _ (HN i)). pose proof (ei_pack _ _ _ _ _ _ _ _ _ (HN i)). lia.
Qed.

Lemma at_rest_weaken i D R R' e : 0 <= R' <= R -> 0 <= D -> at_rest i D R e -> at_rest i D R' e.
Proof. intros ? ? []. split; try done. eapply Budget_weaken, rs_budget0; unfold UDX_MTU; nia. Qed.

(** As many rounds as packets are unacknowledged are enough; what there was
    room for beyond them is left. *)
Lemma rounds i n (sent : side -> list (list byte)) D D' R S :
  0 <= R -> 0 <= S -> 0 <= D -> 0 <= D' -> NetInv n sent -> at_rest i D (R + S) (net_ep n i) ->
  streaming (net_ep n i) -> at_rest (negb i) D' (R + S) (net_ep n (negb i)) ->
  s_seq (ep_stream (net_ep n i)) - s_remote_acked (ep_stream (net_ep n i)) <= R ->
  exists n' (sent' : side -> list (list byte)), rtc net_step n n' /\ NetInv n' sent' /\
    at_rest i D S (net_ep n' i) /\
    s_remote_acked (ep_stream (net_ep n' i)) = s_seq (ep_stream (net_ep n' i)) /\
    forall j, net_written n' j = net_written n j /\ net_reads n' j = net_reads n j.
Proof.
  intros HR HS HD HD'. revert n sent. pattern R. apply natlike_ind; [| |done]; clear R HR.
  { intros n sent HN Ri _ _ Hle. exists n, sent. pose proof (acked_le_seq i n sent HN). by split_and!; try lia. }
  intros R HR IH n sent HN Ri Hs Rj Hle. pose proof (acked_le_seq i n sent HN).
  destruct (decide (s_remote_acked (ep_stream (net_ep n i)) = s_seq (ep_stream (net_ep n i)))).
  { exists n, sent. split_and!; try done. eapply at_rest_weaken, Ri; lia. }
  replace (Z.succ R + S) with (R + S + 1) in Ri, Rj by lia.
  destruct (round i n sent D D' (R + S)) as (n1 & sent1 & Hs1 & HN1 & Ri1 & Hst1 & Rj1 & Hra & Hseq & Hrw);
    try done; try lia.
  destruct (IH n1 sent1) as (n2 & sent2 & Hs2 & HN2 & Ri2 & Heq & Hrw2); try done; [lia|].
  exists n2, sent2. split_and!; try done; [by etransitivity|]. intros x.
  destruct (Hrw x), (Hrw2 x). split; congruence.
Qed.

(** ** Getting into swing *)

Lemma pumped_patient sent e k :
  StreamInv sent (ep_st e) -> pumped (ep_socket e) k -> patient (ep_st e) -> patient (ep_st (with_socket e k)).
Proof.
  intros HI Pk Hp x l p [Hx Hl]. cbn in Hx, Hl. destruct (tabled_stored sent _ x l HI Hx) as (q & [_ Hq] & _).
  destruct (pm_store _ _ Pk l q Hq) as [c Hc]. simplify_eq. by apply (Hp x l q).
Qed.

Lemma pumped_queue e k : pumped (ep_socket e) k -> ep_queue (with_socket e k) = ep_queue e.
Proof. intros Pk. unfold ep_queue. cbn. by rewrite (pm_chans _ _ Pk). Qed.

(** The room that [R] rounds take, with the packets that wait for the endpoint
    and the ones it has not sent yet. *)
Definition roomy (R : Z) e : Prop :=
  let D := s_seq (ep_stream e) - s_remote_acked (ep_stream e) in
  Budget (2 * R + len (queued e) + 2) (UDX_MTU * R + len (concat (map i_buf (queued e)))) R
    ((UDX_MTU + 1) * (R * (2 + D) + len (s_send_queue (ep_stream e)) + 2 * len (queued e) + 2 * D)) e.

(** An endpoint sends what it has and takes what waits for it. *)
Lemma catch_up i n (sent : side -> list (list byte)) R :
  let e := net_ep n i in
  let D := s_seq (ep_stream e) - s_remote_acked (ep_stream e) in
  NetInv n sent -> Open i e -> roomy R e -> 0 <= R ->
  exists n' (sent' : side -> list (list byte)) e', rtc net_step n n' /\ NetInv n' sent' /\ moved i e' n n' /\
    at_rest i D R e' /\ (patient (ep_st e) -> patient (ep_st e')) /\
    Budget (2 * R + 1) (UDX_MTU * R) R ((UDX_MTU + 1) * (R * (2 + D) + D)) e' /\
    s_seq (ep_stream e') = s_seq (ep_stream e) /\ s_remote_acked (ep_stream e) <= s_remote_acked (ep_stream e').
Proof.
  intros e D HN HO HB HR. pose proof (acked_le_seq i n sent HN) as HD. fold e D in HD. unfold roomy in HB. fold D in HB.
  pose proof (len_nonneg (queued e)). pose proof (len_nonneg (s_send_queue (ep_stream e))).
  pose proof (len_nonneg (concat (map i_buf (queued e)))).
  destruct (pump_net i n sent _ _ _ _ HN HO HB) as (n1 & sent1 & k & Hs1 & HN1 & M1 & Pk & HS1); [done|unfold UDX_MTU; nia|].
  fold e in M1, Pk, HS1. set (e1 := with_socket e k) in *. pose proof (mv_self _ _ _ _ M1) as Ee1.
  assert (queued e1 = queued e) as Eq by (unfold queued, e1; by rewrite (pumped_queue e k Pk)).
  destruct (turn_net i false n1 sent1 (2 * R + 1) (UDX_MTU * R) R ((UDX_MTU + 1) * (R * (2 + D) + D)) D)
    as (n2 & sent2 & e2 & st & bs & Hs2 & HN2 & M2 & HO2 & HS2 & HB2 & T); rewrite ?Ee1; try done; try (unfold UDX_MTU; nia).
  { by apply pumped_Open. }
  { rewrite Eq. change (s_send_queue (ep_stream e1)) with (s_send_queue (ep_stream e)).
    eapply Budget_weaken; [| | | |eapply pumped_Budget; [|exact HB|exact Pk]]; unfold UDX_MTU; nia. }
  rewrite Ee1 in T. exists n2, sent2, e2.
  split_and!; [by etransitivity|done|by eapply moved_trans| | |done|..].
  - eapply turn_at_rest; [exact T|done|done|done|]. eapply Budget_weaken, HB2; unfold UDX_MTU; nia.
  - intros Hp. eapply turn_patient; [exact T|]. eapply pumped_patient; [|done|done]. apply (ei_stream _ _ _ _ _ _ _ _ _ (HN i)).
  - by rewrite (tr_stream _ _ _ _ _ _ T), (tu_seq _ _ _ _ _ (tr_turned _ _ _ _ _ _ T)).
  - rewrite (tr_stream _ _ _ _ _ _ T). apply (ext_remote_acked _ _ (dr_ext _ _ _ _ _ (tr_drives _ _ _ _ _ _ T))).
Qed.

(** A timeout puts the sender in full swing. *)
Lemma take_off i n (sent : side -> list (list byte)) D R :
  let e := net_ep n i in
  NetInv n sent -> at_rest i D R e -> patient (ep_st e) -> 0 <= R -> 0 <= D ->
  Budget (2 * R + 1) (UDX_MTU * R) R ((UDX_MTU + 1) * (R * (2 + D) + D)) e ->
  exists n' (sent' : side -> list (list byte)) e', rtc net_step n n' /\ NetInv n' sent' /\ moved i e' n n' /\
    at_rest i D R e' /\ streaming e' /\ s_seq (ep_stream e') = s_seq (ep_stream e) /\
    s_remote_acked (ep_stream e) <= s_remote_acked (ep_stream e').
Proof.
  intros e HN [HO HS Hq Hsq HD _] Hp HR HD0 HB. assert (queued e = []) as Eq by (unfold queued; by rewrite Hq).
  destruct (turn_net i true n sent (2 * R) (UDX_MTU * R) R ((UDX_MTU + 1) * (R * (2 + D))) D)
    as (n1 & sent1 & e1 & st & bs & Hs1 & HN1 & M1 & HO1 & HS1 & HB1 & T); fold e; try done; try (unfold UDX_MTU; nia).
  { rewrite Eq, Hsq. cbn [map concat]. autorewrite with udx_len. eapply Budget_weaken, HB; unfold UDX_MTU; lia. }
  exists n1, sent1, e1. split_and!; [done|done|done|by eapply turn_at_rest| | |].
  - eapply turn_streaming; [exact T|by left].
  - by rewrite (tr_stream _ _ _ _ _ _ T), (tu_seq _ _ _ _ _ (tr_turned _ _ _ _ _ _ T)).
  - rewrite (tr_stream _ _ _ _ _ _ T). apply (ext_remote_acked _ _ (dr_ext _ _ _ _ _ (tr_drives _ _ _ _ _ _ T))).
Qed.

(** A read with a buffer that is large enough takes and returns all there is. *)
Lemma read_all j n (sent : side -> list (list byte)) (buf : B) :
  NetInv n sent -> len (unread (ep_stream (net_ep n j))) <= rb_remaining buf ->
  exists n', net_step n n' /\ (forall x, net_written n' x = net_written n x) /\
    net_taken n' j = net_taken n j ++ unread (ep_stream (net_ep n j)) /\
    net_read n' j = net_read n j ++ unread (ep_stream (net_ep n j)) /\
    net_ep n' (negb j) = net_ep n (negb j).
Proof.
  intros HN Hlen. set (e := net_ep n j) in *. pose proof (ei_stream _ _ _ _ _ _ _ _ _ (HN j)) as HI. fold e in HI.
  destruct (wp_elim _ _ _ (poll_read_all (sent j) (ep_st e) 0%nat buf HI Hlen)) as (r & st' & E & Et & Er).
  assert (ep_run (NRead j 0%nat buf) e = Ret (([], [reading buf r]), with_st e st')) as Erun.
  { cbn [ep_run]. unfold on_stream, mbind, act_bind. by rewrite E. }
  eexists. split; [exists (NRead j 0%nat buf); split; [done|by apply net_run_eq]|]. unfold net_taken, net_read.
  cbn [net_reads net_written net_ep op_side fst snd]. split_and!.
  - intros x. destruct (side_cases j x) as [-> | ->]; rewrite ?upd_same, ?upd_other, ?app_nil_r; done.
  - by rewrite upd_same, taken_app, Et.
  - by rewrite upd_same, returned_app, Er.
  - by rewrite upd_other.
Qed.

(** The last read of a side whose peer has written [W]. *)
Lemma read_rest j n n0 (sent : side -> list (list byte)) (buf : B) W :
  NetInv n sent -> net_reads n j = net_reads n0 j -> net_taken n j ++ unread (ep_stream (net_ep n j)) = W ->
  len W <= rb_remaining buf ->
  exists n', net_step n n' /\ (forall x, net_written n' x = net_written n x) /\ net_taken n' j = W /\
    net_read n' j = net_read n0 j ++ drop (length (net_taken n0 j)) W /\ net_ep n' (negb j) = net_ep n (negb j).
Proof.
  intros HN Er <- Hbuf. destruct (read_all j n sent buf HN) as (n' & Hs & Hw & Ht & Hr & He).
  { rewrite len_app in Hbuf. pose proof (len_nonneg (net_taken n j)). lia. }
  exists n'. split_and!; try done. rewrite Hr. unfold net_read, net_taken in *. by rewrite Er, drop_app_length.
Qed.

(** Everything that side [i] has sent can be acknowledged: then its peer has
    all of it, and there is room for [S] more rounds. *)
Lemma all_acked i n (sent : side -> list (list byte)) S :
  let R := s_seq (ep_stream (net_ep n i)) - s_remote_acked (ep_stream (net_ep n i)) in
  0 <= S -> NetInv n sent -> (forall j, Open j (net_ep n j)) -> patient (ep_st (net_ep n i)) ->
  (forall j, roomy (R + S) (net_ep n j)) ->
  exists n' (sent' : side -> list (list byte)), rtc net_step n n' /\ NetInv n' sent' /\
    at_rest i R S (net_ep n' i) /\
    s_remote_acked (ep_stream (net_ep n' i)) = s_seq (ep_stream (net_ep n' i)) /\
    net_written n' i = net_written n i /\
    net_reads n' (negb i) = net_reads n (negb i) /\
    net_taken n' (negb i) ++ unread (ep_stream (net_ep n' (negb i))) = net_written n i.
Proof.
  intros R HS HN HO Hp HB.
  pose proof (acked_le_seq i n sent HN) as HR. pose proof (acked_le_seq (negb i) n sent HN) as HD'. fold R in HR.
  destruct (catch_up i n sent (R + S) HN (HO i) (HB i)) as (n1 & sent1 & e1 & Hs1 & HN1 & M1 & Ri1 & Hp1 & HB1 & Eseq1 & Hra1);
    [lia|].
  pose proof (mv_self _ _ _ _ M1) as E1. pose proof (mv_other _ _ _ _ M1) as E1'.
  destruct (catch_up (negb i) n1 sent1 (R + S) HN1) as (n2 & sent2 & e2 & Hs2 & HN2 & M2 & Rj2 & _);
    rewrite ?E1'; try done; [lia|].
  pose proof (mv_self _ _ _ _ M2) as E2. pose proof (mv_other _ _ _ _ M2) as E2'. rewrite negb_involutive, E1 in E2'.
  destruct (take_off i n2 sent2 R (R + S) HN2) as (n3 & sent3 & e3 & Hs3 & HN3 & M3 & Ri3 & Hst3 & Eseq3 & Hra3);
    rewrite ?E2'; try done; [by apply Hp1|lia|].
  pose proof (mv_self _ _ _ _ M3) as E3. pose proof (mv_other _ _ _ _ M3) as E3'. rewrite E2' in Eseq3, Hra3.
  destruct (rounds i n3 sent3 R _ R S HR HS HR HD' HN3) as (n4 & sent4 & Hs4 & HN4 & Ri4 & Hdone & Hrw);
    rewrite ?E3, ?E3', ?E2; try done.
  { by rewrite E1' in Rj2. }
  { unfold R. lia. }
  assert (net_written n4 i = net_written n i) as Ew
    by (rewrite (proj1 (Hrw i)), (mv_written _ _ _ _ M3), (mv_written _ _ _ _ M2); apply M1).
  pose proof (HN4 i) as HE. pose proof (HN4 (negb i)) as HE'. rewrite negb_involutive in HE'.
  exists n4, sent4. split_and!; try done; [by repeat (etransitivity; [eassumption|])| |].
  { rewrite (proj2 (Hrw (negb i))), (mv_reads _ _ _ _ M3), (mv_reads _ _ _ _ M2). apply M1. }
  unfold net_taken. rewrite (ei_read _ _ _ _ _ _ _ _ _ HE'), <- Ew, <- (ei_written _ _ _ _ _ _ _ _ _ HE). f_equal. apply take_ge.
  pose proof (ei_acked _ _ _ _ _ _ _ _ _ HE). pose proof (inv_seq _ _ (ei_stream _ _ _ _ _ _ _ _ _ HE)) as Hsq.
  cbn in Hsq. unfold len in Hsq. lia.
Qed.

Context (w : side -> World).
Hypothesis worlds_fresh : forall i, world_fresh (w i).
Hypothesis ids_u32 : forall i, 0 <= id i < u32_modulus.

(** Delivery. From every reachable state in which the two endpoints are up,
    no packet has used up its transmissions and the counters have room, the
    network can let all that a side has written arrive: there is a run of
    polls, timeouts, sends and receives after which one read returns the last
    of it. Nothing that went before (losses, duplicates, reordering, packets
    that wait for their retransmission or for the window) can bring the
    connection into a state in which it is stuck. *)
Theorem everything_can_be_delivered n i (buf : B) :
  net_reachable (B := B) addr id w n -> (forall j, Open j (net_ep n j)) -> patient (ep_st (net_ep n i)) ->
  (forall j, roomy (s_seq (ep_stream (net_ep n i)) - s_remote_acked (ep_stream (net_ep n i))) (net_ep n j)) ->
  len (net_written n i) <= rb_remaining buf ->
  exists n', rtc net_step n n' /\ net_written n' i = net_written n i /\ net_taken n' (negb i) = net_written n i /\
    net_read n' (negb i) = net_read n (negb i) ++ drop (length (net_taken n (negb i))) (net_written n i).
Proof.
  intros [sent HN]%reachable_inv HO Hp HB Hbuf; try done.
  destruct (all_acked i n sent 0) as (n4 & sent4 & Hs4 & HN4 & _ & _ & Ew & Er & Erd); try done.
  { intros j. rewrite Z.add_0_r. apply HB. }
  destruct (read_rest (negb i) n4 n sent4 buf _ HN4 Er Erd Hbuf) as (n5 & Hs5 & Hw5 & Ht5 & Hr5 & _).
  exists n5. split_and!; [|by rewrite Hw5|done|done]. etransitivity; [exact Hs4|by apply rtc_once].
Qed.

End delivery.

(** ** After a loss *)

#[local] Existing Instance option_instant.
#[local] Existing Instance option_instant_laws.
#[local] Existing Instance net_profile.
#[local] Existing Instance udp_segment.
#[local] Existing Instance udp_segment_laws.

(** Side [true] has written and sent two bytes, which were lost. *)
Definition lost_net : Net := demo_net (take 3 demo_ops).

Lemma lost_reachable : demo_reachable lost_net.
Proof. apply demo_net_reachable. do 3 (constructor; [apply sends_all_ok || exact I|]). constructor. Qed.

Lemma lost_open j : Open two_ids j (net_ep lost_net j).
Proof. destruct j; split; try (vm_compute; reflexivity); vm_compute; constructor. Qed.

Lemma lost_patient : patient (ep_st (net_ep lost_net true)).
Proof.
  intros k l p [Hk Hp]. destruct (reachable_inv two_addrs two_ids two_addrs_inj two_worlds two_worlds_fresh two_ids_u32
    _ lost_reachable) as [sent HN].
  destruct (inv_out _ _ (ei_stream _ _ _ _ _ _ _ _ _ (HN true)) k l Hk) as (Hr & _).
  change (s_seq (inner (ep_st (net_ep lost_net true)))) with 1 in Hr. assert (k = 0) as -> by lia.
  assert (s_outgoing (inner (ep_st (net_ep lost_net true))) !! 0 = Some 0%nat) as E by (vm_compute; reflexivity).
  rewrite E in Hk. injection Hk as <-.
  assert (exists q, w_store (world (ep_st (net_ep lost_net true))) !! 0%nat = Some q /\ p_transmits q = 0) as (q & Hq & Et)
    by (vm_compute; eexists; split; reflexivity).
  rewrite Hq in Hp. injection Hp as <-. rewrite Et. done.
Qed.

Lemma lost_roomy R j : R = 1 \/ R = 3 -> roomy R (net_ep lost_net j).
Proof.
  intros [-> | ->]; destruct j; split; try (apply room_b_spec; vm_compute; reflexivity); try (split; apply fits_b_spec; vm_compute; reflexivity);
    repeat split; vm_compute; done.
Qed.

Lemma everything_can_be_delivered_witness :
  net_read lost_net false = [] /\
  exists n', rtc (net_step (B := list byte * Z) two_addrs two_ids) lost_net n' /\ net_read n' false = word.
Proof.
  split; [vm_compute; reflexivity|].
  destruct (everything_can_be_delivered two_addrs two_ids two_addrs_inj two_worlds two_worlds_fresh two_ids_u32
    lost_net true ([], 100) lost_reachable lost_open lost_patient (fun j => lost_roomy 1 j ltac:(by left)) ltac:(vm_compute; discriminate))
    as (n' & Hs & _ & _ & Hr).
  exists n'. split; [exact Hs|]. etransitivity; [exact Hr|]. vm_compute. reflexivity.
Defined.
