(* ===== verification/NetworkClose.v ===== *)
(** Closing: a side that has written can have all of it delivered, close its
    stream and be told that the stream is closed. *)

From S2P Require Import Prelude Constants Errors UdpProto Packet Runtime Stream StreamInv StreamCtrl.
From S2P Require Import StreamSend StreamTimer StreamAck StreamRecv StreamDriver StreamSpec StreamLiveness StreamTurn.
From S2P Require Import StreamPeer Socket SocketSpec Network NetworkSpec NetworkPump NetworkDelivery.

Local Open Scope Z_scope.

(** ** The stream *)

Section stream.
Context `{P : Profile} {AI : AtomicInstant} {AIL : AtomicInstantLaws AI}.
Implicit Types (st : StreamSt) (sent : list (list byte)).

(** What stays of a stream with nothing to retransmit while it closes. *)
Record closing (tx : Oneshot) st st' : Prop := {
  cl_outgoing : s_outgoing (inner st') = ∅;
  cl_error : is_Some (s_error (inner st'));
  cl_on_close : s_on_close (inner st') = Some tx;
  cl_signals : w_signals (world st') = w_signals (world st);
  cl_open : w_tx_open (world st') = w_tx_open (world st);
  cl_local_id : s_local_id (inner st') = s_local_id (inner st);
}.

Lemma close_closing sent c tx st :
  StreamInv sent st -> s_outgoing (inner st) = ∅ -> Room (c + 1) 0 st -> 0 <= c ->
  wp (close tx) (fun _ st' => StreamInv sent st' /\ closing tx st st' /\ Room c 0 st' /\
    s_send_queue (inner st') <> []) st.
Proof.
  intros HI Ho HR Hc. pose proof HR as [_ _ _ [Hnn Hroom] _ _ _]. unfold close. apply wp_bind.
  eapply wp_mono; [apply (terminate_wp sent); [done|lia..]|].
  intros [] st1 (HI1 & C & (p & Hq & _) & Htx & He & _). apply wp_set_self.
  assert (StreamInv sent (st1 <| inner ::= fun s => s <| s_on_close := Some tx |> |>)) as HI2.
  { eapply StreamInv_frame, HI1; try done. eapply CtrlInv_frame, HI1; try done; apply HI1. }
  split_and!; [done| | |cbn; rewrite Hq; by destruct (s_send_queue (inner st))].
  - split; cbn; try apply C; [by rewrite (calm_outgoing _ _ C)|by rewrite He|done].
  - destruct (calm_stats _ _ C) as [n Es]. rewrite Es in Htx. cbn in Htx. destruct HR.
    split; cbn; rewrite ?Es; cbn;
      rewrite ?(calm_incoming _ _ C), ?(calm_cursor _ _ C), ?(calm_seq _ _ C), ?(calm_cwnd _ _ C);
      unfold UDX_MTU in *; lia.
Qed.

(** A poll of the driver of such a stream sends what is queued. *)
Lemma closing_poll sent tx cx st0 st :
  StreamInv sent st -> closing tx st0 st -> w_tx_open (world st) = true -> s_send_queue (inner st) <> [] ->
  wp (driver_poll cx silence false) (fun r st' => r = Pending /\ closing tx st0 st' /\ s_send_queue (inner st') = []) st.
Proof.
  intros HI Hcl Hopen Hq. unfold driver_poll. apply wp_bind, wp_set_self. fold (unwoken st). apply wp_bind, wp_self.
  assert (closed_and_drained (inner (unwoken st)) = false) as ->.
  { unfold closed_and_drained. cbn. rewrite (bool_decide_eq_false_2 _ Hq). by rewrite andb_false_r. }
  assert (StreamInv sent (unwoken st)) as HI0 by by apply (frame_waker sent st None).
  assert (tidy (unwoken st)) as Htd by (intros k [l Hk]; cbn in Hk; by rewrite (cl_outgoing _ _ _ Hcl) in Hk).
  apply wp_bind. unfold poll_drive. apply wp_bind. eapply silent_incoming; [done|].
  apply wp_bind. eapply wp_mono; [by apply (timeouts_patient sent false)|].
  intros r st1 (-> & HI1 & _ & _ & _ & _ & _ & ->).
  apply wp_bind. eapply wp_mono; [by apply (flush_waiting_packets_wp sent)|].
  intros [] st2 (HI2 & ks & i & F & _). apply wp_bind. eapply wp_mono.
  { apply (poll_transmit_wp sent); [done|]. by rewrite (ext_tx_open _ _ (kp_ext _ _ (fl_keeps _ _ _ F))). }
  intros [] st3 (bs & _ & _ & ->). st_run. split_and!; [done| |done].
  destruct Hcl. pose proof (fl_keeps _ _ _ F) as K. split; cbn.
  - by rewrite (fl_outgoing _ _ _ F).
  - by rewrite (kp_error _ _ K).
  - by rewrite (kp_on_close _ _ K).
  - by rewrite (kp_signals _ _ K).
  - by rewrite (ext_tx_open _ _ (kp_ext _ _ K)).
  - by rewrite (ext_local_id _ _ (kp_ext _ _ K)).
Qed.

Lemma closing_undrained tx st0 st :
  closing tx st0 st -> s_send_queue (inner st) <> [] -> closed_and_drained (inner st) = false.
Proof. intros _ Hq. unfold closed_and_drained. rewrite (bool_decide_eq_false_2 _ Hq). by rewrite andb_false_r. Qed.

Lemma closing_poll_wp sent c tx cx st0 st :
  StreamInv sent st -> closing tx st0 st -> w_tx_open (world st0) = true -> s_send_queue (inner st) <> [] ->
  Room (c + 1) 0 st -> 0 <= c ->
  wp (driver_poll cx silence false) (fun r st' => r = Pending /\ StreamInv sent st' /\ closing tx st0 st' /\
    s_send_queue (inner st') = [] /\ Room c 0 st') st.
Proof.
  intros HI Hcl Hopen Hq HR Hc. rewrite <- (cl_open _ _ _ Hcl) in Hopen. eapply wp_mono.
  { eapply wp_and; [by apply (closing_poll sent tx cx st0 st)|]. apply (driver_poll_wp sent); try done.
    eapply Room_weaken, HR; unfold len; cbn; lia. }
  intros r st' ((-> & Hcl' & Hq') & HI' & Hcase). rewrite (closing_undrained _ _ _ Hcl Hq) in Hcase.
  destruct Hcase as (_ & D & _). split_and!; try done. eapply (drives_Room sent [] 1); [lia|done|].
  eapply Room_weaken, HR; unfold len; cbn; lia.
Qed.

Lemma closing_done tx st0 st :
  closing tx st0 st -> s_send_queue (inner st) = [] -> closed_and_drained (inner st) = true.
Proof.
  intros [Ho [x He] _ _ _ _] Hq. unfold closed_and_drained. by rewrite He, Hq, Ho, !bool_decide_eq_true_2.
Qed.

(** The next poll completes. *)
Lemma closing_finish sent tx cx st0 st :
  StreamInv sent st -> closing tx st0 st -> w_tx_open (world st0) = true -> s_send_queue (inner st) = [] ->
  Room 1 0 st -> driver_poll cx silence false st = Ret (Ready tt, finished st).
Proof.
  intros HI Hcl Hopen Hq HR. rewrite <- (cl_open _ _ _ Hcl) in Hopen.
  destruct (wp_elim _ _ _ (driver_poll_wp sent cx silence false st HI ltac:(constructor) HR Hopen))
    as (r & st' & E & _ & Hcase). rewrite (closing_done _ _ _ Hcl Hq) in Hcase. by destruct Hcase as [-> ->].
Qed.

End stream.

(** ** The network *)

Section network.
Context `{P : Profile} {AI : AtomicInstant} {AIL : AtomicInstantLaws AI}.
Context `{KG : KernelGso} {KGL : KernelGsoLaws}.
Context {B : Type} {RB : ReadBuf B} {RBL : ReadBufLaws B}.
Context (addr : side -> SocketAddr) (id : side -> Z).
Hypothesis addr_inj : addr true <> addr false.
Implicit Types (e : Endpoint) (n : Net).

Local Abbreviation NetInv := (NetInv addr id).
Local Abbreviation net_step := (net_step (B := B) addr id).

(** The application at [e] has been told that its stream is closed: the driver
    has completed, fired [tx] and announced the end to the socket. *)
Definition closed_down (tx : Oneshot) e : Prop :=
  ep_running e = false /\ tx ∈ w_signals (sworld (ep_socket e)) /\
  EvStreamDropped (s_local_id (ep_stream e)) ∈ w_tx (sworld (ep_socket e)).

Lemma finish_run i cx m fired e st :
  driver_poll cx (ep_script e m) fired (ep_st e) = Ret (Ready tt, st) -> closed_and_drained (ep_stream e) = true ->
  ep_run (B := B) (NPoll i cx m fired) e = Ret (([], []), (with_st e st) <| ep_running := false |>).
Proof.
  intros E Hc. cbn [ep_run]. unfold ep_poll, get, on_stream, modify, mbind, act_bind. cbn. rewrite E. cbn. by rewrite Hc.
Qed.

(** An empty channel with a live sender looks silent. *)
Lemma quiet_script e : ch_queue (ep_queue e) = [] -> ch_tx_alive (ep_queue e) = true -> ep_script e 0 = silence.
Proof. intros Hq Ha. unfold ep_script. by rewrite Hq, Ha. Qed.

Lemma polled_queue e st : ep_queue (polled e st 0) = ep_queue e.
Proof.
  unfold ep_queue, polled. cbn. rewrite list_lookup_alter_eq. by destruct (chans (ep_socket e) !! ep_chan e) as [[]|].
Qed.

(** Closing, a poll that sends the END packet, and the poll that completes. *)
Lemma close_net i n (sent : side -> list (list byte)) tx D :
  let e := net_ep n i in
  NetInv n sent -> at_rest id i D 2 e -> s_outgoing (ep_stream e) = ∅ ->
  exists n' (sent' : side -> list (list byte)) e', rtc net_step n n' /\ NetInv n' sent' /\ moved i e' n n' /\
    closed_down tx e'.
Proof.
  intros e HN Re Ho. pose proof (HN i) as HE. fold e in HE.
  pose proof (ei_stream _ _ _ _ _ _ _ _ _ HE) as HI. pose proof (ei_open _ _ _ _ _ _ _ _ _ HE) as Hopen.
  assert (Room 3 0 (ep_st e)) as HR by (eapply Room_weaken, Re; unfold UDX_MTU; lia).
  destruct (wp_elim _ _ _ (close_closing (sent i) 2 tx (ep_st e) HI Ho HR ltac:(lia)))
    as ([] & st1 & E1 & HI1 & C1 & HR1 & Hq1).
  destruct (run_step addr id addr_inj n sent (NClose i tx : net_op (B := B)) (with_st e st1))
    as (n1 & sent1 & Hs1 & HN1 & M1); [done|eapply Room_weaken, HR; lia| |].
  { cbn [ep_run op_side]. unfold on_stream, mbind, act_bind. fold e. by rewrite E1. }
  cbn [op_side] in M1. pose proof (mv_self _ _ _ _ M1) as Ee1. set (e1 := with_st e st1) in *.
  assert (ep_st e1 = st1) as Est1 by (by destruct st1).
  assert (ep_script e1 0 = silence) as Es1.
  { apply quiet_script; [exact (rs_queue _ _ _ _ _ Re)|].
    change (ep_queue e1) with (ep_queue e). unfold ep_queue. by rewrite (op_chan _ _ _ (rs_open _ _ _ _ _ Re)). }
  destruct (wp_elim _ _ _ (closing_poll_wp (sent i) 1 tx 0%nat (ep_st e) st1 HI1 C1 Hopen Hq1 HR1 ltac:(lia)))
    as (r & st2 & E2 & -> & HI2 & C2 & Hq2 & HR2).
  destruct (run_step addr id addr_inj n1 sent1 (NPoll i 0%nat 0 false : net_op (B := B)) (polled e1 st2 0))
    as (n2 & sent2 & Hs2 & HN2 & M2); [done|..].
  { cbn [net_ok op_side]. rewrite Ee1, Es1, Est1. split; [apply Re|]. eapply Room_weaken, HR1; unfold len; cbn; lia. }
  { cbn [op_side]. rewrite Ee1. apply poll_run; [by rewrite Es1, Est1|by eapply closing_undrained]. }
  cbn [op_side] in M2. pose proof (mv_self _ _ _ _ M2) as Ee2. set (e2 := polled e1 st2 0) in *.
  assert (ep_st e2 = st2) as Est2 by (by destruct st2).
  assert (ep_script e2 0 = silence) as Es2 by (rewrite <- Es1; unfold ep_script, e2; by rewrite polled_queue).
  destruct (run_step addr id addr_inj n2 sent2 (NPoll i 0%nat 0 false : net_op (B := B))
    ((with_st e2 (finished st2)) <| ep_running := false |>)) as (n3 & sent3 & Hs3 & HN3 & M3); [done|..].
  { cbn [net_ok op_side]. rewrite Ee2, Es2, Est2. split; [done|exact HR2]. }
  { cbn [op_side]. rewrite Ee2. apply finish_run; [|by eapply closing_done].
    rewrite Es2, Est2. by eapply (closing_finish (sent i)). }
  exists n3, sent3, ((with_st e2 (finished st2)) <| ep_running := false |>).
  split_and!; [by do 3 (eapply rtc_l; [eassumption|])|done|by do 2 (eapply moved_trans; [eassumption|])|].
  unfold closed_down. cbn. rewrite (cl_on_close _ _ _ C2), (cl_open _ _ _ C2). cbn [ep_st world]. rewrite Hopen.
  split_and!; [done|apply elem_of_app; right; by left|apply elem_of_app; right; by left].
Qed.

(** A stream whose packets are all acknowledged has none to retransmit. *)
Lemma acked_empty i n (sent : side -> list (list byte)) :
  NetInv n sent -> s_remote_acked (ep_stream (net_ep n i)) = s_seq (ep_stream (net_ep n i)) ->
  s_outgoing (ep_stream (net_ep n i)) = ∅.
Proof.
  intros HN Hr. pose proof (HN i) as HE. apply map_empty. intros k. apply eq_None_not_Some. intros [l Hk].
  destruct (inv_out _ _ (ei_stream _ _ _ _ _ _ _ _ _ HE) k l Hk) as ((_ & Hlt) & _).
  pose proof (ei_above _ _ _ _ _ _ _ _ _ HE k (ex_intro _ l Hk)). cbn in *. lia.
Qed.

Context (w : side -> World).
Hypothesis worlds_fresh : forall i, world_fresh (w i).
Hypothesis ids_u32 : forall i, 0 <= id i < u32_modulus.

(** C8: a graceful close. From every reachable state in which the two endpoints
    are up, no packet has used up its transmissions and the counters have room,
    a side that waits for its acknowledgements can close its stream without
    losing anything: there is a run after which the peer has taken all that the
    side has written, the rest of it in a read that returned it, and the future
    that [close] returned is resolved. Waiting matters: the END packet is not retransmitted and may overtake data. *)
Theorem close_can_complete n i tx (buf : B) :
  net_reachable (B := B) addr id w n -> (forall j, Open id j (net_ep n j)) -> patient (ep_st (net_ep n i)) ->
  (forall j, roomy (s_seq (ep_stream (net_ep n i)) - s_remote_acked (ep_stream (net_ep n i)) + 2) (net_ep n j)) ->
  len (net_written n i) <= rb_remaining buf ->
  exists n', rtc net_step n n' /\ net_written n' i = net_written n i /\
    net_taken n' (negb i) = net_written n i /\
    net_read n' (negb i) = net_read n (negb i) ++ drop (length (net_taken n (negb i))) (net_written n i) /\
    closed_down tx (net_ep n' i).
Proof.
  intros [sent HN]%reachable_inv HO Hp HB Hbuf; try done.
  destruct (all_acked addr id addr_inj i n sent 2) as (n1 & sent1 & Hs1 & HN1 & R1 & Hacked & Ew & Er & Erd); try done.
  destruct (close_net i n1 sent1 tx _ HN1 R1 (acked_empty _ _ _ HN1 Hacked)) as (n2 & sent2 & e2 & Hs2 & HN2 & M2 & Hd).
  rewrite <- (mv_other _ _ _ _ M2) in Erd. unfold net_taken in Erd. rewrite <- (mv_reads _ _ _ _ M2) in Er, Erd.
  destruct (read_rest addr id (negb i) n2 n sent2 buf _ HN2 Er Erd Hbuf) as (n3 & Hs3 & Hw3 & Ht3 & Hr3 & Ho3).
  rewrite negb_involutive, (mv_self _ _ _ _ M2) in Ho3.
  exists n3. split_and!; [|by rewrite Hw3, (mv_written _ _ _ _ M2)|done|done|by rewrite Ho3].
  etransitivity; [exact Hs1|]. etransitivity; [exact Hs2|by apply rtc_once].
Qed.

End network.

(** ** After a loss *)

#[local] Existing Instance option_instant.
#[local] Existing Instance option_instant_laws.
#[local] Existing Instance net_profile.
#[local] Existing Instance udp_segment.
#[local] Existing Instance udp_segment_laws.

(** The two bytes that were lost arrive, and the close that follows resolves. *)
Lemma close_can_complete_witness :
  net_read lost_net false = [] /\
  exists n', rtc (net_step (B := list byte * Z) two_addrs two_ids) lost_net n' /\ net_read n' false = word /\
    8%nat ∈ w_signals (sworld (ep_socket (net_ep n' true))).
Proof.
  split; [vm_compute; reflexivity|].
  destruct (close_can_complete two_addrs two_ids two_addrs_inj two_worlds two_worlds_fresh two_ids_u32
    lost_net true 8%nat ([], 100) lost_reachable lost_open lost_patient
    (fun j => lost_roomy 3 j ltac:(by right)) ltac:(vm_compute; discriminate))
    as (n' & Hs & _ & _ & Hr & _ & Htx & _).
  exists n'. split; [exact Hs|]. split; [|exact Htx]. etransitivity; [exact Hr|]. vm_compute. reflexivity.
Defined.
