(* ===== verification/NetworkEnd.v ===== *)
(** The end of a stream: an END packet that arrives before data ends the stream
    of its receiver, and the data can never be read. *)

From S2P Require Import Prelude Constants Errors UdpProto Packet Runtime Stream StreamInv StreamCtrl.
From S2P Require Import StreamSend StreamTimer StreamAck StreamRecv StreamDriver StreamSpec StreamLiveness StreamTurn.
From S2P Require Import StreamPeer Socket SocketSpec Network NetworkSpec NetworkPump NetworkDelivery NetworkClose.

Local Open Scope Z_scope.

(** ** The stream *)

Section stream.
Context `{P : Profile} {AI : AtomicInstant} {AIL : AtomicInstantLaws AI}.
Implicit Types (st : StreamSt) (sent : list (list byte)).

(** An END packet that is let through and carries no data, as [terminate]
    queues it. *)
Definition bare_end (s : UdxStreamInner) (p : IncomingPacket) : Prop :=
  passes s p = true /\ has_type p UDX_HEADER_END = true /\ has_type p UDX_HEADER_DATA = false.

(** The acknowledgement is determined by the reassembly map. *)
Lemma first_gap (s s' : UdxStreamInner) :
  RecvInv s -> RecvInv s' -> s_incoming s' = s_incoming s -> s_read_cursor s' = s_read_cursor s ->
  s_ack s <= s_ack s' -> s_ack s' = s_ack s.
Proof.
  intros HR HR' Ei Ec Hle. destruct (decide (s_ack s = s_ack s')) as [|Hne]; [done|]. pose proof (inv_cursor _ HR).
  destruct (inv_contiguous _ HR' (s_ack s)) as [q Hq]; [lia|]. rewrite Ei, (inv_gap _ HR) in Hq. done.
Qed.

Lemma end_incoming sent p st :
  StreamInv sent st -> incoming_ok p -> Room 1 (len (i_buf p)) st -> bare_end (inner st) p ->
  wp (poll_incoming (mk_RecvScript [EvPacket p] false)) (fun _ st' => s_error (inner st') = Some closed_by_remote /\
    s_incoming (inner st') = s_incoming (inner st) /\ s_read_cursor (inner st') = s_read_cursor (inner st) /\
    s_ack (inner st') = s_ack (inner st)) st.
Proof.
  intros HI Hok HR (Hpass & Hend & Hdata). pose proof Hok as ((_ & _ & _ & _ & _ & Hack) & _).
  unfold poll_incoming. cbn [rx_events rx_closed recv_loop]. apply wp_bind, wp_bind.
  eapply wp_mono; [by apply (handle_incoming_wp sent)|].
  intros [] st1 (HI1 & H1 & _ & Hin & He & _). rewrite Hpass, Hdata in Hin. rewrite Hpass, Hend in He. cbn [andb] in Hin, He.
  pose proof (hd_absorbed _ _ _ _ _ _ _ H1) as A1.
  assert (s_ack (inner st1) = s_ack (inner st)) as Ea by (apply first_gap; [apply HI|apply HI1|done|apply A1..]).
  apply wp_ret, wp_bind. eapply wp_mono.
  { apply (handle_incoming_max_remote_ack_wp sent); [done|]. unfold i_ack, U32_MAX. lia. }
  intros [] st' (_ & [[_ ->]|(_ & st2 & A & _ & _ & ->)]); apply wp_ret; [split_and!; [done..|apply A1|done]|].
  pose proof (rearmed_keeps (s_rto (inner st2)) st2) as K2. pose proof (ac_keeps _ _ _ A) as K1.
  rewrite (kp_error _ _ K2), (kp_error _ _ K1), (kp_incoming _ _ K2), (kp_incoming _ _ K1), (kp_cursor _ _ K2),
    (kp_cursor _ _ K1), (kp_ack _ _ K2), (kp_ack _ _ K1). split_and!; [done..|apply A1|done].
Qed.

(** The poll that takes it leaves the stream closed and drained. *)
Lemma end_poll sent p cx st :
  StreamInv sent st -> incoming_ok p -> Room 3 (len (i_buf p)) st -> bare_end (inner st) p ->
  s_error (inner st) = None -> s_outgoing (inner st) = ∅ -> w_tx_open (world st) = true ->
  wp (driver_poll cx (mk_RecvScript [EvPacket p] false) false) (fun r st' => r = Pending /\ StreamInv sent st' /\
    closed_and_drained (inner st') = true /\ Room 1 0 st' /\ s_ack (inner st') = s_ack (inner st)) st.
Proof.
  intros HI Hok HR Hp He Ho Hopen. set (rx := mk_RecvScript [EvPacket p] false).
  assert (Forall incoming_ok (script_packets rx)) as Hps by (constructor; [done|constructor]).
  assert (len (concat (map i_buf (script_packets rx))) = len (i_buf p)) as Eb by (cbn; by rewrite app_nil_r).
  change (len (script_packets rx)) with 1 in *. pose proof (frame_waker sent st None HI) as HI0. fold (unwoken st) in HI0.
  assert (forall m, m <= 3 -> Room m (len (i_buf p)) (unwoken st)) as HR0
    by (intros m Hm; by eapply Room_weaken; [exact Hm| |by destruct HR; split]).
  assert (closed_and_drained (inner st) = false) as Hcd by (unfold closed_and_drained; by rewrite He).
  destruct (wp_elim _ _ _ (wp_and _ _ _ _ (end_incoming sent p (unwoken st) HI0 Hok (HR0 1 ltac:(lia)) Hp)
    (incoming_drives sent rx (unwoken st) HI0 Hps ltac:(rewrite Eb; by apply (HR0 1))))) 
    as (r1 & st1 & E1 & (He1 & _ & _ & Ea1) & HI1 & D1 & ->).
  assert (w_tx_open (world st1) = true) as Hopen1 by by rewrite (ext_tx_open _ _ (dr_ext _ _ _ _ _ D1)).
  destruct (wp_elim _ _ _ (wp_and _ _ _ _
    (poll_drive_wp sent rx false (unwoken st) HI0 Hps ltac:(rewrite Eb; by apply (HR0 1)) Hopen)
    (poll_drive_after sent rx false _ (unwoken st) st1 E1 HI1 Hopen1)))
    as (r2 & st2 & E2 & (HI2 & D2 & _) & K2 & _ & [[_ [? _]]|(-> & _ & Hq & _)]); [done|].
  assert (Room 2 0 st2) as HR2.
  { eapply (drives_Room sent (script_packets rx) 0); [lia|exact D2|]. rewrite Eb. by apply (HR0 3). }
  eapply wp_mono; [eapply wp_and; [apply (driver_poll_after sent cx rx false _ st st2 Hcd E2 HI2)|
    apply (driver_poll_wp sent cx rx false st HI Hps); [|done]]|].
  - by eapply Room_weaken, HR2.
  - rewrite Eb. by eapply Room_weaken, HR.
  - intros r st' [[(_ & Ea & _) ->] [HI' Hd]]. rewrite Hcd in Hd. destruct Hd as (-> & _).
    split_and!; [done|done| | |].
    + unfold closed_and_drained. cbn. rewrite (kp_error _ _ K2), He1. cbn. rewrite Hq.
      rewrite (bool_decide_eq_true_2 (s_outgoing (inner st2) = ∅)); [done|].
      apply map_empty. intros k. eapply lookup_weaken_None; [|apply (dr_outgoing _ _ _ _ _ D2)]. cbn. by rewrite Ho.
    + eapply (Room_weaken 2 0); [lia|done|]. by destruct HR2; split.
    + rewrite Ea, (kp_ack _ _ K2). exact Ea1.
Qed.

End stream.

Section ended.
Context `{P : Profile} {AI : AtomicInstant} {AIL : AtomicInstantLaws AI}.
Context `{KG : KernelGso} {KGL : KernelGsoLaws}.
Context {B : Type} {RB : ReadBuf B} {RBL : ReadBufLaws B}.
Context (addr : side -> SocketAddr) (id : side -> Z).
Implicit Types (e : Endpoint) (n : Net).

(** What an operation other than a poll of the stream driver keeps. *)
Definition not_driven e e' : Prop :=
  s_ack (ep_stream e') = s_ack (ep_stream e) /\ ep_running e' = ep_running e.

Lemma on_socket_not_driven {A} (m : Act SocketSt A) e a e' :
  on_socket m e = Ret (a, e') -> not_driven e e'.
Proof. unfold on_socket. destruct (m _) as [[? ?]| |]; try done. by intros [= <- <-]. Qed.

Lemma on_stream_not_driven {A} (m : Act StreamSt A) e a e' :
  wp m (fun _ st' => s_ack (inner st') = s_ack (ep_stream e)) (ep_st e) ->
  on_stream m e = Ret (a, e') -> not_driven e e'.
Proof. unfold wp, on_stream. destruct (m _) as [[? ?]| |]; try done. by intros Ha [= <- <-]. Qed.

Lemma write_keeps_ack sent st cx buf :
  StreamInv sent st -> len buf < 2 ^ 63 -> Room (len buf) (len buf) st ->
  wp (poll_write cx buf) (fun _ st' => s_ack (inner st') = s_ack (inner st)) st.
Proof.
  intros HI Hl HR. destruct (s_error (inner st)) as [er|] eqn:He.
  { unfold poll_write. st_run. rewrite He. by st_run. }
  destruct (decide (len buf = 0)) as [E0|Hne].
  { unfold poll_write. st_run. rewrite He, E0. change (0 =? 0) with true. cbn iota. by st_run. }
  pose proof (len_nonneg buf). eapply wp_mono; [apply (poll_write_wp sent); try done; lia|].
  intros r st' [(cs & (_ & _ & W & _) & _)|(_ & _ & ->)]; [|done].
  by destruct (wr_recv _ _ _ _ W) as (_ & ? & _).
Qed.

Lemma read_keeps_ack sent st cx (buf : B) :
  StreamInv sent st -> wp (poll_read cx buf) (fun _ st' => s_ack (inner st') = s_ack (inner st)) st.
Proof.
  intros HI. eapply wp_mono; [by apply (poll_read_wp sent)|].
  intros [res buf'] st' (st1 & _ & _ & _ & R & _ & _ & Hres). pose proof (rd_frame _ _ _ R) as Ef.
  destruct (_ <? _); [destruct Hres as [_ ->]; by rewrite Ef|].
  destruct (s_error _); destruct Hres as [_ ->]; cbn; by rewrite Ef.
Qed.

Lemma terminate_keeps_ack sent st er :
  StreamInv sent st -> Room 1 0 st -> wp (terminate er) (fun _ st' => s_ack (inner st') = s_ack (inner st)) st.
Proof.
  intros HI []. eapply wp_mono; [apply (terminate_wp sent); [done|lia..]|]. by intros [] st' (_ & C & _); apply C.
Qed.

Lemma op_not_driven sent n op wr e' :
  let e := net_ep n (op_side op) in
  StreamInv sent (ep_st e) -> net_ok addr id n op -> ep_running e = false ->
  ep_run op e = Ret (wr, e') -> not_driven e e'.
Proof.
  intros e HI Hok Hrun E. unfold net_ok in Hok. fold e in Hok.
  destruct op; cbn [ep_run op_side] in *; try (apply bind_ret_inv in E as (a & e1 & E1 & E2)).
  - injection E2 as <- <-. destruct Hok. eapply on_stream_not_driven, E1. by eapply write_keeps_ack.
  - injection E2 as <- <-. eapply on_stream_not_driven, E1. by eapply read_keeps_ack.
  - injection E2 as <- <-. eapply on_stream_not_driven, E1. unfold close. apply wp_bind.
    eapply wp_mono; [by eapply terminate_keeps_ack|]. intros [] st' Ha. by apply wp_set_self.
  - injection E2 as <- <-. eapply on_stream_not_driven, E1. unfold drop_stream.
    destruct (_ <=? 2); [by eapply terminate_keeps_ack|by apply wp_ret].
  - destruct Hok. congruence.
  - injection E2 as <- <-. unfold ep_release, modify in E1. by injection E1 as <- <-.
  - injection E2 as <- <-. by eapply on_socket_not_driven.
  - injection E2 as <- <-. by eapply on_socket_not_driven.
  - injection E2 as <- <-. by eapply on_socket_not_driven.
  - injection E2 as <- <-. by eapply on_socket_not_driven.
  - injection E2 as <- <-. by eapply on_socket_not_driven.
Qed.

Hypothesis addr_inj : addr true <> addr false.

Lemma ended_step n (sent : side -> list (list byte)) n' i :
  NetInv addr id n sent -> net_step (B := B) addr id n n' -> ep_running (net_ep n i) = false ->
  not_driven (net_ep n i) (net_ep n' i).
Proof.
  intros HN (op & Hok & Hrun) Hend. unfold net_run in Hrun.
  destruct (ep_run op _) as [[[wb r] e']| |] eqn:E; try done. injection Hrun as <-. cbn.
  destruct (side_cases (op_side op) i) as [-> | ->]; [rewrite upd_same|by rewrite upd_other].
  eapply op_not_driven; [apply (HN (op_side op))|done|done|exact E].
Qed.

Lemma ended_steps n n' i (sent : side -> list (list byte)) :
  NetInv addr id n sent -> rtc (net_step (B := B) addr id) n n' -> ep_running (net_ep n i) = false ->
  not_driven (net_ep n i) (net_ep n' i) /\
  exists sent' : side -> list (list byte), NetInv addr id n' sent' /\ sent (negb i) `prefix_of` sent' (negb i).
Proof.
  intros HN Hs. revert sent HN. induction Hs as [n|n n1 n' Hst _ IH]; intros sent HN Hend.
  { split; [done|]. by exists sent. }
  destruct (ended_step n sent n1 i HN Hst Hend) as [Ha Hr].
  destruct Hst as (op & Hok & Hrun). destruct (net_step_grows addr id addr_inj n sent op HN Hok) as (n2 & sent1 & E & HN1 & Hp).
  rewrite Hrun in E. injection E as <-. destruct (IH sent1 HN1) as ([Ha' Hr'] & sent2 & HN2 & Hp'); [congruence|].
  split; [split; congruence|]. exists sent2. split; [done|]. transitivity (sent1 (negb i)); [apply Hp|done].
Qed.

(** What a side has taken and can still read is determined by its [ack]. *)
Lemma same_ack_reads n n' i (sent sent' : side -> list (list byte)) :
  NetInv addr id n sent -> NetInv addr id n' sent' -> sent (negb i) `prefix_of` sent' (negb i) ->
  s_ack (ep_stream (net_ep n' i)) = s_ack (ep_stream (net_ep n i)) ->
  net_taken n' i ++ unread (ep_stream (net_ep n' i)) = net_taken n i ++ unread (ep_stream (net_ep n i)).
Proof.
  intros HN HN' [more Hp] Ha. unfold net_taken.
  rewrite (ei_read _ _ _ _ _ _ _ _ _ (HN i)), (ei_read _ _ _ _ _ _ _ _ _ (HN' i)), Ha, Hp.
  rewrite take_app_le; [done|]. pose proof (ei_ack _ _ _ _ _ _ _ _ _ (HN i)). unfold len in *. lia.
Qed.

Lemma polled_queue_all e st m :
  ep_queue (polled e st m) = mk_Chan (drop m (ch_queue (ep_queue e))) (ch_rx_alive (ep_queue e)) (ch_tx_alive (ep_queue e)).
Proof.
  unfold ep_queue. change (chans (ep_socket (polled e st m))) with
    (alter (fun ch => ch <| ch_queue ::= drop m |>) (ep_chan e) (chans (ep_socket e))).
  change (ep_chan (polled e st m)) with (ep_chan e). rewrite list_lookup_alter_eq.
  destruct (chans (ep_socket e) !! ep_chan e) as [[]|]; [done|by destruct m].
Qed.

(** Two polls: the first takes the END packet, the second completes. *)
Lemma end_net n (sent : side -> list (list byte)) j p cx cx' :
  let e := net_ep n j in
  NetInv addr id n sent -> ep_running e = true -> s_error (ep_stream e) = None -> s_outgoing (ep_stream e) = ∅ ->
  ch_queue (ep_queue e) = [EvPacket p] -> ch_tx_alive (ep_queue e) = true ->
  bare_end (ep_stream e) p -> Room 3 (len (i_buf p)) (ep_st e) ->
  exists n1 n2 (sent' : side -> list (list byte)),
    net_ok (B := B) addr id n (NPoll j cx 1 false) /\ net_run (B := B) (NPoll j cx 1 false) n = Ret n1 /\
    net_ok (B := B) addr id n1 (NPoll j cx' 0 false) /\ net_run (B := B) (NPoll j cx' 0 false) n1 = Ret n2 /\
    NetInv addr id n2 sent' /\ sent (negb j) `prefix_of` sent' (negb j) /\
    ep_running (net_ep n2 j) = false /\ s_ack (ep_stream (net_ep n2 j)) = s_ack (ep_stream e) /\
    EvStreamDropped (s_local_id (ep_stream (net_ep n2 j))) ∈ w_tx (sworld (ep_socket (net_ep n2 j))).
Proof.
  intros e HN Hrun He Ho Hq Hal Hp HR. pose proof (HN j) as HE. fold e in HE.
  pose proof (ei_stream _ _ _ _ _ _ _ _ _ HE) as HI. pose proof (ei_open _ _ _ _ _ _ _ _ _ HE) as Hopen.
  assert (incoming_ok p) as Hok.
  { pose proof (ei_queue _ _ _ _ _ _ _ _ _ HE) as HQ. rewrite Hq in HQ. apply Forall_cons_1 in HQ as [[? _] _]. done. }
  assert (ep_script e 1 = mk_RecvScript [EvPacket p] false) as Es by (unfold ep_script; by rewrite Hq, Hal).
  destruct (wp_elim _ _ _ (end_poll (sent j) p cx (ep_st e) HI Hok HR Hp He Ho Hopen))
    as (r & st1 & E1 & -> & HI1 & Hcd & HR1 & Ha).
  assert (net_ok (B := B) addr id n (NPoll j cx 1 false)) as Hok1.
  { cbn [net_ok op_side]. fold e. rewrite Es. split; [done|]. cbn. rewrite app_nil_r. by eapply Room_weaken, HR. }
  assert (ep_run (B := B) (NPoll j cx 1 false) e = Ret (([], []), polled e st1 1)) as Er1.
  { apply poll_run; [by rewrite Es|]. unfold closed_and_drained. by rewrite He. }
  destruct (net_step_grows addr id addr_inj n sent _ HN Hok1) as (n1 & sent1 & Hrun1 & HN1 & Hp1).
  assert (net_ep n1 j = polled e st1 1) as Ee1.
  { rewrite (net_run_eq _ n _ _ Er1) in Hrun1. injection Hrun1 as <-. cbn. by rewrite upd_same. }
  assert (ep_st (polled e st1 1) = st1) as Est by by destruct st1.
  assert (ep_script (polled e st1 1) 0 = silence) as Es1.
  { unfold ep_script. rewrite polled_queue_all. cbn [ch_queue ch_tx_alive]. by rewrite Hq, Hal. }
  assert (net_ok (B := B) addr id n1 (NPoll j cx' 0 false)) as Hok2
    by (cbn [net_ok op_side]; by rewrite Ee1, Es1, Est).
  assert (w_tx_open (world st1) = true) as Hopen1.
  { rewrite <- Est. pose proof (HN1 j) as HE1. rewrite Ee1 in HE1. apply (ei_open _ _ _ _ _ _ _ _ _ HE1). }
  destruct (wp_elim _ _ _ (driver_poll_wp (sent j) cx' silence false st1 HI1 ltac:(constructor) HR1 Hopen1))
    as (r & st2 & E2 & _ & Hd). rewrite Hcd in Hd. destruct Hd as [-> ->].
  assert (ep_run (B := B) (NPoll j cx' 0 false) (net_ep n1 j) =
    Ret (([], []), (with_st (polled e st1 1) (finished st1)) <| ep_running := false |>)) as Er2
    by (rewrite Ee1; apply finish_run; [by rewrite Es1, Est|done]).
  destruct (net_step_grows addr id addr_inj n1 sent1 _ HN1 Hok2) as (n2 & sent2 & Hrun2 & HN2 & Hp2).
  exists n1, n2, sent2. split_and!; try done; [by transitivity (sent1 (negb j)); [apply Hp1|apply Hp2]|..].
  all: rewrite (net_run_eq _ n1 _ _ Er2) in Hrun2; injection Hrun2 as <-;
    cbn [net_ep op_side]; rewrite upd_same; try done.
  cbn. rewrite Hopen1. apply elem_of_app. right. by left.
Qed.

Context (w : side -> World).
Hypothesis worlds_fresh : forall i, world_fresh (w i).
Hypothesis ids_u32 : forall i, 0 <= id i < u32_modulus.

(** C36: the END packet does not wait for the data before it.  When it reaches an
    open stream that has nothing unacknowledged, whatever sequence number it
    carries and however much of what the peer has written is still missing, two
    polls of the driver end the stream: the task completes and the socket drops
    the stream.  From then on, whatever the peer, the sockets and the network
    do, nothing is ever added to what this side has read and can still read. *)
Theorem early_end_loses_data n j p cx cx' :
  let e := net_ep n j in
  net_reachable addr id w n -> ep_running e = true -> s_error (ep_stream e) = None -> s_outgoing (ep_stream e) = ∅ ->
  ch_queue (ep_queue e) = [EvPacket p] -> ch_tx_alive (ep_queue e) = true ->
  bare_end (ep_stream e) p -> Room 3 (len (i_buf p)) (ep_st e) ->
  exists n1 n2,
    net_ok (B := B) addr id n (NPoll j cx 1 false) /\ net_run (B := B) (NPoll j cx 1 false) n = Ret n1 /\
    net_ok (B := B) addr id n1 (NPoll j cx' 0 false) /\ net_run (B := B) (NPoll j cx' 0 false) n1 = Ret n2 /\
    ep_running (net_ep n2 j) = false /\
    EvStreamDropped (s_local_id (ep_stream (net_ep n2 j))) ∈ w_tx (sworld (ep_socket (net_ep n2 j))) /\
    forall n', rtc (net_step (B := B) addr id) n2 n' ->
      net_taken n' j ++ unread (ep_stream (net_ep n' j)) = net_taken n j ++ unread (ep_stream e).
Proof.
  intros e [sent HN]%reachable_inv Hrun He Ho Hq Hal Hp HR; try done.
  destruct (end_net n sent j p cx cx' HN Hrun He Ho Hq Hal Hp HR)
    as (n1 & n2 & sent2 & Hok1 & Hrun1 & Hok2 & Hrun2 & HN2 & Hp2 & Hend & Ha & Hev).
  exists n1, n2. split_and!; try done. intros n' Hs.
  destruct (ended_steps n2 n' j sent2 HN2 Hs Hend) as ([Ha' _] & sent' & HN' & Hp').
  apply (same_ack_reads n n' j sent sent'); [done|done|by transitivity (sent2 (negb j))|congruence].
Qed.

End ended.

(** ** Closing before the data has arrived *)

#[local] Existing Instance option_instant.
#[local] Existing Instance option_instant_laws.
#[local] Existing Instance net_profile.
#[local] Existing Instance udp_segment.
#[local] Existing Instance udp_segment_laws.

(** The END packet that [close] queues, as side [false] receives it. *)
Definition end_msg : RecvMsg :=
  mk_RecvMsg (mk_RecvMeta here 20 None None)
    (header_bytes (mk_Header UDX_HEADER_END 0 7 U32_MAX 1 0) ++ replicate 1380 Byte.x00).

(** Side [true] writes and closes; both packets are sent, and the second one
    overtakes the first. *)
Definition hasty_ops : list demo_net_op :=
  [NWrite true 1%nat word; NClose true 8%nat; NPoll true 2%nat 10 false;
   NSocket true 3%nat nothing false sends_all;
   NSocket false 4%nat (mk_RecvBatches [[end_msg]] None) false sends_all].

Lemma hasty_scripts : Forall script_ok hasty_ops.
Proof. do 5 (constructor; [apply sends_all_ok || exact I|]). constructor. Qed.

(** The END packet in the channel of side [false]; its sequence number says
    that a packet is missing. *)
Definition early_end : IncomingPacket :=
  mk_IncomingPacket (mk_Header UDX_HEADER_END 0 7 U32_MAX 1 0) [] 0 here.

Lemma hasty_state :
  let e := net_ep (demo_net hasty_ops) false in
  net_written (demo_net hasty_ops) true = word /\
  existsb (fun t => bool_decide (t_contents t = take 22 (rm_iov data_msg)))
    (w_sent (sworld (ep_socket (net_ep (demo_net hasty_ops) true)))) = true /\
  s_ack (ep_stream e) < i_seq early_end /\ net_taken (demo_net hasty_ops) false ++ unread (ep_stream e) = [] /\
  ep_running e = true /\ s_error (ep_stream e) = None /\ s_outgoing (ep_stream e) = ∅ /\
  ch_queue (ep_queue e) = [EvPacket early_end] /\ ch_tx_alive (ep_queue e) = true /\
  passes (ep_stream e) early_end = true.
Proof. vm_compute. repeat split. Qed.

Lemma hasty_room : Room 3 0 (ep_st (net_ep (demo_net hasty_ops) false)).
Proof. split; vm_compute; repeat split; congruence. Qed.

(** The bytes were accepted and sent, nothing was lost on the way, and yet they
    can never be read. *)
Lemma early_end_loses_data_witness :
  net_written (demo_net hasty_ops) true = word /\
  exists n2, rtc (net_step (B := list byte * Z) two_addrs two_ids) (demo_net hasty_ops) n2 /\
    forall n', rtc (net_step (B := list byte * Z) two_addrs two_ids) n2 n' -> net_taken n' false = [].
Proof.
  destruct hasty_state as (Hw & _ & _ & Hrd & Hrun & He & Ho & Hq & Hal & Hp). split; [exact Hw|].
  destruct (early_end_loses_data two_addrs two_ids two_addrs_inj two_worlds two_worlds_fresh two_ids_u32
    (demo_net hasty_ops) false early_end 5%nat 5%nat (demo_net_reachable hasty_ops hasty_scripts) Hrun He Ho Hq Hal)
    as (n1 & n2 & Hok1 & Hrun1 & Hok2 & Hrun2 & _ & _ & Hfin).
  - split; [exact Hp|]. split; reflexivity.
  - exact hasty_room.
  - exists n2. split; [eapply rtc_l; [exact (ex_intro _ _ (conj Hok1 Hrun1))|];
      eapply rtc_l; [exact (ex_intro _ _ (conj Hok2 Hrun2))|apply rtc_refl]|].
    intros n' Hs. specialize (Hfin n' Hs). rewrite Hrd in Hfin. by apply app_eq_nil in Hfin as [E _].
Defined.
