(* ===== verification/Mesh.v ===== *)
(** Many hosts and many streams.

    Each host is a process with one socket; its streams share the socket, the
    channel to it and the store of packets, as they do in the source.  A stream
    is one end of a connection between two hosts (or of a host with itself) and
    is opened by [UdxSocket::connect] at any time.  The steps are the operations
    of [Stream.v] and [Socket.v]; what a host has sent may be received by the
    host it is addressed to never, late, several times and in any order. *)

From stdpp Require Import functions.
From S2P Require Import Prelude Constants Errors UdpProto Packet Runtime Stream StreamInv StreamCtrl.
From S2P Require Import StreamSend StreamTimer StreamAck StreamRecv StreamDriver StreamSpec.
From S2P Require Import StreamPeer Socket SocketSpec Network.

Local Open Scope Z_scope.

(** ** Who is connected to whom *)

Record Topology (H E : Type) := mk_Topology {
  host : E -> H;            (* where an end lives *)
  peer : E -> E;            (* the other end of its connection *)
  addr : H -> SocketAddr;
  id : E -> Z;              (* the local id of an end *)
}.
Arguments mk_Topology {H E}.
Arguments host {H E}.
Arguments peer {H E}.
Arguments addr {H E}.
Arguments id {H E}.

(** Hosts have different addresses, the streams of a host different ids. *)
Class TopologyOk {H E : Type} (T : Topology H E) : Prop := {
  peer_peer x : peer T (peer T x) = x;
  peer_ne x : peer T x <> x;
  addr_inj g h : addr T g = addr T h -> g = h;
  id_inj x y : host T x = host T y -> id T x = id T y -> x = y;
  id_u32 x : 0 <= id T x < u32_modulus;
}.

Section model.
Context `{P : Profile} {AI : AtomicInstant} `{KG : KernelGso} {B : Type} `{RB : ReadBuf B}.
Context {H E : Type} {HD : EqDecision H} {ED : EqDecision E} (T : Topology H E).

(** ** State *)

Record Conn := mk_Conn {
  cn_stream : UdxStreamInner;
  cn_chan : nat;
  cn_running : bool;
}.

Record Mesh := mk_Mesh {
  ms_host : H -> SocketSt;
  ms_conn : E -> option Conn;        (* [None] before [connect] *)
  ms_written : E -> list byte;       (* the bytes that writes accepted *)
  ms_reads : E -> list Reading;      (* the calls of [poll_read], in order *)
}.

(** The bytes that reads took from the stream of an end, and the bytes that
    they returned. *)
Definition ms_taken (n : Mesh) (x : E) : list byte := taken (ms_reads n x).
Definition ms_read (n : Mesh) (x : E) : list byte := returned (ms_reads n x).

(** A stream with the socket of its host. *)
Definition view (n : Mesh) (x : E) (c : Conn) : Endpoint :=
  mk_Endpoint (cn_stream c) (cn_chan c) (cn_running c) (ms_host n (host T x)).

Definition mesh_start (w : H -> World) : Mesh :=
  mk_Mesh (fun h => mk_SocketSt (bind (addr T h)) [] (w h)) (fun _ => None) (fun _ => []) (fun _ => []).

(** ** Operations *)

Inductive stream_op :=
  | MWrite (cx : Waker) (buf : list byte)
  | MRead (cx : Waker) (buf : B)
  | MClose (tx : Oneshot)
  | MDrop (strong_count : Z)
  | MPoll (cx : Waker) (k : nat) (timer_ready : bool)
  | MRelease.

Inductive host_op :=
  | MSocket (cx : Waker) (rx : RecvBatches) (timer_ready : bool) (ss : SendScript)
  | MSend (dest : SocketAddr) (buf : list byte)
  | MRecv (cx : Waker)
  | MDropSocket (strong_count : Z)
  | MHaltGso.

Inductive mesh_op :=
  | MConnect (x : E)
  | MStream (x : E) (op : stream_op)
  | MHost (h : H) (op : host_op).

(** A stream operation, with the bytes that it accepted from a writer and what
    it did for a reader. *)
Definition stream_run (op : stream_op) : Act Endpoint (list byte * list Reading) :=
  match op with
  | MWrite cx buf => r ← on_stream (poll_write cx buf); mret (accepted r buf, [])
  | MRead cx buf =>
      r ← on_stream (poll_read cx buf);
      mret ([], [reading buf r])
  | MClose tx => _ ← on_stream (close tx); mret ([], [])
  | MDrop n => _ ← on_stream (drop_stream n); mret ([], [])
  | MPoll cx k timer_ready => _ ← ep_poll cx k timer_ready; mret ([], [])
  | MRelease => _ ← ep_release; mret ([], [])
  end.

Definition host_run (op : host_op) : Act SocketSt unit :=
  match op with
  | MSocket cx rx timer_ready ss => _ ← socket_driver_poll cx rx timer_ready ss; mret tt
  | MSend dest buf => socket_send dest buf
  | MRecv cx => _ ← recv_poll cx; mret tt
  | MDropSocket n => drop_socket n
  | MHaltGso => halt_gso
  end.

Definition set_host (h : H) (k : SocketSt) (n : Mesh) : Mesh :=
  mk_Mesh (<[h := k]> (ms_host n)) (ms_conn n) (ms_written n) (ms_reads n).

(** End [x] after an operation left it as [e]. *)
Definition set_end (x : E) (e : Endpoint) (wr : list byte * list Reading) (n : Mesh) : Mesh :=
  mk_Mesh (<[host T x := ep_socket e]> (ms_host n))
    (<[x := Some (mk_Conn (ep_stream e) (ep_chan e) (ep_running e))]> (ms_conn n))
    (<[x := ms_written n x ++ fst wr]> (ms_written n)) (<[x := ms_reads n x ++ snd wr]> (ms_reads n)).

Definition mesh_run (op : mesh_op) (n : Mesh) : outcome Mesh :=
  match op with
  | MConnect x =>
      '((s, c), k) ← socket_connect (addr T (host T (peer T x))) (id T x) (id T (peer T x)) (ms_host n (host T x));
      Ret (set_end x (mk_Endpoint s c true k) ([], []) n)
  | MStream x op =>
      match ms_conn n x with
      | None => Ret n
      | Some c => '(wr, e) ← stream_run op (view n x c); Ret (set_end x e wr n)
      end
  | MHost h op => '(_, k) ← host_run op (ms_host n h); Ret (set_host h k n)
  end.

(** ** The network *)

(** A datagram from somewhere else names no stream of host [h]. *)
Definition alien (h : H) (d : list byte) : Prop :=
  forall hd, from_bytes d = Ret (Ok hd) -> forall x, host T x = h -> h_stream_id hd <> id T x.

(** What host [h] can receive: an alien datagram, or one that a host has sent to
    its address; longer ones are cut to the size of the receive buffers. *)
Definition receivable (n : Mesh) (h : H) (m : RecvMsg) : Prop :=
  msg_ok m /\ exists d, msg_data m = take (Z.to_nat UDX_MTU) d /\
    (alien h d \/
     exists g t, t ∈ w_sent (sworld (ms_host n g)) /\ t_destination t = addr T h /\ d ∈ kernel_segments t).

(** When an operation is enabled; the bounds keep the counters within their
    width. *)
Definition stream_enabled (e : Endpoint) (op : stream_op) : Prop :=
  match op with
  | MWrite _ buf => len buf < 2 ^ 63 /\ Room (len buf) (len buf) (ep_st e)
  | MRead _ _ => True
  | MClose _ | MDrop _ => Room 1 0 (ep_st e)
  | MPoll _ k _ =>
      let ps := script_packets (ep_script e k) in
      ep_running e = true /\ Room (len ps + 1) (len (concat (map i_buf ps))) (ep_st e)
  | MRelease => ep_running e = false
  end.

Definition host_enabled (n : Mesh) (h : H) (op : host_op) : Prop :=
  let k := ms_host n h in
  match op with
  | MSocket _ rx _ ss =>
      Forall (Forall (receivable n h)) (rb_batches rx) /\ send_script_ok ss /\
      RxRoom (BATCH_SIZE * MAX_LOOP) (UDX_MTU * BATCH_SIZE * MAX_LOOP) k /\
      TxRoom (tx_total (k_outgoing_transmits (sock k) ++ all_transmits (w_store (sworld k)) (w_tx (sworld k))))
        (k_stats (sock k))
  | MSend _ buf => harmless buf
  | MRecv _ | MDropSocket _ | MHaltGso => True
  end.

Definition mesh_enabled (n : Mesh) (op : mesh_op) : Prop :=
  match op with
  | MConnect x => ms_conn n x = None
  | MStream x op => exists c, ms_conn n x = Some c /\ stream_enabled (view n x c) op
  | MHost h op => host_enabled n h op
  end.

Inductive mesh_reachable (w : H -> World) : Mesh -> Prop :=
  | mesh_init : mesh_reachable w (mesh_start w)
  | mesh_next n op n' : mesh_reachable w n -> mesh_enabled n op -> mesh_run op n = Ret n' -> mesh_reachable w n'.

End model.
