(* ===== verification/MeshSpec.v ===== *)
(** What the streams of many hosts guarantee, although they share sockets.

    [MeshInv] has three parts: every stream is consistent with its peer
    ([PeerInv]), every host only sends what its streams have made, and the
    streams of a host keep apart: they own different channels and different
    packets of the shared store. *)

From stdpp Require Import functions.
From S2P Require Import Prelude Constants Errors UdpProto Packet Runtime Stream StreamInv StreamCtrl.
From S2P Require Import StreamSend StreamTimer StreamAck StreamRecv StreamDriver StreamSpec.
From S2P Require Import StreamPeer Socket SocketSpec Network NetworkSpec Mesh.

Local Open Scope Z_scope.

(** Case analysis on where a total map was updated. *)
Tactic Notation "case_insert" := unfold insert, fn_insert; case_decide.
Tactic Notation "case_insert" "as" simple_intropattern(H) := unfold insert, fn_insert; case_decide as H.

Section inv.
Context `{P : Profile} {AI : AtomicInstant} {AIL : AtomicInstantLaws AI}.
Context `{KG : KernelGso} {KGL : KernelGsoLaws}.
Context {B : Type} {RB : ReadBuf B} {RBL : ReadBufLaws B}.
Context {H E : Type} {HD : EqDecision H} {ED : EqDecision E} (T : Topology H E) {TO : TopologyOk T}.
Implicit Types (n : Mesh (H := H) (E := E)) (x y : E) (h g : H) (c d : Conn) (sent : E -> list (list byte)).

(** ** The invariant *)

Definition conn_st n x c : StreamSt := ep_st (view T n x c).

(** What end [x] has acknowledged. *)
Definition ack_of n x : Z := match ms_conn n x with Some c => s_ack (cn_stream c) | None => 0 end.

(** Datagrams, transmits and events that a stream or [send] has made. *)
Definition dgram_from n sent (dest : SocketAddr) (b : list byte) : Prop :=
  harmless b \/ exists y c, ms_conn n y = Some c /\ genuine (sent y) (cn_stream c) b /\
    dest = addr T (host T (peer T y)).

Definition transmit_from n sent (t : Transmit) : Prop :=
  Forall (dgram_from n sent (t_destination t)) (kernel_segments t).

Definition event_from n sent h (ev : EventOutgoing) : Prop :=
  (exists x c, ms_conn n x = Some c /\ host T x = h /\ event_ok (sent x) (conn_st n x c) ev) \/
  exists dg, ev = EvTransmitDgram dg /\ harmless (dg_buf dg).

Record ConnInv n sent x c : Prop := {
  co_peer : PeerInv (sent x) (sent (peer T x)) (ack_of n (peer T x)) (ms_reads n x) (conn_st n x c);
  co_written : concat (sent x) = ms_written n x;
  co_queue : Forall (fun ev => packet_fine (sent (peer T x)) (ack_of n (peer T x)) (event_packet ev))
    (ch_queue (ep_queue (view T n x c)));
  co_chan : (cn_chan c < length (chans (ms_host n (host T x))))%nat;
  co_names : s_remote_addr (cn_stream c) = addr T (host T (peer T x)) /\ s_local_id (cn_stream c) = id T x /\
    s_remote_id (cn_stream c) = id T (peer T x);
}.

Record HostInv n sent h : Prop := {
  ho_events : Forall (event_from n sent h) (w_tx (sworld (ms_host n h)));
  ho_transmits : Forall (fun t => transmit_ok t /\ transmit_from n sent t)
    (k_outgoing_transmits (sock (ms_host n h)));
  ho_sent : Forall (transmit_from n sent) (w_sent (sworld (ms_host n h)));
  ho_streams : forall i hd, k_streams (sock (ms_host n h)) !! i = Some hd ->
    exists x c, ms_conn n x = Some c /\ host T x = h /\ id T x = i /\ cn_chan c = recv_tx hd;
  ho_recv_buf : k_recv_buf (sock (ms_host n h)) = Some (UDX_MTU * BATCH_SIZE);
  ho_open : w_tx_open (sworld (ms_host n h)) = true;
  ho_clock : forall i, 0 <= w_clock (sworld (ms_host n h)) i <= CLOCK_BOUND;
  ho_gso : 1 <= w_max_gso_segments (sworld (ms_host n h));
}.

(** Two streams of a host share neither a channel nor a packet. *)
Definition apart c d : Prop :=
  cn_chan c <> cn_chan d /\
  forall k k' l, s_outgoing (cn_stream c) !! k = Some l -> s_outgoing (cn_stream d) !! k' <> Some l.

Lemma apart_sym c d : apart c d -> apart d c.
Proof. intros [Hc Ho]. split; [done|]. intros k k' l Hk Hk'. by apply (Ho k' k l). Qed.

Record MeshInv n sent : Prop := {
  me_conn : forall x c, ms_conn n x = Some c -> ConnInv n sent x c;
  me_new : forall x, ms_conn n x = None -> sent x = [] /\ ms_written n x = [] /\ ms_reads n x = [];
  me_host : forall h, HostInv n sent h;
  me_apart : forall x y c d, ms_conn n x = Some c -> ms_conn n y = Some d -> host T x = host T y ->
    x <> y -> apart c d;
}.

(** ** What grows *)

Record grown n sent n' sent' : Prop := {
  gr_sent : forall x, sent x `prefix_of` sent' x;
  gr_conn : forall x c, ms_conn n x = Some c -> exists c', ms_conn n' x = Some c' /\
    same_peer (cn_stream c) (cn_stream c') /\ s_local_id (cn_stream c') = s_local_id (cn_stream c) /\
    cn_chan c' = cn_chan c;
  gr_store : forall h, store_ext (w_store (sworld (ms_host n h))) (w_store (sworld (ms_host n' h)));
}.

Lemma transmit_from_grown n sent n' sent' t :
  grown n sent n' sent' -> transmit_from n sent t -> transmit_from n' sent' t.
Proof.
  intros G Ht. eapply Forall_impl; [exact Ht|]. intros b [Hb|(y & c & Hy & Hg & Hd)]; [by left|right].
  destruct (gr_conn _ _ _ _ G y c Hy) as (c' & Hc' & (_ & Hid & Ha) & _). exists y, c'. split_and!; try done.
  by eapply genuine_mono, Hg; [apply G|..].
Qed.

Lemma event_from_grown n sent n' sent' h ev :
  grown n sent n' sent' -> event_from n sent h ev -> event_from n' sent' h ev.
Proof.
  intros G [(x & c & Hx & Hh & Hev)|Hd]; [left|by right].
  destruct (gr_conn _ _ _ _ G x c Hx) as (c' & Hc' & Hp & Hl & _). exists x, c'. split_and!; try done.
  eapply event_ok_mono, Hev; try done; apply G.
Qed.

(** A host may keep what it has and add what its streams have made. *)
Lemma HostInv_step n sent n' sent' h :
  let k := ms_host n h in let k' := ms_host n' h in
  grown n sent n' sent' -> HostInv n sent h ->
  (forall ev, ev ∈ w_tx (sworld k') -> ev ∈ w_tx (sworld k) \/ event_from n' sent' h ev) ->
  (forall t, t ∈ k_outgoing_transmits (sock k') ->
     t ∈ k_outgoing_transmits (sock k) \/ transmit_ok t /\ transmit_from n' sent' t) ->
  (forall t, t ∈ w_sent (sworld k') -> t ∈ w_sent (sworld k) \/ transmit_from n' sent' t) ->
  (forall i hd, k_streams (sock k') !! i = Some hd -> k_streams (sock k) !! i = Some hd \/
     exists x c, ms_conn n' x = Some c /\ host T x = h /\ id T x = i /\ cn_chan c = recv_tx hd) ->
  k_recv_buf (sock k') = k_recv_buf (sock k) -> w_tx_open (sworld k') = w_tx_open (sworld k) ->
  w_clock (sworld k') = w_clock (sworld k) -> 1 <= w_max_gso_segments (sworld k') -> HostInv n' sent' h.
Proof.
  intros k k' G. subst k k'. intros [He Ht Hs Hst Hb Ho Hc Hg] Hev Htr Hse Hstr Eb Eo Ec Eg. rewrite Forall_forall in He.
  rewrite Forall_forall in Ht. rewrite Forall_forall in Hs.
  split; try apply Forall_forall; try congruence.
  - intros ev [Hin|?]%Hev; [|done]. by eapply event_from_grown, He.
  - intros t [Hin|?]%Htr; [|done]. destruct (Ht t Hin). split; [done|]. by eapply transmit_from_grown.
  - intros t [Hin|?]%Hse; [|done]. by eapply transmit_from_grown, Hs.
  - intros i hd [Hin|?]%Hstr; [|done]. destruct (Hst i hd Hin) as (x & c & Hx & Hh & Hi & Hch).
    destruct (gr_conn _ _ _ _ G x c Hx) as (c' & Hc' & _ & _ & Ech). exists x, c'. split_and!; congruence.
  - intros i. rewrite Ec. apply Hc.
Qed.

(** The invariant of a stream that was not touched itself. *)
Lemma ConnInv_other n sent n' sent' x c :
  MeshInv n sent -> ms_conn n x = Some c -> grown n sent n' sent' ->
  sent' x = sent x -> ms_reads n' x = ms_reads n x -> ms_written n' x = ms_written n x ->
  ack_of n (peer T x) <= ack_of n' (peer T x) <= s_seq (cn_stream c) ->
  undisturbed (cn_stream c) (sworld (ms_host n (host T x))) (sworld (ms_host n' (host T x))) ->
  HostInv n' sent' (host T x) ->
  Forall (fun ev => packet_fine (sent' (peer T x)) (ack_of n' (peer T x)) (event_packet ev))
    (ch_queue (ep_queue (view T n' x c))) ->
  (length (chans (ms_host n (host T x))) <= length (chans (ms_host n' (host T x))))%nat -> ConnInv n' sent' x c.
Proof.
  intros HM Hx G Es Er Ew Ha Hu [] Hq Hl. destruct (me_conn _ _ HM x c Hx) as [HP Hw _ Hc Hn].
  split; rewrite ?Es, ?Er, ?Ew; try done; [|lia].
  eapply PeerInv_peer; [apply G|exact Ha|]. by eapply PeerInv_world.
Qed.

(** ** An operation of a stream *)

(** Of the channels of the host it only touches its own. *)
Definition own_chan (i : nat) (cs cs' : list Chan) : Prop :=
  length cs' = length cs /\ (forall j, j <> i -> cs' !! j = cs !! j) /\
  forall ch', cs' !! i = Some ch' -> exists ch, cs !! i = Some ch /\ ch_queue ch' ⊆ ch_queue ch.

Lemma own_chan_same i cs : own_chan i cs cs.
Proof. split_and!; [done|done|]. intros ch' Hc. by exists ch'. Qed.

Lemma own_chan_alter i cs (f : Chan -> Chan) :
  (forall ch, ch_queue (f ch) ⊆ ch_queue ch) -> own_chan i cs (alter f i cs).
Proof.
  intros Hf. split_and!; [apply length_alter|intros j Hj; by apply list_lookup_alter_ne|].
  intros ch'. rewrite list_lookup_alter_eq. destruct (cs !! i) as [ch|] eqn:Ec; [|done]. cbn. intros [= <-].
  by exists ch.
Qed.

(** End [x] in state [c] is left as [e'], after the payloads [cs] were cut off. *)
Record stepped n sent x c (cs : list (list byte)) (wr : list byte * list Reading) (e' : Endpoint) : Prop := {
  sp_peer : PeerInv (sent x ++ cs) (sent (peer T x)) (ack_of n (peer T x)) (ms_reads n x ++ snd wr) (ep_st e');
  sp_moved : moved (sent x ++ cs) (conn_st n x c) (ep_st e');
  sp_accepted : fst wr = concat cs;
  sp_chan : ep_chan e' = cn_chan c;
  sp_sock : sock (ep_socket e') = sock (ms_host n (host T x));
  sp_chans : own_chan (cn_chan c) (chans (ms_host n (host T x))) (chans (ep_socket e'));
}.

Section stream_step.
Context n sent x c (cs : list (list byte)) (wr : list byte * list Reading) (e' : Endpoint).
Hypothesis HM : MeshInv n sent.
Hypothesis Hx : ms_conn n x = Some c.
Hypothesis SP : stepped n sent x c cs wr e'.

Let n' := set_end T x e' wr n.
Let sent' : E -> list (list byte) := <[x := sent x ++ cs]> sent.
Let X : ext (conn_st n x c) (ep_st e') := mv_ext _ _ _ (sp_moved _ _ _ _ _ _ _ SP).

Lemma peer_sent : sent' (peer T x) = sent (peer T x).
Proof. unfold sent'. rewrite fn_lookup_insert_ne; [done|]. intros E1. by apply (peer_ne x). Qed.

Lemma step_ack y : y <> x -> ack_of n' y = ack_of n y.
Proof. intros Hne. unfold ack_of, n'. cbn. by rewrite fn_lookup_insert_ne. Qed.

Lemma step_ack_self : ack_of n x <= ack_of n' x.
Proof. unfold ack_of, n'. cbn. rewrite fn_lookup_insert, Hx. cbn. apply (ext_ack _ _ X). Qed.

Lemma step_grown : grown n sent n' sent'.
Proof.
  split.
  - intros y. unfold sent'. case_insert; [subst; by eexists|done].
  - intros y d Hy. unfold n'. cbn. case_insert as Hd; [subst y; rewrite Hx in Hy; injection Hy as <-|by exists d].
    eexists. split; [done|]. cbn. split; [by apply (ext_same_peer _ _ X)|]. split; [apply X|apply SP].
  - intros h. unfold n'. cbn. case_insert; [subst h; apply X|done].
Qed.

Lemma step_host h : HostInv n' sent' h.
Proof.
  pose proof step_grown as G. pose proof (me_host _ _ HM h) as HH.
  destruct (decide (h = host T x)) as [-> |Hne].
  - destruct (mv_tx _ _ _ (sp_moved _ _ _ _ _ _ _ SP)) as (evs & Etx & Hevs).
    assert (ms_host n' (host T x) = ep_socket e') as Ek by (unfold n'; cbn; by rewrite fn_lookup_insert).
    eapply HostInv_step; [exact G|exact HH|..]; rewrite Ek, ?(sp_sock _ _ _ _ _ _ _ SP); try by left.
    + intros ev. cbn in Etx. rewrite Etx, elem_of_app. intros [?|Hin]; [by left|right; left].
      exists x, (mk_Conn (ep_stream e') (ep_chan e') (ep_running e')).
      unfold n', conn_st, view. cbn. rewrite !fn_lookup_insert. split_and!; try done.
      rewrite Forall_forall in Hevs. unfold sent'. rewrite fn_lookup_insert. by apply Hevs.
    + pose proof (ext_sent _ _ X) as Es. cbn in Es. rewrite Es. by left.
    + done.
    + apply (ext_tx_open _ _ X).
    + apply (ext_clock _ _ X).
    + pose proof (ext_gso _ _ X) as Eg. cbn in Eg. rewrite Eg. apply HH.
  - assert (ms_host n' h = ms_host n h) as Ek by (unfold n'; cbn; by rewrite fn_lookup_insert_ne).
    eapply HostInv_step; [exact G|exact HH|..]; rewrite Ek; try (by left); done || apply HH.
Qed.

Lemma step_self : ConnInv n' sent' x (mk_Conn (ep_stream e') (ep_chan e') (ep_running e')).
Proof.
  destruct (me_conn _ _ HM x c Hx) as [HP Hw Hq Hc Hn]. pose proof SP as [HP' M Ea Ech Esk (Hlen & _ & Hown)].
  assert (ms_host n' (host T x) = ep_socket e') as Ek by (unfold n'; cbn; by rewrite fn_lookup_insert).
  assert (sent' x = sent x ++ cs) as Es by (unfold sent'; by rewrite fn_lookup_insert).
  assert (ack_of n' (peer T x) = ack_of n (peer T x)) as Eack by (apply step_ack, peer_ne).
  split; rewrite ?peer_sent, ?Eack, ?Es; unfold conn_st, view, ep_queue in *; rewrite ?Ek; cbn.
  - rewrite fn_lookup_insert. by destruct e'.
  - rewrite fn_lookup_insert, concat_app. congruence.
  - rewrite Ech. cbn in Hq. destruct (chans (ep_socket e') !! cn_chan c) as [ch'|] eqn:Ec'; [|constructor].
    destruct (Hown ch' eq_refl) as (ch & Hch & Hsub). rewrite Hch in Hq. rewrite Forall_forall in Hq |- *.
    intros ev Hev. by apply Hq, Hsub.
  - rewrite Ech. lia.
  - pose proof (ext_remote_addr _ _ X). pose proof (ext_local_id _ _ X). pose proof (ext_remote_id _ _ X).
    destruct_and!. cbn in *. split_and!; congruence.
Qed.

Lemma step_other y d : y <> x -> ms_conn n y = Some d -> ConnInv n' sent' y d.
Proof.
  intros Hne Hy. pose proof (me_conn _ _ HM y d Hy) as [HP _ Hq _ _].
  assert (ack_of n (peer T y) <= ack_of n' (peer T y) <= s_seq (cn_stream d)) as Ha.
  { pose proof (pi_pack _ _ _ _ _ HP) as Hp. cbn in Hp.
    destruct (decide (peer T y = x)) as [Ep|Hpe]; [|rewrite (step_ack _ Hpe); cbn in *; lia].
    rewrite Ep. split; [apply step_ack_self|]. unfold ack_of, n'. cbn. rewrite fn_lookup_insert. cbn.
    pose proof (pi_ack _ _ _ _ _ (sp_peer _ _ _ _ _ _ _ SP)) as Hle. rewrite <- Ep, peer_peer in Hle.
    pose proof (inv_seq _ _ (pi_stream _ _ _ _ _ HP)) as Es. cbn in Es, Hle. lia. }
  pose proof step_grown as G. eapply (ConnInv_other n sent); try done.
  - unfold sent'. by rewrite fn_lookup_insert_ne.
  - unfold n'. cbn. by rewrite fn_lookup_insert_ne.
  - unfold n'. cbn. by rewrite fn_lookup_insert_ne.
  - unfold n'. cbn. case_insert as Hh; [|split; [done|]; intros k l p _ Hp; exists (p_time_sent p); by destruct p].
    rewrite <- Hh. eapply (moved_undisturbed _ (conn_st n x c) (ep_st e')); [apply SP|].
    intros k k' l Hk. by eapply (me_apart _ _ HM y x d c).
  - apply step_host.
  - assert (ch_queue (ep_queue (view T n' y d)) = ch_queue (ep_queue (view T n y d))) as ->.
    { unfold ep_queue, view, n'. cbn. case_insert as Hh; [|done]. rewrite <- Hh.
      destruct (sp_chans _ _ _ _ _ _ _ SP) as (_ & Hoth & _).
      rewrite Hoth; [done|]. destruct (me_apart _ _ HM y x d c) as [? _]; try done. }
    eapply Forall_impl; [exact Hq|]. intros ev. apply packet_fine_mono; [apply G|apply Ha].
  - unfold n'. cbn. case_insert as Hh; [|done]. rewrite <- Hh. by destruct (sp_chans _ _ _ _ _ _ _ SP) as (-> & _).
Qed.

Lemma step_apart y d :
  y <> x -> ms_conn n y = Some d -> host T y = host T x ->
  apart (mk_Conn (ep_stream e') (ep_chan e') (ep_running e')) d.
Proof.
  intros Hne Hy Hh. destruct (me_apart _ _ HM x y c d) as [Hc Ho]; try done.
  split; cbn; [by rewrite (sp_chan _ _ _ _ _ _ _ SP)|]. intros k k' l Hk Hk'.
  pose proof (co_peer _ _ _ _ (me_conn _ _ HM y d Hy)) as HP.
  destruct (inv_out _ _ (pi_stream _ _ _ _ _ HP) k' l Hk') as (_ & p & Hp & _). cbn in Hp. rewrite Hh in Hp.
  by apply (Ho k k' l), Hk'; apply (ext_locs _ _ X k l p Hp).
Qed.

Lemma set_end_MeshInv : MeshInv n' sent'.
Proof.
  assert (forall y d, y <> x -> ms_conn n' y = Some d -> ms_conn n y = Some d) as Hoth
    by (intros y d Hne; unfold n'; cbn; by rewrite fn_lookup_insert_ne).
  assert (forall d, ms_conn n' x = Some d -> d = mk_Conn (ep_stream e') (ep_chan e') (ep_running e')) as Hself
    by (intros d; unfold n'; cbn; rewrite fn_lookup_insert; congruence).
  split.
  - intros y d Hy. destruct (decide (y = x)) as [-> |Hne]; [rewrite (Hself d Hy); apply step_self|].
    apply step_other; auto.
  - intros y Hy. destruct (decide (y = x)) as [-> |Hne]; [unfold n' in Hy; cbn in Hy; by rewrite fn_lookup_insert in Hy|].
    unfold n', sent' in *. cbn in *. rewrite fn_lookup_insert_ne in Hy by done. rewrite !fn_lookup_insert_ne by done.
    by apply HM.
  - apply step_host.
  - intros y z d1 d2 Hy Hz Hh Hne. destruct (decide (y = x)) as [-> |Hyx], (decide (z = x)) as [-> |Hzx]; try done.
    + rewrite (Hself d1 Hy). apply (step_apart z); auto.
    + rewrite (Hself d2 Hz). apply apart_sym, (step_apart y); auto.
    + eapply (me_apart _ _ HM y z); auto.
Qed.

End stream_step.

(** *** The operations one by one *)

Lemma stepped_st n sent x c cs wr st' :
  PeerInv (sent x ++ cs) (sent (peer T x)) (ack_of n (peer T x)) (ms_reads n x ++ snd wr) st' ->
  moved (sent x ++ cs) (conn_st n x c) st' -> fst wr = concat cs ->
  stepped n sent x c cs wr (with_st (view T n x c) st').
Proof. intros HP M Ew. split; try done; [by destruct st'..|apply own_chan_same]. Qed.

(** Accepting and returning nothing. *)
Lemma stepped_silent n sent x c st' :
  PeerInv (sent x) (sent (peer T x)) (ack_of n (peer T x)) (ms_reads n x) st' ->
  moved (sent x) (conn_st n x c) st' -> stepped n sent x c [] ([], []) (with_st (view T n x c) st').
Proof. intros HP M. by apply stepped_st; rewrite ?app_nil_r. Qed.

(** Taking events from the own channel. *)
Lemma stepped_chans n sent x c wr e1 (f : Chan -> Chan) (r : bool) :
  stepped n sent x c [] wr e1 -> chans (ep_socket e1) = chans (ms_host n (host T x)) ->
  (forall ch, ch_queue (f ch) ⊆ ch_queue ch) ->
  stepped n sent x c [] wr
    (e1 <| ep_socket ::= fun s => s <| chans ::= alter f (ep_chan e1) |> |> <| ep_running := r |>).
Proof.
  intros [HP M Ew Ec Es _] El Hf. split; try done. cbn. rewrite El, Ec. by apply own_chan_alter.
Qed.

Lemma queue_script n sent x c k :
  ConnInv n sent x c ->
  Forall (packet_fine (sent (peer T x)) (ack_of n (peer T x))) (script_packets (ep_script (view T n x c) k)).
Proof.
  intros HC. unfold script_packets, ep_script. cbn. apply Forall_map.
  eapply Forall_impl; [apply Forall_take, HC|]. by intros [].
Qed.

Lemma poll_steps n sent x c cx k timer_ready :
  MeshInv n sent -> ms_conn n x = Some c -> stream_enabled (B := B) (view T n x c) (MPoll cx k timer_ready) ->
  wp (ep_poll cx k timer_ready) (fun _ e' => stepped n sent x c [] ([], []) e') (view T n x c).
Proof.
  intros HM Hx [_ HR]. pose proof (me_conn _ _ HM x c Hx) as HC. unfold ep_poll.
  apply wp_bind, wp_get, wp_bind, wp_on_stream. eapply wp_mono.
  { eapply poll_moves; [apply HC|by apply queue_script|done|apply (me_host _ _ HM (host T x))]. }
  intros r st' (HP & M & _). pose proof (stepped_silent _ _ _ _ _ HP M) as SP.
  destruct (closed_and_drained _); wp_run.
  - destruct SP. by split.
  - apply (stepped_chans _ _ _ _ _ (with_st (view T n x c) st')); [done|done|]. intros ch ev. cbn.
    intros Hev. rewrite <- (take_drop k (ch_queue ch)). apply elem_of_app. by right.
Qed.

Lemma stream_run_steps n sent x c (op : stream_op (B := B)) :
  MeshInv n sent -> ms_conn n x = Some c -> stream_enabled (view T n x c) op ->
  wp (stream_run op) (fun wr e' => exists cs, stepped n sent x c cs wr e') (view T n x c).
Proof.
  intros HM Hx Hok. pose proof (me_conn _ _ HM x c Hx) as HC. pose proof (co_peer _ _ _ _ HC) as HP.
  destruct op; cbn [stream_run stream_enabled] in *; apply wp_bind; try apply wp_on_stream.
  - destruct Hok. eapply wp_mono; [by eapply write_moves|]. intros r st' (cs & HP' & M & _ & ->).
    apply wp_ret. exists cs. apply stepped_st; [by rewrite app_nil_r|done|done].
  - eapply wp_mono; [by eapply read_moves|]. intros [res buf'] st' (HP' & M & _). cbn [snd] in HP'.
    apply wp_ret. exists []. apply stepped_st; by rewrite ?app_nil_r.
  - eapply wp_mono; [by eapply close_moves|]. intros [] st' (HP' & M & _). apply wp_ret. exists [].
    by apply stepped_silent.
  - eapply wp_mono; [by eapply drop_moves|]. intros [] st' (HP' & M & _). apply wp_ret. exists [].
    by apply stepped_silent.
  - eapply wp_mono; [by eapply poll_steps|]. intros r e' SP. apply wp_ret. by exists [].
  - unfold ep_release. wp_run. exists []. pose proof (stepped_silent _ _ _ _ _ HP (moved_quiet _ _ _ (reflexivity _) eq_refl)) as SP.
    eapply (stepped_chans _ _ _ _ _ _ _ (cn_running c)) in SP; [exact SP|done|done].
Qed.

(** ** An operation of a socket *)

(** It puts the messages [ms] into the channels of the streams they name,
    stamps packets, and turns events into transmits and transmits into
    datagrams. *)
Record socket_moved (ms : list RecvMsg) (k k' : SocketSt) : Prop := {
  hm_length : length (chans k') = length (chans k);
  hm_chans : forall i ch', chans k' !! i = Some ch' -> exists ch q, chans k !! i = Some ch /\
    ch_queue ch' = ch_queue ch ++ map EvPacket q /\ Forall (comes_from (k_streams (sock k)) ms i) q;
  hm_streams : k_streams (sock k') ⊆ k_streams (sock k);
  hm_store : exists ls, stamped ls (w_store (sworld k)) (w_store (sworld k'));
  hm_recv_buf : k_recv_buf (sock k') = k_recv_buf (sock k);
  hm_open : w_tx_open (sworld k') = w_tx_open (sworld k);
  hm_clock : w_clock (sworld k') = w_clock (sworld k);
  hm_gso : 1 <= w_max_gso_segments (sworld k) -> 1 <= w_max_gso_segments (sworld k');
  hm_events : forall ev, ev ∈ w_tx (sworld k') -> ev ∈ w_tx (sworld k) \/
    exists dg, ev = EvTransmitDgram dg /\ harmless (dg_buf dg);
  hm_transmits : forall t, t ∈ k_outgoing_transmits (sock k') ->
    t ∈ k_outgoing_transmits (sock k) ++ all_transmits (w_store (sworld k)) (w_tx (sworld k));
  hm_sent : forall t, t ∈ w_sent (sworld k') -> t ∈ w_sent (sworld k) \/
    t ∈ k_outgoing_transmits (sock k) ++ all_transmits (w_store (sworld k)) (w_tx (sworld k));
}.

(** Changes that leave the queues and the world alone. *)
Lemma socket_moved_quiet k k' :
  chans k' = chans k -> k_streams (sock k') = k_streams (sock k) -> k_recv_buf (sock k') = k_recv_buf (sock k) ->
  k_outgoing_transmits (sock k') = k_outgoing_transmits (sock k) -> w_store (sworld k') = w_store (sworld k) ->
  w_tx_open (sworld k') = w_tx_open (sworld k) -> w_clock (sworld k') = w_clock (sworld k) ->
  (1 <= w_max_gso_segments (sworld k) -> 1 <= w_max_gso_segments (sworld k')) ->
  (forall ev, ev ∈ w_tx (sworld k') -> ev ∈ w_tx (sworld k) \/
    exists dg, ev = EvTransmitDgram dg /\ harmless (dg_buf dg)) ->
  w_sent (sworld k') = w_sent (sworld k) -> socket_moved [] k k'.
Proof.
  intros Ec Es Eb Et Est Eo Ek Hg Hev Ese.
  split; rewrite ?Ec, ?Es, ?Eb, ?Et, ?Est, ?Eo, ?Ek, ?Ese; try done; [..|by left].
  - intros i ch' Hi. exists ch', []. rewrite app_nil_r. by split_and!.
  - exists []. apply stamped_nil.
  - intros t Ht. apply elem_of_app. by left.
Qed.

Lemma driven_moved ms k k' : driven ms k k' -> socket_moved ms k k'.
Proof.
  intros (k1 & k2 & k3 & evs & rest & [D _] & F & S & I).
  pose proof (dv_world _ _ _ D) as W1. pose proof (fd_world _ _ _ _ F) as W2. pose proof (sd_world _ _ S) as W3.
  pose proof (id_world _ _ I) as W4. pose proof (id_sock _ _ I) as S4.
  destruct (sd_store _ _ S) as [ls Hst]. destruct (sd_queue _ _ S) as (m & Eq & Ese & _).
  destruct (fd_chans _ _ _ _ F) as [Hl2 Hc2]. pose proof (fd_control _ _ _ _ F) as (_ & _ & Eb).
  pose proof (fd_transmits _ _ _ _ F) as Et. pose proof (fd_events _ _ _ _ F) as Ee. rewrite W1 in Ee, Et. cbn in Ee, Et.
  assert (forall t, t ∈ k_outgoing_transmits (sock k2) ->
    t ∈ k_outgoing_transmits (sock k) ++ all_transmits (w_store (sworld k)) (w_tx (sworld k))) as Hts.
  { intros t. rewrite Et, (dv_transmits _ _ _ D), Ee. unfold all_transmits. rewrite map_app, concat_app.
    rewrite !elem_of_app. tauto. }
  assert (w_store (sworld k') = w_store (sworld k3) /\ w_sent (sworld k') = w_sent (sworld k3)) as [E1 E2]
    by (by rewrite W4).
  assert (w_tx (sworld k') = rest /\ w_tx_open (sworld k') = w_tx_open (sworld k) /\
    w_clock (sworld k') = w_clock (sworld k) /\ w_max_gso_segments (sworld k') = w_max_gso_segments (sworld k))
    as (E3 & E4 & E5 & E6) by (rewrite W4, W3, W2, W1; by split_and!).
  assert (k_streams (sock k') = k_streams (sock k3) /\ k_recv_buf (sock k') = k_recv_buf (sock k3) /\
    k_outgoing_transmits (sock k') = k_outgoing_transmits (sock k3)) as (E7 & E8 & E9)
    by (rewrite S4; by split_and!).
  split; rewrite ?E1, ?E2, ?E3, ?E4, ?E5, ?E6, ?E7, ?E8, ?E9; try done.
  - rewrite (id_chans _ _ I), (sd_chans _ _ S), Hl2. apply D.
  - intros i ch' Hi. rewrite (id_chans _ _ I), (sd_chans _ _ S) in Hi.
    destruct (Hc2 i ch' Hi) as (ch1 & H1 & Eq1 & _). destruct (dv_chans _ _ _ D i ch1 H1) as (ch & q & H0 & E0 & _ & Hq).
    exists ch, q. split_and!; [done|congruence|done].
  - rewrite (sd_streams _ _ S). transitivity (k_streams (sock k1)); [|apply D].
    apply map_subseteq_spec. intros i hd. rewrite (fd_streams _ _ _ _ F). by case_decide.
  - exists ls. by rewrite W2, W1 in Hst.
  - rewrite (sd_recv_buf _ _ S), Eb. apply D.
  - intros ev Hev. left. rewrite Ee. apply elem_of_app. by right.
  - intros t. rewrite Eq. intros Hin. apply Hts. rewrite <- (take_drop m (k_outgoing_transmits (sock k2))).
    apply elem_of_app. by right.
  - intros t. rewrite Ese, W2, W1. cbn. rewrite elem_of_app. intros [?|Hin]; [by left|right]. apply Hts.
    rewrite <- (take_drop m (k_outgoing_transmits (sock k2))). apply elem_of_app. by left.
Qed.

(** A message for stream [x] of host [h] is a packet of its peer. *)
Definition brings n sent h (m : RecvMsg) : Prop :=
  forall hd x c, from_bytes (msg_data m) = Ret (Ok hd) -> host T x = h -> h_stream_id hd = id T x ->
    ms_conn n x = Some c ->
    packet_fine (sent (peer T x)) (ack_of n (peer T x)) (mk_IncomingPacket hd (drop 20 (msg_data m)) 0 (m_addr (rm_meta m))).

Lemma genuine_id payloads s b hd : genuine payloads s b -> from_bytes b = Ret (Ok hd) -> h_stream_id hd = s_remote_id s.
Proof.
  intros (h' & body & -> & Hw & _ & Hid & _) Eh. rewrite from_bytes_header_bytes in Eh by done. congruence.
Qed.

(** The network can only deliver such messages. *)
Lemma receivable_brings n sent h m : MeshInv n sent -> receivable T n h m -> brings n sent h m.
Proof.
  intros HM (_ & b & Ed & Hd) hd x c Hh Hx Hid Hc. rewrite Ed in *. apply from_bytes_take in Hh as Hh'.
  destruct Hd as [Ha|(g & t & Ht & Hdst & Hin)]; [by destruct (Ha hd Hh' x Hx)|].
  pose proof (ho_sent _ _ _ (me_host _ _ HM g)) as Hs. rewrite Forall_forall in Hs. specialize (Hs t Ht).
  unfold transmit_from in Hs. rewrite Forall_forall in Hs.
  destruct (Hs b Hin) as [Hharm|(y & d & Hy & Hg & Hdst')]; [by destruct (Hharm hd)|].
  destruct (co_names _ _ _ _ (me_conn _ _ HM y d Hy)) as (_ & _ & Er).
  assert (x = peer T y) as ->.
  { apply id_inj.
    - rewrite Hx. apply addr_inj. congruence.
    - rewrite <- Hid, <- Er. by eapply genuine_id. }
  rewrite peer_peer. unfold ack_of. rewrite Hy. rewrite (genuine_len _ _ _ Hg) in *. by apply genuine_packet.
Qed.

(** Events become transmits of the streams that made them. *)
Lemma event_transmits n sent h ev t :
  event_from n sent h ev -> MeshInv n sent -> t ∈ ev_transmits (w_store (sworld (ms_host n h))) ev ->
  transmit_ok t /\ transmit_from n sent t.
Proof.
  intros [(x & c & Hx & <- & Hev)|(dg & -> & Hd)] HM Ht.
  - destruct ev as [set|dg|i]; cbn in Ht; [|done|by apply elem_of_nil in Ht].
    destruct (set_transmit_fine _ _ _ Hev) as (t' & Et & Hok & Hf). cbn in Et. rewrite Et in Ht.
    apply list_elem_of_singleton in Ht as ->. split; [done|]. eapply Forall_impl; [exact Hf|].
    intros b [?|[Hg Hdst]]; [by left|right]. exists x, c. split_and!; try done. rewrite Hdst.
    apply (me_conn _ _ HM x c Hx).
  - cbn in Ht. apply list_elem_of_singleton in Ht as ->. split; [done|]. unfold transmit_from.
    rewrite kernel_plain by done. constructor; [by left|constructor].
Qed.

Lemma queued_transmits n sent h t :
  MeshInv n sent ->
  t ∈ k_outgoing_transmits (sock (ms_host n h)) ++
      all_transmits (w_store (sworld (ms_host n h))) (w_tx (sworld (ms_host n h))) ->
  transmit_ok t /\ transmit_from n sent t.
Proof.
  intros HM. destruct (me_host _ _ HM h) as [He Ht _ _ _ _ _ _]. rewrite Forall_forall in He. rewrite Forall_forall in Ht.
  rewrite elem_of_app. intros [Hin|Hin]; [by apply Ht|].
  unfold all_transmits in Hin. apply list_elem_of_In, in_concat in Hin as (l & Hl & Hin).
  apply in_map_iff in Hl as (ev & <- & Hev). apply list_elem_of_In in Hev. apply list_elem_of_In in Hin.
  by eapply event_transmits; [apply He|..].
Qed.

Section host_step.
Context n sent h (k' : SocketSt) (ms : list RecvMsg).
Hypothesis HM : MeshInv n sent.
Hypothesis Hmv : socket_moved ms (ms_host n h) k'.
Hypothesis Hms : Forall (brings n sent h) ms.

Let n' := set_host h k' n.

Lemma host_grown : grown n sent n' sent.
Proof.
  split; [done|intros x c Hx; by exists c|]. intros g. unfold n'. cbn. case_insert; [subst g|done].
  destruct (hm_store _ _ _ Hmv) as [ls Hs]. by eapply stamped_store_ext.
Qed.

Lemma host_host g : HostInv n' sent g.
Proof.
  pose proof host_grown as G. pose proof (me_host _ _ HM g) as HH.
  destruct (decide (g = h)) as [-> |Hne].
  - assert (ms_host n' h = k') as Ek by (unfold n'; cbn; by rewrite fn_lookup_insert).
    eapply HostInv_step; [exact G|exact HH|..]; rewrite Ek; try apply Hmv; [..|apply HH].
    + intros ev [?|?]%(hm_events _ _ _ Hmv); [by left|by right; right].
    + intros t Ht%(hm_transmits _ _ _ Hmv). right. destruct (queued_transmits n sent h t HM Ht).
      split; [done|]. by eapply transmit_from_grown.
    + intros t [?|Ht]%(hm_sent _ _ _ Hmv); [by left|right]. eapply transmit_from_grown; [exact G|].
      by apply (queued_transmits n sent h t).
    + intros i hd Hi. left. eapply lookup_weaken; [exact Hi|apply Hmv].
  - assert (ms_host n' g = ms_host n g) as Ek by (unfold n'; cbn; by rewrite fn_lookup_insert_ne).
    eapply HostInv_step; [exact G|exact HH|..]; rewrite Ek; try (by left); done || apply HH.
Qed.

Lemma host_queue x c :
  ms_conn n x = Some c -> host T x = h ->
  Forall (fun ev => packet_fine (sent (peer T x)) (ack_of n (peer T x)) (event_packet ev))
    (ch_queue (ep_queue (view T n' x c))).
Proof.
  intros Hx Hh. pose proof (me_conn _ _ HM x c Hx) as [_ _ Hq _ _]. unfold ep_queue, view, n' in *. cbn in *.
  rewrite Hh in *. rewrite fn_lookup_insert. destruct (chans k' !! cn_chan c) as [ch'|] eqn:Ec; [|constructor].
  destruct (hm_chans _ _ _ Hmv _ _ Ec) as (ch & q & Hch & -> & Hfrom). rewrite Hch in Hq.
  apply Forall_app. split; [done|]. apply Forall_map. eapply Forall_impl; [exact Hfrom|].
  intros p (m & hd & handle & Hm & Hhd & Hs & Hr & ->). cbn.
  destruct (ho_streams _ _ _ (me_host _ _ HM h) _ _ Hs) as (y & d & Hy & Hyh & Hid & Hch').
  assert (y = x) as ->.
  { destruct (decide (y = x)) as [|Hne]; [done|]. destruct (me_apart _ _ HM y x d c) as [Hc _]; congruence. }
  rewrite Forall_forall in Hms. by eapply (Hms m Hm).
Qed.

Lemma set_host_MeshInv : MeshInv n' sent.
Proof.
  pose proof host_grown as G. pose proof HM as [_ Hnew _ Hap]. split; [|done|apply host_host|done].
  intros x c Hx. pose proof (me_conn _ _ HM x c Hx) as HC. eapply (ConnInv_other n sent); try done.
  - change (ack_of n' (peer T x)) with (ack_of n (peer T x)). split; [done|]. apply HC.
  - unfold n'. cbn. case_insert; [subst h|split; [done|]; intros k l p _ Hp; exists (p_time_sent p); by destruct p].
    destruct (hm_store _ _ _ Hmv) as [ls Hs]. by eapply stamped_undisturbed.
  - apply host_host.
  - change (ack_of n' (peer T x)) with (ack_of n (peer T x)).
    destruct (decide (host T x = h)); [by apply host_queue|].
    unfold ep_queue, view, n'. cbn. rewrite fn_lookup_insert_ne by done. apply HC.
  - unfold n'. cbn. case_insert; [subst h|done]. by rewrite (hm_length _ _ _ Hmv).
Qed.

End host_step.

Lemma host_run_moves n sent h op :
  MeshInv n sent -> host_enabled T n h op ->
  wp (host_run op) (fun _ k' => exists ms, socket_moved ms (ms_host n h) k' /\ Forall (brings n sent h) ms) (ms_host n h).
Proof.
  intros HM Hok. pose proof (me_host _ _ HM h) as HH. destruct op; cbn [host_run host_enabled] in *.
  - destruct Hok as (Hd & Hss & HR & HT). apply wp_bind. eapply wp_mono.
    { apply socket_driver_wp; try done; try apply HH.
      - eapply Forall_impl; [exact Hd|]. intros ms Hms. eapply Forall_impl; [exact Hms|]. by intros m [].
      - eapply Forall_impl; [apply HH|]. intros ev [(x & c & Hx & <- & Hev)|(dg & -> & _)]; [|done].
        destruct ev as [set| |]; [|done|done]. destruct (set_transmit_fine _ _ _ Hev) as (t & Et & ? & _). by exists t.
      - eapply Forall_impl; [apply HH|]. by intros t []. }
    intros r k' [D _]. apply wp_ret. exists (concat (rb_batches rx)). split; [by apply driven_moved|].
    apply Forall_concat. eapply Forall_impl; [exact Hd|]. intros ms Hms.
    eapply Forall_impl; [exact Hms|]. intros m. by apply receivable_brings.
  - unfold socket_send. apply wp_bind, wp_on_sworld. unfold send_event.
    wp_run; [|pose proof (ho_open _ _ _ HH); congruence]. exists []. split; [|constructor].
    apply socket_moved_quiet; try done. cbn. intros ev. rewrite elem_of_app, list_elem_of_singleton.
    intros [?| ->]; [by left|right]. by eexists.
  - apply wp_bind. unfold recv_poll. so_run.
    destruct (k_recv_dgrams _); so_run; exists []; (split; [|constructor]); apply socket_moved_quiet; auto.
  - unfold drop_socket. so_run; exists []; (split; [|constructor]); apply socket_moved_quiet; auto.
  - unfold halt_gso. wp_run. exists []. split; [|constructor]. apply socket_moved_quiet; auto. cbn.
    destruct (Z.gtb_spec (w_max_gso_segments (sworld (ms_host n h))) 1); lia.
Qed.

(** ** Opening a stream *)

(** The socket after [connect], with a new channel and the handle of [x]. *)
Definition with_handle x (k : SocketSt) : SocketSt :=
  k <| sock ::= fun s => s <| k_streams ::= <[id T x := mk_StreamHandle (length (chans k))]> |> |>
    <| chans ::= fun l => l ++ [mk_Chan [] true true] |> <| sworld ::= fun w => w <| w_ticks ::= Datatypes.S |> |>.

Definition new_stream x (k : SocketSt) : UdxStreamInner :=
  connect (w_clock (sworld k) (w_ticks (sworld k))) (addr T (host T (peer T x))) (id T (peer T x)) (id T x).

Lemma connect_run n sent x :
  MeshInv n sent -> ms_conn n x = None ->
  let k := ms_host n (host T x) in
  socket_connect (addr T (host T (peer T x))) (id T x) (id T (peer T x)) k =
    Ret ((new_stream x k, length (chans k)), with_handle x k).
Proof.
  intros HM Hx k. assert (k_streams (sock k) !! id T x = None) as Hno.
  { destruct (k_streams (sock k) !! id T x) as [hd|] eqn:Ehd; [|done].
    destruct (ho_streams _ _ _ (me_host _ _ HM (host T x)) _ _ Ehd) as (y & d & Hy & Hh & Hi & _).
    apply id_inj in Hi as ->; [congruence|done]. }
  assert (wp (socket_connect (addr T (host T (peer T x))) (id T x) (id T (peer T x)))
    (fun r k' => r = (new_stream x k, length (chans k)) /\ k' = with_handle x k) k) as W.
  { unfold socket_connect. so_run. cbn. rewrite Hno. unfold drop_handle. so_run.
    split; [done|]. by destruct k as [[] ? []]. }
  by destruct (wp_elim _ _ _ W) as (r & k' & -> & -> & ->).
Qed.

Section connect_step.
Context n sent x.
Hypothesis HM : MeshInv n sent.
Hypothesis Hx : ms_conn n x = None.

Let k := ms_host n (host T x).
Let c := mk_Conn (new_stream x k) (length (chans k)) true.
Let n' := set_end T x (mk_Endpoint (cn_stream c) (cn_chan c) true (with_handle x k)) ([], []) n.

Lemma connect_other y : y <> x -> ms_conn n' y = ms_conn n y.
Proof. intros Hne. unfold n'. cbn. by rewrite fn_lookup_insert_ne. Qed.

Lemma connect_self : ms_conn n' x = Some c.
Proof. unfold n'. cbn. by rewrite fn_lookup_insert. Qed.

Lemma connect_ack y : ack_of n' y = ack_of n y.
Proof.
  unfold ack_of. destruct (decide (y = x)) as [-> |Hne]; [by rewrite connect_self, Hx|by rewrite connect_other].
Qed.

Lemma connect_host_at h : ms_host n' h = if decide (host T x = h) then with_handle x k else ms_host n h.
Proof. done. Qed.

Lemma connect_grown : grown n sent n' sent.
Proof.
  split; [done| |].
  - intros y d Hy. exists d. by rewrite connect_other by congruence.
  - intros h. rewrite connect_host_at. case_decide; [by subst h|done].
Qed.

Lemma connect_host h : HostInv n' sent h.
Proof.
  pose proof connect_grown as G. pose proof (me_host _ _ HM h) as HH.
  eapply HostInv_step; [exact G|exact HH|..]; rewrite connect_host_at; case_decide as Hh; try (by left); try apply HH;
    subst; try done; try (by left); [|apply HH].
  cbn. intros i hd [[<- <-]|[_ Hi]]%lookup_insert_Some; [right|by left].
  exists x, c. split_and!; [apply connect_self|done..].
Qed.

(** The peer has received nothing from a stream that did not exist. *)
Lemma peer_ack : ack_of n (peer T x) = 0.
Proof.
  unfold ack_of. destruct (ms_conn n (peer T x)) as [d|] eqn:Hd; [|done].
  pose proof (co_peer _ _ _ _ (me_conn _ _ HM _ _ Hd)) as HP. pose proof (pi_ack _ _ _ _ _ HP) as Ha.
  pose proof (inv_cursor _ (inv_recv _ _ (pi_stream _ _ _ _ _ HP))). rewrite peer_peer in Ha.
  destruct (me_new _ _ HM x Hx) as (Es & _). rewrite Es in Ha. cbn in *. change (len []) with 0 in Ha. lia.
Qed.

Lemma connect_conn : ConnInv n' sent x c.
Proof.
  destruct (me_new _ _ HM x Hx) as (Es & Ew & Er). destruct (me_host _ _ HM (host T x)).
  assert (ms_host n' (host T x) = with_handle x k) as Ek by (rewrite connect_host_at; by rewrite decide_True).
  split; rewrite ?connect_ack, ?peer_ack, ?Es; unfold conn_st, ep_queue, view; rewrite ?Ek; cbn.
  - rewrite fn_lookup_insert, Er. apply connect_PeerInv; [apply id_u32|done|done].
  - by rewrite fn_lookup_insert, Ew.
  - rewrite lookup_app_r, Nat.sub_diag by done. constructor.
  - rewrite length_app. cbn. lia.
  - done.
Qed.

Lemma connect_other_conn y d : y <> x -> ms_conn n y = Some d -> ConnInv n' sent y d.
Proof.
  intros Hne Hy. pose proof (me_conn _ _ HM y d Hy) as HC. pose proof (co_chan _ _ _ _ HC) as Hch.
  eapply (ConnInv_other n sent); try done; rewrite ?connect_ack.
  - apply connect_grown.
  - unfold n'. cbn. by rewrite fn_lookup_insert_ne.
  - unfold n'. cbn. by rewrite fn_lookup_insert_ne.
  - split; [done|apply HC].
  - rewrite connect_host_at. case_decide as Hh; [rewrite <- Hh|];
      (split; [done|]; intros i l p _ Hp; exists (p_time_sent p); by destruct p).
  - apply connect_host.
  - assert (ch_queue (ep_queue (view T n' y d)) = ch_queue (ep_queue (view T n y d))) as ->; [|apply HC].
    unfold ep_queue, view. cbn [ep_socket ep_chan]. rewrite connect_host_at. case_decide as Hh; [|done].
    rewrite <- Hh in *. cbn. by rewrite lookup_app_l.
  - rewrite connect_host_at. case_decide as Hh; [rewrite <- Hh|done]. cbn. rewrite length_app. fold k. lia.
Qed.

Lemma connect_apart y d : y <> x -> ms_conn n y = Some d -> host T y = host T x -> apart c d.
Proof.
  intros Hne Hy Hh. pose proof (co_chan _ _ _ _ (me_conn _ _ HM y d Hy)) as Hch. rewrite Hh in Hch. fold k in Hch.
  split; [cbn; lia|]. intros i i' l Hi. cbn in Hi. by rewrite lookup_empty in Hi.
Qed.

Lemma connect_MeshInv : MeshInv n' sent.
Proof.
  pose proof connect_self as Hs. split.
  - intros y d Hy. destruct (decide (y = x)) as [-> |Hne]; [rewrite Hs in Hy; injection Hy as <-; apply connect_conn|].
    rewrite connect_other in Hy by done. by apply connect_other_conn.
  - intros y Hy. destruct (decide (y = x)) as [-> |Hne]; [congruence|]. rewrite connect_other in Hy by done.
    unfold n'. cbn. rewrite !fn_lookup_insert_ne by done. by apply HM.
  - apply connect_host.
  - intros y z d1 d2 Hy Hz Hh Hne. destruct (decide (y = x)) as [-> |Hyx], (decide (z = x)) as [-> |Hzx]; try done.
    + assert (d1 = c) as -> by congruence. rewrite connect_other in Hz by done. by apply (connect_apart z).
    + assert (d2 = c) as -> by congruence. rewrite connect_other in Hy by done. by apply apart_sym, (connect_apart y).
    + rewrite connect_other in Hy, Hz by done. by eapply (me_apart _ _ HM y z).
Qed.

End connect_step.

(** ** The whole system *)

(** The end an operation works on. *)
Definition op_end (op : mesh_op (B := B) (H := H) (E := E)) : option E :=
  match op with MConnect x | MStream x _ => Some x | MHost _ _ => None end.

(** What happens to the streams that an operation does not work on. *)
Definition left_alone n n' y : Prop :=
  ms_conn n' y = ms_conn n y /\
  forall c, ms_conn n y = Some c ->
    undisturbed (cn_stream c) (sworld (ms_host n (host T y))) (sworld (ms_host n' (host T y))).

Lemma undisturbed_refl (s : UdxStreamInner) (w : World) : undisturbed s w w.
Proof. split; [done|]. intros k l p _ Hp. exists (p_time_sent p). by destruct p. Qed.

Lemma mesh_step n sent op :
  MeshInv n sent -> mesh_enabled T n op ->
  exists n' sent', mesh_run T op n = Ret n' /\ MeshInv n' sent' /\ (forall y, sent y `prefix_of` sent' y) /\
    forall y, op_end op <> Some y -> left_alone n n' y.
Proof.
  intros HM Hok. destruct op as [x|x op|h op]; cbn [mesh_run mesh_enabled op_end] in *.
  - rewrite (connect_run n sent x HM Hok). cbn [mbind outcome_bind]. eexists _, sent. split; [done|].
    split; [by apply connect_MeshInv|]. split; [done|]. intros y Hne. assert (y <> x) by congruence. split; cbn.
    + by rewrite fn_lookup_insert_ne.
    + intros c Hc. case_insert as Hh; [rewrite <- Hh|apply undisturbed_refl]. split; [done|].
      intros k l p _ Hp. exists (p_time_sent p). by destruct p.
  - destruct Hok as (c & Hx & Hen). rewrite Hx.
    destruct (wp_elim _ _ _ (stream_run_steps n sent x c op HM Hx Hen)) as (wr & e' & -> & cs & SP).
    cbn [mbind outcome_bind]. eexists _, (<[x := sent x ++ cs]> sent). split; [done|].
    split; [by eapply set_end_MeshInv|]. split.
    + intros y. case_insert; [subst; by eexists|done].
    + intros y Hne. assert (y <> x) by congruence. split; cbn; [by rewrite fn_lookup_insert_ne|].
      intros d Hd. case_insert as Hh; [rewrite <- Hh|apply undisturbed_refl].
      eapply (moved_undisturbed _ (conn_st n x c) (ep_st e')); [apply SP|].
      intros k k' l Hk. by eapply (me_apart _ _ HM y x d c).
  - destruct (wp_elim _ _ _ (host_run_moves n sent h op HM Hok)) as ([] & k' & -> & ms & Hmv & Hms).
    cbn [mbind outcome_bind]. eexists _, sent. split; [done|]. split; [by eapply set_host_MeshInv|].
    split; [done|]. intros y _. split; [done|]. intros d Hd. cbn. case_insert as Hh; [subst h|apply undisturbed_refl].
    destruct (hm_store _ _ _ Hmv) as [ls Hs]. by eapply stamped_undisturbed.
Qed.

Context (w : H -> World).
Hypothesis worlds_fresh : forall h, world_fresh (w h).

Lemma mesh_start_inv : MeshInv (mesh_start T w) (fun _ => []).
Proof.
  split; try done. intros h. destruct (worlds_fresh h) as [Etx Ese ? ? ?].
  split; cbn; rewrite ?Etx, ?Ese; done.
Qed.

Lemma mesh_reachable_inv n : mesh_reachable (B := B) T w n -> exists sent, MeshInv n sent.
Proof.
  induction 1 as [|n op n' _ [sent IH] Hok Hrun]; [eexists; apply mesh_start_inv|].
  destruct (mesh_step n sent op IH Hok) as (n2 & sent' & E2 & HM & _). rewrite Hrun in E2. injection E2 as ->.
  by eexists.
Qed.

Lemma written_sent n sent x : MeshInv n sent -> concat (sent x) = ms_written n x.
Proof.
  intros HM. destruct (ms_conn n x) as [c|] eqn:Hx; [by apply (me_conn _ _ HM x c)|].
  by destruct (me_new _ _ HM x Hx) as (-> & -> & _).
Qed.

Lemma mesh_taken_prefix n sent x : MeshInv n sent -> ms_taken n (peer T x) `prefix_of` ms_written n x.
Proof.
  intros HM. rewrite <- (written_sent n sent x HM). unfold ms_taken. destruct (ms_conn n (peer T x)) as [d|] eqn:Hy.
  - pose proof (pi_read _ _ _ _ _ (co_peer _ _ _ _ (me_conn _ _ HM _ d Hy))) as Hr. rewrite peer_peer in Hr. cbn in Hr.
    eexists. rewrite <- (take_drop (Z.to_nat (s_ack (cn_stream d))) (sent x)) at 1.
    by rewrite concat_app, <- Hr, <- app_assoc.
  - destruct (me_new _ _ HM _ Hy) as (_ & _ & ->). apply prefix_nil.
Qed.

Lemma mesh_reads_sound n sent x : MeshInv n sent -> Forall sound_reading (ms_reads n x).
Proof.
  intros HM. destruct (ms_conn n x) as [c|] eqn:Hx.
  - apply (pi_reads _ _ _ _ _ (co_peer _ _ _ _ (me_conn _ _ HM x c Hx))).
  - destruct (me_new _ _ HM x Hx) as (_ & _ & ->). constructor.
Qed.

(** C1: many streams over shared sockets.  Any number of hosts run any number of
    streams to each other, opened at any time; the streams of a host share its
    socket, its queues and its store of packets, and the network loses,
    duplicates, delays and reorders datagrams.  Still the reads of every end
    have at every moment taken a prefix of the bytes that its own peer has
    written, what they returned are some of these bytes in their order, and
    with buffers of at least [UDX_MAX_DATA_SIZE] bytes it is itself a prefix; a
    call that does not return [Ready(Ok)] has taken nothing or filled a buffer
    smaller than that.  Every packet that the peer has not acknowledged is in
    the retransmission table of its stream with its payload. *)
Theorem mesh_streams_reliable n x :
  mesh_reachable (B := B) T w n ->
  (ms_taken n (peer T x) `prefix_of` ms_written n x /\
   ms_read n (peer T x) `sublist_of` ms_written n x /\
   Forall sound_reading (ms_reads n (peer T x)) /\
   (Forall (fun r => UDX_MAX_DATA_SIZE <= re_room r) (ms_reads n (peer T x)) ->
    ms_read n (peer T x) `prefix_of` ms_written n x)) /\
  forall c, ms_conn n x = Some c ->
    let s := cn_stream c in
    s_remote_acked s <= ack_of n (peer T x) <= s_seq s /\
    exists payloads, concat payloads = ms_written n x /\ len payloads = s_seq s /\
      forall k, ack_of n (peer T x) <= k < s_seq s -> exists l p body, s_outgoing s !! k = Some l /\
        w_store (sworld (ms_host n (host T x))) !! l = Some p /\ payloads !! Z.to_nat k = Some body /\
        as_slice (p_buf p) = header_bytes (p_header p) ++ body.
Proof.
  intros [sent HM]%mesh_reachable_inv. split.
  - apply faithful_reads; [by eapply mesh_reads_sound|by eapply mesh_taken_prefix].
  - intros c Hx s. subst s. pose proof (co_peer _ _ _ _ (me_conn _ _ HM x c Hx)) as HP. pose proof (pi_stream _ _ _ _ _ HP) as HI.
    pose proof (pi_acked _ _ _ _ _ HP). pose proof (pi_pack _ _ _ _ _ HP). split; [done|]. exists (sent x).
    split_and!; [by apply written_sent|symmetry; apply (inv_seq _ _ HI)|]. intros k Hk.
    destruct (pi_kept _ _ _ _ _ HP k) as [l Hl]; [cbn in *; lia|].
    destruct (inv_out _ _ HI k l Hl) as (_ & p & Hp & _ & (_ & body & Hb & _ & Hs) & Hsq & _).
    exists l, p, body. subst k. by split_and!.
Qed.

(** C2: streams that share a socket do not disturb each other.  In every
    reachable state every enabled operation returns, without a panic or an
    overflow, and every stream that it does not work on is left as it was: its
    own state does not change, and of the packets in its retransmission table
    nothing but the sending time. *)
Theorem mesh_streams_isolated n op :
  mesh_reachable (B := B) T w n -> mesh_enabled T n op ->
  exists n', mesh_run T op n = Ret n' /\ forall y, op_end op <> Some y -> left_alone n n' y.
Proof.
  intros [sent HM]%mesh_reachable_inv Hok. destruct (mesh_step n sent op HM Hok) as (n' & _ & E1 & _ & _ & Ha).
  by exists n'.
Qed.

End inv.

(** ** Two hosts with two connections *)

#[local] Existing Instance option_instant.
#[local] Existing Instance option_instant_laws.
#[local] Existing Instance net_profile.
#[local] Existing Instance udp_segment.
#[local] Existing Instance udp_segment_laws.

(** An end is a connection and a side; the ids of the two connections are
    crossed, so that each host uses both of them. *)
Definition twin : Topology side (bool * side) :=
  mk_Topology snd (fun x => (fst x, negb (snd x))) two_addrs
    (fun x => if Bool.eqb (fst x) (snd x) then 7 else 9).

#[local] Instance twin_ok : TopologyOk twin.
Proof.
  split; cbn.
  - intros [? []]; done.
  - intros [? []]; done.
  - intros [] []; done.
  - intros [[] []] [[] []]; cbn; congruence.
  - intros [[] []]; cbn; unfold u32_modulus; lia.
Qed.

Abbreviation twin_mesh := (Mesh (H := side) (E := bool * side)).
Abbreviation twin_op := (mesh_op (B := list byte * Z) (H := side) (E := bool * side)).

Definition receivable_b (n : twin_mesh) (h : side) (m : RecvMsg) : bool :=
  (len (rm_iov m) =? UDX_MTU) && (0 <=? m_len (rm_meta m)) && (m_len (rm_meta m) <=? UDX_MTU) &&
  existsb (fun g => existsb (fun t => bool_decide (t_destination t = two_addrs h) &&
      existsb (fun d => bool_decide (msg_data m = take (Z.to_nat UDX_MTU) d)) (kernel_segments t))
    (w_sent (sworld (ms_host n g)))) [true; false].

Lemma receivable_b_spec n h m : receivable_b n h m = true -> receivable twin n h m.
Proof.
  unfold receivable_b. intros Hd. apply andb_prop in Hd as [Hd Hex]. b2p. split; [by split|].
  apply existsb_exists in Hex as (g & _ & Hex). apply existsb_exists in Hex as (t & Ht & Hex).
  apply andb_prop in Hex as [Hdst%bool_decide_eq_true Hex].
  apply existsb_exists in Hex as (d & Hin & Ed%bool_decide_eq_true).
  exists d. split; [done|]. right. exists g, t. by split_and!; [apply list_elem_of_In| |apply list_elem_of_In].
Qed.

(** The decidable part of [mesh_enabled], for the operations of the example. *)
Definition enabled_b (n : twin_mesh) (op : twin_op) : bool :=
  match op with
  | MConnect x => match ms_conn n x with None => true | Some _ => false end
  | MStream x op =>
      match ms_conn n x with
      | None => false
      | Some c =>
          let e := view twin n x c in
          match op with
          | MWrite _ buf => (len buf <? 2 ^ 63) && room_b (len buf) (len buf) (ep_st e)
          | MRead _ _ => true
          | MPoll _ m _ =>
              let ps := script_packets (ep_script e m) in
              ep_running e && room_b (len ps + 1) (len (concat (map i_buf ps))) (ep_st e)
          | _ => false
          end
      end
  | MHost h (MSocket _ rx _ _) =>
      let k := ms_host n h in
      forallb (forallb (receivable_b n h)) (rb_batches rx) &&
      fits_b (so_rx_bytes (k_stats (sock k))) (UDX_MTU * BATCH_SIZE * MAX_LOOP) &&
      fits_b (so_rx_dgrams (k_stats (sock k))) (BATCH_SIZE * MAX_LOOP) &&
      stats_b (tx_total (k_outgoing_transmits (sock k) ++
        all_transmits (w_store (sworld k)) (w_tx (sworld k)))) (k_stats (sock k))
  | MHost _ _ => false
  end.

Definition sends_ok (op : twin_op) : Prop :=
  match op with MHost _ (MSocket _ _ _ ss) => send_script_ok ss | _ => True end.

Lemma enabled_b_spec n op : sends_ok op -> enabled_b n op = true -> mesh_enabled twin n op.
Proof.
  destruct op as [x|x op|h op]; cbn [enabled_b sends_ok mesh_enabled]; intros Hss Hok.
  - by destruct (ms_conn n x).
  - destruct (ms_conn n x) as [c|]; [|done]. exists c. split; [done|].
    destruct op; cbn [stream_enabled]; try done; b2p; (split; [done|]); by apply room_b_spec.
  - destruct op; try done. apply andb_prop in Hok as [Hok Hst]. apply andb_prop in Hok as [Hok Hd].
    apply andb_prop in Hok as [Hm Hb]. apply fits_b_spec in Hd, Hb. split_and!; [|done|by split|].
    + apply Forall_forall. intros ms Hms. apply Forall_forall. intros m Hin.
      apply receivable_b_spec. rewrite forallb_forall in Hm.
      apply list_elem_of_In in Hms, Hin. specialize (Hm ms Hms). rewrite forallb_forall in Hm. auto.
    + unfold stats_b in Hst. rewrite !andb_true_iff in Hst. destruct Hst as ((((? & ?) & ?) & ?) & ?).
      unfold TxRoom. repeat (split; [by apply fits_b_spec|]). by apply fits_b_spec.
Qed.

Fixpoint twin_run (ops : list twin_op) (n : twin_mesh) : option twin_mesh :=
  match ops with
  | [] => Some n
  | op :: ops =>
      if enabled_b n op then match mesh_run twin op n with Ret n' => twin_run ops n' | _ => None end else None
  end.

Lemma twin_run_reachable ops n n' :
  mesh_reachable (B := list byte * Z) twin two_worlds n -> Forall sends_ok ops -> twin_run ops n = Some n' ->
  mesh_reachable (B := list byte * Z) twin two_worlds n'.
Proof.
  intros HR Hs. revert n HR. induction Hs as [|op ops Hop _ IH]; intros n HR E; cbn in E; [congruence|].
  destruct (enabled_b n op) eqn:Eok; [|done]. destruct (mesh_run twin op n) as [n1| |] eqn:E1; try done.
  apply (IH n1); [|done]. eapply mesh_next; [done|by apply enabled_b_spec|done].
Qed.

Definition twin_net (ops : list twin_op) : twin_mesh :=
  match twin_run ops (mesh_start twin two_worlds) with Some n => n | None => mesh_start twin two_worlds end.

Lemma twin_net_reachable ops :
  Forall sends_ok ops -> mesh_reachable (B := list byte * Z) twin two_worlds (twin_net ops).
Proof.
  intros Hs. unfold twin_net. destruct (twin_run _ _) eqn:E; [eapply twin_run_reachable; [|done|exact E]|]; apply mesh_init.
Qed.

Definition bye : list byte := [Byte.x62; Byte.x79; Byte.x65].

Definition packet_msg (i : Z) (body : list byte) : RecvMsg :=
  let d := header_bytes (mk_Header 1 0 i U32_MAX 0 0) ++ body in
  mk_RecvMsg (mk_RecvMeta here (len d) None None) (d ++ replicate (1400 - length d) Byte.x00).

(** Both streams of one host write; their packets arrive in the other order,
    and only one of them is opened at the receiver before they arrive. *)
Definition twin_ops : list twin_op :=
  [MConnect (true, true); MConnect (false, true); MConnect (true, false);
   MStream (true, true) (MWrite 1%nat word);
   MStream (false, true) (MWrite 2%nat bye);
   MStream (true, true) (MPoll 3%nat 10 false);
   MStream (false, true) (MPoll 4%nat 10 false);
   MHost true (MSocket 5%nat nothing false sends_all);
   MHost false (MSocket 6%nat (mk_RecvBatches [[packet_msg 7 bye; packet_msg 9 word]] None) false sends_all);
   MStream (true, false) (MPoll 7%nat 10 false);
   MConnect (false, false);
   MStream (true, false) (MRead 8%nat ([], 1500))].

Lemma twin_sends : Forall sends_ok twin_ops.
Proof. do 12 (constructor; [apply sends_all_ok || exact I|]). constructor. Qed.

Lemma mesh_streams_reliable_witness :
  ms_read (twin_net twin_ops) (true, false) = word /\ ms_written (twin_net twin_ops) (false, true) = bye /\
  ms_read (twin_net twin_ops) (true, false) `prefix_of` ms_written (twin_net twin_ops) (true, true).
Proof.
  split; [vm_compute; reflexivity|]. split; [vm_compute; reflexivity|].
  apply (mesh_streams_reliable twin two_worlds two_worlds_fresh (twin_net twin_ops) (true, true)
    (twin_net_reachable twin_ops twin_sends)).
  assert (map re_room (ms_reads (twin_net twin_ops) (true, false)) = [1500]) as E by (vm_compute; reflexivity).
  apply (proj1 (Forall_fmap re_room (fun z => UDX_MAX_DATA_SIZE <= z) _)).
  change (re_room <$> ?l) with (map re_room l). change (peer twin (true, true)) with (true, false). rewrite E.
  repeat constructor. vm_compute; discriminate.
Defined.

Lemma mesh_streams_isolated_witness :
  exists n', mesh_run twin (MStream (false, true) (MWrite 9%nat bye)) (twin_net (take 4 twin_ops)) = Ret n' /\
    ms_conn n' (true, true) = ms_conn (twin_net (take 4 twin_ops)) (true, true).
Proof.
  destruct (mesh_streams_isolated (B := list byte * Z) twin two_worlds two_worlds_fresh (twin_net (take 4 twin_ops))
    (MStream (false, true) (MWrite 9%nat bye))) as (n' & E & Ha).
  - apply twin_net_reachable, Forall_take, twin_sends.
  - apply enabled_b_spec; [exact I|vm_compute; reflexivity].
  - exists n'. split; [exact E|]. apply (Ha (true, true)). discriminate.
Defined.
