(* ===== verification/MeshRefine.v ===== *)
(** The streams of many hosts refine a bundle of byte pipes.

    The specification has one first-in first-out queue of bytes for every end.
    A write at an end appends to its queue; a read takes from the front of the
    queue of the peer what it returns, and a call of [poll_read] that returns
    nothing takes nothing, unless its buffer is smaller than a packet may be,
    which it may fill in vain.  Nothing else happens to any queue: no host,
    socket, packet or network is left. *)

From stdpp Require Import functions.
From S2P Require Import Prelude Constants Errors UdpProto Packet Runtime Stream StreamInv StreamCtrl.
From S2P Require Import StreamSend StreamTimer StreamAck StreamRecv StreamDriver StreamSpec.
From S2P Require Import StreamPeer Socket SocketSpec Network NetworkSpec Mesh MeshSpec.

Local Open Scope Z_scope.

(** ** The specification *)

(** What an application sees: the bytes that a write accepted, and for a call of
    [poll_read] the room in its buffer and, if it returned [Ready(Ok)], the
    bytes it got. *)
Inductive bundle_label (E : Type) :=
  | BWrite (x : E) (bs : list byte)
  | BRead (x : E) (room : Z) (got : option (list byte)).
Arguments BWrite {E}.
Arguments BRead {E}.

Section bundle.
Context {E : Type} {ED : EqDecision E} (peer_of : E -> E).

(** [bs] is taken from the front of what end [x] can read. *)
Definition takes (x : E) (bs : list byte) (q q' : E -> list byte) : Prop :=
  q (peer_of x) = bs ++ q' (peer_of x) /\ forall y, y <> peer_of x -> q' y = q y.

Inductive bundle_step (q : E -> list byte) : bundle_label E -> (E -> list byte) -> Prop :=
  | bundle_write x bs q' :
      q' x = q x ++ bs -> (forall y, y <> x -> q' y = q y) -> bundle_step q (BWrite x bs) q'
  | bundle_read x room bs q' :
      len bs <= room -> takes x bs q q' -> bundle_step q (BRead x room (Some bs)) q'
  | bundle_nothing x room q' :
      (forall y, q' y = q y) -> bundle_step q (BRead x room None) q'
  | bundle_spill x room bs q' :
      len bs = room -> room < UDX_MAX_DATA_SIZE -> takes x bs q q' -> bundle_step q (BRead x room None) q'.

Inductive bundle_exec : (E -> list byte) -> list (bundle_label E) -> (E -> list byte) -> Prop :=
  | bundle_done q q' : (forall x, q' x = q x) -> bundle_exec q [] q'
  | bundle_more q l q1 tr q' : bundle_step q l q1 -> bundle_exec q1 tr q' -> bundle_exec q (l :: tr) q'.

Lemma bundle_exec_ext q0 q tr q' : (forall x, q x = q0 x) -> bundle_exec q tr q' -> bundle_exec q0 tr q'.
Proof.
  intros Eq He. destruct He as [q q' Hq|q l q1 tr q' Hs He].
  - constructor. intros x. by rewrite Hq.
  - econstructor; [|exact He].
    destruct Hs as [x bs q1 H1 H2|x room bs q1 Hl [H1 H2]|x room q1 H1|x room bs q1 Hl Hr [H1 H2]].
    + constructor; [by rewrite <- Eq|]. intros y Hy. rewrite <- Eq. auto.
    + constructor; [done|]. split; [by rewrite <- Eq|]. intros y Hy. rewrite <- Eq. auto.
    + apply bundle_nothing. intros y. by rewrite H1.
    + eapply bundle_spill; [done|done|]. split; [by rewrite <- Eq|]. intros y Hy. rewrite <- Eq. auto.
Qed.

Lemma bundle_exec_app q tr1 q1 tr2 q' :
  bundle_exec q tr1 q1 -> bundle_exec q1 tr2 q' -> bundle_exec q (tr1 ++ tr2) q'.
Proof.
  induction 1 as [q q1 Hq|q l q2 tr q1 Hs _ IH]; intros He; [by eapply bundle_exec_ext|].
  econstructor; [exact Hs|by apply IH].
Qed.

(** A sound call of [poll_read] that took its bytes is a read of the bundle. *)
Definition read_label (x : E) (r : Reading) : bundle_label E :=
  BRead x (re_room r) (if re_ok r then Some (re_bytes r) else None).

Lemma sound_read_step x r q q' :
  sound_reading r -> takes x (re_bytes r) q q' -> bundle_step q (read_label x r) q'.
Proof.
  intros [Hle Hs] Ht. unfold read_label. destruct (re_ok r); [by apply bundle_read|].
  destruct (Hs eq_refl) as [E0|[Hl Hr]]; [apply bundle_nothing|by eapply bundle_spill].
  destruct Ht as [H1 H2]. rewrite E0 in H1. intros y. destruct (decide (y = peer_of x)) as [-> |]; [done|by apply H2].
Qed.

End bundle.

(** ** The simulation *)

Section refine.
Context `{P : Profile} {AI : AtomicInstant} {AIL : AtomicInstantLaws AI}.
Context `{KG : KernelGso} {KGL : KernelGsoLaws}.
Context {B : Type} {RB : ReadBuf B} {RBL : ReadBufLaws B}.
Context {H E : Type} {HD : EqDecision H} {ED : EqDecision E} (T : Topology H E) {TO : TopologyOk T}.
Implicit Types (n : Mesh (H := H) (E := E)) (x y : E) (sent : E -> list (list byte)).

(** What the applications see of a step. *)
Definition step_label (op : mesh_op (B := B) (H := H) (E := E)) n n' : list (bundle_label E) :=
  match op with
  | MStream x (MWrite _ _) => [BWrite x (drop (length (ms_written n x)) (ms_written n' x))]
  | MStream x (MRead _ _) => map (read_label x) (drop (length (ms_reads n x)) (ms_reads n' x))
  | _ => []
  end.

Inductive mesh_exec : Mesh -> list (bundle_label E) -> Mesh -> Prop :=
  | mesh_stop n : mesh_exec n [] n
  | mesh_go n op n1 tr n' : mesh_enabled T n op -> mesh_run T op n = Ret n1 -> mesh_exec n1 tr n' ->
      mesh_exec n (step_label op n n1 ++ tr) n'.

(** The bytes between a writer and its reader. *)
Definition in_flight n x : list byte := drop (length (ms_taken n (peer T x))) (ms_written n x).

(** Only writes accept bytes and only reads take bytes, one call at a time. *)
Definition op_effect (op : stream_op (B := B)) (wr : list byte * list Reading) : Prop :=
  match op with
  | MWrite _ _ => snd wr = []
  | MRead _ _ => fst wr = [] /\ (length (snd wr) <= 1)%nat
  | _ => wr = ([], [])
  end.

Lemma stream_silent op e wr e' : stream_run op e = Ret (wr, e') -> op_effect op wr.
Proof.
  intros Er. destruct op; cbn [stream_run] in Er; apply bind_ret_inv in Er as (a & e1 & _ & Er);
    injection Er as <- <-; cbn; auto.
Qed.

(** An operation leaves the bytes of all ends alone, but for those at its own
    end. *)
Lemma run_bytes op n n' :
  mesh_run (B := B) T op n = Ret n' ->
  match op with
  | MStream x op =>
      exists wr, (forall y, y <> x -> ms_written n' y = ms_written n y /\ ms_reads n' y = ms_reads n y) /\
        ms_written n' x = ms_written n x ++ fst wr /\ ms_reads n' x = ms_reads n x ++ snd wr /\ op_effect op wr
  | _ => forall y, ms_written n' y = ms_written n y /\ ms_reads n' y = ms_reads n y
  end.
Proof.
  destruct op as [x|x op|h op]; cbn [mesh_run]; intros Er.
  - destruct (socket_connect _ _ _ _) as [[[s c] k]| |]; try done. injection Er as <-. intros y. cbn.
    case_insert as Hy; [subst y; by rewrite !app_nil_r|done].
  - destruct (ms_conn n x) as [c|].
    2:{ injection Er as <-. exists ([], []). cbn. rewrite !app_nil_r. split_and!; try done.
        destruct op; cbn; auto. }
    destruct (stream_run op (view T n x c)) as [[wr e']| |] eqn:Es; try done. injection Er as <-.
    exists wr. cbn. rewrite !fn_lookup_insert. split_and!; try done; [|by eapply stream_silent].
    intros y Hy. by rewrite !fn_lookup_insert_ne.
  - destruct (host_run op _) as [[u k]| |]; try done. by injection Er as <-.
Qed.

(** A write at [x], and a read at [x]. *)
Lemma write_simulates n sent n' x bs :
  MeshInv T n sent -> (forall y, y <> x -> ms_written n' y = ms_written n y) -> (forall y, ms_reads n' y = ms_reads n y) ->
  ms_written n' x = ms_written n x ++ bs -> bundle_step (peer T) (in_flight n) (BWrite x bs) (in_flight n').
Proof.
  intros HM Hoth Hr Ew. unfold in_flight, ms_taken. constructor.
  - rewrite Hr, Ew. apply drop_app_le, prefix_length. by eapply mesh_taken_prefix.
  - intros y Hy. by rewrite Hr, (Hoth y Hy).
Qed.

Lemma read_simulates n sent n' sent' x r :
  MeshInv T n sent -> MeshInv T n' sent' -> (forall y, ms_written n' y = ms_written n y) ->
  (forall y, y <> x -> ms_reads n' y = ms_reads n y) -> ms_reads n' x = ms_reads n x ++ [r] ->
  bundle_step (peer T) (in_flight n) (read_label x r) (in_flight n').
Proof.
  intros HM HM' Hw Hoth Er. apply sound_read_step.
  { pose proof (mesh_reads_sound T n' sent' x HM') as Hs. rewrite Er in Hs. by apply Forall_app in Hs as [_ [? _]%Forall_cons_1]. }
  assert (ms_taken n' x = ms_taken n x ++ re_bytes r) as Et
    by (unfold ms_taken; rewrite Er, taken_app; unfold taken at 2; cbn; by rewrite app_nil_r).
  unfold in_flight. split.
  - rewrite peer_peer, Hw, Et. destruct (mesh_taken_prefix T n' sent' (peer T x) HM') as [rest Hr].
    rewrite peer_peer, Et, Hw in Hr. rewrite Hr, length_app, <- drop_drop, <- app_assoc. by rewrite !drop_app_length.
  - intros y Hy. rewrite Hw. unfold ms_taken. rewrite Hoth; [done|]. intros <-. by rewrite peer_peer in Hy.
Qed.

(** One step of the system is at most one step of the bundle. *)
Lemma mesh_step_simulates n sent op n' sent' :
  MeshInv T n sent -> MeshInv T n' sent' -> mesh_run (B := B) T op n = Ret n' ->
  bundle_exec (peer T) (in_flight n) (step_label op n n') (in_flight n').
Proof.
  intros HM HM' Hrun. pose proof (run_bytes op n n' Hrun) as Hb.
  assert ((forall y, ms_written n' y = ms_written n y /\ ms_reads n' y = ms_reads n y) ->
    bundle_exec (peer T) (in_flight n) [] (in_flight n')) as Hidle.
  { intros Hz. constructor. intros y. unfold in_flight, ms_taken.
    by destruct (Hz y) as [-> _], (Hz (peer T y)) as [_ ->]. }
  assert (forall l, bundle_step (peer T) (in_flight n) l (in_flight n') ->
    bundle_exec (peer T) (in_flight n) [l] (in_flight n')) as Hone by (intros l Hl; by econstructor; [|constructor]).
  destruct op as [x|x op|h op]; cbn [step_label]; [by apply Hidle| |by apply Hidle].
  destruct Hb as (wr & Hoth & Ew & Er & Hs).
  assert (snd wr = [] -> forall y, ms_reads n' y = ms_reads n y) as Hr0.
  { intros E0 y. destruct (decide (y = x)) as [-> |Hy]; [by rewrite Er, E0, app_nil_r|by apply Hoth]. }
  assert (fst wr = [] -> forall y, ms_written n' y = ms_written n y) as Hw0.
  { intros E0 y. destruct (decide (y = x)) as [-> |Hy]; [by rewrite Ew, E0, app_nil_r|by apply Hoth]. }
  destruct op; cbn [op_effect] in Hs; cbn [step_label];
    try (apply Hidle; intros y; rewrite Hs in Hr0, Hw0; split; [by apply Hw0|by apply Hr0]).
  - rewrite Ew, drop_app_length. eapply Hone, (write_simulates _ sent); [done|..|done]; [by apply Hoth|by apply Hr0].
  - destruct Hs as [Hw Hl]. rewrite Er, drop_app_length. destruct (snd wr) as [|r [|]]; cbn in Hl; try lia.
    + apply Hidle. intros y. split; [by apply Hw0|by apply Hr0].
    + eapply Hone, (read_simulates _ sent _ sent'); try done; [by apply Hw0|by apply Hoth].
Qed.

Lemma mesh_exec_refines n sent tr n' :
  MeshInv T n sent -> mesh_exec n tr n' -> bundle_exec (peer T) (in_flight n) tr (in_flight n').
Proof.
  intros HM He. revert sent HM. induction He as [n|n op n1 tr n' Hok Hrun _ IH]; intros sent HM; [by constructor|].
  destruct (mesh_step T n sent op HM Hok) as (n2 & sent' & E2 & HM' & _). rewrite Hrun in E2. injection E2 as <-.
  eapply bundle_exec_app; [by eapply (mesh_step_simulates n sent op n1 sent')|by eapply IH].
Qed.

Context (w : H -> World).
Hypothesis worlds_fresh : forall h, world_fresh (w h).

(** C3: refinement.  What the applications of all hosts observe, the bytes that
    writes accepted and that reads returned, of all streams in the order of the
    calls, is a behaviour of independent first-in first-out pipes, one for each
    direction of each connection, that start empty: the streams, the sockets
    they share and the network implement the bundle.  The pipes lose nothing
    but what a call of [poll_read] that returns nothing put into a buffer with
    room for less than [UDX_MAX_DATA_SIZE] bytes. *)
Theorem mesh_refines_bundle tr n :
  mesh_exec (mesh_start T w) tr n -> bundle_exec (peer T) (fun _ => []) tr (in_flight n).
Proof.
  intros He. eapply bundle_exec_ext; [|eapply mesh_exec_refines; [by apply mesh_start_inv|exact He]].
  done.
Qed.

End refine.

(** ** The two connections of [MeshSpec] *)

#[local] Existing Instance option_instant.
#[local] Existing Instance option_instant_laws.
#[local] Existing Instance net_profile.
#[local] Existing Instance udp_segment.
#[local] Existing Instance udp_segment_laws.
#[local] Existing Instance twin_ok.

Fixpoint twin_exec (ops : list twin_op) (n : twin_mesh) : option (list (bundle_label (bool * side)) * twin_mesh) :=
  match ops with
  | [] => Some ([], n)
  | op :: ops =>
      if enabled_b n op then
        match mesh_run twin op n with
        | Ret n1 =>
            match twin_exec ops n1 with
            | Some (tr, n') => Some (step_label op n n1 ++ tr, n')
            | None => None
            end
        | _ => None
        end
      else None
  end.

Lemma twin_exec_spec ops n tr n' :
  Forall sends_ok ops -> twin_exec ops n = Some (tr, n') -> mesh_exec (B := list byte * Z) twin n tr n'.
Proof.
  intros Hs. revert n tr. induction Hs as [|op ops Hop _ IH]; intros n tr Et; cbn in Et; [injection Et as <- <-; constructor|].
  destruct (enabled_b n op) eqn:Eok; [|done]. destruct (mesh_run twin op n) as [n1| |] eqn:E1; try done.
  destruct (twin_exec ops n1) as [[tr1 n2]|] eqn:E2; [|done]. injection Et as <- <-.
  apply (mesh_go twin n op n1); [by apply enabled_b_spec|done|by apply IH].
Qed.

Lemma twin_exec_run ops n : option_map snd (twin_exec ops n) = twin_run ops n.
Proof.
  revert n. induction ops as [|op ops IH]; intros n; [done|]. cbn [twin_exec twin_run].
  destruct (enabled_b n op); [|done]. destruct (mesh_run twin op n) as [n1| |]; try done. rewrite <- IH.
  by destruct (twin_exec ops n1) as [[tr n']|].
Qed.

Lemma twin_net_exec ops tr :
  Forall sends_ok ops -> option_map fst (twin_exec ops (mesh_start twin two_worlds)) = Some tr ->
  mesh_exec (B := list byte * Z) twin (mesh_start twin two_worlds) tr (twin_net ops).
Proof.
  intros Hs Ht. apply (twin_exec_spec ops); [done|]. unfold twin_net.
  pose proof (twin_exec_run ops (mesh_start twin two_worlds)) as <-.
  destruct (twin_exec ops _) as [[tr' n']|]; [|done]. cbn in *. congruence.
Qed.

(** Two writes and a read, and three bytes are still on their way. *)
Definition twin_trace : list (bundle_label (bool * side)) :=
  [BWrite (true, true) word; BWrite (false, true) bye; BRead (true, false) 1500 (Some word)].

Lemma mesh_refines_bundle_witness :
  exists n, bundle_exec (peer twin) (fun _ => []) twin_trace (in_flight twin n) /\
    in_flight twin n (true, true) = [] /\ in_flight twin n (false, true) = bye.
Proof.
  exists (twin_net twin_ops). split; [|split; vm_compute; reflexivity].
  apply (mesh_refines_bundle (B := list byte * Z) twin two_worlds two_worlds_fresh twin_trace).
  apply (twin_net_exec twin_ops); [exact twin_sends|vm_compute; reflexivity].
Defined.
