(* ===== verification/Cmsg.v ===== *)
(** Control messages: [udx-udp/src/cmsg.rs].

    A [msghdr] carries a control buffer, a sequence of control messages, each a
    [cmsghdr], padding, the payload, padding.  Pointers into the buffer are
    offsets, and the buffer is a list of bytes; an access outside of it, which
    is undefined behaviour in the source, is [Panic OutOfBounds] here, so a
    theorem that an operation returns also says that it stays in bounds.  The
    [CMSG_*] macros and the layout of [cmsghdr] are those of the platform: a
    class with the laws of the manual page, and an instance for 64-bit Linux. *)

From S2P Require Import Prelude.

Local Open Scope Z_scope.

(** ** Plain data *)

(** A [Copy] type: size, alignment and representation in memory. *)
Record pod (A : Type) := mk_pod {
  size_of : Z;
  align_of : Z;
  to_bytes : A -> list byte;
  of_bytes : list byte -> A;
}.
Arguments mk_pod {A} _ _ _ _.
Arguments size_of {A} _.
Arguments align_of {A} _.
Arguments to_bytes {A} _ _.
Arguments of_bytes {A} _ _.

(** Every value fills its size. *)
Definition pod_sized {A} (p : pod A) : Prop := 0 <= size_of p /\ forall x, len (to_bytes p x) = size_of p.

(** Integers in the native order of the (little-endian) targets. *)
Fixpoint le_bytes (n : nat) (z : Z) : list byte :=
  match n with
  | O => []
  | Datatypes.S n => byte_of_Z z :: le_bytes n (Z.shiftr z 8)
  end.

Fixpoint of_le_bytes (l : list byte) : Z :=
  match l with
  | [] => 0
  | b :: l => Z_of_byte b + 256 * of_le_bytes l
  end.

(** Two's complement. *)
Definition to_signed (n : nat) (z : Z) : Z :=
  if z <? 2 ^ (8 * Z.of_nat n - 1) then z else z - 2 ^ (8 * Z.of_nat n).

Definition pod_u8 : pod Z := mk_pod 1 1 (le_bytes 1) of_le_bytes.
Definition pod_u16 : pod Z := mk_pod 2 2 (le_bytes 2) of_le_bytes.
Definition pod_c_int : pod Z := mk_pod 4 4 (le_bytes 4) (fun l => to_signed 4 (of_le_bytes l)).

(** A byte array. *)
Definition pod_bytes (n : Z) : pod (list byte) :=
  mk_pod n 1 (fun l => take (Z.to_nat n) (l ++ replicate (Z.to_nat n) Byte.x00)) (fun l => l).

(** ** The platform *)

Record cmsghdr := mk_cmsghdr {
  cmsg_len : Z;
  cmsg_level : Z;
  cmsg_type : Z;
}.

(** [struct msghdr].  What a pointer field points to stands for the pointer. *)
Record msghdr := mk_msghdr {
  msg_name : list byte;
  msg_namelen : Z;
  msg_iov : list (list byte);
  msg_iovlen : Z;
  msg_control : list byte;
  msg_controllen : Z;
  msg_flags : Z;
}.

#[export] Instance msghdr_eta : Eta msghdr := fun h =>
  mk_msghdr (msg_name h) (msg_namelen h) (msg_iov h) (msg_iovlen h) (msg_control h) (msg_controllen h)
    (msg_flags h).

(** The part of [mem] between [off] and [off + n]. *)
Definition sub (mem : list byte) (off n : Z) : list byte := take (Z.to_nat n) (drop (Z.to_nat off) mem).

(** The macros of [<sys/socket.h>]; [CMSG_FIRSTHDR] and [CMSG_NXTHDR] take the
    control buffer and [msg_controllen]. *)
Class CmsgAbi := {
  cmsghdr_size : Z;
  cmsghdr_align : Z;
  cmsghdr_bytes : cmsghdr -> list byte;
  cmsghdr_of : list byte -> cmsghdr;
  CMSG_SPACE : Z -> Z;
  CMSG_LEN : Z -> Z;
  CMSG_DATA : Z -> Z;
  CMSG_FIRSTHDR : list byte -> Z -> option Z;
  CMSG_NXTHDR : list byte -> Z -> Z -> option Z;
}.

Definition c_int_range (z : Z) : Prop := - 2 ^ 31 <= z < 2 ^ 31.

(** The header at an offset of the buffer. *)
Definition hdr_at `{CmsgAbi} (mem : list byte) (off : Z) : cmsghdr := cmsghdr_of (sub mem off cmsghdr_size).

(** What cmsg(3) promises.  [CMSG_NXTHDR] may look at the length stored in the
    next header and expects it to be zero or to fit the buffer. *)
Class CmsgLaws `{CmsgAbi} := {
  hdr_size_pos : 0 < cmsghdr_size;
  hdr_bytes_size h : len (cmsghdr_bytes h) = cmsghdr_size;
  hdr_roundtrip h :
    0 <= cmsg_len h < 2 ^ 31 -> c_int_range (cmsg_level h) -> c_int_range (cmsg_type h) ->
    cmsghdr_of (cmsghdr_bytes h) = h;
  hdr_zeroed : cmsg_len (cmsghdr_of (replicate (Z.to_nat cmsghdr_size) Byte.x00)) = 0;
  LEN_hdr : cmsghdr_size <= CMSG_LEN 0;
  LEN_add n : 0 <= n -> CMSG_LEN n = CMSG_LEN 0 + n;
  LEN_SPACE n : 0 <= n -> CMSG_LEN n <= CMSG_SPACE n;
  DATA_LEN off : CMSG_DATA off = off + CMSG_LEN 0;
  FIRSTHDR_law mem l : CMSG_FIRSTHDR mem l = if cmsghdr_size <=? l then Some 0 else None;
  NXTHDR_end mem l off n :
    0 <= off -> 0 <= n -> cmsg_len (hdr_at mem off) = CMSG_LEN n ->
    l < off + CMSG_SPACE n + cmsghdr_size -> CMSG_NXTHDR mem l off = None;
  NXTHDR_next mem l off n :
    0 <= off -> 0 <= n -> cmsg_len (hdr_at mem off) = CMSG_LEN n ->
    off + CMSG_SPACE n + cmsghdr_size <= l <= len mem ->
    (cmsg_len (hdr_at mem (off + CMSG_SPACE n)) = 0 \/
     exists k, 0 <= k /\ cmsg_len (hdr_at mem (off + CMSG_SPACE n)) = CMSG_LEN k /\
       off + CMSG_SPACE n + CMSG_SPACE k <= l) ->
    CMSG_NXTHDR mem l off = Some (off + CMSG_SPACE n);
}.

(** ** [cmsg.rs] *)

(** [assert!]. *)
Definition assert {S} (b : bool) : Act S unit := lift (if b then Ret tt else Panic AssertionFailed).

(** [debug_assert!]: compiled in the profiles that check overflow. *)
Definition debug_assert {S} `{Profile} (b : bool) : Act S unit :=
  if overflow_checks then assert b else mret tt.

(** [Aligned<T>] has alignment 8. *)
Definition Aligned_align : Z := 8.

Section cmsg.
Context `{Profile} `{CmsgAbi}.

Record Encoder := mk_Encoder {
  enc_hdr : msghdr;
  enc_cmsg : option Z;
  enc_len : Z;
}.

#[export] Instance Encoder_eta : Eta Encoder := fun e => mk_Encoder (enc_hdr e) (enc_cmsg e) (enc_len e).

Definition Encoder_new (hdr : msghdr) : Encoder :=
  mk_Encoder hdr (CMSG_FIRSTHDR (msg_control hdr) (msg_controllen hdr)) 0.

(** A store through a raw pointer into the control buffer. *)
Definition write_control (off : Z) (bytes : list byte) : Act Encoder unit :=
  h ← gets enc_hdr;
  mem ← lift (copy_from_slice (msg_control h) off (off + len bytes) bytes);
  modify (fun e => e <| enc_hdr := h <| msg_control := mem |> |>).

Definition push {A} (T : pod A) (level ty : Z) (value : A) : Act Encoder unit :=
  _ ← assert (align_of T <=? cmsghdr_align);
  let space := CMSG_SPACE (size_of T) in
  h ← gets enc_hdr;
  l ← gets enc_len;
  needed ← lift (usize_add l space);
  _ ← assert (needed <=? msg_controllen h);
  taken ← gets enc_cmsg;
  _ ← modify (fun e => e <| enc_cmsg := None |>);
  cmsg ← lift (unwrap taken);
  _ ← write_control cmsg (cmsghdr_bytes (mk_cmsghdr (CMSG_LEN (size_of T)) level ty));
  _ ← write_control (CMSG_DATA cmsg) (to_bytes T value);
  l' ← lift (usize_add l space);
  _ ← modify (fun e => e <| enc_len := l' |>);
  h ← gets enc_hdr;
  modify (fun e => e <| enc_cmsg := CMSG_NXTHDR (msg_control h) (msg_controllen h) cmsg |>).

(** [Drop]: the header is given the length that was written. *)
Definition Encoder_drop (e : Encoder) : msghdr := (enc_hdr e) <| msg_controllen := enc_len e |>.

Definition finish (e : Encoder) : msghdr := Encoder_drop e.

(** A load through a raw pointer into the control buffer. *)
Definition read_control (hdr : msghdr) (off n : Z) : outcome (list byte) :=
  slice (msg_control hdr) off (off + n).

Definition read_cmsghdr (hdr : msghdr) (cmsg : Z) : outcome cmsghdr :=
  l ← read_control hdr cmsg cmsghdr_size; Ret (cmsghdr_of l).

Definition decode {A S} (T : pod A) (hdr : msghdr) (cmsg : Z) : Act S A :=
  _ ← assert (align_of T <=? cmsghdr_align);
  c ← lift (read_cmsghdr hdr cmsg);
  _ ← debug_assert (cmsg_len c =? CMSG_LEN (size_of T));
  l ← lift (read_control hdr (CMSG_DATA cmsg) (size_of T));
  mret (of_bytes T l).

Record Iter := mk_Iter {
  it_hdr : msghdr;
  it_cmsg : option Z;
}.

Definition Iter_new (hdr : msghdr) : Iter :=
  mk_Iter hdr (CMSG_FIRSTHDR (msg_control hdr) (msg_controllen hdr)).

Definition Iter_next (it : Iter) : option Z * Iter :=
  match it_cmsg it with
  | None => (None, it)
  | Some current =>
      (Some current,
       mk_Iter (it_hdr it) (CMSG_NXTHDR (msg_control (it_hdr it)) (msg_controllen (it_hdr it)) current))
  end.

(** [for cmsg in iter { body }], at most [n] messages. *)
Fixpoint for_iter {S} (n : nat) (it : Iter) (body : Z -> Act S unit) : Act S unit :=
  match Iter_next it with
  | (None, _) => mret tt
  | (Some c, it) =>
      match n with
      | O => out_of_fuel
      | Datatypes.S n => _ ← body c; for_iter n it body
      end
  end.

End cmsg.
