(* ===== verification/CmsgSpec.v ===== *)
(** Properties of the control-message encoder and iterator ([Cmsg.v]): what is
    pushed is what an iteration finds, in order, and every access stays inside
    of the buffer. *)

From S2P Require Import Prelude Cmsg.

Local Open Scope Z_scope.

(** ** Native integers *)

Lemma len_le_bytes n z : len (le_bytes n z) = Z.of_nat n.
Proof. revert z. induction n as [|n IH]; intros z; [done|]. cbn [le_bytes]. rewrite len_cons, IH. lia. Qed.

Lemma of_le_bytes_le_bytes n z : of_le_bytes (le_bytes n z) = z mod 2 ^ (8 * Z.of_nat n).
Proof.
  revert z. induction n as [|n IH]; intros z; [by rewrite Z.mod_1_r|].
  cbn [le_bytes of_le_bytes]. rewrite IH, Z_of_byte_of_Z, Z.shiftr_div_pow2 by lia.
  replace (8 * Z.of_nat (Datatypes.S n)) with (8 + 8 * Z.of_nat n) by lia.
  rewrite Z.pow_add_r by lia. change (2 ^ 8) with 256.
  rewrite Z.rem_mul_r; [done|lia|]. apply Z.pow_pos_nonneg; lia.
Qed.

Lemma pod_u16_roundtrip z : of_bytes pod_u16 (to_bytes pod_u16 z) = z mod 2 ^ 16.
Proof. apply of_le_bytes_le_bytes. Qed.

Lemma pod_u8_roundtrip z : of_bytes pod_u8 (to_bytes pod_u8 z) = z mod 2 ^ 8.
Proof. apply of_le_bytes_le_bytes. Qed.

Lemma pod_c_int_roundtrip z : c_int_range z -> of_bytes pod_c_int (to_bytes pod_c_int z) = z.
Proof.
  unfold c_int_range. intros Hz. cbn [of_bytes to_bytes pod_c_int]. rewrite of_le_bytes_le_bytes.
  unfold to_signed. change (8 * Z.of_nat 4 - 1) with 31. change (8 * Z.of_nat 4) with 32.
  destruct (Z.ltb_spec (z mod 2 ^ 32) (2 ^ 31)); Z.div_mod_to_equations; lia.
Qed.

Lemma pod_u8_sized : pod_sized pod_u8.
Proof. split; [done|]. intros x. apply len_le_bytes. Qed.
Lemma pod_u16_sized : pod_sized pod_u16.
Proof. split; [done|]. intros x. apply len_le_bytes. Qed.
Lemma pod_c_int_sized : pod_sized pod_c_int.
Proof. split; [done|]. intros x. apply len_le_bytes. Qed.
#[export] Hint Resolve pod_u8_sized pod_u16_sized pod_c_int_sized : udx.

Lemma pod_bytes_sized n : 0 <= n -> pod_sized (pod_bytes n).
Proof.
  intros Hn. split; [done|]. intros x. cbn. rewrite len_take, len_app, len_replicate by done.
  pose proof (len_nonneg x). lia.
Qed.

Lemma pod_bytes_exact l : to_bytes (pod_bytes (len l)) l = l.
Proof. cbn. unfold len. by rewrite Nat2Z.id, take_app_length. Qed.

(** ** Parts of a buffer *)

Lemma lookup_sub mem off n (i : nat) :
  Z.of_nat i < n -> sub mem off n !! i = mem !! (Z.to_nat off + i)%nat.
Proof. intros Hi. unfold sub. by rewrite lookup_take_lt, lookup_drop by lia. Qed.

Lemma sub_ext mem mem' off n :
  len mem = len mem' -> 0 <= off ->
  (forall i, off <= i < off + n -> mem !! Z.to_nat i = mem' !! Z.to_nat i) ->
  sub mem off n = sub mem' off n.
Proof.
  intros Hl Ho Hi. apply list_eq. intros i.
  destruct (decide (Z.of_nat i < n)) as [Hn|Hn].
  - rewrite !lookup_sub by done. specialize (Hi (off + Z.of_nat i) ltac:(lia)).
    by replace (Z.to_nat (off + Z.of_nat i)) with (Z.to_nat off + i)%nat in Hi by lia.
  - unfold sub. rewrite !lookup_take_ge by lia. done.
Qed.

Lemma len_sub mem off n : 0 <= off -> 0 <= n -> off + n <= len mem -> len (sub mem off n) = n.
Proof. intros. unfold sub. rewrite len_take, len_drop by done. lia. Qed.

Lemma sub_replicate mem off n :
  0 <= off -> 0 <= n -> off + n <= len mem ->
  (forall i, off <= i < off + n -> mem !! Z.to_nat i = Some Byte.x00) ->
  sub mem off n = replicate (Z.to_nat n) Byte.x00.
Proof.
  intros Ho Hn Hl Hz. apply list_eq. intros i. destruct (decide (Z.of_nat i < n)).
  - rewrite lookup_sub, lookup_replicate_2 by lia.
    specialize (Hz (off + Z.of_nat i) ltac:(lia)).
    by replace (Z.to_nat (off + Z.of_nat i)) with (Z.to_nat off + i)%nat in Hz by lia.
  - rewrite !lookup_ge_None_2; [done|rewrite length_replicate; lia|].
    unfold sub. rewrite length_take. lia.
Qed.

(** A store replaces its range and nothing else. *)
Record stored (mem : list byte) (off : Z) (bytes mem' : list byte) : Prop := {
  st_len : len mem' = len mem;
  st_in : sub mem' off (len bytes) = bytes;
  st_out : forall i, 0 <= i -> i < off \/ off + len bytes <= i -> mem' !! Z.to_nat i = mem !! Z.to_nat i;
}.

Lemma copy_from_slice_stored mem off bytes :
  0 <= off -> off + len bytes <= len mem ->
  exists mem', copy_from_slice mem off (off + len bytes) bytes = Ret mem' /\ stored mem off bytes mem'.
Proof.
  intros Ho Hl. pose proof (len_nonneg bytes). eexists. split; [apply copy_from_slice_fits; lia|].
  assert (length (take (Z.to_nat off) mem) = Z.to_nat off) as Et by (rewrite length_take; unfold len in *; lia).
  split.
  - rewrite !len_app, len_take, len_drop by lia. lia.
  - unfold sub. rewrite drop_app_length' by done. unfold len. by rewrite Nat2Z.id, take_app_length.
  - intros i Hi [Hlt|Hge].
    + rewrite lookup_app_l by lia. apply lookup_take_lt. lia.
    + rewrite lookup_app_r by lia. rewrite Et. rewrite lookup_app_r by (unfold len in *; lia).
      rewrite lookup_drop. f_equal. unfold len in *. lia.
Qed.

Lemma stored_sub_other mem off bytes mem' a n :
  stored mem off bytes mem' -> 0 <= a -> a + n <= off \/ off + len bytes <= a ->
  sub mem' a n = sub mem a n.
Proof.
  intros Hs Ha Hd. apply sub_ext; [apply Hs|done|]. intros i Hi. apply (st_out _ _ _ _ Hs); lia.
Qed.

Section cmsg.
Context `{P : Profile} `{CA : CmsgAbi} `{CL : !CmsgLaws}.

(** ** Messages in a buffer *)

Record message := mk_message {
  cm_level : Z;
  cm_type : Z;
  cm_data : list byte;
}.

Definition message_ok (m : message) : Prop := c_int_range (cm_level m) /\ c_int_range (cm_type m).

(** The buffer has the message at the offset. *)
Definition message_at (mem : list byte) (off : Z) (m : message) : Prop :=
  hdr_at mem off = mk_cmsghdr (CMSG_LEN (len (cm_data m))) (cm_level m) (cm_type m) /\
  sub mem (CMSG_DATA off) (len (cm_data m)) = cm_data m.

Fixpoint messages_at (mem : list byte) (off : Z) (ms : list message) : Prop :=
  match ms with
  | [] => True
  | m :: ms => message_at mem off m /\ messages_at mem (off + CMSG_SPACE (len (cm_data m))) ms
  end.

(** The bytes a sequence of messages takes. *)
Fixpoint space (ms : list message) : Z :=
  match ms with
  | [] => 0
  | m :: ms => CMSG_SPACE (len (cm_data m)) + space ms
  end.

(** A message header with its control buffer filled with [ms]. *)
Definition carries (hdr : msghdr) (ms : list message) : Prop :=
  messages_at (msg_control hdr) 0 ms /\ msg_controllen hdr = space ms /\
  msg_controllen hdr <= len (msg_control hdr).

Lemma SPACE_hdr n : 0 <= n -> cmsghdr_size + n <= CMSG_SPACE n.
Proof. intros Hn. pose proof LEN_hdr. pose proof (LEN_add n Hn). pose proof (LEN_SPACE n Hn). lia. Qed.

Lemma space_nonneg ms : 0 <= space ms.
Proof.
  induction ms as [|m ms IH]; cbn [space]; [lia|]. pose proof (len_nonneg (cm_data m)) as Hn.
  pose proof (SPACE_hdr _ Hn). pose proof hdr_size_pos. lia.
Qed.

Lemma space_app ms ms' : space (ms ++ ms') = space ms + space ms'.
Proof. induction ms as [|m ms IH]; cbn [space app]; [lia|]. rewrite IH. lia. Qed.

Lemma messages_at_app mem off ms ms' :
  messages_at mem off (ms ++ ms') <-> messages_at mem off ms /\ messages_at mem (off + space ms) ms'.
Proof.
  revert off. induction ms as [|m ms IH]; intros off; cbn [messages_at space app].
  - rewrite Z.add_0_r. tauto.
  - rewrite IH, Z.add_assoc. tauto.
Qed.

(** Messages depend on their part of the buffer only. *)
Lemma message_at_ext mem mem' off m :
  0 <= off ->
  (forall a n, off <= a -> a + n <= off + CMSG_SPACE (len (cm_data m)) -> sub mem' a n = sub mem a n) ->
  message_at mem off m -> message_at mem' off m.
Proof.
  intros Ho Hs [Hh Hd]. pose proof (len_nonneg (cm_data m)) as Hn. pose proof (SPACE_hdr _ Hn).
  pose proof (LEN_SPACE _ Hn). pose proof (LEN_add _ Hn). pose proof LEN_hdr. pose proof hdr_size_pos.
  unfold message_at, hdr_at in *. rewrite (DATA_LEN off) in *. rewrite !Hs by lia. done.
Qed.

Lemma messages_at_ext mem mem' off ms :
  0 <= off -> (forall a n, off <= a -> a + n <= off + space ms -> sub mem' a n = sub mem a n) ->
  messages_at mem off ms -> messages_at mem' off ms.
Proof.
  revert off. induction ms as [|m ms IH]; intros off Ho Hs; [done|]. cbn [messages_at space] in *.
  pose proof (space_nonneg ms). pose proof (SPACE_hdr _ (len_nonneg (cm_data m))).
  pose proof (len_nonneg (cm_data m)). pose proof hdr_size_pos.
  intros [Hm Hr]. split.
  - eapply message_at_ext; [done| |done]. intros a n Ha Hb. apply Hs; lia.
  - apply IH; [lia| |done]. intros a n Ha Hb. apply Hs; lia.
Qed.

(** ** Encoding *)

(** The encoder has written [ms] so far. *)
Record encoded (ms : list message) (e : Encoder) : Prop := {
  en_messages : messages_at (msg_control (enc_hdr e)) 0 ms;
  en_len : enc_len e = space ms;
  en_fits : enc_len e <= msg_controllen (enc_hdr e);
  en_buffer : msg_controllen (enc_hdr e) <= len (msg_control (enc_hdr e)) < 2 ^ 31;
}.

(** Nothing but zeros after the messages, and the next header is in place when
    there is room for one. *)
Record fresh_tail (e : Encoder) : Prop := {
  ft_zero : forall i, enc_len e <= i < msg_controllen (enc_hdr e) ->
    msg_control (enc_hdr e) !! Z.to_nat i = Some Byte.x00;
  ft_cmsg : enc_cmsg e =
    if enc_len e + cmsghdr_size <=? msg_controllen (enc_hdr e) then Some (enc_len e) else None;
}.

(** The same header, but for the contents of the control buffer. *)
Definition same_hdr (h h' : msghdr) : Prop :=
  h' = h <| msg_control := msg_control h' |> /\ len (msg_control h') = len (msg_control h).

Lemma same_hdr_refl h : same_hdr h h.
Proof. by destruct h. Qed.

Lemma same_hdr_trans h1 h2 h3 : same_hdr h1 h2 -> same_hdr h2 h3 -> same_hdr h1 h3.
Proof. destruct h1, h2, h3. unfold same_hdr. cbn. intros [[=] ?] [[=] ?]. split; congruence. Qed.

Lemma same_hdr_controllen h h' : same_hdr h h' -> msg_controllen h' = msg_controllen h.
Proof. by intros [-> _]. Qed.

Lemma write_control_wp off bytes e :
  0 <= off -> off + len bytes <= len (msg_control (enc_hdr e)) ->
  wp (write_control off bytes) (fun _ e' =>
    e' = e <| enc_hdr := (enc_hdr e) <| msg_control := msg_control (enc_hdr e') |> |> /\
    stored (msg_control (enc_hdr e)) off bytes (msg_control (enc_hdr e'))) e.
Proof.
  intros Ho Hl. destruct (copy_from_slice_stored _ _ _ Ho Hl) as (mem' & E & Hs).
  unfold write_control. wp_run. eapply wp_lift; [exact E|]. wp_run. by destruct e as [[] ? ?].
Qed.

(** The message [m] was put into the buffer, the rest of it is as it was. *)
Record placed (mem : list byte) (off : Z) (m : message) (mem' : list byte) : Prop := {
  pl_len : len mem' = len mem;
  pl_at : message_at mem' off m;
  pl_out : forall i, 0 <= i -> i < off \/ off + CMSG_SPACE (len (cm_data m)) <= i ->
    mem' !! Z.to_nat i = mem !! Z.to_nat i;
}.

Lemma stored_placed mem mem1 mem2 off level ty data :
  0 <= off -> off + CMSG_SPACE (len data) <= len mem < 2 ^ 31 -> c_int_range level -> c_int_range ty ->
  stored mem off (cmsghdr_bytes (mk_cmsghdr (CMSG_LEN (len data)) level ty)) mem1 ->
  stored mem1 (CMSG_DATA off) data mem2 ->
  placed mem off (mk_message level ty data) mem2.
Proof.
  intros Ho Hl Hlv Hty S1 S2. pose proof (len_nonneg data) as Hn. pose proof (SPACE_hdr _ Hn).
  pose proof (LEN_SPACE _ Hn). pose proof (LEN_add _ Hn). pose proof LEN_hdr. pose proof hdr_size_pos.
  pose proof (DATA_LEN off) as Ed. pose proof (st_in _ _ _ _ S1) as E1. rewrite hdr_bytes_size in E1.
  split; [|split|].
  - by rewrite (st_len _ _ _ _ S2), (st_len _ _ _ _ S1).
  - unfold hdr_at. rewrite (stored_sub_other _ _ _ _ _ _ S2) by lia. rewrite E1.
    apply hdr_roundtrip; cbn; [lia|done|done].
  - apply S2.
  - intros i Hi Hd. cbn in Hd. rewrite (st_out _ _ _ _ S2), (st_out _ _ _ _ S1); rewrite ?hdr_bytes_size; lia || done.
Qed.

Lemma placed_sub mem off m mem' a n :
  placed mem off m mem' -> 0 <= a -> a + n <= off \/ off + CMSG_SPACE (len (cm_data m)) <= a ->
  sub mem' a n = sub mem a n.
Proof.
  intros HP Ha Hd. apply sub_ext; [apply HP|done|]. intros i Hi. apply (pl_out _ _ _ _ HP); lia.
Qed.

(** The encoder after a message with [n] bytes of payload. *)
Definition pushed (e : Encoder) (mem : list byte) (n : Z) : Encoder :=
  mk_Encoder ((enc_hdr e) <| msg_control := mem |>)
    (CMSG_NXTHDR mem (msg_controllen (enc_hdr e)) (enc_len e)) (enc_len e + CMSG_SPACE n).

Lemma pushed_encoded ms e m mem :
  encoded ms e -> enc_len e + CMSG_SPACE (len (cm_data m)) <= msg_controllen (enc_hdr e) ->
  placed (msg_control (enc_hdr e)) (enc_len e) m mem -> encoded (ms ++ [m]) (pushed e mem (len (cm_data m))).
Proof.
  intros [Hms Hlen Hfits Hbuf] Hfit HP. pose proof (space_nonneg ms). split; cbn.
  - apply messages_at_app. split.
    + eapply messages_at_ext; [done| |exact Hms]. intros a n Ha Hb.
      apply (placed_sub _ _ _ _ _ _ HP); lia.
    + rewrite Z.add_0_l, <- Hlen. split; [apply HP|done].
  - rewrite space_app. cbn. lia.
  - done.
  - by rewrite (pl_len _ _ _ _ HP).
Qed.

Lemma pushed_fresh_tail ms e m mem :
  encoded ms e -> enc_len e + CMSG_SPACE (len (cm_data m)) <= msg_controllen (enc_hdr e) ->
  placed (msg_control (enc_hdr e)) (enc_len e) m mem -> fresh_tail e ->
  fresh_tail (pushed e mem (len (cm_data m))).
Proof.
  intros [Hms Hlen Hfits Hbuf] Hfit HP [Hz _]. pose proof (space_nonneg ms). pose proof hdr_size_pos.
  pose proof (len_nonneg (cm_data m)) as Hn. pose proof (SPACE_hdr _ Hn).
  set (k := enc_len e + CMSG_SPACE (len (cm_data m))) in *.
  assert (forall i, k <= i < msg_controllen (enc_hdr e) -> mem !! Z.to_nat i = Some Byte.x00) as Hz'.
  { intros i Hi. rewrite (pl_out _ _ _ _ HP) by lia. apply Hz. lia. }
  destruct (pl_at _ _ _ _ HP) as [Hh _]. split; cbn; fold k; [done|].
  destruct (Z.leb_spec (k + cmsghdr_size) (msg_controllen (enc_hdr e))) as [Hroom|Hfull].
  - apply NXTHDR_next; rewrite ?Hh, ?(pl_len _ _ _ _ HP); try done; try lia.
    left. unfold hdr_at. rewrite sub_replicate; [apply hdr_zeroed|lia|lia| |].
    + rewrite (pl_len _ _ _ _ HP). lia.
    + intros i Hi. apply Hz'. lia.
  - eapply NXTHDR_end; rewrite ?Hh; done || lia.
Qed.

Lemma push_wp {A} (T : pod A) level ty (value : A) ms e :
  let m := mk_message level ty (to_bytes T value) in
  encoded ms e -> enc_cmsg e = Some (enc_len e) -> pod_sized T -> align_of T <= cmsghdr_align ->
  message_ok m -> enc_len e + CMSG_SPACE (size_of T) <= msg_controllen (enc_hdr e) ->
  wp (push T level ty value) (fun _ e' =>
    encoded (ms ++ [m]) e' /\ same_hdr (enc_hdr e) (enc_hdr e') /\
    enc_len e' = enc_len e + CMSG_SPACE (size_of T) /\
    (fresh_tail e -> fresh_tail e')) e.
Proof.
  intros m HE Hc [Hsz Hb] Hal [Hlv Hty] Hfit. specialize (Hb value).
  pose proof (en_len _ _ HE) as Hlen. pose proof (space_nonneg ms) as Hsp.
  pose proof (en_buffer _ _ HE) as Hbuf. pose proof (SPACE_hdr _ Hsz). pose proof (LEN_SPACE _ Hsz).
  pose proof (LEN_add _ Hsz). pose proof LEN_hdr. pose proof hdr_size_pos.
  pose proof (DATA_LEN (enc_len e)) as Ed.
  assert (usize_add (enc_len e) (CMSG_SPACE (size_of T)) = Ret (enc_len e + CMSG_SPACE (size_of T))) as Eadd
    by (apply usize_add_fits; unfold usize_modulus; lia).
  unfold push, assert. wp_run. rewrite (proj2 (Z.leb_le _ _) Hal). eapply wp_lift; [done|]. wp_run.
  eapply wp_lift; [exact Eadd|]. wp_run. rewrite (proj2 (Z.leb_le _ _) Hfit). eapply wp_lift; [done|].
  wp_run. rewrite Hc. eapply wp_lift; [done|]. wp_run.
  eapply wp_mono; [apply write_control_wp; [lia|]; rewrite hdr_bytes_size; cbn; lia|].
  intros [] e1 [-> S1]. cbn in S1 |- *. wp_run. eapply wp_mono; [apply write_control_wp; cbn|].
  { lia. }
  { rewrite Hb, (st_len _ _ _ _ S1). lia. }
  intros [] e2 [-> S2]. cbn in S2 |- *. wp_run. eapply wp_lift; [exact Eadd|]. wp_run. cbn.
  assert (placed (msg_control (enc_hdr e)) (enc_len e) m (msg_control (enc_hdr e2))) as HP
    by (eapply stored_placed; rewrite ?Hb; cbn in *; done || lia).
  replace (size_of T) with (len (cm_data m)) in * by done.
  split_and!; [by apply (pushed_encoded ms e m)|split; [done|apply HP]|done|by apply (pushed_fresh_tail ms e m)].
Qed.

(** Without room the assertion fails before anything is written. *)
Lemma push_overflow {A} (T : pod A) level ty (value : A) ms e :
  encoded ms e -> pod_sized T -> align_of T <= cmsghdr_align -> CMSG_SPACE (size_of T) < 2 ^ 63 ->
  msg_controllen (enc_hdr e) < enc_len e + CMSG_SPACE (size_of T) ->
  push T level ty value e = Panic AssertionFailed.
Proof.
  intros HE [Hsz _] Hal Hbig Hfull. pose proof (space_nonneg ms). pose proof (en_len _ _ HE).
  pose proof (en_fits _ _ HE). pose proof (en_buffer _ _ HE). pose proof (SPACE_hdr _ Hsz).
  pose proof hdr_size_pos. unfold push, assert, mbind, act_bind, lift, gets.
  rewrite (proj2 (Z.leb_le _ _) Hal), usize_add_fits by (unfold usize_modulus; lia).
  by rewrite (proj2 (Z.leb_gt _ _) Hfull).
Qed.

(** ** A new encoder *)

Definition zeroed (mem : list byte) : Prop := forall i, (i < length mem)%nat -> mem !! i = Some Byte.x00.

Lemma zeroed_replicate n : zeroed (replicate n Byte.x00).
Proof. intros i Hi. apply lookup_replicate_2. by rewrite length_replicate in Hi. Qed.

Lemma Encoder_new_encoded hdr :
  0 <= msg_controllen hdr <= len (msg_control hdr) -> len (msg_control hdr) < 2 ^ 31 ->
  encoded [] (Encoder_new hdr).
Proof. intros Hl Hb. split; cbn; done || lia. Qed.

Lemma Encoder_new_cmsg hdr :
  enc_cmsg (Encoder_new hdr) = if cmsghdr_size <=? msg_controllen hdr then Some 0 else None.
Proof. apply FIRSTHDR_law. Qed.

Lemma Encoder_new_fresh hdr :
  msg_controllen hdr <= len (msg_control hdr) -> zeroed (msg_control hdr) -> fresh_tail (Encoder_new hdr).
Proof.
  intros Hl Hz. split; cbn.
  - intros i Hi. apply Hz. unfold len in Hl. lia.
  - apply FIRSTHDR_law.
Qed.

Lemma fresh_tail_cmsg e n :
  fresh_tail e -> 0 <= n -> enc_len e + CMSG_SPACE n <= msg_controllen (enc_hdr e) ->
  enc_cmsg e = Some (enc_len e).
Proof.
  intros Hf Hn Hl. rewrite (ft_cmsg _ Hf). pose proof (SPACE_hdr _ Hn). by rewrite (proj2 (Z.leb_le _ _)) by lia.
Qed.

Lemma push_fresh_wp {A} (T : pod A) level ty (value : A) ms e :
  let m := mk_message level ty (to_bytes T value) in
  encoded ms e -> fresh_tail e -> pod_sized T -> align_of T <= cmsghdr_align -> message_ok m ->
  space ms + CMSG_SPACE (size_of T) <= msg_controllen (enc_hdr e) ->
  wp (push T level ty value) (fun _ e' =>
    encoded (ms ++ [m]) e' /\ fresh_tail e' /\ same_hdr (enc_hdr e) (enc_hdr e')) e.
Proof.
  intros m HE Hf Hsz Hal Hok Hfit. rewrite <- (en_len _ _ HE) in Hfit.
  eapply wp_mono; [apply (push_wp T level ty value ms); try done|].
  - eapply fresh_tail_cmsg; [done|apply Hsz|done].
  - intros [] e' (HE' & Hs & _ & Hf'). by split_and!; [|apply Hf'|].
Qed.

Lemma finish_carries ms e :
  encoded ms e -> carries (finish e) ms.
Proof.
  intros HE. pose proof (en_fits _ _ HE). pose proof (en_buffer _ _ HE).
  split; [apply HE|]. split; cbn; [apply HE|lia].
Qed.

(** ** Iterating *)

Fixpoint offsets (off : Z) (ms : list message) : list Z :=
  match ms with
  | [] => []
  | m :: ms => off :: offsets (off + CMSG_SPACE (len (cm_data m))) ms
  end.

Fixpoint each {S} (cs : list Z) (body : Z -> Act S unit) : Act S unit :=
  match cs with
  | [] => mret tt
  | c :: cs => _ ← body c; each cs body
  end.

Lemma for_iter_from {S} n hdr off ms (body : Z -> Act S unit) (s : S) :
  0 <= off -> messages_at (msg_control hdr) off ms -> msg_controllen hdr = off + space ms ->
  msg_controllen hdr <= len (msg_control hdr) -> (length ms <= n)%nat ->
  for_iter n (mk_Iter hdr (match ms with [] => None | _ => Some off end)) body s =
  each (offsets off ms) body s.
Proof.
  revert off ms s. induction n as [|n IH]; intros off [|m ms] s Ho Hms Hl Hb Hn; cbn in Hn; try done; [lia|].
  cbn [messages_at space] in *. destruct Hms as [Hm Hms]. pose proof (len_nonneg (cm_data m)) as Hd.
  pose proof (SPACE_hdr _ Hd). pose proof (space_nonneg ms). pose proof hdr_size_pos.
  cbn [for_iter Iter_next it_cmsg it_hdr offsets each]. unfold mbind, act_bind.
  destruct (body off s) as [[[] s']| |]; try done.
  rewrite <- IH; [|lia|done|lia|done|lia]. f_equal. f_equal.
  destruct ms as [|m' ms]; cbn [space messages_at] in *.
  - eapply NXTHDR_end; [done|exact Hd|by destruct Hm as [-> _]|lia].
  - destruct Hms as [[Hh _] _]. pose proof (len_nonneg (cm_data m')) as Hd'.
    pose proof (SPACE_hdr _ Hd'). pose proof (space_nonneg ms).
    apply NXTHDR_next; [done|done|by destruct Hm as [-> _]|lia|].
    right. exists (len (cm_data m')). rewrite Hh. split_and!; [done|done|lia].
Qed.

Lemma for_iter_carries {S} n hdr ms (body : Z -> Act S unit) (s : S) :
  carries hdr ms -> (length ms <= n)%nat -> for_iter n (Iter_new hdr) body s = each (offsets 0 ms) body s.
Proof.
  intros (Hms & Hl & Hb) Hn. rewrite <- (for_iter_from n hdr 0 ms) by done. unfold Iter_new.
  rewrite FIRSTHDR_law, Hl. pose proof hdr_size_pos. destruct ms as [|m ms]; cbn [space].
  - by rewrite (proj2 (Z.leb_gt _ _)) by lia.
  - pose proof (SPACE_hdr _ (len_nonneg (cm_data m))). pose proof (space_nonneg ms).
    pose proof (len_nonneg (cm_data m)). by rewrite (proj2 (Z.leb_le _ _)) by lia.
Qed.

(** The number of messages is bounded by the size of the buffer. *)
Lemma carries_length hdr ms : carries hdr ms -> (length ms <= Z.to_nat (msg_controllen hdr))%nat.
Proof.
  intros (_ & -> & _). pose proof hdr_size_pos. induction ms as [|m ms IH]; cbn [length space]; [lia|].
  pose proof (SPACE_hdr _ (len_nonneg (cm_data m))). pose proof (len_nonneg (cm_data m)).
  pose proof (space_nonneg ms). lia.
Qed.

Lemma read_cmsghdr_message hdr off m :
  0 <= off -> message_at (msg_control hdr) off m ->
  off + CMSG_SPACE (len (cm_data m)) <= len (msg_control hdr) ->
  read_cmsghdr hdr off = Ret (mk_cmsghdr (CMSG_LEN (len (cm_data m))) (cm_level m) (cm_type m)).
Proof.
  intros Ho [Hh _] Hb. pose proof (SPACE_hdr _ (len_nonneg (cm_data m))). pose proof hdr_size_pos.
  pose proof (len_nonneg (cm_data m)). unfold read_cmsghdr, read_control. rewrite slice_fits by lia.
  cbn [mbind outcome_bind]. replace (off + cmsghdr_size - off) with cmsghdr_size by lia.
  fold (sub (msg_control hdr) off cmsghdr_size). fold (hdr_at (msg_control hdr) off). by rewrite Hh.
Qed.

(** Decoding a payload; the lengths agree unless the assertions are compiled out. *)
Lemma decode_message {A S} (T : pod A) hdr off m (s : S) :
  0 <= off -> message_at (msg_control hdr) off m ->
  off + CMSG_SPACE (len (cm_data m)) <= len (msg_control hdr) ->
  align_of T <= cmsghdr_align -> 0 <= size_of T -> len (cm_data m) = size_of T ->
  decode T hdr off s = Ret (of_bytes T (cm_data m), s).
Proof.
  intros Ho [Hh Hd] Hb Hal Hsz El. pose proof (len_nonneg (cm_data m)) as Hn. pose proof (SPACE_hdr _ Hn).
  pose proof (LEN_SPACE _ Hn). pose proof (LEN_add _ Hn). pose proof LEN_hdr. pose proof hdr_size_pos.
  pose proof (DATA_LEN off) as Ed. unfold decode, assert, mbind, act_bind, lift, debug_assert, assert, lift.
  rewrite (proj2 (Z.leb_le _ _) Hal), (read_cmsghdr_message hdr off m Ho (conj Hh Hd) Hb).
  cbn [cmsg_len]. rewrite El, Z.eqb_refl. unfold read_control. rewrite slice_fits by lia. replace (CMSG_DATA off + size_of T - CMSG_DATA off) with (size_of T) by lia.
  fold (sub (msg_control hdr) (CMSG_DATA off) (size_of T)). rewrite <- El, Hd. by destruct overflow_checks.
Qed.

(** ** Round trip *)

(** Encodes a sequence of messages given by their bytes. *)
Fixpoint push_all (ms : list message) : Act Encoder unit :=
  match ms with
  | [] => mret tt
  | m :: ms => _ ← push (pod_bytes (len (cm_data m))) (cm_level m) (cm_type m) (cm_data m); push_all ms
  end.

(** Reads one message with the operations of the iterator. *)
Definition read_message (hdr : msghdr) (c : Z) : Act (list message) unit :=
  h ← lift (read_cmsghdr hdr c);
  data ← decode (pod_bytes (cmsg_len h - CMSG_LEN 0)) hdr c;
  modify (fun l => l ++ [mk_message (cmsg_level h) (cmsg_type h) data]).

Definition read_messages (hdr : msghdr) : outcome (list message) :=
  match for_iter (Z.to_nat (msg_controllen hdr)) (Iter_new hdr) (read_message hdr) [] with
  | Ret (_, l) => Ret l
  | Panic w => Panic w
  | NoFuel => NoFuel
  end.

Lemma push_all_wp ms0 ms e :
  encoded ms0 e -> fresh_tail e -> 1 <= cmsghdr_align -> Forall message_ok ms ->
  enc_len e + space ms <= msg_controllen (enc_hdr e) ->
  wp (push_all ms) (fun _ e' => encoded (ms0 ++ ms) e' /\ same_hdr (enc_hdr e) (enc_hdr e')) e.
Proof.
  intros HE Hf Hal Hok. revert ms0 e HE Hf. induction Hok as [|m ms Hm _ IH]; intros ms0 e HE Hf Hl;
    cbn [push_all space] in *; wp_run.
  { rewrite app_nil_r. split; [done|apply same_hdr_refl]. }
  pose proof (space_nonneg ms). pose proof (len_nonneg (cm_data m)) as Hn.
  eapply wp_mono; [apply (push_wp (pod_bytes (len (cm_data m))) _ _ _ ms0); cbn [size_of align_of pod_bytes]|].
  all: try (by apply pod_bytes_sized); try done; try lia.
  { eapply fresh_tail_cmsg; [done|exact Hn|lia]. }
  intros [] e' (HE' & Hs & Hlen & Hf'). cbn [size_of pod_bytes] in *.
  rewrite pod_bytes_exact in HE'. replace (mk_message (cm_level m) (cm_type m) (cm_data m)) with m in HE' by (by destruct m).
  eapply wp_mono; [apply (IH (ms0 ++ [m])); [done|by apply Hf'|]|].
  - rewrite (same_hdr_controllen _ _ Hs). lia.
  - intros [] e2 [HE2 Hs2]. rewrite <- app_assoc in HE2. split; [done|by eapply same_hdr_trans].
Qed.

(** Beyond the buffer the first message that does not fit panics. *)
Lemma push_all_overflow ms0 ms e :
  encoded ms0 e -> fresh_tail e -> 1 <= cmsghdr_align -> Forall message_ok ms -> space ms < 2 ^ 63 ->
  msg_controllen (enc_hdr e) < enc_len e + space ms -> push_all ms e = Panic AssertionFailed.
Proof.
  intros HE Hf Hal Hok. revert ms0 e HE Hf. induction Hok as [|m ms Hm _ IH]; intros ms0 e HE Hf Hbig Hl;
    cbn [push_all space] in *.
  { pose proof (en_fits _ _ HE). lia. }
  pose proof (space_nonneg ms). pose proof (len_nonneg (cm_data m)) as Hn.
  pose proof (pod_bytes_sized _ Hn) as Hsz. pose proof (SPACE_hdr _ Hn). pose proof hdr_size_pos.
  unfold mbind, act_bind.
  destruct (Z.lt_ge_cases (msg_controllen (enc_hdr e)) (enc_len e + CMSG_SPACE (len (cm_data m)))) as [Hlt|Hge].
  { by rewrite (push_overflow _ _ _ _ ms0) by (cbn; done || lia). }
  destruct (wp_elim _ _ _ (push_wp (pod_bytes (len (cm_data m))) (cm_level m) (cm_type m) (cm_data m) ms0 e
    HE (fresh_tail_cmsg _ _ Hf Hn Hge) Hsz Hal Hm Hge)) as ([] & e' & E & HE' & Hs & Hlen & Hf').
  rewrite E. cbn [size_of pod_bytes] in *. eapply IH; [exact HE'|by apply Hf'|lia|].
  rewrite (same_hdr_controllen _ _ Hs). lia.
Qed.

Lemma read_message_at hdr off m l :
  0 <= off -> message_at (msg_control hdr) off m ->
  off + CMSG_SPACE (len (cm_data m)) <= len (msg_control hdr) -> 1 <= cmsghdr_align ->
  read_message hdr off l = Ret (tt, l ++ [m]).
Proof.
  intros Ho Hm Hb Hal. pose proof (len_nonneg (cm_data m)) as Hn. pose proof (SPACE_hdr _ Hn).
  pose proof hdr_size_pos. unfold read_message, mbind at 1, act_bind at 1, lift.
  rewrite (read_cmsghdr_message hdr off m Ho Hm Hb). cbn [cmsg_len cmsg_level cmsg_type].
  rewrite (LEN_add _ Hn). unfold mbind, act_bind.
  rewrite (decode_message _ _ _ m) by (cbn; done || lia). cbn. by destruct m.
Qed.

Lemma each_read_message hdr off ms l :
  0 <= off -> messages_at (msg_control hdr) off ms -> off + space ms <= len (msg_control hdr) ->
  1 <= cmsghdr_align -> each (offsets off ms) (read_message hdr) l = Ret (tt, l ++ ms).
Proof.
  intros Ho Hms Hb Hal. revert off l Ho Hms Hb. induction ms as [|m ms IH]; intros off l Ho Hms Hb;
    cbn [offsets each messages_at space] in *; [by rewrite app_nil_r|].
  destruct Hms as [Hm Hms]. pose proof (space_nonneg ms). pose proof (len_nonneg (cm_data m)) as Hn.
  pose proof (SPACE_hdr _ Hn). pose proof hdr_size_pos. unfold mbind at 1, act_bind at 1.
  rewrite (read_message_at _ _ m) by (done || lia). rewrite IH by (done || lia). by rewrite <- app_assoc.
Qed.

Lemma read_messages_carries hdr ms : carries hdr ms -> 1 <= cmsghdr_align -> read_messages hdr = Ret ms.
Proof.
  intros HC Hal. unfold read_messages. pose proof (carries_length _ _ HC).
  rewrite (for_iter_carries _ _ ms) by done. destruct HC as (Hms & Hl & Hb).
  by rewrite each_read_message by (done || lia).
Qed.

(** C29: the encoder and the iterator are inverse.  Control messages pushed into
    a zeroed buffer that has room for them are encoded without touching
    anything outside of the buffer, the finished header has their exact
    length, and an iteration over it decodes the same messages in the same
    order; without room the encoder panics instead of writing past the end. *)
Theorem control_messages_roundtrip hdr ms :
  0 <= msg_controllen hdr <= len (msg_control hdr) -> len (msg_control hdr) < 2 ^ 31 ->
  zeroed (msg_control hdr) -> 1 <= cmsghdr_align -> Forall message_ok ms -> space ms < 2 ^ 63 ->
  if space ms <=? msg_controllen hdr then
    exists e, push_all ms (Encoder_new hdr) = Ret (tt, e) /\
      len (msg_control (finish e)) = len (msg_control hdr) /\
      msg_controllen (finish e) = space ms /\ read_messages (finish e) = Ret ms
  else push_all ms (Encoder_new hdr) = Panic AssertionFailed.
Proof.
  intros Hl Hb Hz Hal Hok Hbig. pose proof (Encoder_new_encoded _ Hl Hb) as HE.
  pose proof (Encoder_new_fresh hdr (proj2 Hl) Hz) as Hf.
  destruct (Z.leb_spec (space ms) (msg_controllen hdr)) as [Hfit|Hfull].
  - destruct (wp_elim _ _ _ (push_all_wp [] ms _ HE Hf Hal Hok Hfit)) as ([] & e & E & HE' & Hs).
    exists e. pose proof (finish_carries _ _ HE') as HC. split_and!; [done|apply Hs|apply HC|by apply read_messages_carries].
  - by eapply push_all_overflow.
Qed.

End cmsg.

(** ** 64-bit Linux *)

Definition CMSG_ALIGN (n : Z) : Z := (n + 7) / 8 * 8.

Definition linux_cmsghdr_bytes (h : cmsghdr) : list byte :=
  le_bytes 8 (cmsg_len h) ++ le_bytes 4 (cmsg_level h) ++ le_bytes 4 (cmsg_type h).

Definition linux_cmsghdr_of (l : list byte) : cmsghdr :=
  mk_cmsghdr (of_le_bytes (take 8 l)) (to_signed 4 (of_le_bytes (take 4 (drop 8 l))))
    (to_signed 4 (of_le_bytes (drop 12 l))).

Definition linux_NXTHDR (mem : list byte) (controllen off : Z) : option Z :=
  let n := cmsg_len (linux_cmsghdr_of (sub mem off 16)) in
  if n <? 16 then None else
  let next := off + CMSG_ALIGN n in
  if (controllen <? next + 16) ||
     (controllen <? next + CMSG_ALIGN (cmsg_len (linux_cmsghdr_of (sub mem next 16))))
  then None else Some next.

#[local] Instance linux_cmsg : CmsgAbi := {|
  cmsghdr_size := 16;
  cmsghdr_align := 8;
  cmsghdr_bytes := linux_cmsghdr_bytes;
  cmsghdr_of := linux_cmsghdr_of;
  CMSG_SPACE := fun n => CMSG_ALIGN n + CMSG_ALIGN 16;
  CMSG_LEN := fun n => CMSG_ALIGN 16 + n;
  CMSG_DATA := fun off => off + 16;
  CMSG_FIRSTHDR := fun _ controllen => if 16 <=? controllen then Some 0 else None;
  CMSG_NXTHDR := linux_NXTHDR;
|}.

Lemma CMSG_ALIGN_range n : n <= CMSG_ALIGN n < n + 8.
Proof. unfold CMSG_ALIGN. Z.div_mod_to_equations. lia. Qed.

Lemma CMSG_ALIGN_add n : CMSG_ALIGN (16 + n) = 16 + CMSG_ALIGN n.
Proof. unfold CMSG_ALIGN. Z.div_mod_to_equations. lia. Qed.

Lemma linux_hdr_roundtrip h :
  0 <= cmsg_len h < 2 ^ 31 -> c_int_range (cmsg_level h) -> c_int_range (cmsg_type h) ->
  linux_cmsghdr_of (linux_cmsghdr_bytes h) = h.
Proof.
  destruct h as [n l t]. intros Hn Hl Ht. cbn [cmsg_len cmsg_level cmsg_type] in *.
  unfold linux_cmsghdr_of, linux_cmsghdr_bytes. cbn [cmsg_len cmsg_level cmsg_type].
  change (take 8 _) with (le_bytes 8 n).
  change (take 4 (drop 8 _)) with (le_bytes 4 l). change (drop 12 _) with (le_bytes 4 t).
  rewrite of_le_bytes_le_bytes, Z.mod_small by lia.
  pose proof (pod_c_int_roundtrip l Hl) as El. pose proof (pod_c_int_roundtrip t Ht) as Et.
  cbn [of_bytes to_bytes pod_c_int] in El, Et. by rewrite El, Et.
Qed.

#[local] Instance linux_cmsg_laws : CmsgLaws.
Proof.
  split; cbn -[hdr_at cmsg_len].
  - lia.
  - intros h. reflexivity.
  - apply linux_hdr_roundtrip.
  - reflexivity.
  - done.
  - intros n Hn. done.
  - intros n Hn. pose proof (CMSG_ALIGN_range n). change (CMSG_ALIGN 16) with 16. lia.
  - intros off. done.
  - done.
  - intros mem l off n Ho Hn E Hl. change (cmsg_len (linux_cmsghdr_of (sub mem off 16)) = CMSG_ALIGN 16 + n) in E.
    unfold linux_NXTHDR. rewrite E.
    change (CMSG_ALIGN 16) with 16 in *. rewrite (proj2 (Z.ltb_ge _ _)) by lia. rewrite CMSG_ALIGN_add.
    by rewrite (proj2 (Z.ltb_lt _ _)) by lia.
  - intros mem l off n Ho Hn E Hl Hnext. change (cmsg_len (linux_cmsghdr_of (sub mem off 16)) = CMSG_ALIGN 16 + n) in E.
    unfold hdr_at, cmsghdr_of, cmsghdr_size in Hnext. cbv [linux_cmsg] in Hnext.
    unfold linux_NXTHDR. rewrite E.
    change (CMSG_ALIGN 16) with 16 in *. rewrite (proj2 (Z.ltb_ge _ 16)) by lia. rewrite CMSG_ALIGN_add.
    replace (off + (16 + CMSG_ALIGN n)) with (off + (CMSG_ALIGN n + 16)) by lia.
    rewrite (proj2 (Z.ltb_ge l _)) by lia. cbn [orb].
    destruct Hnext as [-> | (k & Hk & -> & Hfit)]; rewrite ?CMSG_ALIGN_add.
    + change (CMSG_ALIGN 0) with 0. by rewrite (proj2 (Z.ltb_ge l _)) by lia.
    + by rewrite (proj2 (Z.ltb_ge l _)) by lia.
Qed.

#[local] Instance cmsg_profile : Profile := mk_Profile true true.

(** Two messages in the 88 bytes of the crate, and one that does not fit. *)
Definition some_hdr : msghdr := mk_msghdr [] 0 [] 0 (replicate 88 Byte.x00) 88 0.
Definition tos_message : message := mk_message 0 1 (to_bytes pod_c_int 2).
Definition segment_message : message := mk_message 17 103 (to_bytes pod_u16 1400).

Lemma control_messages_roundtrip_witness :
  exists e, push_all [tos_message; segment_message] (Encoder_new some_hdr) = Ret (tt, e) /\
    msg_controllen (finish e) = 48 /\ read_messages (finish e) = Ret [tos_message; segment_message].
Proof.
  destruct (control_messages_roundtrip some_hdr [tos_message; segment_message])
    as (e & E & _ & El & Er); [vm_compute; split; discriminate|vm_compute; reflexivity|apply zeroed_replicate|vm_compute; discriminate
      | |vm_compute; reflexivity|].
  - repeat constructor; done.
  - exists e. by split_and!.
Defined.
