(* ===== verification/Unix.v ===== *)
(** The UDP socket of the Unix targets: [udx-udp/src/unix.rs].

    The target operating system is a parameter, as [cfg] makes it one of the
    source.  The constants, structures and address layouts of [libc],
    [socket2] and the kernel are parameters with their laws; what the system
    calls and the readiness of the file descriptor answer is a script of the
    socket's state, consumed call by call, and every message handed to the
    kernel is recorded. *)

From S2P Require Import Prelude Errors UdpProto Cmsg.

Local Open Scope Z_scope.

Inductive target_os := linux | macos | ios | freebsd | other_unix.

#[export] Instance target_os_eq_dec : EqDecision target_os.
Proof. solve_decision. Defined.

(** [cfg!(target_os = ...)]. *)
Class Target := target : target_os.

Definition is_linux `{Target} : bool := bool_decide (target = linux).
Definition is_apple `{Target} : bool := bool_decide (target = macos) || bool_decide (target = ios).

(** ** The platform's constants, structures and addresses *)

Record in_pktinfo := mk_in_pktinfo {
  ipi_ifindex : Z;
  ipi_spec_dst : Z;
  ipi_addr : Z;
}.

Record in6_pktinfo := mk_in6_pktinfo {
  ipi6_addr : list byte;
  ipi6_ifindex : Z;
}.

Class Libc := {
  IPPROTO_IP : Z;
  IPPROTO_IPV6 : Z;
  SOL_UDP : Z;
  IP_TOS : Z;
  IP_RECVTOS : Z;
  IP_PKTINFO : Z;
  IP_MTU_DISCOVER : Z;
  IP_PMTUDISC_PROBE : Z;
  IPV6_V6ONLY : Z;
  IPV6_TCLASS : Z;
  IPV6_RECVTCLASS : Z;
  IPV6_PKTINFO : Z;
  IPV6_RECVPKTINFO : Z;
  IPV6_MTU_DISCOVER : Z;
  UDP_SEGMENT : Z;
  AF_INET : Z;
  AF_INET6 : Z;
  EIO : Z;
  MSG_TRUNC : Z;
  sockaddr_storage_size : Z;
  pod_in_pktinfo : pod in_pktinfo;
  pod_in6_pktinfo : pod in6_pktinfo;
  SockAddr_from : SocketAddr -> list byte;     (* [socket2::SockAddr::from] *)
  ss_family : list byte -> Z;                  (* the field of [sockaddr_storage] *)
  read_v4 : list byte -> SocketAddr;           (* the storage read as a [SocketAddrV4] *)
  read_v6 : list byte -> SocketAddr;           (* ... as a [SocketAddrV6] *)
}.

(** The control messages the crate names, as (level, type). *)
Definition control_types `{Libc} : list (Z * Z) :=
  [(IPPROTO_IP, IP_TOS); (IPPROTO_IP, IP_RECVTOS); (IPPROTO_IPV6, IPV6_TCLASS); (IPPROTO_IP, IP_PKTINFO);
   (IPPROTO_IPV6, IPV6_PKTINFO); (SOL_UDP, UDP_SEGMENT)].

Class LibcLaws `{Libc} `{CmsgAbi} := {
  control_types_distinct : NoDup control_types;
  control_types_c_int : Forall (fun k => c_int_range (fst k) /\ c_int_range (snd k)) control_types;
  in_pktinfo_sized : pod_sized pod_in_pktinfo;
  in_pktinfo_align : align_of pod_in_pktinfo <= cmsghdr_align;
  in_pktinfo_addr x : 0 <= ipi_addr x < 2 ^ 32 ->
    ipi_addr (of_bytes pod_in_pktinfo (to_bytes pod_in_pktinfo x)) = ipi_addr x;
  in6_pktinfo_sized : pod_sized pod_in6_pktinfo;
  in6_pktinfo_align : align_of pod_in6_pktinfo <= cmsghdr_align;
  in6_pktinfo_addr x : len (ipi6_addr x) = 16 ->
    ipi6_addr (of_bytes pod_in6_pktinfo (to_bytes pod_in6_pktinfo x)) = ipi6_addr x;
  c_int_align : 4 <= cmsghdr_align;
  in_pktinfo_space : CMSG_SPACE (size_of pod_in_pktinfo) <= CMSG_SPACE (size_of pod_in6_pktinfo);
  u8_space : CMSG_SPACE (size_of pod_u8) <= CMSG_SPACE (size_of pod_c_int);
  control_room :
    CMSG_SPACE (size_of pod_c_int) + CMSG_SPACE (size_of pod_u16) + CMSG_SPACE (size_of pod_in6_pktinfo) <= 88;
}.

(** ** The socket and the operating system *)

(** A message that the kernel received into a header: the address, the control
    buffer and its length, the flags, the contents of the receive buffer and
    the length of the datagram. *)
Record Filled := mk_Filled {
  fl_name : list byte;
  fl_control : list byte;
  fl_controllen : Z;
  fl_flags : Z;
  fl_data : list byte;
  fl_len : Z;
}.

(** [UdpSocket] with the shared [UdpState], the clock and the system. *)
Record UdpSt := mk_UdpSt {
  u_last_send_error : Z;
  u_max_gso_segments : Z;                              (* [UdpState::max_gso_segments] *)
  u_clock : nat -> Z;                                  (* readings of [Instant::now()] *)
  u_ticks : nat;
  u_write_ready : list (poll (result unit io_error));  (* answers of [poll_write_ready] *)
  u_read_ready : list (poll (result unit io_error));   (* answers of [poll_read_ready] *)
  u_send : list (result Z io_error);                   (* answers of [sendmmsg] or [sendmsg] *)
  u_recv : list (result (list Filled) io_error);       (* answers of [recvmmsg] or [recvmsg] *)
  u_handed : list (list msghdr);                       (* the messages of each send call *)
}.

#[export] Instance UdpSt_eta : Eta UdpSt := fun s =>
  mk_UdpSt (u_last_send_error s) (u_max_gso_segments s) (u_clock s) (u_ticks s) (u_write_ready s)
    (u_read_ready s) (u_send s) (u_recv s) (u_handed s).

(** [m?]: returns early with the error. *)
Definition try {S A B} (m : Act S (result A io_error)) (k : A -> Act S (result B io_error))
  : Act S (result B io_error) :=
  r ← m; match r with Ok a => k a | Err e => mret (Err e) end.

(** The next answer of a script; a call without an answer does not return. *)
Definition next_answer {A} (get : UdpSt -> list A) (set : list A -> UdpSt -> UdpSt) : Act UdpSt A :=
  l ← gets get;
  match l with
  | [] => out_of_fuel
  | a :: l => _ ← modify (set l); mret a
  end.

(** [sendmmsg] and [sendmsg]. *)
Definition sys_send (msgs : list msghdr) : Act UdpSt (result Z io_error) :=
  _ ← modify (fun s => s <| u_handed ::= fun l => l ++ [msgs] |>);
  next_answer u_send (fun l s => s <| u_send := l |>).

(** [recvmmsg] and [recvmsg]. *)
Definition sys_recv : Act UdpSt (result (list Filled) io_error) :=
  next_answer u_recv (fun l s => s <| u_recv := l |>).

Definition poll_write_ready : Act UdpSt (poll (result unit io_error)) :=
  next_answer u_write_ready (fun l s => s <| u_write_ready := l |>).

Definition poll_read_ready : Act UdpSt (poll (result unit io_error)) :=
  next_answer u_read_ready (fun l s => s <| u_read_ready := l |>).

(** [Instant::now()]. *)
Definition udp_now : Act UdpSt Z :=
  t ← gets (fun s => u_clock s (u_ticks s));
  _ ← modify (fun s => s <| u_ticks ::= Datatypes.S |>);
  mret t.

(** The options a socket was given: level, name and value. *)
Abbreviation SockOpts := (list (Z * Z * Z)).

Section unix.
Context `{Profile} `{CmsgAbi} `{Target} `{Libc}.

Definition BATCH_SIZE : Z := if is_apple then 1 else 32.

Definition CMSG_BUF_LEN : Z := 88.

(** [IpTosTy]. *)
Definition pod_IpTosTy : pod Z := if bool_decide (target = freebsd) then pod_u8 else pod_c_int.

(** [GuardRef::try_io]: [None] (and readiness cleared) when the call would block. *)
Definition try_io {A} (r : result A io_error) : option (result A io_error) :=
  match r with
  | Err e => if decide (ioe_kind e = WouldBlock) then None else Some r
  | Ok _ => Some r
  end.

(** [log_sendmsg_error(last_send_error, e, transmit)]. *)
Definition log_error : Act UdpSt unit :=
  now ← udp_now;
  modify (fun s => s <| u_last_send_error ::= fun last => fst (log_sendmsg_error now last) |>).

(** ** Segmentation offload: [mod gso] *)

Definition GSO_SIZE : Z := 1500.

(** [bound] is the result of [bind], [setsockopt] the call on that socket. *)
Definition max_gso_segments (bound : result unit io_error) (setsockopt : Z -> Z -> Z -> result unit io_error) : Z :=
  if is_linux then
    match bound with
    | Err _ => 1
    | Ok _ => match setsockopt SOL_UDP UDP_SEGMENT GSO_SIZE with Ok _ => 64 | Err _ => 1 end
    end
  else 1.

Definition udp_state (bound : result unit io_error) (setsockopt : Z -> Z -> Z -> result unit io_error) : Z :=
  max_gso_segments bound setsockopt.

Definition set_segment_size (segment_size : Z) : Act Encoder unit :=
  if is_linux then push pod_u16 SOL_UDP UDP_SEGMENT segment_size
  else lift (Panic ExplicitPanic).

(** ** Sending *)

Definition push_src_ip (ip : IpAddr) : Act Encoder unit :=
  if is_linux then
    match ip with
    | IpV4 octets =>
        push pod_in_pktinfo IPPROTO_IP IP_PKTINFO (mk_in_pktinfo 0 (of_le_bytes octets) 0)
    | IpV6 octets =>
        push pod_in6_pktinfo IPPROTO_IPV6 IPV6_PKTINFO (mk_in6_pktinfo octets 0)
    end
  else mret tt.

(** The part of [prepare_msg] that encodes the control messages. *)
Definition encode_control (t : Transmit) : Act Encoder unit :=
  let ecn := match t_ecn t with None => 0 | Some x => EcnCodepoint_bits x end in
  _ ← (if is_ipv4 (t_destination t) then push pod_IpTosTy IPPROTO_IP IP_TOS ecn
       else push pod_c_int IPPROTO_IPV6 IPV6_TCLASS ecn);
  _ ← match t_segment_size t with
      | Some segment_size => set_segment_size (segment_size mod 2 ^ 16)
      | None => mret tt
      end;
  match t_src_ip t with
  | Some ip => push_src_ip ip
  | None => mret tt
  end.

Definition prepare_msg (t : Transmit) (dst_addr : list byte) (hdr : msghdr) (ctrl : list byte)
  : outcome msghdr :=
  let hdr := mk_msghdr dst_addr (len dst_addr) [t_contents t] 1 ctrl CMSG_BUF_LEN (msg_flags hdr) in
  match encode_control t (Encoder_new hdr) with
  | Ret (_, encoder) => Ret (finish encoder)
  | Panic w => Panic w
  | NoFuel => NoFuel
  end.

Definition zeroed_msghdr : msghdr := mk_msghdr [] 0 [] 0 [] 0 0.
Definition zeroed_ctrl : list byte := replicate (Z.to_nat CMSG_BUF_LEN) Byte.x00.

(** The loop that fills [msgs] from the transmits. *)
Fixpoint prepare_all (ts : list Transmit) : outcome (list msghdr) :=
  match ts with
  | [] => Ret []
  | t :: ts =>
      m ← prepare_msg t (SockAddr_from (t_destination t)) zeroed_msghdr zeroed_ctrl;
      ms ← prepare_all ts;
      Ret (m :: ms)
  end.

(** What follows an error that is not about blocking or interruption. *)
Definition send_failed (e : io_error) (transmits : list Transmit) (num_transmits : Z)
  : Act UdpSt (flow (result Z io_error)) :=
  _ ← (if is_linux && bool_decide (ioe_raw_os_error e = Some EIO) then
         modify (fun s => s <| u_max_gso_segments ::= fun n => if n >? 1 then 1 else n |>)
       else mret tt);
  _ ← lift (index transmits 0);
  _ ← log_error;
  mret (Break (Ok (Z.min num_transmits 1))).

(** One iteration of the loop around [sendmmsg]. *)
Definition send_attempt (msgs : list msghdr) (transmits : list Transmit) (num_transmits : Z)
  : Act UdpSt (flow (result Z io_error)) :=
  n ← sys_send msgs;
  match n with
  | Ok n => mret (Break (Ok n))
  | Err e =>
      match ioe_kind e with
      | Interrupted => mret Continue
      | PermissionDenied => mret (Break (Err (io_error_new WouldBlock "")))
      | WouldBlock => mret (Break (Err e))
      | _ => send_failed e transmits num_transmits
      end
  end.

(** [send] with [sendmmsg]. *)
Definition send_mmsg (transmits : list Transmit) : Act UdpSt (result Z io_error) :=
  msgs ← lift (prepare_all (take (Z.to_nat BATCH_SIZE) transmits));
  let num_transmits := Z.min (len transmits) BATCH_SIZE in
  calls ← gets (fun s => length (u_send s));
  loop (Datatypes.S calls) (send_attempt msgs transmits num_transmits).

(** [send] with [sendmsg], for macOS and iOS; the loop carries [sent] and the
    header and control buffer it uses again for each message.  [sent] is at most
    the length of the slice, so adding one does not overflow. *)
Fixpoint send_each (calls : nat) (transmits : list Transmit) (sent : Z) (hdr : msghdr) (ctrl : list byte)
  : Act UdpSt (result Z io_error) :=
  if sent <? len transmits then
    match calls with
    | O => out_of_fuel
    | Datatypes.S calls =>
        t ← lift (index transmits sent);
        hdr ← lift (prepare_msg t (SockAddr_from (t_destination t)) hdr ctrl);
        n ← sys_send [hdr];
        match n with
        | Ok _ => send_each calls transmits (sent + 1) hdr (msg_control hdr)
        | Err e =>
            match ioe_kind e with
            | Interrupted => send_each calls transmits sent hdr (msg_control hdr)
            | WouldBlock => if sent =? 0 then mret (Err e) else mret (Ok sent)
            | _ => _ ← log_error; send_each calls transmits (sent + 1) hdr (msg_control hdr)
            end
        end
    end
  else mret (Ok sent).

Definition send_msg (transmits : list Transmit) : Act UdpSt (result Z io_error) :=
  calls ← gets (fun s => length (u_send s));
  send_each calls transmits 0 zeroed_msghdr zeroed_ctrl.

Definition send (transmits : list Transmit) : Act UdpSt (result Z io_error) :=
  if is_apple then send_msg transmits else send_mmsg transmits.

(** The loop of [poll_send] and [poll_recv]: wait for readiness, try the call,
    and wait again when it would block. *)
Definition io_attempt {A} (ready : Act UdpSt (poll (result unit io_error))) (call : Act UdpSt (result A io_error))
  : Act UdpSt (flow (poll (result A io_error))) :=
  guard ← ready;
  match guard with
  | Pending => mret (Break Pending)
  | Ready (Err e) => mret (Break (Ready (Err e)))
  | Ready (Ok _) =>
      res ← call;
      match try_io res with
      | Some res => mret (Break (Ready res))
      | None => mret Continue
      end
  end.

Definition poll_send (transmits : list Transmit) : Act UdpSt (poll (result Z io_error)) :=
  n ← gets (fun s => length (u_write_ready s));
  loop (Datatypes.S n) (io_attempt poll_write_ready (send transmits)).

(** ** Receiving *)

Definition prepare_recv (buf : list byte) (hdr : msghdr) : msghdr :=
  hdr <| msg_name := [] |> <| msg_namelen := sockaddr_storage_size |> <| msg_iov := [buf] |> <| msg_iovlen := 1 |>
    <| msg_control := zeroed_ctrl |> <| msg_controllen := CMSG_BUF_LEN |> <| msg_flags := 0 |>.

(** What the kernel writes through the pointers of a header. *)
Definition fill (f : Filled) (hdr : msghdr) : msghdr :=
  hdr <| msg_name := fl_name f |> <| msg_iov := [fl_data f] |> <| msg_control := fl_control f |>
    <| msg_controllen := fl_controllen f |> <| msg_flags := fl_flags f |>.

(** The body of the loop over the control messages; the state is [ecn_bits]
    and [dst_ip]. *)
Definition decode_cmsg (hdr : msghdr) (cmsg : Z) : Act (Z * option IpAddr) unit :=
  c ← lift (read_cmsghdr hdr cmsg);
  let kind level ty := (cmsg_level c =? level) && (cmsg_type c =? ty) in
  if kind IPPROTO_IP IP_TOS || kind IPPROTO_IP IP_RECVTOS then
    b ← decode pod_u8 hdr cmsg;
    modify (fun s => (b, snd s))
  else if kind IPPROTO_IPV6 IPV6_TCLASS then
    if bool_decide (target = macos) && (cmsg_len c =? CMSG_LEN (size_of pod_u8)) then
      b ← decode pod_u8 hdr cmsg;
      modify (fun s => (b, snd s))
    else
      b ← decode pod_c_int hdr cmsg;
      modify (fun s => (b mod 2 ^ 8, snd s))
  else if kind IPPROTO_IP IP_PKTINFO then
    pktinfo ← decode pod_in_pktinfo hdr cmsg;
    modify (fun s => (fst s, Some (IpV4 (le_bytes 4 (ipi_addr pktinfo)))))
  else if kind IPPROTO_IPV6 IPV6_PKTINFO then
    pktinfo ← decode pod_in6_pktinfo hdr cmsg;
    modify (fun s => (fst s, Some (IpV6 (ipi6_addr pktinfo))))
  else mret tt.

Definition decode_recv (name : list byte) (hdr : msghdr) (length : Z) : outcome RecvMeta :=
  match for_iter (Z.to_nat (msg_controllen hdr)) (Iter_new hdr) (decode_cmsg hdr) (0, None) with
  | Ret (_, (ecn_bits, dst_ip)) =>
      addr ← (if ss_family name =? AF_INET then Ret (read_v4 name)
              else if ss_family name =? AF_INET6 then Ret (read_v6 name)
              else Panic ExplicitPanic);
      Ret (mk_RecvMeta addr length (from_bits ecn_bits) dst_ip)
  | Panic w => Panic w
  | NoFuel => NoFuel
  end.

(** [meta[i] = decode_recv(...)] for the messages from number [i] on; [hdrs]
    are the headers that were prepared for them. *)
Fixpoint decode_all (i : Z) (hdrs : list msghdr) (fs : list Filled) (meta : list RecvMeta)
  : outcome (list RecvMeta) :=
  match fs with
  | [] => Ret meta
  | f :: fs =>
      hdr ← index hdrs i;
      m ← decode_recv (fl_name f) (fill f hdr) (fl_len f);
      meta ← set_index meta i m;
      decode_all (i + 1) hdrs fs meta
  end.

(** The receive buffers after the call: the kernel wrote the first ones. *)
Definition fill_bufs (fs : list Filled) (bufs : list (list byte)) : list (list byte) :=
  map fl_data fs ++ drop (length fs) bufs.

(** One iteration of the loop around [recvmmsg], and around [recvmsg], which
    skips truncated datagrams. *)
Definition recvmmsg_attempt : Act UdpSt (flow (result (list Filled) io_error)) :=
  n ← sys_recv;
  match n with
  | Ok fs => mret (Break (Ok fs))
  | Err e => if decide (ioe_kind e = Interrupted) then mret Continue else mret (Break (Err e))
  end.

Definition recvmsg_attempt : Act UdpSt (flow (result Filled io_error)) :=
  n ← sys_recv;
  match n with
  | Ok fs =>
      f ← lift (index fs 0);
      if Z.land (fl_flags f) MSG_TRUNC =? 0 then mret (Break (Ok f)) else mret Continue
  | Err e => if decide (ioe_kind e = Interrupted) then mret Continue else mret (Break (Err e))
  end.

(** [recv] with [recvmmsg]: the number of messages, the buffers and the
    metadata. *)
Definition recv_mmsg (bufs : list (list byte)) (meta : list RecvMeta)
  : Act UdpSt (result (Z * list (list byte) * list RecvMeta) io_error) :=
  let max_msg_count := Z.min (len bufs) BATCH_SIZE in
  let hdrs := map (fun buf => prepare_recv buf zeroed_msghdr) (take (Z.to_nat max_msg_count) bufs)
                ++ replicate (Z.to_nat (BATCH_SIZE - max_msg_count)) zeroed_msghdr in
  calls ← gets (fun s => length (u_recv s));
  r ← loop (Datatypes.S calls) recvmmsg_attempt;
  match r with
  | Err e => mret (Err e)
  | Ok fs =>
      meta ← lift (decode_all 0 hdrs fs meta);
      mret (Ok (len fs, fill_bufs fs bufs, meta))
  end.

(** [recv] with [recvmsg]. *)
Definition recv_msg (bufs : list (list byte)) (meta : list RecvMeta)
  : Act UdpSt (result (Z * list (list byte) * list RecvMeta) io_error) :=
  buf ← lift (index bufs 0);
  let hdr := prepare_recv buf zeroed_msghdr in
  calls ← gets (fun s => length (u_recv s));
  r ← loop (Datatypes.S calls) recvmsg_attempt;
  match r with
  | Err e => mret (Err e)
  | Ok f =>
      m ← lift (decode_recv (fl_name f) (fill f hdr) (fl_len f));
      meta ← lift (set_index meta 0 m);
      mret (Ok (1, fill_bufs [f] bufs, meta))
  end.

Definition recv (bufs : list (list byte)) (meta : list RecvMeta)
  : Act UdpSt (result (Z * list (list byte) * list RecvMeta) io_error) :=
  if is_apple then recv_msg bufs meta else recv_mmsg bufs meta.

Definition poll_recv (bufs : list (list byte)) (meta : list RecvMeta)
  : Act UdpSt (poll (result (Z * list (list byte) * list RecvMeta) io_error)) :=
  _ ← debug_assert (negb (len bufs =? 0));
  n ← gets (fun s => length (u_read_ready s));
  loop (Datatypes.S n) (io_attempt poll_read_ready (recv bufs meta)).

(** ** Creation *)

(** What the operating system answers to the calls that set a socket up. *)
Record SetupOs := mk_SetupOs {
  os_set_nonblocking : result unit io_error;
  os_local_addr : result SocketAddr io_error;
  os_v6only : result Z io_error;                       (* [getsockopt(IPPROTO_IPV6, IPV6_V6ONLY)] *)
  os_setsockopt : Z -> Z -> Z -> result unit io_error;  (* level, option, value *)
  os_async_fd : result unit io_error;
}.

Definition setsockopt (os : SetupOs) (level option value : Z) : Act SockOpts (result unit io_error) :=
  match os_setsockopt os level option value with
  | Ok _ => _ ← modify (fun l => l ++ [(level, option, value)]); mret (Ok tt)
  | Err e => mret (Err e)
  end.

Definition only_v6 (os : SetupOs) : Act SockOpts (result bool io_error) :=
  mret (match os_v6only os with Err e => Err e | Ok val => Ok (negb (val =? 0)) end).

Definition is_ipv6 (a : SocketAddr) : bool := negb (is_ipv4 a).

(** The condition for [IP_RECVTOS]. *)
Definition wants_recvtos (os : SetupOs) (addr : SocketAddr) : Act SockOpts (result bool io_error) :=
  if is_ipv4 addr then mret (Ok true)
  else if is_apple then mret (Ok false)
  else try (only_v6 os) (fun v6 => mret (Ok (negb v6))).

Definition init_linux (os : SetupOs) (addr : SocketAddr) : Act SockOpts (result unit io_error) :=
  if negb is_linux then mret (Ok tt)
  else if is_ipv4 addr then
    try (setsockopt os IPPROTO_IP IP_MTU_DISCOVER IP_PMTUDISC_PROBE) (fun _ =>
    setsockopt os IPPROTO_IP IP_PKTINFO 1)
  else if is_ipv6 addr then
    try (setsockopt os IPPROTO_IPV6 IPV6_MTU_DISCOVER IP_PMTUDISC_PROBE) (fun _ =>
    setsockopt os IPPROTO_IPV6 IPV6_RECVPKTINFO 1)
  else mret (Ok tt).

Definition init (os : SetupOs) : Act SockOpts (result unit io_error) :=
  let cmsg_platform_space := if is_linux then CMSG_SPACE (size_of pod_in6_pktinfo) else 0 in
  _ ← assert (CMSG_SPACE (size_of pod_c_int) + cmsg_platform_space <=? CMSG_BUF_LEN);
  _ ← assert (cmsghdr_align <=? Aligned_align);
  try (mret (os_local_addr os)) (fun addr =>
  try (wants_recvtos os addr) (fun wanted =>
  try (if (wanted : bool) then setsockopt os IPPROTO_IP IP_RECVTOS 1 else mret (Ok tt)) (fun _ =>
  try (init_linux os addr) (fun _ =>
  if is_ipv6 addr then setsockopt os IPPROTO_IPV6 IPV6_RECVTCLASS 1 else mret (Ok tt))))).

(** [UdpSocket::from_std] at time [now]: the new socket's [last_send_error];
    [checked_sub] fails when the clock cannot represent the instant. *)
Definition from_std (os : SetupOs) (now : Z) (checked_sub : Z -> Z -> option Z)
  : Act SockOpts (result Z io_error) :=
  try (mret (os_set_nonblocking os)) (fun _ =>
  try (init os) (fun _ =>
  try (mret (os_async_fd os)) (fun _ =>
  mret (Ok (default now (checked_sub now (2 * IO_ERROR_LOG_INTERVAL))))))).

End unix.
