(* ===== verification/UnixLinux.v ===== *)
(** The parameters of [Unix.v] for 64-bit Linux: the constants and structures
    of its headers, and the layout of its socket addresses. *)

From S2P Require Import Prelude Errors UdpProto Cmsg CmsgSpec Unix.

Local Open Scope Z_scope.

Definition linux_in_pktinfo : pod in_pktinfo :=
  mk_pod 12 4
    (fun i => le_bytes 4 (ipi_ifindex i) ++ le_bytes 4 (ipi_spec_dst i) ++ le_bytes 4 (ipi_addr i))
    (fun l => mk_in_pktinfo (to_signed 4 (of_le_bytes (take 4 l))) (of_le_bytes (take 4 (drop 4 l)))
      (of_le_bytes (drop 8 l))).

Definition linux_in6_pktinfo : pod in6_pktinfo :=
  mk_pod 20 4
    (fun i => to_bytes (pod_bytes 16) (ipi6_addr i) ++ le_bytes 4 (ipi6_ifindex i))
    (fun l => mk_in6_pktinfo (take 16 l) (of_le_bytes (drop 16 l))).

(** Ports are in network order. *)
Definition be16 (p : Z) : list byte := [byte_of_Z (Z.shiftr p 8); byte_of_Z p].
Definition of_be16 (l : list byte) : Z :=
  match l with [a; b] => Z_of_byte a * 256 + Z_of_byte b | _ => 0 end.

Definition linux_SockAddr (a : SocketAddr) : list byte :=
  match a with
  | SocketAddrV4 ip port => le_bytes 2 2 ++ be16 port ++ ip ++ replicate 8 Byte.x00
  | SocketAddrV6 ip port flowinfo scope_id =>
      le_bytes 2 10 ++ be16 port ++ le_bytes 4 flowinfo ++ ip ++ le_bytes 4 scope_id
  end.

Definition linux_read_v4 (l : list byte) : SocketAddr :=
  SocketAddrV4 (take 4 (drop 4 l)) (of_be16 (take 2 (drop 2 l))).

Definition linux_read_v6 (l : list byte) : SocketAddr :=
  SocketAddrV6 (take 16 (drop 8 l)) (of_be16 (take 2 (drop 2 l))) (of_le_bytes (take 4 (drop 4 l)))
    (of_le_bytes (take 4 (drop 24 l))).

#[local] Instance linux_libc : Libc := {|
  IPPROTO_IP := 0;
  IPPROTO_IPV6 := 41;
  SOL_UDP := 17;
  IP_TOS := 1;
  IP_RECVTOS := 13;
  IP_PKTINFO := 8;
  IP_MTU_DISCOVER := 10;
  IP_PMTUDISC_PROBE := 3;
  IPV6_V6ONLY := 26;
  IPV6_TCLASS := 67;
  IPV6_RECVTCLASS := 66;
  IPV6_PKTINFO := 50;
  IPV6_RECVPKTINFO := 49;
  IPV6_MTU_DISCOVER := 23;
  UDP_SEGMENT := 103;
  AF_INET := 2;
  AF_INET6 := 10;
  EIO := 5;
  MSG_TRUNC := 32;
  sockaddr_storage_size := 128;
  pod_in_pktinfo := linux_in_pktinfo;
  pod_in6_pktinfo := linux_in6_pktinfo;
  SockAddr_from := linux_SockAddr;
  ss_family := fun l => of_le_bytes (take 2 l);
  read_v4 := linux_read_v4;
  read_v6 := linux_read_v6;
|}.

#[local] Instance linux_target : Target := linux.
#[local] Existing Instance linux_cmsg.
#[local] Existing Instance linux_cmsg_laws.

#[local] Instance linux_libc_laws : LibcLaws.
Proof.
  split.
  - unfold control_types. apply (bool_decide_eq_true_1 _). vm_compute. reflexivity.
  - unfold control_types, c_int_range. repeat constructor; cbn; lia.
  - split; [done|]. intros x. reflexivity.
  - done.
  - intros x Hx. change (of_le_bytes (le_bytes 4 (ipi_addr x)) = ipi_addr x).
    rewrite of_le_bytes_le_bytes. by apply Z.mod_small.
  - split; [done|]. intros x. cbn [to_bytes pod_in6_pktinfo linux_libc linux_in6_pktinfo].
    by rewrite len_app, (proj2 (pod_bytes_sized 16 ltac:(done))), len_le_bytes.
  - done.
  - intros x Hx. cbn [to_bytes of_bytes pod_in6_pktinfo linux_libc linux_in6_pktinfo ipi6_addr].
    rewrite <- Hx at 1. rewrite pod_bytes_exact. apply take_app_length'. unfold len in Hx. lia.
  - done.
  - vm_compute. discriminate.
  - vm_compute. discriminate.
  - vm_compute. discriminate.
Qed.

(** The three control messages of a segmented transmit with an IPv6 source take
    the whole of the buffer: there is not a byte to spare. *)
Lemma control_room_exact :
  CMSG_SPACE (size_of pod_c_int) + CMSG_SPACE (size_of pod_u16) + CMSG_SPACE (size_of pod_in6_pktinfo) =
  CMSG_BUF_LEN.
Proof. reflexivity. Qed.

(** The layouts of [socket2] and of the code agree. *)
Definition addr_ok (a : SocketAddr) : Prop :=
  match a with
  | SocketAddrV4 ip port => len ip = 4 /\ 0 <= port < 2 ^ 16
  | SocketAddrV6 ip port flowinfo scope_id =>
      len ip = 16 /\ 0 <= port < 2 ^ 16 /\ 0 <= flowinfo < 2 ^ 32 /\ 0 <= scope_id < 2 ^ 32
  end.

Lemma be16_roundtrip p : 0 <= p < 2 ^ 16 -> of_be16 (be16 p) = p.
Proof.
  intros Hp. unfold of_be16, be16. rewrite !Z_of_byte_of_Z, Z.shiftr_div_pow2 by lia.
  Z.div_mod_to_equations. lia.
Qed.

Lemma linux_SockAddr_roundtrip a :
  addr_ok a ->
  if is_ipv4 a then ss_family (SockAddr_from a) = AF_INET /\ read_v4 (SockAddr_from a) = a
  else ss_family (SockAddr_from a) = AF_INET6 /\ read_v6 (SockAddr_from a) = a.
Proof.
  destruct a as [ip port|ip port flow scope]; cbn [addr_ok is_ipv4].
  - intros [Hip Hp]. split; [done|]. unfold read_v4, SockAddr_from, linux_libc, linux_read_v4, linux_SockAddr.
    change (take 2 (drop 2 _)) with (be16 port). rewrite be16_roundtrip by done. f_equal.
    change (drop 4 _) with (ip ++ replicate 8 Byte.x00). apply take_app_length'. unfold len in Hip. lia.
  - intros (Hip & Hp & Hf & Hs). split; [done|].
    unfold read_v6, SockAddr_from, linux_libc, linux_read_v6, linux_SockAddr.
    change (take 2 (drop 2 _)) with (be16 port). change (take 4 (drop 4 _)) with (le_bytes 4 flow).
    change (drop 8 _) with (ip ++ le_bytes 4 scope). change (drop 24 _) with (drop 16 (ip ++ le_bytes 4 scope)).
    rewrite be16_roundtrip, of_le_bytes_le_bytes, Z.mod_small by done.
    rewrite take_app_length', drop_app_length' by (unfold len in Hip; lia).
    change (take 4 (le_bytes 4 scope)) with (le_bytes 4 scope).
    by rewrite of_le_bytes_le_bytes, Z.mod_small by done.
Qed.
