(* ===== verification/UnixSpec.v ===== *)
(** Properties of the Unix UDP socket ([Unix.v]). *)

From S2P Require Import Prelude Errors UdpProto Cmsg CmsgSpec Unix UnixLinux.

Local Open Scope Z_scope.

Section unix.
Context `{P : Profile} `{CA : CmsgAbi} `{CL : !CmsgLaws} `{TG : Target} `{LC : Libc} `{LL : !LibcLaws}.

(** ** Messages for the kernel *)

(** The control messages a transmit asks for. *)
Definition ecn_message (t : Transmit) : message :=
  let ecn := match t_ecn t with None => 0 | Some x => EcnCodepoint_bits x end in
  if is_ipv4 (t_destination t) then mk_message IPPROTO_IP IP_TOS (to_bytes pod_IpTosTy ecn)
  else mk_message IPPROTO_IPV6 IPV6_TCLASS (to_bytes pod_c_int ecn).

Definition segment_messages (t : Transmit) : list message :=
  match t_segment_size t with
  | Some sz => [mk_message SOL_UDP UDP_SEGMENT (to_bytes pod_u16 (sz mod 2 ^ 16))]
  | None => []
  end.

Definition source_messages (t : Transmit) : list message :=
  match t_src_ip t with
  | Some (IpV4 o) => if is_linux then
      [mk_message IPPROTO_IP IP_PKTINFO (to_bytes pod_in_pktinfo (mk_in_pktinfo 0 (of_le_bytes o) 0))] else []
  | Some (IpV6 o) => if is_linux then
      [mk_message IPPROTO_IPV6 IPV6_PKTINFO (to_bytes pod_in6_pktinfo (mk_in6_pktinfo o 0))] else []
  | None => []
  end.

Definition transmit_messages (t : Transmit) : list message :=
  ecn_message t :: segment_messages t ++ source_messages t.

(** Segmentation offload is for Linux only. *)
Definition transmit_supported (t : Transmit) : Prop := is_linux = true \/ t_segment_size t = None.

(** The kernel is given exactly the transmit: its destination, its contents in
    one piece, and its control messages. *)
Definition describes (t : Transmit) (m : msghdr) : Prop :=
  msg_name m = SockAddr_from (t_destination t) /\ msg_namelen m = len (msg_name m) /\
  msg_iov m = [t_contents t] /\ msg_iovlen m = 1 /\
  carries m (transmit_messages t) /\ len (msg_control m) = CMSG_BUF_LEN.

Lemma control_type_ok level ty data :
  (level, ty) ∈ control_types -> message_ok (mk_message level ty data).
Proof. intros Hin. pose proof control_types_c_int as HF. rewrite Forall_forall in HF. apply (HF _ Hin). Qed.

Ltac solve_type := apply control_type_ok; unfold control_types; set_solver.

Lemma IpTosTy_sized : pod_sized pod_IpTosTy.
Proof. unfold pod_IpTosTy. case_bool_decide; auto with udx. Qed.

Lemma IpTosTy_align : align_of pod_IpTosTy <= cmsghdr_align.
Proof. pose proof c_int_align. unfold pod_IpTosTy. case_bool_decide; cbn; lia. Qed.

Lemma IpTosTy_space : CMSG_SPACE (size_of pod_IpTosTy) <= CMSG_SPACE (size_of pod_c_int).
Proof. pose proof u8_space. unfold pod_IpTosTy. by case_bool_decide. Qed.

Lemma len_to_bytes {A} (T : pod A) x : pod_sized T -> len (to_bytes T x) = size_of T.
Proof. intros HT. apply HT. Qed.

Lemma SPACE_nonneg n : 0 <= n -> 0 <= CMSG_SPACE n.
Proof. intros Hn. pose proof (SPACE_hdr _ Hn). pose proof hdr_size_pos. lia. Qed.

Lemma ecn_space t : space [ecn_message t] <= CMSG_SPACE (size_of pod_c_int).
Proof.
  pose proof IpTosTy_space. cbn [space]. unfold ecn_message.
  destruct (is_ipv4 _); cbn [cm_data]; rewrite ?(len_to_bytes _ _ IpTosTy_sized), ?(len_to_bytes _ _ pod_c_int_sized); lia.
Qed.

Lemma segment_space t : space (segment_messages t) <= CMSG_SPACE (size_of pod_u16).
Proof.
  pose proof (SPACE_nonneg (size_of pod_u16) ltac:(done)). unfold segment_messages.
  destruct (t_segment_size t); cbn [space cm_data]; rewrite ?(len_to_bytes _ _ pod_u16_sized); lia.
Qed.

(** The encoder writes the messages of the transmit. *)
Lemma ecn_push_wp t e :
  encoded [] e -> enc_cmsg e = Some (enc_len e) -> CMSG_BUF_LEN <= msg_controllen (enc_hdr e) ->
  let ecn := match t_ecn t with None => 0 | Some x => EcnCodepoint_bits x end in
  wp (if is_ipv4 (t_destination t) then push pod_IpTosTy IPPROTO_IP IP_TOS ecn
      else push pod_c_int IPPROTO_IPV6 IPV6_TCLASS ecn) (fun _ e' =>
    encoded [ecn_message t] e' /\ same_hdr (enc_hdr e) (enc_hdr e') /\ (fresh_tail e -> fresh_tail e')) e.
Proof.
  intros HE Hc Hl ecn. pose proof control_room. pose proof IpTosTy_space. pose proof c_int_align.
  pose proof (SPACE_nonneg (size_of pod_u16) ltac:(done)).
  pose proof (SPACE_nonneg _ (proj1 in6_pktinfo_sized)). pose proof (en_len _ _ HE) as El. cbn in El.
  unfold CMSG_BUF_LEN in Hl. unfold ecn_message. fold ecn. destruct (is_ipv4 _).
  all: eapply wp_mono; [eapply push_wp; [exact HE|done| | | |]|by intros [] e' (? & ? & _ & ?)].
  all: auto using IpTosTy_sized, IpTosTy_align with udx; try solve_type; try lia; cbn; lia.
Qed.

Lemma segment_push_wp t ms e :
  encoded ms e -> (is_linux = true -> fresh_tail e) -> transmit_supported t ->
  space ms <= CMSG_SPACE (size_of pod_c_int) -> CMSG_BUF_LEN <= msg_controllen (enc_hdr e) ->
  wp (match t_segment_size t with
      | Some segment_size => set_segment_size (segment_size mod 2 ^ 16)
      | None => mret tt
      end) (fun _ e' =>
    encoded (ms ++ segment_messages t) e' /\ same_hdr (enc_hdr e) (enc_hdr e') /\
    (is_linux = true -> fresh_tail e')) e.
Proof.
  intros HE Hf Hsup Hms Hl. unfold segment_messages, CMSG_BUF_LEN in *.
  destruct (t_segment_size t) as [sz|] eqn:Es.
  2: { wp_run. rewrite app_nil_r. split_and!; [done|apply same_hdr_refl|done]. }
  destruct Hsup as [El|]; [|congruence]. unfold set_segment_size. rewrite El.
  pose proof control_room. pose proof c_int_align. pose proof (SPACE_nonneg _ (proj1 in6_pktinfo_sized)).
  eapply wp_mono; [apply (push_fresh_wp _ _ _ _ ms); auto with udx|by intros [] e' (? & ? & ?)].
  - cbn. lia.
  - solve_type.
  - lia.
Qed.

Lemma source_push_wp t ms e :
  encoded ms e -> (is_linux = true -> fresh_tail e) ->
  space ms <= CMSG_SPACE (size_of pod_c_int) + CMSG_SPACE (size_of pod_u16) ->
  CMSG_BUF_LEN <= msg_controllen (enc_hdr e) ->
  wp (match t_src_ip t with Some ip => push_src_ip ip | None => mret tt end) (fun _ e' =>
    encoded (ms ++ source_messages t) e' /\ same_hdr (enc_hdr e) (enc_hdr e')) e.
Proof.
  intros HE Hf Hms Hl. unfold source_messages, push_src_ip, CMSG_BUF_LEN in *.
  pose proof control_room. pose proof in_pktinfo_space.
  destruct (t_src_ip t) as [[o|o]|]; [destruct is_linux eqn:El..|].
  all: try (wp_run; rewrite app_nil_r; by split; [|apply same_hdr_refl]).
  all: eapply wp_mono; [apply (push_fresh_wp _ _ _ _ ms)|by intros [] e' (? & ? & ?)].
  all: first [exact HE|by apply Hf|apply in_pktinfo_sized|apply in6_pktinfo_sized
    |apply in_pktinfo_align|apply in6_pktinfo_align|solve_type|lia].
Qed.

Lemma encode_control_wp t e :
  encoded [] e -> enc_cmsg e = Some (enc_len e) -> (is_linux = true -> fresh_tail e) ->
  transmit_supported t -> CMSG_BUF_LEN <= msg_controllen (enc_hdr e) ->
  wp (encode_control t) (fun _ e' =>
    encoded (transmit_messages t) e' /\ same_hdr (enc_hdr e) (enc_hdr e')) e.
Proof.
  intros HE Hc Hf Hsup Hl. pose proof (ecn_space t). pose proof (segment_space t).
  unfold encode_control. apply wp_bind. eapply wp_mono; [by apply ecn_push_wp|].
  intros [] e1 (HE1 & Hs1 & Hf1). apply wp_bind.
  eapply wp_mono; [apply segment_push_wp; [exact HE1|by auto|done|done|]|].
  { by rewrite (same_hdr_controllen _ _ Hs1). }
  intros [] e2 (HE2 & Hs2 & Hf2). pose proof (same_hdr_trans _ _ _ Hs1 Hs2) as Hs12.
  eapply wp_mono; [apply (source_push_wp _ _ _ HE2); [done| |]|].
  - rewrite space_app. lia.
  - by rewrite (same_hdr_controllen _ _ Hs12).
  - intros [] e3 [HE3 Hs3]. rewrite <- app_assoc in HE3. split; [done|by eapply same_hdr_trans].
Qed.

(** The encoder of [prepare_msg] before the first message. *)
Lemma control_encoder h :
  len (msg_control h) = CMSG_BUF_LEN -> msg_controllen h = CMSG_BUF_LEN ->
  encoded [] (Encoder_new h) /\ enc_cmsg (Encoder_new h) = Some (enc_len (Encoder_new h)).
Proof.
  intros Hl Hc. split.
  - apply Encoder_new_encoded; rewrite Hl, ?Hc; done.
  - rewrite Encoder_new_cmsg. pose proof control_room. pose proof (SPACE_hdr (size_of pod_c_int) ltac:(done)).
    pose proof (SPACE_nonneg (size_of pod_u16) ltac:(done)).
    pose proof (SPACE_nonneg _ (proj1 in6_pktinfo_sized)). cbn [size_of pod_c_int] in *.
    rewrite (proj2 (Z.leb_le _ _)); [done|]. rewrite Hc. unfold CMSG_BUF_LEN. lia.
Qed.

(** [prepare_msg] on a control buffer of 88 bytes; on Linux, where several
    messages may follow each other, it has to be zeroed. *)
Lemma prepare_msg_describes t hdr ctrl :
  transmit_supported t -> len ctrl = CMSG_BUF_LEN -> (is_linux = true -> zeroed ctrl) ->
  exists m, prepare_msg t (SockAddr_from (t_destination t)) hdr ctrl = Ret m /\ describes t m /\
    msg_flags m = msg_flags hdr.
Proof.
  intros Hsup Hl Hz. unfold prepare_msg. set (h := mk_msghdr _ _ _ _ _ _ _).
  destruct (control_encoder h Hl eq_refl) as [HE Hcm].
  assert (msg_controllen h <= len (msg_control h)) as Hc by (cbn; by rewrite Hl).
  destruct (wp_elim _ _ _ (encode_control_wp t (Encoder_new h) HE Hcm
    (fun El => Encoder_new_fresh _ Hc (Hz El)) Hsup ltac:(done))) as ([] & e & -> & HE' & [Hs Hsl]).
  exists (finish e). split; [done|]. pose proof (finish_carries _ _ HE') as HC.
  unfold describes, finish, Encoder_drop in *. rewrite Hs in HC |- *. cbn in *. split_and!; try done. congruence.
Qed.

Lemma zeroed_ctrl_len : len zeroed_ctrl = CMSG_BUF_LEN.
Proof. unfold zeroed_ctrl. by rewrite len_replicate. Qed.

Lemma zeroed_ctrl_zeroed : zeroed zeroed_ctrl.
Proof. apply zeroed_replicate. Qed.

Lemma prepare_all_describes ts :
  Forall transmit_supported ts -> exists ms, prepare_all ts = Ret ms /\ Forall2 describes ts ms.
Proof.
  induction 1 as [|t ts Ht _ (ms & E & HF)]; [by exists []|].
  destruct (prepare_msg_describes t zeroed_msghdr zeroed_ctrl Ht zeroed_ctrl_len
    (fun _ => zeroed_ctrl_zeroed)) as (m & Em & Hd & _).
  exists (m :: ms). cbn [prepare_all]. rewrite Em. cbn [mbind outcome_bind]. rewrite E. split; [done|by constructor].
Qed.

(** ** The answers of the kernel *)

(** What [sendmmsg] answering [as] means for [n] transmits: the result and the
    answers that are left; [None] when the call needs more answers. *)
Fixpoint mmsg_result (n : Z) (answers : list (result Z io_error))
  : option (result Z io_error * list (result Z io_error)) :=
  match answers with
  | [] => None
  | Ok k :: rest => Some (Ok k, rest)
  | Err e :: rest =>
      match ioe_kind e with
      | Interrupted => mmsg_result n rest
      | PermissionDenied => Some (Err (io_error_new WouldBlock ""), rest)
      | WouldBlock => Some (Err e, rest)
      | _ => Some (Ok (Z.min n 1), rest)
      end
  end.

(** The number of calls that were made, and whether one of them failed with [EIO]. *)
Fixpoint mmsg_calls (answers : list (result Z io_error)) : nat :=
  match answers with
  | Err e :: rest => if decide (ioe_kind e = Interrupted) then Datatypes.S (mmsg_calls rest) else 1
  | _ => 1
  end.

Fixpoint mmsg_eio (answers : list (result Z io_error)) : bool :=
  match answers with
  | Err e :: rest =>
      match ioe_kind e with
      | Interrupted => mmsg_eio rest
      | PermissionDenied | WouldBlock => false
      | _ => is_linux && bool_decide (ioe_raw_os_error e = Some EIO)
      end
  | _ => false
  end.

(** The state after sending: answers consumed, messages handed over, the log of
    errors and the limit of segmentation offload. *)
Record sent_state (st : UdpSt) (rest : list (result Z io_error)) (handed : list (list msghdr)) (eio : bool)
  (st' : UdpSt) : Prop := {
  ss_send : u_send st' = rest;
  ss_handed : u_handed st' = u_handed st ++ handed;
  ss_gso : u_max_gso_segments st' =
    if eio then Z.min (u_max_gso_segments st) 1 else u_max_gso_segments st;
  ss_write : u_write_ready st' = u_write_ready st;
  ss_read : u_read_ready st' = u_read_ready st;
  ss_recv : u_recv st' = u_recv st;
}.

Lemma send_failed_wp e ts n st :
  ts <> [] ->
  wp (send_failed e ts n) (fun r st' => r = Break (Ok (Z.min n 1)) /\
    sent_state st (u_send st) [] (is_linux && bool_decide (ioe_raw_os_error e = Some EIO)) st') st.
Proof.
  intros Hne. destruct ts as [|t ts]; [done|]. unfold send_failed, log_error, udp_now. apply wp_bind.
  destruct (is_linux && _) eqn:E; wp_run; (eapply wp_lift; [done|]); wp_run;
    (split; [done|]; split; cbn; rewrite ?app_nil_r; try done).
  destruct (Z.gtb_spec (u_max_gso_segments st) 1); lia.
Qed.

Lemma sent_state_refl st : sent_state st (u_send st) [] false st.
Proof. split; try done. by rewrite app_nil_r. Qed.

Lemma sent_state_trans st r1 h1 e1 st1 r2 h2 e2 st2 :
  sent_state st r1 h1 e1 st1 -> sent_state st1 r2 h2 e2 st2 -> sent_state st r2 (h1 ++ h2) (e1 || e2) st2.
Proof.
  intros [] []. split; try congruence.
  - rewrite app_assoc. congruence.
  - rewrite ss_gso1, ss_gso0. destruct e1, e2; cbn; lia.
Qed.

Lemma sys_send_wp msgs a rest st :
  u_send st = a :: rest ->
  wp (sys_send msgs) (fun r st' => r = a /\ sent_state st rest [msgs] false st') st.
Proof. intros E. unfold sys_send, next_answer. wp_run. cbn. rewrite E. wp_run. by split. Qed.

Lemma send_loop_wp msgs ts n fuel answers r rest st :
  ts <> [] -> u_send st = answers -> mmsg_result n answers = Some (r, rest) -> (length answers < fuel)%nat ->
  wp (loop fuel (send_attempt msgs ts n)) (fun r' st' => r' = r /\
    sent_state st rest (replicate (mmsg_calls answers) msgs) (mmsg_eio answers) st') st.
Proof.
  intros Hne. revert fuel st. induction answers as [|a answers IH]; intros fuel st Es Hr Hf; [done|].
  destruct fuel as [|fuel]; [cbn in Hf; lia|]. cbn [loop]. unfold send_attempt at 1.
  apply wp_bind, wp_bind. eapply wp_mono; [by apply sys_send_wp|]. intros ? st1 [-> H1].
  destruct a as [k|e]; cbn [mmsg_result mmsg_calls mmsg_eio length] in *.
  { wp_run. injection Hr as <- <-. by split. }
  destruct (ioe_kind e) eqn:Ek; try (rewrite decide_False by done); try (wp_run; injection Hr as <- <-; by split).
  all: try (eapply wp_mono; [by apply send_failed_wp|]; intros ? st2 [-> H2]; wp_run;
    injection Hr as <- <-; split; [done|]; rewrite (ss_send _ _ _ _ _ H1) in H2;
    exact (sent_state_trans _ _ _ _ _ _ _ _ _ H1 H2)).
  wp_run. eapply wp_mono; [apply IH; [apply H1|done|lia]|]. intros r' st2 [-> H2]. split; [done|].
  exact (sent_state_trans _ _ _ _ _ _ _ _ _ H1 H2).
Qed.

Lemma BATCH_SIZE_pos : 1 <= BATCH_SIZE.
Proof. unfold BATCH_SIZE. destruct is_apple; lia. Qed.

Lemma send_mmsg_wp ts r rest st :
  ts <> [] -> Forall transmit_supported ts ->
  mmsg_result (len ts) (u_send st) = Some (r, rest) ->
  wp (send_mmsg ts) (fun r' st' => r' = r /\
    exists msgs, Forall2 describes (take (Z.to_nat BATCH_SIZE) ts) msgs /\
      sent_state st rest (replicate (mmsg_calls (u_send st)) msgs) (mmsg_eio (u_send st)) st') st.
Proof.
  intros Hne Hsup Hr. destruct (prepare_all_describes (take (Z.to_nat BATCH_SIZE) ts)) as (msgs & E & HF).
  { by apply Forall_take. }
  unfold send_mmsg. wp_run. eapply wp_lift; [exact E|]. wp_run.
  assert (mmsg_result (Z.min (len ts) BATCH_SIZE) (u_send st) = Some (r, rest)) as Hr'.
  { rewrite <- Hr. pose proof BATCH_SIZE_pos. clear -H. induction (u_send st) as [|[k|e] l IH]; cbn [mmsg_result]; [done..|].
    replace (Z.min (Z.min (len ts) BATCH_SIZE) 1) with (Z.min (len ts) 1) by lia. by rewrite IH. }
  eapply wp_mono; [eapply send_loop_wp; done || lia|]. intros r' st' [-> Hs]. split; [done|by exists msgs].
Qed.

(** [sendmsg] for one transmit after the other: the result, the transmits that
    were tried, in order, and the answers that are left. *)
Fixpoint msg_result (ts : list Transmit) (sent : Z) (answers : list (result Z io_error))
  : option (result Z io_error * list Transmit * list (result Z io_error)) :=
  match ts with
  | [] => Some (Ok sent, [], answers)
  | t :: ts' =>
      let and_try o := match o with Some (r, tried, rest) => Some (r, t :: tried, rest) | None => None end in
      match answers with
      | [] => None
      | Ok _ :: rest => and_try (msg_result ts' (sent + 1) rest)
      | Err e :: rest =>
          match ioe_kind e with
          | Interrupted => and_try (msg_result ts sent rest)
          | WouldBlock => Some (if sent =? 0 then Err e else Ok sent, [t], rest)
          | _ => and_try (msg_result ts' (sent + 1) rest)
          end
      end
  end.

Lemma log_error_wp st : wp log_error (fun _ st' => sent_state st (u_send st) [] false st') st.
Proof. unfold log_error, udp_now. wp_run. split; try done. cbn. by rewrite app_nil_r. Qed.

Definition tried_one (t : Transmit) (h : list msghdr) : Prop := exists m, h = [m] /\ describes t m.

(** The transmits [tried] were handed to the kernel, the result is [r]. *)
Definition each_post (r : result Z io_error) (tried : list Transmit) (rest : list (result Z io_error)) (st : UdpSt)
  (r' : result Z io_error) (st' : UdpSt) : Prop :=
  r' = r /\ exists hs, Forall2 tried_one tried hs /\ sent_state st rest hs false st'.

Lemma each_post_cons r t tried rest answers m st st1 r' st' :
  describes t m -> sent_state st answers [[m]] false st1 -> each_post r tried rest st1 r' st' ->
  each_post r (t :: tried) rest st r' st'.
Proof.
  intros Hd H1 (-> & hs & HF & H2). split; [done|]. exists ([m] :: hs).
  split; [constructor; [by exists m|done]|]. exact (sent_state_trans _ _ _ _ _ _ _ _ _ H1 H2).
Qed.

Lemma send_each_done fuel ts hdr ctrl st :
  wp (send_each fuel ts (len ts) hdr ctrl) (each_post (Ok (len ts)) [] (u_send st) st) st.
Proof.
  destruct fuel; cbn [send_each]; rewrite Z.ltb_irrefl; wp_run; (split; [done|]); exists [];
    (split; [constructor|apply sent_state_refl]).
Qed.

(** The first call for the transmit at [sent]. *)
Lemma send_each_call ts sent t hdr ctrl fuel a answers Q st :
  is_linux = false -> transmit_supported t -> 0 <= sent -> ts !! Z.to_nat sent = Some t ->
  len ctrl = CMSG_BUF_LEN -> u_send st = a :: answers ->
  (forall m st1, describes t m -> sent_state st answers [[m]] false st1 ->
    wp (match a with
        | Ok _ => send_each fuel ts (sent + 1) m (msg_control m)
        | Err e => match ioe_kind e with
                   | Interrupted => send_each fuel ts sent m (msg_control m)
                   | WouldBlock => if sent =? 0 then mret (Err e) else mret (Ok sent)
                   | _ => _ ← log_error; send_each fuel ts (sent + 1) m (msg_control m)
                   end
        end) Q st1) ->
  wp (send_each (Datatypes.S fuel) ts sent hdr ctrl) Q st.
Proof.
  intros Hlin Hst Hs Ht Hctrl Es Hk.
  destruct (prepare_msg_describes t hdr ctrl Hst Hctrl ltac:(congruence)) as (m & Em & Hd & _).
  cbn [send_each]. rewrite (proj2 (Z.ltb_lt sent (len ts))) by (apply lookup_lt_Some in Ht; unfold len; lia).
  wp_run. eapply wp_lift; [by apply index_fits|]. wp_run. eapply wp_lift; [exact Em|]. wp_run.
  eapply wp_mono; [by apply sys_send_wp|]. intros ? st1 [-> H1]. by apply Hk.
Qed.

Lemma send_each_wp ts sent hdr ctrl fuel answers r tried rest st :
  is_linux = false -> Forall transmit_supported ts -> 0 <= sent <= len ts -> len ctrl = CMSG_BUF_LEN ->
  u_send st = answers -> (length answers <= fuel)%nat ->
  msg_result (drop (Z.to_nat sent) ts) sent answers = Some (r, tried, rest) ->
  wp (send_each fuel ts sent hdr ctrl) (each_post r tried rest st) st.
Proof.
  intros Hlin Hsup. revert sent hdr ctrl fuel r tried st.
  induction answers as [|a answers IH]; intros sent hdr ctrl fuel r tried st Hsent Hctrl Es Hf Hr;
    destruct (drop (Z.to_nat sent) ts) as [|t ts'] eqn:Ed; try done.
  1, 2: assert (sent = len ts) as -> by (apply (f_equal length) in Ed; rewrite length_drop in Ed; unfold len in *; cbn in Ed; lia);
    cbn in Hr; injection Hr as <- <- <-; rewrite <- Es; apply send_each_done.
  assert (ts !! Z.to_nat sent = Some t) as Ht by (by rewrite <- (Nat.add_0_r (Z.to_nat sent)), <- lookup_drop, Ed).
  assert (sent + 1 <= len ts) as Hlt by (apply lookup_lt_Some in Ht; unfold len; lia).
  assert (drop (Z.to_nat (sent + 1)) ts = ts') as Ed'
    by (replace (Z.to_nat (sent + 1)) with (Z.to_nat sent + 1)%nat by lia; by rewrite <- drop_drop, Ed).
  destruct fuel as [|fuel]; [cbn in Hf; lia|]. cbn [length msg_result] in *.
  eapply send_each_call; [done| |lia|exact Ht|done|exact Es|].
  { rewrite Forall_forall in Hsup. eapply Hsup, list_elem_of_lookup_2, Ht. }
  intros m st1 Hd H1. pose proof Hd as (_ & _ & _ & _ & _ & Hcl).
  assert (forall sent' st2, 0 <= sent' <= len ts -> sent_state st answers [[m]] false st2 ->
    match msg_result (drop (Z.to_nat sent') ts) sent' answers with
    | Some (r, tried, rest) => Some (r, t :: tried, rest) | None => None end = Some (r, tried, rest) ->
    wp (send_each fuel ts sent' m (msg_control m)) (each_post r tried rest st) st2) as Hgo.
  { intros sent' st2 Hs' H2 Hr'. destruct (msg_result (drop (Z.to_nat sent') ts) sent' answers) as [[[r1 tried1] rest1]|] eqn:E1; [|done].
    injection Hr' as <- <- <-. eapply wp_mono; [eapply (IH sent'); [done|done|apply H2|lia|exact E1]|].
    intros r' st3. by eapply each_post_cons. }
  rewrite <- Ed' in Hr. destruct a as [k|e]; [by apply Hgo; [lia| |]|].
  destruct (ioe_kind e) eqn:Ek; try (wp_run; eapply wp_mono; [apply log_error_wp|]; intros [] st2 H2;
    rewrite (ss_send _ _ _ _ _ H1) in H2; apply Hgo; [lia|exact (sent_state_trans _ _ _ _ _ _ _ _ _ H1 H2)|exact Hr]).
  - injection Hr as <- <- <-. destruct (sent =? 0); wp_run; (split; [done|]; exists [[m]]; split; [|done]);
      (constructor; [by exists m|constructor]).
  - rewrite Ed', <- Ed in Hr. by apply Hgo.
Qed.

(** ** [send] and [poll_send] on every target *)

Lemma apple_not_linux : is_apple = true -> is_linux = false.
Proof. unfold is_apple, is_linux. by destruct target. Qed.

Definition send_result (ts : list Transmit) (answers : list (result Z io_error))
  : option (result Z io_error * list (result Z io_error)) :=
  if is_apple then
    match msg_result ts 0 answers with Some (r, _, rest) => Some (r, rest) | None => None end
  else mmsg_result (len ts) answers.

(** Every batch of messages that was handed to the kernel describes transmits of [ts]. *)
Definition faithful (ts : list Transmit) (hs : list (list msghdr)) : Prop :=
  Forall (fun h => exists part, part ⊆ ts /\ Forall2 describes part h) hs.

Lemma faithful_app ts hs hs' : faithful ts hs -> faithful ts hs' -> faithful ts (hs ++ hs').
Proof. apply Forall_app_2. Qed.

Lemma msg_result_tried ts sent answers r tried rest :
  msg_result ts sent answers = Some (r, tried, rest) -> tried ⊆ ts.
Proof.
  revert ts sent r tried. induction answers as [|a answers IH]; intros [|t ts] sent r tried E;
    cbn in E; try (injection E as <- <- <-; set_solver); [done|].
  assert (forall ts' sent', ts' ⊆ t :: ts ->
    match msg_result ts' sent' answers with
    | Some (r, tried, rest) => Some (r, t :: tried, rest) | None => None end = Some (r, tried, rest) ->
    tried ⊆ t :: ts) as Hgo.
  { intros ts' sent' Hts E'. destruct (msg_result ts' sent' answers) as [[[r1 tried1] rest1]|] eqn:E1; [|done].
    injection E' as <- <- <-. apply IH in E1. set_solver. }
  destruct a as [k|e]; [eapply Hgo; [|exact E]; set_solver|].
  destruct (ioe_kind e); try (eapply Hgo; [|exact E]; set_solver). injection E as <- <- <-. set_solver.
Qed.

Lemma send_wp ts r rest st :
  ts <> [] -> Forall transmit_supported ts -> send_result ts (u_send st) = Some (r, rest) ->
  wp (send ts) (fun r' st' => r' = r /\ exists hs eio, faithful ts hs /\ sent_state st rest hs eio st') st.
Proof.
  intros Hne Hsup Hr. unfold send, send_result in *. destruct is_apple eqn:Ea.
  - destruct (msg_result ts 0 (u_send st)) as [[[r1 tried] rest1]|] eqn:E; [|done]. injection Hr as <- <-.
    unfold send_msg. wp_run. eapply wp_mono; [eapply (send_each_wp ts 0)|].
    + by apply apple_not_linux.
    + done.
    + pose proof (len_nonneg ts). lia.
    + apply zeroed_ctrl_len.
    + done.
    + done.
    + exact E.
    + intros r' st' (-> & hs & HF & Hs). split; [done|]. exists hs, false. split; [|done].
      apply msg_result_tried in E. clear -E HF. induction HF as [|t h tried hs (m & -> & Hd) _ IH]; [constructor|].
      constructor; [|apply IH; set_solver]. exists [t]. split; [set_solver|constructor; [done|constructor]].
  - eapply wp_mono; [by apply send_mmsg_wp|]. intros r' st' (-> & msgs & HF & Hs). split; [done|].
    do 2 eexists. split; [|exact Hs]. apply Forall_replicate. exists (take (Z.to_nat BATCH_SIZE) ts).
    split; [apply subseteq_take|done].
Qed.

(** The kernel never counts more messages than it was given. *)
Definition kernel_counts (ts : list Transmit) (answers : list (result Z io_error)) : Prop :=
  Forall (fun a => match a with
    | Ok n => is_apple = true \/ 0 <= n <= Z.min (len ts) BATCH_SIZE
    | Err _ => True
    end) answers.

(** [send] never claims more than it was given, fails only when it would block,
    and consumes answers. *)
Definition send_ok (ts : list Transmit) (r : result Z io_error) : Prop :=
  match r with
  | Ok n => 0 <= n <= len ts
  | Err e => ioe_kind e = WouldBlock
  end.

Lemma msg_result_ok ts0 ts sent answers r tried rest :
  0 <= sent -> sent + len ts = len ts0 -> msg_result ts sent answers = Some (r, tried, rest) ->
  send_ok ts0 r /\ exists used, answers = used ++ rest.
Proof.
  revert ts sent r tried. induction answers as [|a answers IH]; intros [|t ts] sent r tried H0 Hl E;
    cbn in E; rewrite ?len_nil, ?len_cons in Hl.
  1, 3: injection E as <- <- <-; (split; [cbn; lia|by exists []]).
  { done. }
  assert (forall ts' sent', 0 <= sent' -> sent' + len ts' = len ts0 ->
    match msg_result ts' sent' answers with
    | Some (r, tried, rest) => Some (r, t :: tried, rest) | None => None end = Some (r, tried, rest) ->
    send_ok ts0 r /\ exists used, a :: answers = used ++ rest) as Hgo.
  { intros ts' sent' H0' Hl' E'. destruct (msg_result ts' sent' answers) as [[[r1 tried1] rest1]|] eqn:E1; [|done].
    injection E' as <- <- <-. apply IH in E1 as [Hok [used ->]]; [|done|done]. split; [done|by exists (a :: used)]. }
  destruct a as [k|e]; [eapply Hgo; [| |exact E]; lia|].
  destruct (ioe_kind e) eqn:Ek; try (eapply Hgo; [| |exact E]; lia).
  - injection E as <- <- <-. pose proof (len_nonneg ts). split; [|by exists [Err e]].
    destruct (sent =? 0); cbn; [done|lia].
  - eapply (Hgo (t :: ts) sent); [lia|rewrite len_cons; lia|exact E].
Qed.

Lemma mmsg_result_ok ts answers r rest :
  is_apple = false -> kernel_counts ts answers -> mmsg_result (len ts) answers = Some (r, rest) ->
  send_ok ts r /\ exists used, answers = used ++ rest.
Proof.
  intros Ha. pose proof (len_nonneg ts). induction answers as [|[k|e] answers IH]; intros HK E; [done|..].
  - cbn in E. injection E as <- <-. apply Forall_cons_1 in HK as [[Hk|Hk] _]; [congruence|].
    split; [cbn; lia|by exists [Ok k]].
  - apply Forall_cons_1 in HK as [_ HK]. cbn in E.
    destruct (ioe_kind e) eqn:Ek; try (injection E as <- <-; split; [cbn; done || lia|by exists [Err e]]).
    apply IH in E as [Hok [used ->]]; [|done]. split; [done|by exists (Err e :: used)].
Qed.

Lemma send_result_ok ts answers r rest :
  kernel_counts ts answers -> send_result ts answers = Some (r, rest) ->
  send_ok ts r /\ exists used, answers = used ++ rest.
Proof.
  intros HK E. unfold send_result in E. destruct is_apple eqn:Ea; [|by apply mmsg_result_ok].
  destruct (msg_result ts 0 answers) as [[[r1 tried] rest1]|] eqn:E1; [|done]. injection E as <- <-.
  by eapply msg_result_ok; [| |exact E1].
Qed.

(** The answer of [poll_send] when the descriptor answers [ws] and the kernel
    answers [answers]; [None] when it has to wait for more answers. *)
Fixpoint poll_result (ts : list Transmit) (ws : list (poll (result unit io_error)))
  (answers : list (result Z io_error)) : option (poll (result Z io_error)) :=
  match ws with
  | [] => None
  | Pending :: _ => Some Pending
  | Ready (Err e) :: _ => Some (Ready (Err e))
  | Ready (Ok _) :: ws =>
      match send_result ts answers with
      | None => None
      | Some (r, rest) =>
          match try_io r with
          | Some r => Some (Ready r)
          | None => poll_result ts ws rest
          end
      end
  end.

(** What polling does to the rest of the state. *)
Record polled (ts : list Transmit) (st st' : UdpSt) : Prop := {
  po_handed : exists hs, faithful ts hs /\ u_handed st' = u_handed st ++ hs;
  po_gso : u_max_gso_segments st' = u_max_gso_segments st \/
    u_max_gso_segments st' = Z.min (u_max_gso_segments st) 1;
  po_read : u_read_ready st' = u_read_ready st;
  po_recv : u_recv st' = u_recv st;
}.

Lemma polled_trans ts st st1 st2 : polled ts st st1 -> polled ts st1 st2 -> polled ts st st2.
Proof.
  intros [(h1 & F1 & E1) G1 ? ?] [(h2 & F2 & E2) G2 ? ?]. split; try congruence.
  - exists (h1 ++ h2). rewrite E2, E1, app_assoc. split; [by apply faithful_app|done].
  - lia.
Qed.

Lemma sent_state_polled ts st rest hs eio st' : faithful ts hs -> sent_state st rest hs eio st' -> polled ts st st'.
Proof. intros HF []. split; try done; [by exists hs|]. destruct eio; auto. Qed.

Lemma write_ready_wp w ws st :
  u_write_ready st = w :: ws ->
  wp poll_write_ready (fun r st' => r = w /\ st' = st <| u_write_ready := ws |>) st.
Proof. intros E. unfold poll_write_ready, next_answer. wp_run. rewrite E. by wp_run. Qed.

Lemma poll_loop_wp ts ws answers r fuel st :
  ts <> [] -> Forall transmit_supported ts -> u_write_ready st = ws -> u_send st = answers ->
  poll_result ts ws answers = Some r -> (length ws < fuel)%nat ->
  wp (loop fuel (io_attempt poll_write_ready (send ts))) (fun r' st' => r' = r /\ polled ts st st') st.
Proof.
  intros Hne Hsup. revert answers fuel st. induction ws as [|w ws IH]; intros answers fuel st Ew Es Hr Hf; [done|].
  destruct fuel as [|fuel]; [cbn in Hf; lia|]. cbn [loop length poll_result] in *. unfold io_attempt at 1.
  apply wp_bind, wp_bind. eapply wp_mono; [by apply write_ready_wp|]. intros ? st1 [-> ->].
  assert (polled ts st (st <| u_write_ready := ws |>)) as H1.
  { split; try done; [|by left]. exists []. split; [constructor|by rewrite app_nil_r]. }
  destruct w as [[[]|e]|]; try (wp_run; injection Hr as <-; by split).
  destruct (send_result ts answers) as [[r1 rest]|] eqn:Er; [|done].
  wp_run. eapply wp_mono; [eapply send_wp; [done|done|cbn; rewrite Es; exact Er]|].
  intros ? st2 (-> & hs & eio & HF & H2). pose proof (polled_trans _ _ _ _ H1 (sent_state_polled _ _ _ _ _ _ HF H2)).
  destruct (try_io r1) as [r2|]; [wp_run; injection Hr as <-; by split|]. wp_run.
  eapply wp_mono; [eapply IH; [apply H2|apply H2|done|lia]|]. intros r' st3 [-> H3].
  split; [done|by eapply polled_trans].
Qed.

Lemma poll_send_wp ts r st :
  ts <> [] -> Forall transmit_supported ts ->
  poll_result ts (u_write_ready st) (u_send st) = Some r ->
  wp (poll_send ts) (fun r' st' => r' = r /\ polled ts st st') st.
Proof. intros Hne Hsup Hr. unfold poll_send. wp_run. eapply poll_loop_wp; done || lia. Qed.

(** What [poll_send] can answer: a count within the slice, or an error of the
    descriptor itself; errors of the system call never reach the caller. *)
Lemma poll_result_ok ts ws answers r :
  kernel_counts ts answers -> poll_result ts ws answers = Some r ->
  match r with
  | Ready (Ok n) => 0 <= n <= len ts
  | Ready (Err e) => Ready (Err e) ∈ ws
  | Pending => True
  end.
Proof.
  revert answers. induction ws as [|w ws IH]; intros answers HK E; cbn in E; [done|].
  destruct w as [[[]|e]|]; try (injection E as <-; done || by left).
  destruct (send_result ts answers) as [[r1 rest]|] eqn:Er; [|done].
  destruct (send_result_ok _ _ _ _ HK Er) as [Hok [used ->]].
  assert (kernel_counts ts rest) as HK' by (unfold kernel_counts in HK; rewrite Forall_app in HK; apply HK).
  destruct r1 as [n|e]; cbn in E, Hok.
  - by injection E as <-.
  - rewrite decide_True in E by done. specialize (IH _ HK' E). destruct r as [[n|e']|]; try done. by right.
Qed.

(** ** Contracts *)

(** C30: the messages handed to the kernel.  [prepare_msg] turns every transmit
    into a header with its destination, its contents in one piece, and exactly
    the control messages for its congestion codepoint, its segment size and
    its source address, which an iteration reads back; whatever the transmit,
    they fit the 88 bytes of the control buffer, so the encoder neither panics
    nor leaves it.  Only a segment size on a target other than Linux panics. *)
Theorem prepare_msg_contract t hdr :
  let r := prepare_msg t (SockAddr_from (t_destination t)) hdr zeroed_ctrl in
  if is_linux || bool_decide (t_segment_size t = None) then
    exists m, r = Ret m /\ describes t m /\ read_messages m = Ret (transmit_messages t) /\
      space (transmit_messages t) <= CMSG_BUF_LEN
  else r = Panic ExplicitPanic.
Proof.
  intros r. destruct (is_linux || _) eqn:E.
  - assert (transmit_supported t) as Hsup.
    { apply orb_true_iff in E as [E|E%bool_decide_eq_true]; [by left|by right]. }
    destruct (prepare_msg_describes t hdr zeroed_ctrl Hsup zeroed_ctrl_len (fun _ => zeroed_ctrl_zeroed))
      as (m & Em & Hd & _). pose proof Hd as (_ & _ & _ & _ & HC & Hl). exists m. split_and!; [done|done| |].
    + apply read_messages_carries; [done|]. pose proof c_int_align. lia.
    + destruct HC as (_ & <- & ?). lia.
  - apply orb_false_iff in E as [El Es%bool_decide_eq_false]. destruct (t_segment_size t) as [sz|] eqn:Esz; [|done].
    unfold r, prepare_msg, encode_control. set (h := mk_msghdr _ _ _ _ _ _ _).
    destruct (control_encoder h zeroed_ctrl_len eq_refl) as [HE Hcm].
    destruct (wp_elim _ _ _ (ecn_push_wp t (Encoder_new h) HE Hcm ltac:(done))) as ([] & e & Ee & _).
    unfold mbind, act_bind. cbn zeta in Ee |- *. rewrite Ee, Esz. unfold set_segment_size. by rewrite El.
Qed.

Definition interrupted (a : result Z io_error) : Prop :=
  match a with Ok _ => False | Err e => ioe_kind e = Interrupted end.

Lemma mmsg_interrupted n ints answers :
  Forall interrupted ints ->
  mmsg_result n (ints ++ answers) = mmsg_result n answers /\
  mmsg_calls (ints ++ answers) = (length ints + mmsg_calls answers)%nat /\
  mmsg_eio (ints ++ answers) = mmsg_eio answers.
Proof.
  induction 1 as [|[k|e] ints Hi _ (IH1 & IH2 & IH3)]; [done|done|]. cbn in Hi.
  cbn [app mmsg_result mmsg_calls mmsg_eio length]. rewrite decide_True by done. rewrite Hi, IH1, IH2, IH3.
  by split_and!.
Qed.

(** C31: [send] with [sendmmsg].  However often the call is interrupted, it is
    repeated with the same messages, which describe the first 32 transmits.
    Then the count of the kernel is passed on; a full buffer, which the kernel
    reports as a lack of permission, and a call that would block become
    [WouldBlock]; any other error drops the first transmit only, and an I/O
    error on Linux turns segmentation offload off for good. *)
Theorem unix_send_contract ts ints a rest st :
  is_apple = false -> ts <> [] -> Forall transmit_supported ts ->
  u_send st = ints ++ a :: rest -> Forall interrupted ints -> ~ interrupted a ->
  exists msgs st',
    send ts st = Ret (match a with
      | Ok n => Ok n
      | Err e => match ioe_kind e with
          | PermissionDenied => Err (io_error_new WouldBlock "")
          | WouldBlock => Err e
          | _ => Ok 1
          end
      end, st') /\
    Forall2 describes (take 32 ts) msgs /\
    u_handed st' = u_handed st ++ replicate (Datatypes.S (length ints)) msgs /\ u_send st' = rest /\
    u_max_gso_segments st' =
      if (match a with
          | Ok _ => false
          | Err e => is_linux && bool_decide (ioe_raw_os_error e = Some EIO) &&
              negb (bool_decide (ioe_kind e = PermissionDenied)) && negb (bool_decide (ioe_kind e = WouldBlock))
          end)
      then Z.min (u_max_gso_segments st) 1 else u_max_gso_segments st.
Proof.
  intros Ha Hne Hsup Es His Hna. destruct (mmsg_interrupted (len ts) ints (a :: rest) His) as (E1 & E2 & E3).
  assert (Z.min (len ts) 1 = 1) as E0.
  { destruct ts as [|t ts]; [done|]. rewrite len_cons. pose proof (len_nonneg ts). lia. }
  assert (exists r, mmsg_result (len ts) (a :: rest) = Some (r, rest) /\
    r = match a with Ok n => Ok n | Err e => match ioe_kind e with
      | PermissionDenied => Err (io_error_new WouldBlock "") | WouldBlock => Err e | _ => Ok 1 end end) as (r & Er & ->).
  { cbn [mmsg_result]. rewrite E0. destruct a as [k|e]; [by eexists|]. cbn in Hna. destruct (ioe_kind e); try done; by eexists. }
  rewrite <- Es in E1, E2, E3. rewrite Er in E1. unfold send. rewrite Ha.
  destruct (wp_elim _ _ _ (send_mmsg_wp ts _ rest st Hne Hsup E1)) as (r' & st' & E & -> & msgs & HF & Hs).
  exists msgs, st'. unfold BATCH_SIZE in HF. rewrite Ha in HF. rewrite E2, E3 in Hs.
  assert (mmsg_calls (a :: rest) = 1%nat) as Ec.
  { destruct a as [k|e]; [done|]. cbn in Hna |- *. by rewrite decide_False. }
  rewrite Ec, Nat.add_1_r in Hs. destruct Hs. split_and!; [done|done|done|done|]. rewrite ss_gso0.
  destruct a as [k|e]; [done|]. cbn in Hna |- *.
  destruct (ioe_kind e) eqn:Ek; rewrite ?andb_true_r; try done; by rewrite andb_false_r.
Qed.

(** [poll_send] serves the socket.  With a kernel that does not count more
    messages than it is given, [poll_send] answers without a panic; a count is
    within the slice, an error is one of the descriptor, never one of the
    system call; and every message handed to the kernel describes one of the
    transmits. *)
Theorem unix_poll_send_contract ts r st :
  ts <> [] -> Forall transmit_supported ts -> kernel_counts ts (u_send st) ->
  poll_result ts (u_write_ready st) (u_send st) = Some r ->
  exists st', poll_send ts st = Ret (r, st') /\ polled ts st st' /\
    match r with
    | Ready (Ok n) => 0 <= n <= len ts
    | Ready (Err e) => Ready (Err e) ∈ u_write_ready st
    | Pending => True
    end.
Proof.
  intros Hne Hsup HK Hr. destruct (wp_elim _ _ _ (poll_send_wp ts r st Hne Hsup Hr)) as (r' & st' & E & -> & Hp).
  exists st'. split_and!; [done|done|by eapply poll_result_ok].
Qed.

End unix.

(** ** The contracts at work *)

#[local] Existing Instance linux_cmsg.
#[local] Existing Instance linux_cmsg_laws.
#[local] Existing Instance linux_libc.
#[local] Existing Instance linux_libc_laws.
#[local] Existing Instance linux_target.
#[local] Instance unix_profile : Profile := mk_Profile true true.

(** Two segments to an IPv6 peer, from a given source address. *)
Definition six : list byte := replicate 15 Byte.x00 ++ [Byte.x01].
Definition segmented : Transmit :=
  mk_Transmit (SocketAddrV6 six 4000 0 0) (Some Ect0) (replicate 20 Byte.x2a) (Some 10) (Some (IpV6 six)).

Lemma segmented_supported : Forall transmit_supported [segmented].
Proof. constructor; [by left|constructor]. Qed.

Lemma prepare_msg_contract_witness :
  exists m, prepare_msg segmented (SockAddr_from (t_destination segmented)) zeroed_msghdr zeroed_ctrl = Ret m /\
    read_messages m = Ret (transmit_messages segmented) /\ length (transmit_messages segmented) = 3%nat /\
    space (transmit_messages segmented) = 88.
Proof.
  destruct (prepare_msg_contract segmented zeroed_msghdr) as (m & E & _ & Er & _).
  exists m. split_and!; [exact E|exact Er|reflexivity|reflexivity].
Defined.

Definition interrupt : io_error := mk_io_error Interrupted "interrupted" (Some 4).
Definition io_failure : io_error := mk_io_error OtherKind "input/output error" (Some 5).
Definition no_buffers : io_error := mk_io_error PermissionDenied "operation not permitted" (Some 1).

Definition udp_with (ws : list (poll (result unit io_error))) (answers : list (result Z io_error)) : UdpSt :=
  mk_UdpSt 0 64 (fun _ => 0) 0 ws [] answers [] [].

(** An interrupted call, then an I/O error: one transmit is dropped, offload is off. *)
Lemma unix_send_contract_witness :
  exists msgs st', send [segmented] (udp_with [] [Err interrupt; Err io_failure]) = Ret (Ok 1, st') /\
    Forall2 describes [segmented] msgs /\ u_handed st' = [msgs; msgs] /\ u_max_gso_segments st' = 1.
Proof.
  destruct (unix_send_contract [segmented] [Err interrupt] (Err io_failure) [] (udp_with [] [Err interrupt; Err io_failure]))
    as (msgs & st' & E & HF & Hh & _ & Hg).
  - reflexivity.
  - discriminate.
  - exact segmented_supported.
  - reflexivity.
  - repeat constructor.
  - discriminate.
  - exists msgs, st'. split_and!; [exact E|exact HF|exact Hh|exact Hg].
Defined.

(** A full send buffer makes the socket wait. *)
Lemma unix_poll_send_contract_witness :
  exists st', poll_send [segmented] (udp_with [Ready (Ok tt); Pending] [Err no_buffers]) = Ret (Pending, st') /\
    polled [segmented] (udp_with [Ready (Ok tt); Pending] [Err no_buffers]) st'.
Proof.
  destruct (unix_poll_send_contract [segmented] Pending (udp_with [Ready (Ok tt); Pending] [Err no_buffers]))
    as (st' & E & Hp & _).
  - discriminate.
  - exact segmented_supported.
  - repeat constructor.
  - reflexivity.
  - exists st'. by split.
Defined.
