(* ===== verification/UnixRecvSpec.v ===== *)
(** Properties of the receiving side and of the setup of the Unix UDP socket
    ([Unix.v]). *)

From S2P Require Import Prelude Errors UdpProto Cmsg CmsgSpec Unix UnixLinux.

Local Open Scope Z_scope.

Section unix.
Context `{P : Profile} `{CA : CmsgAbi} `{CL : !CmsgLaws} `{TG : Target} `{LC : Libc} `{LL : !LibcLaws}.

(** ** Receiving *)

(** The control messages a kernel attaches to a datagram. *)
Inductive kmsg :=
  | KTos (ty tos : Z)
  | KTclass (tclass : Z)
  | KTclass8 (tclass : Z)
  | KPktinfo (i : in_pktinfo)
  | KPktinfo6 (i : in6_pktinfo)
  | KOther (m : message).

Definition kmsg_message (k : kmsg) : message :=
  match k with
  | KTos ty tos => mk_message IPPROTO_IP ty (to_bytes pod_u8 tos)
  | KTclass c => mk_message IPPROTO_IPV6 IPV6_TCLASS (to_bytes pod_c_int c)
  | KTclass8 c => mk_message IPPROTO_IPV6 IPV6_TCLASS (to_bytes pod_u8 c)
  | KPktinfo i => mk_message IPPROTO_IP IP_PKTINFO (to_bytes pod_in_pktinfo i)
  | KPktinfo6 i => mk_message IPPROTO_IPV6 IPV6_PKTINFO (to_bytes pod_in6_pktinfo i)
  | KOther m => m
  end.

(** The formats of the kernels; the one-byte traffic class is a macOS quirk. *)
Definition kmsg_ok (k : kmsg) : Prop :=
  match k with
  | KTos ty _ => ty = IP_TOS \/ ty = IP_RECVTOS
  | KTclass c => c_int_range c
  | KTclass8 _ => target = macos
  | KPktinfo i => 0 <= ipi_addr i < 2 ^ 32
  | KPktinfo6 i => len (ipi6_addr i) = 16
  | KOther m => (cm_level m, cm_type m) ∉ control_types
  end.

Definition kmsg_tos (k : kmsg) : option Z :=
  match k with
  | KTos _ tos => Some (tos mod 2 ^ 8)
  | KTclass c | KTclass8 c => Some (c mod 2 ^ 8)
  | _ => None
  end.

Definition kmsg_dst (k : kmsg) : option IpAddr :=
  match k with
  | KPktinfo i => Some (IpV4 (le_bytes 4 (ipi_addr i)))
  | KPktinfo6 i => Some (IpV6 (ipi6_addr i))
  | _ => None
  end.

(** What the loop of [decode_recv] keeps of a message. *)
Definition noted (k : kmsg) (s : Z * option IpAddr) : Z * option IpAddr :=
  (default (fst s) (kmsg_tos k), match kmsg_dst k with Some ip => Some ip | None => snd s end).

Lemma kind_decide l t l' t' : (l =? l') && (t =? t') = bool_decide ((l, t) = (l', t')).
Proof.
  apply eq_true_iff_eq. rewrite bool_decide_eq_true, andb_true_iff, !Z.eqb_eq.
  split; [by intros [-> ->]|by intros [=]].
Qed.

Lemma control_kinds i j a b :
  control_types !! i = Some a -> control_types !! j = Some b -> i <> j -> a <> b.
Proof. intros Hi Hj Hij ->. by eapply Hij, NoDup_lookup; [apply control_types_distinct|..]. Qed.

(** Settles which of the control messages a message is. *)
Ltac kind_index a :=
  lazymatch a with
  | (IPPROTO_IP, IP_TOS) => constr:(0%nat)
  | (IPPROTO_IP, IP_RECVTOS) => constr:(1%nat)
  | (IPPROTO_IPV6, IPV6_TCLASS) => constr:(2%nat)
  | (IPPROTO_IP, IP_PKTINFO) => constr:(3%nat)
  | (IPPROTO_IPV6, IPV6_PKTINFO) => constr:(4%nat)
  end.

Ltac differ :=
  lazymatch goal with
  | |- ?a <> ?b =>
      let i := kind_index a in let j := kind_index b in exact (control_kinds i j a b eq_refl eq_refl ltac:(done))
  end.

Ltac decide_kinds :=
  rewrite !kind_decide;
  repeat match goal with
  | |- context [bool_decide (?a = ?b)] =>
      first [rewrite (bool_decide_eq_true_2 (a = b)) by done
            |rewrite (bool_decide_eq_false_2 (a = b)) by differ]
  end; cbn [orb andb].

Lemma decode_cmsg_message hdr off k s :
  0 <= off -> message_at (msg_control hdr) off (kmsg_message k) ->
  off + CMSG_SPACE (len (cm_data (kmsg_message k))) <= len (msg_control hdr) -> kmsg_ok k ->
  decode_cmsg hdr off s = Ret (tt, noted k s).
Proof.
  intros Ho Hm Hb Hk. pose proof (len_nonneg (cm_data (kmsg_message k))) as Hn. pose proof (SPACE_hdr _ Hn).
  pose proof hdr_size_pos. pose proof c_int_align.
  unfold decode_cmsg, mbind at 1, act_bind at 1, lift. rewrite (read_cmsghdr_message _ _ _ Ho Hm Hb).
  cbn [cmsg_level cmsg_type cmsg_len]. unfold mbind, act_bind.
  destruct k as [ty tos|c|c|i|i|m]; cbn [kmsg_message cm_level cm_type cm_data kmsg_ok] in *.
  - destruct Hk as [-> | ->]; decide_kinds;
      rewrite (decode_message pod_u8 _ _ _ s Ho Hm) by (cbn; done || lia);
      cbn [cm_data]; by rewrite pod_u8_roundtrip.
  - decide_kinds. rewrite (proj2 pod_c_int_sized).
    rewrite (proj2 (Z.eqb_neq (CMSG_LEN _) _)), andb_false_r.
    2: { rewrite (LEN_add (size_of pod_c_int)), (LEN_add (size_of pod_u8)) by done. cbn. lia. }
    rewrite (decode_message pod_c_int _ _ _ s Ho Hm) by (cbn; done || lia). cbn [cm_data].
    by rewrite pod_c_int_roundtrip.
  - decide_kinds. rewrite (proj2 pod_u8_sized), Z.eqb_refl. cbn [andb].
    rewrite (decode_message pod_u8 _ _ _ s Ho Hm) by (cbn; done || lia). cbn [cm_data].
    by rewrite pod_u8_roundtrip.
  - decide_kinds.
    rewrite (decode_message pod_in_pktinfo _ _ _ s Ho Hm Hb in_pktinfo_align (proj1 in_pktinfo_sized) (proj2 in_pktinfo_sized i)).
    cbn [cm_data]. by rewrite in_pktinfo_addr.
  - decide_kinds.
    rewrite (decode_message pod_in6_pktinfo _ _ _ s Ho Hm Hb in6_pktinfo_align (proj1 in6_pktinfo_sized) (proj2 in6_pktinfo_sized i)).
    cbn [cm_data]. by rewrite in6_pktinfo_addr.
  - assert (forall x, x ∈ control_types -> bool_decide ((cm_level m, cm_type m) = x) = false) as Hno
      by (intros x Hx; apply bool_decide_eq_false_2; by intros <-).
    rewrite !kind_decide, !Hno by (unfold control_types; set_solver). by destruct s.
Qed.

Lemma each_decode_cmsg hdr off ks s :
  0 <= off -> messages_at (msg_control hdr) off (map kmsg_message ks) ->
  off + space (map kmsg_message ks) <= len (msg_control hdr) -> Forall kmsg_ok ks ->
  each (offsets off (map kmsg_message ks)) (decode_cmsg hdr) s = Ret (tt, foldl (fun s k => noted k s) s ks).
Proof.
  intros Ho Hms Hb Hok. revert off s Ho Hms Hb. induction Hok as [|k ks Hk _ IH]; intros off s Ho Hms Hb;
    cbn [map offsets each messages_at space foldl] in *; [done|].
  destruct Hms as [Hm Hms]. pose proof (space_nonneg (map kmsg_message ks)).
  pose proof (len_nonneg (cm_data (kmsg_message k))) as Hn. pose proof (SPACE_hdr _ Hn). pose proof hdr_size_pos.
  unfold mbind, act_bind. rewrite (decode_cmsg_message _ _ k) by (done || lia). apply IH; done || lia.
Qed.

Lemma foldl_noted ks s :
  foldl (fun s k => noted k s) s ks =
  (default (fst s) (last (omap kmsg_tos ks)),
   match last (omap kmsg_dst ks) with Some ip => Some ip | None => snd s end).
Proof.
  revert s. induction ks as [|k ks IH] using rev_ind; intros s; [by destruct s|].
  rewrite foldl_app, IH, !omap_app. cbn [foldl omap list_omap]. unfold noted.
  destruct (kmsg_tos k), (kmsg_dst k); cbn; by rewrite ?last_snoc, ?app_nil_r.
Qed.

(** The address the kernel wrote, of a family the code knows. *)
Definition name_addr (name : list byte) (a : SocketAddr) : Prop :=
  (ss_family name = AF_INET /\ a = read_v4 name) \/
  (ss_family name <> AF_INET /\ ss_family name = AF_INET6 /\ a = read_v6 name).

(** The metadata that belongs to the control messages [ks]. *)
Definition meta_of (a : SocketAddr) (length : Z) (ks : list kmsg) : RecvMeta :=
  mk_RecvMeta a length (from_bits (default 0 (last (omap kmsg_tos ks)))) (last (omap kmsg_dst ks)).

Lemma decode_recv_carries name hdr n a ks :
  carries hdr (map kmsg_message ks) -> Forall kmsg_ok ks -> name_addr name a ->
  decode_recv name hdr n = Ret (meta_of a n ks).
Proof.
  intros HC Hok Ha. unfold decode_recv. pose proof (carries_length _ _ HC).
  rewrite (for_iter_carries _ _ _ _ _ HC) by done. destruct HC as (Hms & Hl & Hb).
  rewrite each_decode_cmsg by (done || lia). rewrite foldl_noted. cbn [fst snd].
  destruct Ha as [[-> ->]|(Hne & Ef & ->)].
  - rewrite Z.eqb_refl. unfold meta_of. by destruct (last (omap kmsg_dst ks)).
  - rewrite (proj2 (Z.eqb_neq _ _) Hne), Ef, Z.eqb_refl. unfold meta_of. by destruct (last (omap kmsg_dst ks)).
Qed.

(** ** Contracts *)

(** C32: what [decode_recv] reads.  For the control messages a kernel attaches,
    in any order and among any others, and an address of either family,
    decoding returns without a panic and inside of the buffer: the length and
    the address, the congestion codepoint of the last traffic class, and the
    destination of the last packet information. *)
Theorem decode_recv_contract name hdr n a ks :
  carries hdr (map kmsg_message ks) -> Forall kmsg_ok ks -> name_addr name a ->
  decode_recv name hdr n =
  Ret (mk_RecvMeta a n (from_bits (default 0 (last (omap kmsg_tos ks)))) (last (omap kmsg_dst ks))).
Proof. intros. by rewrite (decode_recv_carries _ _ _ a ks). Qed.

(** What the kernel may answer to a receive call with [count] headers: at most
    that many messages, each with a known address, well-formed control messages
    and a length within its buffer. *)
Definition filled_as (f : Filled) (m : RecvMeta) : Prop :=
  exists a ks, name_addr (fl_name f) a /\ Forall kmsg_ok ks /\
    carries (mk_msghdr [] 0 [] 0 (fl_control f) (fl_controllen f) 0) (map kmsg_message ks) /\
    0 <= fl_len f <= len (fl_data f) /\ m = meta_of a (fl_len f) ks.

Lemma fill_decode f m hdr :
  filled_as f m -> decode_recv (fl_name f) (fill f hdr) (fl_len f) = Ret m.
Proof. intros (a & ks & Ha & Hok & HC & _ & ->). by apply decode_recv_carries. Qed.

Lemma decode_all_filled fs ms i hdrs meta :
  0 <= i -> Forall2 filled_as fs ms -> i + len fs <= len hdrs -> i + len fs <= len meta ->
  decode_all i hdrs fs meta =
  Ret (take (Z.to_nat i) meta ++ ms ++ drop (Z.to_nat (i + len fs)) meta).
Proof.
  intros Hi HF. revert i meta Hi. induction HF as [|f m fs ms Hf _ IH]; intros i meta Hi Hh Hm.
  { cbn [decode_all app]. rewrite len_nil, Z.add_0_r. by rewrite take_drop. }
  rewrite len_cons in *. pose proof (len_nonneg fs). cbn [decode_all].
  destruct (lookup_lt_is_Some_2 hdrs (Z.to_nat i)) as [h Hh0]; [unfold len in *; lia|].
  rewrite (index_fits _ _ h) by (done || lia). cbn [mbind outcome_bind].
  rewrite (fill_decode f m h Hf). cbn [mbind outcome_bind]. rewrite set_index_fits by lia.
  cbn [mbind outcome_bind]. rewrite IH; [|lia|lia|unfold len; rewrite length_insert; unfold len in *; lia].
  assert (Z.to_nat i < length meta)%nat as Hlt by (unfold len in *; lia).
  replace (Z.to_nat (i + 1)) with (Datatypes.S (Z.to_nat i)) by lia.
  rewrite (take_S_r _ _ m) by (by apply list_lookup_insert_eq).
  rewrite take_insert_ge, drop_insert_lt by lia. rewrite <- app_assoc. cbn [app].
  by replace (i + 1 + len fs) with (i + (1 + len fs)) by lia.
Qed.

(** An answer after which the receive call is repeated: an interruption, and a
    truncated datagram where messages are received one by one. *)
Definition skipped (a : result (list Filled) io_error) : Prop :=
  match a with
  | Err e => ioe_kind e = Interrupted
  | Ok fs => is_apple = true /\ exists f, fs = [f] /\ Z.land (fl_flags f) MSG_TRUNC <> 0
  end.

(** An answer that ends it, for [count] buffers. *)
Definition received (count : Z) (a : result (list Filled) io_error) (ms : list RecvMeta) : Prop :=
  match a with
  | Err e => ioe_kind e <> Interrupted
  | Ok fs => Forall2 filled_as fs ms /\ len fs <= Z.min count BATCH_SIZE /\
      (is_apple = true -> exists f, fs = [f] /\ Z.land (fl_flags f) MSG_TRUNC = 0)
  end.

Lemma sys_recv_wp a rest st :
  u_recv st = a :: rest -> wp sys_recv (fun r st' => r = a /\ st' = st <| u_recv := rest |>) st.
Proof. intros E. unfold sys_recv, next_answer. wp_run. rewrite E. by wp_run. Qed.

Lemma recvmmsg_loop_wp skips a rest fuel st :
  is_apple = false -> u_recv st = skips ++ a :: rest -> Forall skipped skips -> ~ skipped a ->
  (length skips < fuel)%nat ->
  wp (loop fuel recvmmsg_attempt) (fun r st' => r = a /\ st' = st <| u_recv := rest |>) st.
Proof.
  intros Ha Es Hs Hna. revert fuel st Es. induction Hs as [|x skips Hx _ IH]; intros fuel st Es Hf;
    (destruct fuel as [|fuel]; [cbn in Hf; lia|]); cbn [loop]; unfold recvmmsg_attempt at 1;
    apply wp_bind, wp_bind; (eapply wp_mono; [by apply sys_recv_wp|]); intros ? st1 [-> ->].
  - destruct a as [fs|e]; [by wp_run|]. cbn in Hna. rewrite decide_False by done. by wp_run.
  - destruct x as [fs|e]; cbn in Hx; [destruct Hx; congruence|]. rewrite decide_True by done. wp_run.
    cbn [length] in Hf. eapply wp_mono; [apply IH; [done|lia]|]. by intros r st' [-> ->].
Qed.

Lemma recvmsg_loop_wp skips a f rest fuel st :
  u_recv st = skips ++ a :: rest -> Forall skipped skips -> ~ skipped a -> is_apple = true ->
  (forall fs, a = Ok fs -> fs = [f]) -> (length skips < fuel)%nat ->
  wp (loop fuel recvmsg_attempt) (fun r st' =>
    r = (match a with Ok _ => Ok f | Err e => Err e end) /\ st' = st <| u_recv := rest |>) st.
Proof.
  intros Es Hs Hna Hap Hf1. revert fuel st Es. induction Hs as [|x skips Hx _ IH]; intros fuel st Es Hf;
    (destruct fuel as [|fuel]; [cbn in Hf; lia|]); cbn [loop]; unfold recvmsg_attempt at 1;
    apply wp_bind, wp_bind; (eapply wp_mono; [by apply sys_recv_wp|]); intros ? st1 [-> ->].
  - destruct a as [fs|e]; cbn in Hna.
    + rewrite (Hf1 fs eq_refl) in *. wp_run. eapply wp_lift; [done|].
      destruct (Z.eqb_spec (Z.land (fl_flags f) MSG_TRUNC) 0); [by wp_run|]. destruct Hna. split; [done|by exists f].
    + rewrite decide_False by done. by wp_run.
  - destruct x as [fs|e]; cbn in Hx.
    + destruct Hx as (_ & g & -> & Hg). wp_run. eapply wp_lift; [done|]. rewrite (proj2 (Z.eqb_neq _ _) Hg). wp_run.
      cbn [length] in Hf. eapply wp_mono; [apply IH; [done|lia]|]. by intros r st' [-> ->].
    + rewrite decide_True by done. wp_run.
      cbn [length] in Hf. eapply wp_mono; [apply IH; [done|lia]|]. by intros r st' [-> ->].
Qed.

Lemma received_not_skipped count a ms : received count a ms -> ~ skipped a.
Proof.
  destruct a as [fs|e]; cbn; [|by auto]. intros (_ & _ & Hone) [Ha (f & -> & Hf)].
  destruct (Hone Ha) as (g & [= <-] & Hg). done.
Qed.

(** The outcome of a receive call that ends with the answer [a]. *)
Definition recv_outcome (a : result (list Filled) io_error) (ms : list RecvMeta) (bufs : list (list byte))
  (meta : list RecvMeta) : result (Z * list (list byte) * list RecvMeta) io_error :=
  match a with
  | Ok fs => Ok (len fs, fill_bufs fs bufs, ms ++ drop (length fs) meta)
  | Err e => Err e
  end.

Lemma recv_wp bufs meta skips a ms rest st :
  bufs <> [] -> len bufs <= len meta -> u_recv st = skips ++ a :: rest ->
  Forall skipped skips -> received (len bufs) a ms ->
  wp (recv bufs meta) (fun r st' => r = recv_outcome a ms bufs meta /\ st' = st <| u_recv := rest |>) st.
Proof.
  intros Hne Hm Es Hs Ha. pose proof (received_not_skipped _ _ _ Ha) as Hna. unfold recv.
  assert (length skips < Datatypes.S (length (u_recv st)))%nat as Hf by (rewrite Es, length_app; cbn; lia).
  destruct is_apple eqn:Hap.
  - destruct bufs as [|b bufs]; [done|]. unfold recv_msg. wp_run. eapply wp_lift; [done|]. wp_run.
    destruct a as [fs|e].
    + destruct Ha as (HF & Hl & Hone). destruct (Hone Hap) as (f & -> & Hflag).
      eapply wp_mono; [eapply (recvmsg_loop_wp _ _ f); try done; by intros ? [= <-]|]. intros ? st' [-> ->].
      apply Forall2_cons_inv_l in HF as (m & ms' & Hfm & ->%Forall2_nil_inv_l & ->). wp_run.
      eapply wp_lift; [by apply fill_decode|]. wp_run. rewrite len_cons in Hm. pose proof (len_nonneg bufs).
      eapply wp_lift; [apply set_index_fits; lia|]. wp_run. split; [|done].
      destruct meta as [|m0 meta]; [rewrite len_nil in Hm; lia|]. done.
    + eapply wp_mono; [eapply (recvmsg_loop_wp _ _ (mk_Filled [] [] 0 0 [] 0)); done|]. intros ? st' [-> ->]. by wp_run.
  - unfold recv_mmsg. wp_run. eapply wp_mono; [by eapply recvmmsg_loop_wp|]. intros ? st' [-> ->].
    destruct a as [fs|e]; [|by wp_run]. destruct Ha as (HF & Hl & _). pose proof (len_nonneg fs).
    wp_run. eapply wp_lift; [apply decode_all_filled; [done|exact HF| |lia]|].
    { unfold len at 2. rewrite length_app, length_map, length_take. unfold len in *. lia. }
    wp_run. split; [|done]. cbn [recv_outcome take app]. rewrite Z.add_0_l. unfold len. by rewrite Nat2Z.id.
Qed.

(** C33: [recv].  Interruptions, and truncated datagrams where messages come one
    by one, are skipped; then the number of messages, the buffers the kernel
    wrote and, for each message, its metadata are returned, the metadata of the
    other slots unchanged, or the error of the call. *)
Theorem unix_recv_contract bufs meta skips a ms rest st :
  bufs <> [] -> len bufs <= len meta -> u_recv st = skips ++ a :: rest ->
  Forall skipped skips -> received (len bufs) a ms ->
  recv bufs meta st = Ret (recv_outcome a ms bufs meta, st <| u_recv := rest |>).
Proof.
  intros Hne Hm Es Hs Ha. destruct (wp_elim _ _ _ (recv_wp _ _ _ _ _ _ _ Hne Hm Es Hs Ha)) as (r & st' & E & -> & ->).
  done.
Qed.

(** One round of the loop of [poll_send] and [poll_recv]. *)
Lemma io_loop_step {A} n ready (call : Act UdpSt (result A io_error)) st w st1 :
  ready st = Ret (w, st1) ->
  loop (Datatypes.S n) (io_attempt ready call) st =
  match w with
  | Pending => Ret (Pending, st1)
  | Ready (Err e) => Ret (Ready (Err e), st1)
  | Ready (Ok _) =>
      match call st1 with
      | Ret (r, st2) =>
          match try_io r with
          | Some r => Ret (Ready r, st2)
          | None => loop n (io_attempt ready call) st2
          end
      | Panic e => Panic e
      | NoFuel => NoFuel
      end
  end.
Proof.
  intros E. cbn [loop]. set (k := loop n _). unfold io_attempt, mbind, act_bind. rewrite E.
  destruct w as [[u|e]|]; [|done|done]. destruct (call st1) as [[r st2]| |]; try done. by destruct (try_io r).
Qed.

(** [poll_recv] waits for readiness, receives, and waits again when the
    call would block; everything else is passed on. *)
Theorem unix_poll_recv_contract bufs meta st :
  bufs <> [] -> len bufs <= len meta ->
  match u_read_ready st with
  | [] => True
  | Pending :: ws => poll_recv bufs meta st = Ret (Pending, st <| u_read_ready := ws |>)
  | Ready (Err e) :: ws => poll_recv bufs meta st = Ret (Ready (Err e), st <| u_read_ready := ws |>)
  | Ready (Ok _) :: ws =>
      forall skips a ms rest,
        u_recv st = skips ++ a :: rest -> Forall skipped skips -> received (len bufs) a ms ->
        let st' := st <| u_read_ready := ws |> <| u_recv := rest |> in
        poll_recv bufs meta st =
        match try_io (recv_outcome a ms bufs meta) with
        | Some r => Ret (Ready r, st')
        | None => poll_recv bufs meta st'
        end
  end.
Proof.
  intros Hne Hm. destruct (u_read_ready st) as [|w ws] eqn:Ew; [done|].
  assert (forall s, (debug_assert (negb (len bufs =? 0)) : Act UdpSt unit) s = Ret (tt, s)) as Ed.
  { intros s. assert ((len bufs =? 0) = false) as -> by (apply Z.eqb_neq; intros E; by apply Hne, len_0).
    unfold debug_assert, assert, lift. by destruct overflow_checks. }
  assert (poll_read_ready st = Ret (w, st <| u_read_ready := ws |>)) as Er.
  { unfold poll_read_ready, next_answer, mbind, act_bind, gets. by rewrite Ew. }
  assert (forall s, poll_recv bufs meta s =
    loop (Datatypes.S (length (u_read_ready s))) (io_attempt poll_read_ready (recv bufs meta)) s) as Hp.
  { intros s. unfold poll_recv, mbind, act_bind. by rewrite Ed. }
  rewrite Hp, (io_loop_step _ _ _ _ _ _ Er). destruct w as [[[]|e]|]; try done.
  intros skips a ms rest Es Hs Ha. cbn zeta. set (st1 := st <| u_read_ready := ws |>).
  destruct (wp_elim _ _ _ (recv_wp bufs meta skips a ms rest st1 Hne Hm Es Hs Ha)) as (r & st' & E & -> & ->).
  rewrite E. destruct (try_io _); [done|]. rewrite Hp, Ew. reflexivity.
Qed.

(** ** Setting up *)

(** The options a socket bound to [addr] is given, when the answer to
    [IPV6_V6ONLY] is [v6only]. *)
Definition socket_options (addr : SocketAddr) (v6only : Z) : SockOpts :=
  (if is_ipv4 addr || (negb is_apple && (v6only =? 0)) then [(IPPROTO_IP, IP_RECVTOS, 1)] else []) ++
  (if is_linux then
     if is_ipv4 addr then [(IPPROTO_IP, IP_MTU_DISCOVER, IP_PMTUDISC_PROBE); (IPPROTO_IP, IP_PKTINFO, 1)]
     else [(IPPROTO_IPV6, IPV6_MTU_DISCOVER, IP_PMTUDISC_PROBE); (IPPROTO_IPV6, IPV6_RECVPKTINFO, 1)]
   else []) ++
  (if is_ipv4 addr then [] else [(IPPROTO_IPV6, IPV6_RECVTCLASS, 1)]).

(** Sets options until the first one that fails. *)
Fixpoint set_options (os : SetupOs) (l : SockOpts) : result unit io_error * SockOpts :=
  match l with
  | [] => (Ok tt, [])
  | (level, name, value) :: l =>
      match os_setsockopt os level name value with
      | Ok _ => let '(r, set) := set_options os l in (r, (level, name, value) :: set)
      | Err e => (Err e, [])
      end
  end.

(** The control buffer holds what is sent, and is aligned for its headers. *)
Definition control_fits : bool :=
  (CMSG_SPACE (size_of pod_c_int) + (if is_linux then CMSG_SPACE (size_of pod_in6_pktinfo) else 0) <=? CMSG_BUF_LEN) &&
  (cmsghdr_align <=? Aligned_align).

(** C34: the setup of a socket, on every system and for every answer of it.  It
    panics exactly when the control buffer is too small or not aligned.  If it
    is not, the options of the address family, determined by the local address
    and the [IPV6_V6ONLY] flag, are set in order until one fails, whose error is
    returned and after which none is set; an error of reading the address or
    the flag is returned before any of them is set.  The flag is only read for
    an IPv6 socket, and never on Apple systems. *)
Theorem unix_init_contract os opts :
  init os opts =
  if control_fits then
    Ret (match os_local_addr os with
      | Err e => (Err e, opts)
      | Ok addr =>
          match (if is_ipv4 addr || is_apple then Ok 0 else os_v6only os) with
          | Err e => (Err e, opts)
          | Ok v6only =>
              let '(r, set) := set_options os (socket_options addr v6only) in (r, opts ++ set)
          end
      end)
  else Panic AssertionFailed.
Proof.
  unfold init, control_fits, assert, mbind, act_bind, lift, try, mret, act_ret. unfold mbind, act_bind.
  destruct (_ <=? CMSG_BUF_LEN); cbn [andb]; [|done]. destruct (_ <=? Aligned_align); [|done].
  destruct (os_local_addr os) as [addr|e]; [|done].
  unfold wants_recvtos, only_v6, init_linux, socket_options, setsockopt, is_ipv6, try, mbind, act_bind, mret, act_ret, modify.
  destruct (is_ipv4 addr), is_apple; cbn [orb andb negb app];
    try (destruct (os_v6only os) as [v|e]; [destruct (v =? 0)|done]); destruct is_linux; cbn [negb app set_options];
    repeat (match goal with |- context [os_setsockopt os ?l ?n ?v] => destruct (os_setsockopt os l n v) end;
      rewrite <- ?app_assoc, ?app_nil_r; try done).
Qed.

End unix.

(** ** The contracts at work *)

#[local] Existing Instance linux_cmsg.
#[local] Existing Instance linux_cmsg_laws.
#[local] Existing Instance linux_libc.
#[local] Existing Instance linux_libc_laws.
#[local] Existing Instance linux_target.
#[local] Instance unix_profile : Profile := mk_Profile true true.

(** A datagram from 10.0.0.1:4000 to 10.0.0.2 marked as having met congestion. *)
Definition peer_v4 : SocketAddr := SocketAddrV4 [Byte.x0a; Byte.x00; Byte.x00; Byte.x01] 4000.
Definition two_kmsgs : list kmsg := [KPktinfo (mk_in_pktinfo 1 0 (of_le_bytes [Byte.x0a; Byte.x00; Byte.x00; Byte.x02])); KTos 1 3].

Definition kernel_control : msghdr :=
  match push_all (map kmsg_message two_kmsgs) (Encoder_new (mk_msghdr [] 0 [] 0 zeroed_ctrl CMSG_BUF_LEN 0)) with
  | Ret (_, e) => finish e
  | _ => zeroed_msghdr
  end.

Lemma two_kmsgs_ok : Forall kmsg_ok two_kmsgs.
Proof. repeat constructor; vm_compute; done. Qed.

Lemma kernel_control_carries : carries kernel_control (map kmsg_message two_kmsgs).
Proof. unfold carries. vm_compute. split_and!; done. Qed.

Lemma peer_v4_name : name_addr (SockAddr_from peer_v4) peer_v4.
Proof. left. by vm_compute. Qed.

Lemma decode_recv_contract_witness :
  decode_recv (SockAddr_from peer_v4) kernel_control 22 =
  Ret (mk_RecvMeta peer_v4 22 (Some Ce) (Some (IpV4 [Byte.x0a; Byte.x00; Byte.x00; Byte.x02]))).
Proof.
  rewrite (decode_recv_contract (SockAddr_from peer_v4) kernel_control 22 peer_v4 two_kmsgs
    kernel_control_carries two_kmsgs_ok peer_v4_name).
  reflexivity.
Defined.

Definition one_filled : Filled :=
  mk_Filled (SockAddr_from peer_v4) (msg_control kernel_control) (msg_controllen kernel_control) 0
    (replicate 30 Byte.x2a) 22.

Definition one_meta : RecvMeta := meta_of peer_v4 22 two_kmsgs.

Lemma one_filled_as : filled_as one_filled one_meta.
Proof.
  exists peer_v4, two_kmsgs. split_and!; [exact peer_v4_name|exact two_kmsgs_ok|exact kernel_control_carries|done|done|done].
Qed.

Definition two_bufs : list (list byte) := [replicate 30 Byte.x00; replicate 30 Byte.x00].
Definition receiving (ws : list (poll (result unit io_error))) (answers : list (result (list Filled) io_error)) : UdpSt :=
  mk_UdpSt 0 64 (fun _ => 0) 0 [] ws [] answers [].
Definition interrupt_err : result (list Filled) io_error := Err (mk_io_error Interrupted "interrupted" (Some 4)).

Lemma one_received : received (len two_bufs) (Ok [one_filled]) [one_meta].
Proof. split_and!; [constructor; [exact one_filled_as|constructor]|done|done]. Qed.

Lemma unix_recv_contract_witness :
  exists st', recv two_bufs [RecvMeta_default; RecvMeta_default] (receiving [] [interrupt_err; Ok [one_filled]]) =
    Ret (Ok (1, [fl_data one_filled; replicate 30 Byte.x00], [one_meta; RecvMeta_default]), st').
Proof.
  eexists. apply (unix_recv_contract two_bufs [RecvMeta_default; RecvMeta_default] [interrupt_err] (Ok [one_filled]) [one_meta] []).
  - discriminate.
  - done.
  - reflexivity.
  - repeat constructor.
  - exact one_received.
Defined.

Lemma unix_poll_recv_contract_witness :
  exists st', poll_recv two_bufs [RecvMeta_default; RecvMeta_default] (receiving [Ready (Ok tt)] [Ok [one_filled]]) =
    Ret (Ready (Ok (1, [fl_data one_filled; replicate 30 Byte.x00], [one_meta; RecvMeta_default])), st').
Proof.
  eexists. apply (unix_poll_recv_contract two_bufs [RecvMeta_default; RecvMeta_default]
    (receiving [Ready (Ok tt)] [Ok [one_filled]]) ltac:(by intros [=]) ltac:(done) [] (Ok [one_filled]) [one_meta] []).
  - reflexivity.
  - constructor.
  - exact one_received.
Defined.

(** An IPv6 socket that accepts IPv4 too, on a kernel without [IPV6_RECVTCLASS]. *)
Definition no_option : io_error := mk_io_error OtherKind "protocol not available" (Some 92).
Definition some_os : SetupOs :=
  mk_SetupOs (Ok tt) (Ok (SocketAddrV6 (replicate 16 Byte.x00) 0 0 0)) (Ok 0)
    (fun _ name _ => if name =? 66 then Err no_option else Ok tt) (Ok tt).

Lemma unix_init_contract_witness :
  control_fits = true /\ init some_os [] = Ret (Err no_option, [(0, 13, 1); (41, 23, 3); (41, 49, 1)]).
Proof. split; [reflexivity|]. rewrite (unix_init_contract some_os []). reflexivity. Defined.
