(* ===== verification/Fallback.v ===== *)
(** The UDP socket of the other targets: [udx-udp/src/fallback.rs].

    A thin layer over [tokio::net::UdpSocket], whose answers are a script of
    the state, consumed call by call; the datagrams given to it are recorded. *)

From S2P Require Import Prelude Errors UdpProto Cmsg.

Local Open Scope Z_scope.

Definition BATCH_SIZE : Z := 1.

(** [udp_state]: no segmentation offload. *)
Definition udp_state : Z := 1.

Record FallbackSt := mk_FallbackSt {
  f_last_send_error : Z;
  f_clock : nat -> Z;                                          (* readings of [Instant::now()] *)
  f_ticks : nat;
  f_send : list (poll (result Z io_error));                    (* answers of [poll_send_to] *)
  f_recv : list (poll (result (SocketAddr * list byte) io_error));
                                                               (* answers of [poll_recv_from], with the filled part *)
  f_handed : list (SocketAddr * list byte);                    (* datagrams given to [poll_send_to] *)
}.

#[export] Instance FallbackSt_eta : Eta FallbackSt := fun s =>
  mk_FallbackSt (f_last_send_error s) (f_clock s) (f_ticks s) (f_send s) (f_recv s) (f_handed s).

(** [from_std] at time [now], with the answers of [set_nonblocking] and of the
    conversion to a tokio socket: the new [last_send_error]. *)
Definition from_std (set_nonblocking converted : result unit io_error) (now : Z)
  (checked_sub : Z -> Z -> option Z) : result Z io_error :=
  match set_nonblocking with
  | Err e => Err e
  | Ok _ =>
      match converted with
      | Err e => Err e
      | Ok _ => Ok (default now (checked_sub now (2 * IO_ERROR_LOG_INTERVAL)))
      end
  end.

Definition poll_send_to (contents : list byte) (destination : SocketAddr)
  : Act FallbackSt (poll (result Z io_error)) :=
  _ ← modify (fun s => s <| f_handed ::= fun l => l ++ [(destination, contents)] |>);
  l ← gets f_send;
  match l with
  | [] => out_of_fuel
  | a :: l => _ ← modify (fun s => s <| f_send := l |>); mret a
  end.

(** [log_sendmsg_error(&mut self.last_send_error, e, transmit)]. *)
Definition log_error : Act FallbackSt unit :=
  now ← gets (fun s => f_clock s (f_ticks s));
  _ ← modify (fun s => s <| f_ticks ::= Datatypes.S |>);
  modify (fun s => s <| f_last_send_error ::= fun last => fst (log_sendmsg_error now last) |>).

Section fallback.
Context `{Profile}.

(** The [for] loop over the transmits, with [sent] of them sent. *)
Fixpoint send_loop (sent : Z) (transmits : list Transmit) : Act FallbackSt (poll (result Z io_error)) :=
  match transmits with
  | [] => mret (Ready (Ok sent))
  | t :: transmits =>
      a ← poll_send_to (t_contents t) (t_destination t);
      match a with
      | Ready (Ok _) =>
          sent ← lift (usize_add sent 1);
          send_loop sent transmits
      | Ready (Err e) =>
          if negb (sent =? 0) then mret (Ready (Ok sent))
          else
            _ ← debug_assert (negb (bool_decide (ioe_kind e = WouldBlock)));
            _ ← log_error;
            sent ← lift (usize_add sent 1);
            send_loop sent transmits
      | Pending =>
          if negb (sent =? 0) then mret (Ready (Ok sent)) else mret Pending
      end
  end.

Definition poll_send (transmits : list Transmit) : Act FallbackSt (poll (result Z io_error)) :=
  send_loop 0 transmits.

(** [poll_recv]: the number of messages, the buffers and the metadata. *)
Definition poll_recv (bufs : list (list byte)) (meta : list RecvMeta)
  : Act FallbackSt (poll (result (Z * list (list byte) * list RecvMeta) io_error)) :=
  _ ← debug_assert (negb (len bufs =? 0));
  buf ← lift (index bufs 0);
  l ← gets f_recv;
  match l with
  | [] => out_of_fuel
  | a :: l =>
      _ ← modify (fun s => s <| f_recv := l |>);
      match a with
      | Pending => mret Pending
      | Ready (Err e) => mret (Ready (Err e))
      | Ready (Ok (addr, filled)) =>
          meta ← lift (set_index meta 0 (mk_RecvMeta addr (len filled) None None));
          bufs ← lift (set_index bufs 0 (filled ++ drop (length filled) buf));
          mret (Ready (Ok (1, bufs, meta)))
      end
  end.

(** ** Properties *)

(** The answers of tokio: a call that would block is pending. *)
Definition tokio_ok (a : poll (result Z io_error)) : Prop :=
  match a with Ready (Err e) => ioe_kind e <> WouldBlock | _ => True end.

Definition datagram (t : Transmit) : SocketAddr * list byte := (t_destination t, t_contents t).

(** What the loop does from [sent] on: [k] more transmits are handed over. *)
Record looped (sent : Z) (ts : list Transmit) (st : FallbackSt) (r : poll (result Z io_error)) (st' : FallbackSt)
  : Prop := {
  lo_handed : exists k, (k <= length ts)%nat /\
    f_handed st' = f_handed st ++ map datagram (take k ts) /\
    match r with
    | Ready (Ok n) => sent <= n <= sent + Z.of_nat k /\ sent + Z.of_nat k <= n + 1 /\ (sent <= 0 -> ts <> [] -> 1 <= n)
    | Ready (Err _) => False
    | Pending => sent = 0 /\ k = 1%nat
    end;
}.

Lemma looped_cons sent t ts st st1 r st' :
  0 <= sent -> f_handed st1 = f_handed st ++ [datagram t] -> looped (sent + 1) ts st1 r st' ->
  looped sent (t :: ts) st r st'.
Proof.
  intros H0 Hh [(k & Hk & Eh & Hr)]. split. exists (Datatypes.S k). cbn [length take map].
  split_and!; [lia|by rewrite Eh, Hh, <- app_assoc|]. destruct r as [[n|e]|]; [|done|lia]. lia.
Qed.

Lemma poll_send_to_wp c d a l st :
  f_send st = a :: l ->
  wp (poll_send_to c d) (fun r st' => r = a /\ f_send st' = l /\ f_handed st' = f_handed st ++ [(d, c)]) st.
Proof. intros E. unfold poll_send_to. wp_run. cbn. rewrite E. by wp_run. Qed.

Lemma looped_stop sent t ts st st' r :
  f_handed st' = f_handed st ++ [datagram t] ->
  (r = Pending /\ sent = 0 \/ r = Ready (Ok sent) /\ 0 < sent) -> looped sent (t :: ts) st r st'.
Proof.
  intros Hh Hr. split. exists 1%nat. split_and!; [cbn; lia|done|].
  destruct Hr as [[-> ->]|[-> Hs]]; [done|lia].
Qed.

Lemma fallback_loop_wp sent ts st :
  0 <= sent -> sent + len ts < usize_modulus -> (length ts <= length (f_send st))%nat -> Forall tokio_ok (f_send st) ->
  wp (send_loop sent ts) (looped sent ts st) st.
Proof.
  revert sent st. induction ts as [|t ts IH]; intros sent st H0 Hb Hl Hok; cbn [send_loop].
  { wp_run. split. exists 0%nat. rewrite app_nil_r. split_and!; try done; lia. }
  rewrite len_cons in Hb. pose proof (len_nonneg ts).
  destruct (f_send st) as [|a l] eqn:El; [cbn in Hl; lia|]. apply Forall_cons_1 in Hok as [Ha Hok]. cbn in Hl.
  wp_run. eapply wp_mono; [by apply poll_send_to_wp|]. intros ? st1 (-> & E1 & Hh).
  assert (forall st2, f_send st2 = l -> f_handed st2 = f_handed st1 ->
    wp (sent' ← lift (usize_add sent 1); send_loop sent' ts) (looped sent (t :: ts) st) st2) as Hgo.
  { intros st2 E2 Hh2. wp_run. eapply wp_lift; [apply usize_add_fits; lia|].
    eapply wp_mono; [apply (IH (sent + 1)); rewrite ?E2; done || lia|]. intros r st3 HL.
    eapply looped_cons; [done|by rewrite Hh2|done]. }
  destruct a as [[n|e]|].
  - by apply Hgo.
  - destruct (Z.eqb_spec sent 0) as [->|Hne]; cbn [negb].
    + unfold debug_assert, assert, log_error. cbn in Ha. rewrite bool_decide_eq_false_2 by done. apply wp_bind.
      assert (forall Q, Q tt st1 -> wp (if overflow_checks then lift (Ret tt) else mret tt) Q st1) as Hda
        by (intros Q HQ; by destruct overflow_checks).
      apply Hda. wp_run. apply Hgo; done.
    + wp_run. eapply looped_stop; [done|right; split; [done|lia]].
  - destruct (Z.eqb_spec sent 0) as [->|Hne]; cbn [negb]; wp_run.
    + eapply looped_stop; [done|by left].
    + eapply looped_stop; [done|right; split; [done|lia]].
Qed.

(** [poll_send] of the fallback.  The transmits are given to tokio in order,
    each as one datagram to its destination, until one fails or is pending; the
    count never exceeds the slice, is at least one, differs from the number of
    datagrams given by at most the one that did not go, and no error reaches
    the caller. *)
Theorem fallback_poll_send_contract ts st :
  ts <> [] -> len ts < usize_modulus -> (length ts <= length (f_send st))%nat -> Forall tokio_ok (f_send st) ->
  exists r st' k, poll_send ts st = Ret (r, st') /\ (k <= length ts)%nat /\
    f_handed st' = f_handed st ++ map datagram (take k ts) /\
    match r with
    | Ready (Ok n) => 1 <= n <= len ts /\ n <= Z.of_nat k <= n + 1
    | Ready (Err _) => False
    | Pending => k = 1%nat
    end.
Proof.
  intros Hne Hb Hl Hok.
  destruct (wp_elim _ _ _ (fallback_loop_wp 0 ts st ltac:(done) ltac:(lia) Hl Hok)) as (r & st' & E & [(k & Hk & Hh & Hr)]).
  exists r, st', k. split_and!; [done|done|done|]. destruct r as [[n|e]|]; [|done|by destruct Hr].
  destruct Hr as (H1 & H2 & H3). specialize (H3 ltac:(lia) Hne). unfold len. lia.
Qed.

End fallback.

#[local] Instance fallback_profile : Profile := mk_Profile true true.

Definition plain (b : byte) : Transmit :=
  mk_Transmit (SocketAddrV4 [Byte.x0a; Byte.x00; Byte.x00; Byte.x01] 4000) None [b] None None.

Definition fb_with (answers : list (poll (result Z io_error))) : FallbackSt :=
  mk_FallbackSt 0 (fun _ => 0) 0 answers [] [].

(** A failed datagram is skipped, the one after it goes, the last one waits. *)
Lemma fallback_poll_send_contract_witness :
  exists st', poll_send [plain Byte.x01; plain Byte.x02; plain Byte.x03]
      (fb_with [Ready (Err (mk_io_error OtherKind "unreachable" (Some 101))); Ready (Ok 1); Pending]) =
    Ret (Ready (Ok 2), st') /\ f_handed st' = map datagram [plain Byte.x01; plain Byte.x02; plain Byte.x03].
Proof.
  destruct (fallback_poll_send_contract [plain Byte.x01; plain Byte.x02; plain Byte.x03]
      (fb_with [Ready (Err (mk_io_error OtherKind "unreachable" (Some 101))); Ready (Ok 1); Pending]))
    as (r & st' & k & E & _ & Hh & _).
  - discriminate.
  - reflexivity.
  - cbn. lia.
  - repeat constructor. discriminate.
  - assert (r = Ready (Ok 2)) as -> by (vm_compute in E; by injection E as <- _).
    exists st'. split; [exact E|]. vm_compute in E. injection E as <-. reflexivity.
Defined.
