(* ===== verification/Datagram.v ===== *)
(** The socket over the datagram layer.

    [src/src/socket.rs] sends through [udx_udp::UdpSocket], which is one of two
    implementations.  [DatagramSocket] is what it calls, [DatagramLaws] what it
    relies on; the Unix and the fallback implementation are instances, and the
    behaviour of the socket over either follows from the laws. *)

From S2P Require Import Prelude Constants Errors UdpProto Packet Runtime Stream StreamSpec.
From S2P Require Import Cmsg CmsgSpec Unix UnixLinux UnixSpec Fallback Socket SocketSpec.

Local Open Scope Z_scope.

#[export] Instance Transmit_eq_dec : EqDecision Transmit.
Proof. solve_decision. Defined.

(** ** The interface *)

Class DatagramSocket (S : Type) := {
  dg_poll_send : list Transmit -> Act S (poll (result Z io_error));
  dg_max_gso : S -> Z;                        (* [UdpState::max_gso_segments] *)
  dg_serves : list Transmit -> S -> Prop;     (* the system answers a call with these transmits *)
}.

(** The answer to [poll_send]: a count within the slice, never an interruption. *)
Definition send_answer_ok (ts : list Transmit) (r : poll (result Z io_error)) : Prop :=
  match r with
  | Ready (Ok n) => 0 <= n <= len ts
  | Ready (Err e) => ioe_kind e <> Interrupted
  | Pending => True
  end.

(** Segmentation offload is only ever switched off. *)
Definition gso_lowered (old new : Z) : Prop := new = old \/ new = Z.min old 1.

Class DatagramLaws (S : Type) `{DatagramSocket S} := {
  dg_send_ok ts st : ts <> [] -> dg_serves ts st ->
    wp (dg_poll_send ts) (fun r st' =>
      send_answer_ok ts r /\ gso_lowered (dg_max_gso st) (dg_max_gso st')) st;
}.

(** ** The socket over it *)

Section over.
Context `{P : Profile} `{AI : AtomicInstant} {S : Type} `{DS : DatagramSocket S} `{DL : !DatagramLaws S}.

(** The transmits [poll_transmit] hands over: the queue after the events of the
    streams were taken, as far as the ring buffer is contiguous. *)
Definition queue_after (k : SocketSt) : list Transmit :=
  match fill_loop (length (w_tx (sworld k))) k with
  | Ret (_, k1) => k_outgoing_transmits (sock k1)
  | _ => []
  end.

(** The script of a call that answers [r] to the transmits [ts]. *)
Definition script_for (slice : nat) (ts : list Transmit) (r : poll (result Z io_error)) : SendScript :=
  mk_SendScript slice (fun ts' => if decide (ts' = ts) then r else Pending).

(** [poll_transmit] with the datagram socket in place; the socket shares the
    limit of segmentation offload with its streams. *)
Definition transmit_over (slice : nat) (st : SocketSt * S) : outcome (result bool io_error * (SocketSt * S)) :=
  let '(k, d) := st in
  let ts := take slice (queue_after k) in
  '(r, d') ← (match ts with [] => Ret (Pending, d) | _ => dg_poll_send ts d end);
  '(x, k') ← socket_poll_transmit (script_for slice ts r) k;
  Ret (x, (k' <| sworld ::= fun w => w <| w_max_gso_segments := dg_max_gso d' |> |>, d')).

Lemma script_for_ok slice ts r : send_answer_ok ts r -> send_script_ok (script_for slice ts r).
Proof.
  intros Hr ts' n. cbn. case_decide as E; [|done]. subst ts'. intros ->. exact Hr.
Qed.

Lemma queue_after_filled k evs rest k1 r :
  fill_loop (length (w_tx (sworld k))) k = Ret (r, k1) -> filled evs rest k k1 ->
  queue_after k = k_outgoing_transmits (sock k) ++ all_transmits (w_store (sworld k)) evs.
Proof. intros E F. unfold queue_after. rewrite E. apply F. Qed.

(** What one call did to the queue: [n] transmits from its front are gone. *)
Lemma transmitted_queue slice ts r pending k1 x k' :
  (0 < slice)%nat -> send_answer_ok (take slice ts) r -> k_outgoing_transmits (sock k1) = ts ->
  transmitted (script_for slice (take slice ts) r) pending ts k1 x k' ->
  sending k1 k' ->
  exists n, (n <= slice)%nat /\ k_outgoing_transmits (sock k') = drop n ts /\
    w_sent (sworld k') = w_sent (sworld k1) ++ take n ts /\
    k_send_overflow_timer (sock k') = k_send_overflow_timer (sock k1).
Proof.
  intros Hsl Hr Ets Ht Hs. assert (k' = k1 -> exists n, (n <= slice)%nat /\
    k_outgoing_transmits (sock k') = drop n ts /\ w_sent (sworld k') = w_sent (sworld k1) ++ take n ts /\
    k_send_overflow_timer (sock k') = k_send_overflow_timer (sock k1)) as Hsame.
  { intros ->. exists 0%nat. rewrite drop_0, take_0, app_nil_r. split_and!; [lia|done..]. }
  unfold transmitted in Ht. destruct ts as [|t ts]; [apply Hsame; tauto|].
  cbn [ss_answer ss_slice script_for] in Ht. rewrite decide_True in Ht by done.
  destruct r as [[n|e]|]; cbn in Hr; [|rewrite decide_False in Ht by done; apply Hsame; tauto|apply Hsame; tauto].
  destruct Ht as (_ & Hq & Hw & _ & _ & _ & Htm). exists (Z.to_nat n). split_and!; try done.
  unfold len in Hr. rewrite length_take in Hr. lia.
Qed.

(** C10: the socket over any datagram layer that keeps its laws.  One
    [poll_transmit] returns; the transmits that leave the queue are a prefix of
    it, in order, and are the ones recorded as sent; segmentation offload stays
    or is switched off, for the streams too.  Because the layer never reports
    an interruption, the timer for an overflow of the send buffer is never
    armed. *)
Theorem socket_over_datagrams slice k d :
  (0 < slice)%nat -> (queue_after k = [] \/ dg_serves (take slice (queue_after k)) d) ->
  Forall (event_ready (w_store (sworld k))) (w_tx (sworld k)) ->
  Forall transmit_ok (k_outgoing_transmits (sock k)) ->
  TxRoom (tx_total (k_outgoing_transmits (sock k) ++ all_transmits (w_store (sworld k)) (w_tx (sworld k))))
    (k_stats (sock k)) ->
  exists x k' d' n, transmit_over slice (k, d) = Ret (x, (k', d')) /\ (n <= slice)%nat /\
    k_outgoing_transmits (sock k') = drop n (queue_after k) /\
    w_sent (sworld k') = w_sent (sworld k) ++ take n (queue_after k) /\
    k_send_overflow_timer (sock k') = k_send_overflow_timer (sock k) /\
    w_max_gso_segments (sworld k') = dg_max_gso d' /\ gso_lowered (dg_max_gso d) (dg_max_gso d').
Proof.
  intros Hsl Hserve Hev Hts HR. set (ts := take slice (queue_after k)) in *.
  assert (exists r d', (match ts with [] => Ret (Pending, d) | _ => dg_poll_send ts d end) = Ret (r, d') /\
    send_answer_ok ts r /\ gso_lowered (dg_max_gso d) (dg_max_gso d')) as (r & d' & Er & Hr & Hg).
  { destruct ts as [|t ts0] eqn:Ets; [exists Pending, d; split_and!; [done|done|by left]|].
    destruct Hserve as [Hq|Hserve]; [subst ts; rewrite Hq, take_nil in Ets; done|].
    destruct (wp_elim _ _ _ (dg_send_ok (t :: ts0) d ltac:(done) Hserve)) as (r & d' & E & H1 & H2).
    by exists r, d'. }
  destruct (wp_elim _ _ _ (socket_poll_transmit_wp (script_for slice ts r) k (script_for_ok _ _ _ Hr) Hev Hts HR))
    as (x & k' & E & evs & rest & k1 & pending & F & _ & Ht & Hs & Ef).
  assert (queue_after k = k_outgoing_transmits (sock k1)) as Eq by (unfold queue_after; by rewrite Ef).
  unfold ts in *. rewrite Eq in *.
  destruct (transmitted_queue slice _ r pending k1 x k' Hsl Hr eq_refl Ht Hs) as (n & Hn & Hq & Hw & Htm).
  eexists x, _, d', n. unfold transmit_over. rewrite Eq, Er. cbn [mbind outcome_bind]. rewrite E.
  cbn [mbind outcome_bind]. split; [done|]. cbn. rewrite Hq, Hw, Htm, (fd_world _ _ _ _ F).
  split_and!; try done. apply F.
Qed.

End over.

(** ** The implementations *)

Section unix.
Context `{P : Profile} `{CA : CmsgAbi} `{CL : !CmsgLaws} `{TG : Target} `{LC : Libc} `{LL : !LibcLaws}.

(** The kernel counts what it is given, the descriptor is not interrupted, and
    both have answers until the call is decided. *)
#[export] Instance unix_datagram : DatagramSocket UdpSt := {|
  dg_poll_send := Unix.poll_send;
  dg_max_gso := u_max_gso_segments;
  dg_serves ts st :=
    Forall transmit_supported ts /\ kernel_counts ts (u_send st) /\
    (forall e, Ready (Err e) ∈ u_write_ready st -> ioe_kind e <> Interrupted) /\
    is_Some (poll_result ts (u_write_ready st) (u_send st));
|}.

#[export] Instance unix_datagram_laws : DatagramLaws UdpSt.
Proof.
  split. intros ts st Hne (Hsup & HK & He & [r Hr]).
  eapply wp_mono; [by apply poll_send_wp|]. intros r' st' [-> Hp]. split; [|apply Hp].
  pose proof (poll_result_ok _ _ _ _ HK Hr) as Hok. destruct r as [[n|e]|]; [done|by apply He|done].
Qed.

End unix.

Section fallback.
Context `{P : Profile}.

#[export] Instance fallback_datagram : DatagramSocket FallbackSt := {|
  dg_poll_send := Fallback.poll_send;
  dg_max_gso := fun _ => Fallback.udp_state;
  dg_serves ts st :=
    len ts < usize_modulus /\ (length ts <= length (f_send st))%nat /\ Forall tokio_ok (f_send st);
|}.

#[export] Instance fallback_datagram_laws : DatagramLaws FallbackSt.
Proof.
  split. intros ts st Hne (Hb & Hl & Hok).
  eapply wp_mono; [apply (Fallback.fallback_loop_wp 0); done || lia|]. intros r st' [(k & Hk & _ & Hr)].
  split; [|by left]. destruct r as [[n|e]|]; [|done|done]. cbn. unfold len. lia.
Qed.

End fallback.

(** ** The layers at work *)

#[local] Existing Instance linux_cmsg.
#[local] Existing Instance linux_cmsg_laws.
#[local] Existing Instance linux_libc.
#[local] Existing Instance linux_libc_laws.
#[local] Existing Instance linux_target.
#[local] Existing Instance option_instant.
#[local] Instance datagram_profile : Profile := mk_Profile true true.

(** A socket with one datagram to send, on Linux: the first attempt finds the
    buffer full, the second one goes through. *)
Definition one_dgram : SocketSt :=
  mk_SocketSt (bind here) [] ((fresh_world 4) <| w_tx := [dgram0] |>).

Definition full_then_sent : UdpSt :=
  mk_UdpSt 0 64 (fun _ => 0) 0 [Ready (Ok tt); Ready (Ok tt)] []
    [Err (mk_io_error PermissionDenied "operation not permitted" (Some 1)); Ok 1] [] [].

Lemma socket_over_datagrams_witness :
  exists x k' d' n, transmit_over 32 (one_dgram, full_then_sent) = Ret (x, (k', d')) /\ (n <= 32)%nat /\
    w_sent (sworld k') = take n (queue_after one_dgram).
Proof.
  destruct (socket_over_datagrams 32 one_dgram full_then_sent) as (x & k' & d' & n & E & Hn & _ & Hw & _).
  - lia.
  - right. split_and!.
    + constructor; [by left|constructor].
    + constructor; [exact I|constructor; [right; vm_compute; split; discriminate|constructor]].
    + intros e He. cbn in He. set_solver.
    + by eexists.
  - repeat constructor.
  - constructor.
  - vm_compute. repeat split; discriminate.
  - exists x, k', d', n. by split_and!.
Defined.
