(* ===== verification/DatagramRecv.v ===== *)
(** The receiving side of the socket over the datagram layer.

    [poll_recv] of [src/src/socket.rs] alternates between the datagram layer,
    which fills its buffers and metadata, and the processing of what arrived.
    [Socket.v] takes what the layer returns as a script of batches; here the
    two are composed, and the composition does to the socket what [Socket.v]
    does with the batches that the layer returns when it is called alone. *)

From S2P Require Import Prelude Constants Errors UdpProto Packet Runtime Stream StreamSpec.
From S2P Require Import Cmsg CmsgSpec Unix UnixLinux UnixSpec UnixRecvSpec Fallback Socket SocketSpec.

Local Open Scope Z_scope.

(** ** The interface *)

(** [poll_recv] returns the number of messages with the buffers and the
    metadata it wrote. *)
Abbreviation recv_result := (result (Z * list (list byte) * list RecvMeta) io_error).

Class DatagramReceiver (S : Type) := {
  dg_poll_recv : list (list byte) -> list RecvMeta -> Act S (poll recv_result);
  dg_listens : S -> Prop;     (* the system has an answer for every call *)
}.

(** The messages of a call: the first [n] buffers with their metadata. *)
Definition messages (n : Z) (iovs : list (list byte)) (metas : list RecvMeta) : list RecvMsg :=
  take (Z.to_nat n) (zip_with mk_RecvMsg metas iovs).

(** The buffers that the socket cuts out of its receive buffer, and as many
    metadata records. *)
Definition iovs_ok `{Profile} (iovs : list (list byte)) (metas : list RecvMeta) : Prop :=
  len iovs = Socket.BATCH_SIZE /\ len metas = Socket.BATCH_SIZE /\ Forall (fun b => len b = UDX_MTU) iovs.

Class DatagramReceiverLaws (S : Type) `{Profile} `{DatagramReceiver S} := {
  dg_recv_ok iovs metas st : iovs_ok iovs metas -> dg_listens st ->
    wp (dg_poll_recv iovs metas) (fun r st' =>
      match r with
      | Ready (Ok (n, iovs', metas')) =>
          0 <= n <= Socket.BATCH_SIZE /\ iovs_ok iovs' metas' /\ Forall msg_ok (messages n iovs' metas') /\ dg_listens st'
      | _ => True
      end) st;
}.

(** ** The socket over it *)

Section over.
Context `{P : Profile} `{AI : AtomicInstant} {S : Type} `{DR : DatagramReceiver S} `{DL : !DatagramReceiverLaws S}.

(** The loop of [poll_recv], with [calls] iterations left before [MAX_LOOP]. *)
Fixpoint recv_over_loop (calls : nat) (iovs : list (list byte)) (metas : list RecvMeta) (k : SocketSt) (d : S)
  : outcome (result bool io_error * (SocketSt * S)) :=
  match calls with
  | O => Ret (Ok true, (k, d))
  | Datatypes.S calls =>
      '(r, d) ← dg_poll_recv iovs metas d;
      match r with
      | Pending => Ret (Ok false, (k, d))
      | Ready (Err e) => Ret (Err e, (k, d))
      | Ready (Ok (n, iovs, metas)) =>
          '(_, k) ← receive_all (messages n iovs metas) k;
          recv_over_loop calls iovs metas k d
      end
  end.

(** The pieces of the given lengths. *)
Fixpoint cut (lens : list Z) (l : list byte) : list (list byte) :=
  match lens with
  | [] => []
  | n :: lens => take (Z.to_nat n) l :: cut lens (drop (Z.to_nat n) l)
  end.

(** [poll_recv]; [content] is what the receive buffer holds from earlier calls. *)
Definition recv_over (content : list byte) (st : SocketSt * S) : outcome (result bool io_error * (SocketSt * S)) :=
  let '(k, d) := st in
  let metas := replicate (Z.to_nat Socket.BATCH_SIZE) RecvMeta_default in
  recv_buf ← unwrap (k_recv_buf (sock k));
  lens ← iovectors_from_buf Socket.BATCH_SIZE recv_buf;
  '(res, (k, d)) ← recv_over_loop (Z.to_nat (MAX_LOOP - 1)) (cut lens content) metas
      (k <| sock ::= fun s => s <| k_recv_buf := None |> |>) d;
  Ret (res, (k <| sock ::= fun s => s <| k_recv_buf := Some recv_buf |> |>, d)).

(** What the layer returns to at most [calls] calls on its own, into the same
    buffers: the batches up to the call that is pending or fails. *)
Fixpoint layer_batches (calls : nat) (iovs : list (list byte)) (metas : list RecvMeta) (d : S)
  : outcome (RecvBatches * S) :=
  match calls with
  | O => Ret (mk_RecvBatches [] None, d)
  | Datatypes.S calls =>
      '(r, d) ← dg_poll_recv iovs metas d;
      match r with
      | Pending => Ret (mk_RecvBatches [] None, d)
      | Ready (Err e) => Ret (mk_RecvBatches [] (Some e), d)
      | Ready (Ok (n, iovs, metas)) =>
          '(rx, d) ← layer_batches calls iovs metas d;
          Ret (mk_RecvBatches (messages n iovs metas :: rb_batches rx) (rb_error rx), d)
      end
  end.

Lemma messages_len n iovs metas : 0 <= n <= Socket.BATCH_SIZE -> iovs_ok iovs metas -> len (messages n iovs metas) = n.
Proof.
  intros Hn (H1 & H2 & _). unfold messages, len in *. rewrite length_take, length_zip_with. lia.
Qed.

Lemma cut_uniform m sz l :
  0 <= sz -> length l = (m * Z.to_nat sz)%nat -> length (cut (replicate m sz) l) = m /\
    Forall (fun b => len b = sz) (cut (replicate m sz) l).
Proof.
  intros Hs. revert l. induction m as [|m IH]; intros l Hl; cbn [replicate cut length]; [done|].
  destruct (IH (drop (Z.to_nat sz) l)) as [E F]; [rewrite length_drop; lia|]. split; [by rewrite E|].
  constructor; [|done]. unfold len. rewrite length_take. lia.
Qed.

(** The loop does what the script of the layer's batches says. *)
Lemma recv_over_loop_batches calls iovs metas k d :
  (calls <= 59)%nat -> iovs_ok iovs metas -> dg_listens d ->
  RxRoom (Socket.BATCH_SIZE * (Z.of_nat calls + 1)) (UDX_MTU * Socket.BATCH_SIZE * (Z.of_nat calls + 1)) k ->
  exists rx r k' d', layer_batches calls iovs metas d = Ret (rx, d') /\
    recv_over_loop calls iovs metas k d = Ret (r, (k', d')) /\
    Forall (Forall msg_ok) (rb_batches rx) /\
    recv_batches (MAX_LOOP - 1 - Z.of_nat calls) (rb_batches rx) (rb_error rx) k = Ret (r, k').
Proof.
  revert iovs metas k d. induction calls as [|calls IH]; intros iovs metas k d Hc Hok Hd HR;
    cbn [recv_over_loop layer_batches].
  { by exists (mk_RecvBatches [] None), (Ok true), k, d. }
  assert ((MAX_LOOP - 1 - Z.of_nat (Datatypes.S calls) + 1 =? MAX_LOOP) = false) as Hne
    by (apply Z.eqb_neq; unfold MAX_LOOP; lia).
  destruct (wp_elim _ _ _ (dg_recv_ok iovs metas d Hok Hd)) as (r & d' & E & Hr). rewrite E. cbn [mbind outcome_bind].
  destruct r as [[[[n iovs'] metas']|e]|].
  - destruct Hr as (Hn & Hok' & Hms & Hd').
    pose proof (messages_len n iovs' metas' Hn Hok') as Hl. set (ms := messages n iovs' metas') in *.
    assert (forall c, RxRoom (Socket.BATCH_SIZE * (Z.of_nat (Datatypes.S calls) + 1))
        (UDX_MTU * Socket.BATCH_SIZE * (Z.of_nat (Datatypes.S calls) + 1)) c ->
      RxRoom (len ms + Socket.BATCH_SIZE * (Z.of_nat calls + 1))
        (UDX_MTU * len ms + UDX_MTU * Socket.BATCH_SIZE * (Z.of_nat calls + 1)) c) as Hsplit.
    { intros c [[] []]. rewrite Hl. split; batch_lia. }
    destruct (wp_elim _ _ _ (receive_all_wp ms k Hms ltac:(destruct (Hsplit k HR) as [[] []]; split; batch_lia)))
      as ([] & k1 & E1 & R & _).
    rewrite E1. cbn [mbind outcome_bind].
    destruct (IH iovs' metas' k1 d') as (rx & r & k' & d2 & E0 & E2 & Hbs & E3); [lia|done|done| |].
    { by apply (rv_room _ _ _ _ R), Hsplit. }
    exists (mk_RecvBatches (ms :: rb_batches rx) (rb_error rx)), r, k', d2. rewrite E0.
    split_and!; [done|done|by constructor|].
    cbn [recv_batches rb_batches rb_error]. rewrite Hne. unfold mbind, act_bind.
    rewrite take_ge by (unfold len in Hl; lia). rewrite E1.
    by replace (MAX_LOOP - 1 - Z.of_nat (Datatypes.S calls) + 1) with (MAX_LOOP - 1 - Z.of_nat calls) by lia.
  - exists (mk_RecvBatches [] (Some e)), (Err e), k, d'. split_and!; [done|done|constructor|].
    cbn [recv_batches rb_batches rb_error]. by rewrite Hne.
  - exists (mk_RecvBatches [] None), (Ok false), k, d'. split_and!; [done|done|constructor|].
    cbn [recv_batches rb_batches rb_error]. by rewrite Hne.
Qed.

(** C11: the receiving socket over any datagram layer that keeps its laws, and
    for both batch sizes.  Called up to [MAX_LOOP - 1] times with the same
    buffers, the layer on its own returns some batches of messages, all of which
    fit their buffers.  A [poll_recv] of the socket returns without a panic, and
    its result and its effect on the socket are exactly those of
    [socket_poll_recv] on these batches: no message is lost, cut, repeated or
    processed out of order, although the layer fills the same buffers again
    before the loop ends. *)
Theorem socket_receives_over_datagrams content k d :
  k_recv_buf (sock k) = Some (UDX_MTU * Socket.BATCH_SIZE) -> len content = UDX_MTU * Socket.BATCH_SIZE ->
  dg_listens d -> RxRoom (Socket.BATCH_SIZE * MAX_LOOP) (UDX_MTU * Socket.BATCH_SIZE * MAX_LOOP) k ->
  exists rx r k' d',
    layer_batches (Z.to_nat (MAX_LOOP - 1)) (cut (replicate (Z.to_nat Socket.BATCH_SIZE) UDX_MTU) content)
      (replicate (Z.to_nat Socket.BATCH_SIZE) RecvMeta_default) d = Ret (rx, d') /\
    Forall (Forall msg_ok) (rb_batches rx) /\ socket_poll_recv rx k = Ret (r, k') /\
    recv_over content (k, d) = Ret (r, (k', d')).
Proof.
  intros Hbuf Hc Hd HR. unfold recv_over. rewrite Hbuf. cbn [unwrap mbind outcome_bind].
  rewrite socket_iovectors. cbn [mbind outcome_bind].
  assert (0 <= Socket.BATCH_SIZE) as H0 by batch_lia.
  destruct (cut_uniform (Z.to_nat Socket.BATCH_SIZE) UDX_MTU content) as [E1 E2];
    [unfold UDX_MTU; lia|unfold len, UDX_MTU in *; lia|].
  destruct (recv_over_loop_batches (Z.to_nat (MAX_LOOP - 1)) (cut (replicate (Z.to_nat Socket.BATCH_SIZE) UDX_MTU) content)
    (replicate (Z.to_nat Socket.BATCH_SIZE) RecvMeta_default) (k <| sock ::= fun s => s <| k_recv_buf := None |> |>) d)
    as (rx & r & k' & d' & E0 & E & Hbs & Eb); [unfold MAX_LOOP; lia| |done| |].
  { split_and!; [unfold len; rewrite E1; lia|unfold len; rewrite length_replicate; lia|done]. }
  { destruct HR; by split. }
  eexists rx, r, _, d'. split_and!; [exact E0|exact Hbs| |].
  - change (MAX_LOOP - 1 - Z.of_nat (Z.to_nat (MAX_LOOP - 1))) with 0 in Eb.
    unfold socket_poll_recv, sself, set_sock, lift, mbind, act_bind, gets, modify.
    rewrite Hbuf. cbn [unwrap]. rewrite socket_iovectors. rewrite Eb. reflexivity.
  - rewrite E. cbn [mbind outcome_bind]. reflexivity.
Qed.

End over.

(** ** The implementations *)

Section unix.
Context `{P : Profile} `{CA : CmsgAbi} `{CL : !CmsgLaws} `{TG : Target} `{LC : Libc} `{LL : !LibcLaws}.

(** The answers of the readiness and of the receive calls: they go on until the
    descriptor is not ready or a call fails; the kernel writes inside of the
    buffers. *)
Inductive unix_listens : list (poll (result unit io_error)) -> list (result (list Filled) io_error) -> Prop :=
  | ul_pending ws rs : unix_listens (Pending :: ws) rs
  | ul_not_ready e ws rs : unix_listens (Ready (Err e) :: ws) rs
  | ul_failed ws skips e rs :
      Forall skipped skips -> ioe_kind e <> Interrupted -> ioe_kind e <> WouldBlock ->
      unix_listens (Ready (Ok tt) :: ws) (skips ++ Err e :: rs)
  | ul_again ws skips e rs :
      Forall skipped skips -> ioe_kind e = WouldBlock -> unix_listens ws rs ->
      unix_listens (Ready (Ok tt) :: ws) (skips ++ Err e :: rs)
  | ul_received ws skips fs ms rs :
      Forall skipped skips -> UnixRecvSpec.received Socket.BATCH_SIZE (Ok fs) ms -> Forall (fun f => len (fl_data f) = UDX_MTU) fs ->
      unix_listens ws rs -> unix_listens (Ready (Ok tt) :: ws) (skips ++ Ok fs :: rs).

#[export] Instance unix_receiver : DatagramReceiver UdpSt := {|
  dg_poll_recv := Unix.poll_recv;
  dg_listens st := unix_listens (u_read_ready st) (u_recv st);
|}.

(** What the kernel filled is what the socket may slice. *)
Lemma filled_messages fs ms iovs metas :
  Forall2 filled_as fs ms -> Forall (fun f => len (fl_data f) = UDX_MTU) fs -> len fs <= Socket.BATCH_SIZE ->
  iovs_ok iovs metas ->
  iovs_ok (fill_bufs fs iovs) (ms ++ drop (length fs) metas) /\
  Forall msg_ok (messages (len fs) (fill_bufs fs iovs) (ms ++ drop (length fs) metas)).
Proof.
  intros HF Hd Hl (H1 & H2 & H3). pose proof (Forall2_length _ _ _ HF) as Hlen. split.
  - split_and!; unfold fill_bufs, len in *; rewrite ?length_app, ?length_map, ?length_drop; [lia..|].
    apply Forall_app. split; [by apply Forall_map|by apply Forall_drop].
  - unfold messages, fill_bufs, len. rewrite Nat2Z.id, zip_with_app by (by rewrite length_map).
    rewrite take_app_length' by (rewrite length_zip_with, length_map; lia).
    clear -HF Hd. induction HF as [|f m fs ms (a & ks & _ & _ & _ & Hf & ->) _ IH]; [constructor|].
    apply Forall_cons_1 in Hd as [Hf' Hd]. constructor; [|by apply IH]. split; cbn; [done|lia].
Qed.

#[export] Instance unix_receiver_laws : DatagramReceiverLaws UdpSt.
Proof.
  split. cbn [dg_poll_recv dg_listens unix_receiver]. intros iovs metas st Hok Hl.
  assert (iovs <> [] /\ len iovs = Socket.BATCH_SIZE /\ len iovs <= len metas) as (Hne & H32 & Hm).
  { destruct Hok as (H1 & H2 & _). split_and!; [|lia..]. intros ->. change (len []) with 0 in H1. batch_lia. }
  remember (u_read_ready st) as ws eqn:Ew. remember (u_recv st) as rs eqn:Er. revert st Ew Er.
  induction Hl as [ws rs|e ws rs|ws skips e rs Hs H1 H2|ws skips e rs Hs H1 Hl IH|ws skips fs ms rs Hs Hr Hd Hl _];
    intros st Ew Er; pose proof (unix_poll_recv_contract iovs metas st Hne Hm) as Hc; rewrite <- Ew in Hc.
  - by eapply wp_intro.
  - by eapply wp_intro.
  - specialize (Hc skips (Err e) [] rs (eq_sym Er) Hs H1). cbn in Hc. rewrite decide_False in Hc by done.
    by eapply wp_intro.
  - specialize (Hc skips (Err e) [] rs (eq_sym Er) Hs ltac:(cbn; by rewrite H1)). cbn in Hc.
    rewrite decide_True in Hc by done. unfold wp in *. rewrite Hc. by apply IH.
  - rewrite <- H32 in Hr. specialize (Hc skips (Ok fs) ms rs (eq_sym Er) Hs Hr). cbn in Hc.
    eapply wp_intro; [exact Hc|]. destruct Hr as (HF & Hlf & _). pose proof (len_nonneg fs).
    destruct (filled_messages fs ms iovs metas HF Hd ltac:(lia) Hok). split_and!; try done. lia.
Qed.

End unix.

Section fallback.
Context `{P : Profile}.

(** The answers of [poll_recv_from]. *)
Inductive fallback_listens : list (poll (result (SocketAddr * list byte) io_error)) -> Prop :=
  | fl_pending l : fallback_listens (Pending :: l)
  | fl_failed e l : fallback_listens (Ready (Err e) :: l)
  | fl_received a b l : len b <= UDX_MTU -> fallback_listens l -> fallback_listens (Ready (Ok (a, b)) :: l).

#[export] Instance fallback_receiver : DatagramReceiver FallbackSt := {|
  dg_poll_recv := Fallback.poll_recv;
  dg_listens st := fallback_listens (f_recv st);
|}.

#[export] Instance fallback_receiver_laws : DatagramReceiverLaws FallbackSt.
Proof.
  split. cbn [dg_poll_recv dg_listens fallback_receiver]. intros iovs metas st (H1 & H2 & H3) Hl.
  assert (Socket.BATCH_SIZE <> 0) as Hbs by batch_lia.
  destruct iovs as [|b iovs]; [done|]. destruct metas as [|m metas]; [done|]. unfold Fallback.poll_recv.
  assert ((len (b :: iovs) =? 0) = false) as -> by (apply Z.eqb_neq; rewrite len_cons; pose proof (len_nonneg iovs); lia).
  assert (forall s : FallbackSt, (debug_assert (negb false) : Act FallbackSt unit) s = Ret (tt, s)) as Ed
    by (intros s; unfold debug_assert, assert, lift; by destruct overflow_checks).
  apply wp_bind. eapply wp_intro; [apply Ed|]. apply wp_bind. eapply wp_lift; [reflexivity|].
  apply wp_bind, wp_gets. apply Forall_cons_1 in H3 as [Hb H3]. rewrite len_cons in H1. rewrite len_cons in H2.
  destruct Hl as [l|e l|a v l Hv Hl]; apply wp_bind, wp_modify; [by apply wp_ret..|].
  apply wp_bind. eapply wp_lift; [apply set_index_fits; rewrite len_cons; pose proof (len_nonneg metas); lia|].
  apply wp_bind. eapply wp_lift; [apply set_index_fits; rewrite len_cons; pose proof (len_nonneg iovs); lia|].
  apply wp_ret. cbn. assert (len (v ++ drop (length v) b) = UDX_MTU) as Hlen.
  { rewrite len_app. unfold len in *. rewrite length_drop. unfold UDX_MTU in *. lia. }
  pose proof (len_nonneg v). pose proof (len_nonneg iovs). split_and!; [lia..| | |].
  - unfold iovs_ok, len in *. rewrite !length_insert. split_and!; [cbn [length]; lia..|by constructor].
  - constructor; [|constructor]. split; cbn; [done|lia].
  - done.
Qed.

End fallback.

(** ** The layers at work *)

#[local] Existing Instance linux_cmsg.
#[local] Existing Instance linux_cmsg_laws.
#[local] Existing Instance linux_libc.
#[local] Existing Instance linux_libc_laws.
#[local] Existing Instance linux_target.
#[local] Existing Instance option_instant.
#[local] Instance receiver_profile : Profile := mk_Profile true true.

(** On Linux: the call is interrupted, then one datagram arrives, then the
    descriptor is not ready any more. *)
Definition mtu_filled : Filled :=
  mk_Filled (fl_name one_filled) (fl_control one_filled) (fl_controllen one_filled) 0
    (replicate 1400 Byte.x2a) 22.

Definition one_arrives : UdpSt :=
  receiving [Ready (Ok tt); Pending] [interrupt_err; Ok [mtu_filled]].

Lemma mtu_filled_as : filled_as mtu_filled one_meta.
Proof.
  destruct one_filled_as as (a & ks & H1 & H2 & H3 & _ & E). exists a, ks.
  split_and!; [exact H1|exact H2|exact H3|done|by vm_compute|exact E].
Qed.

Definition blank : list byte := replicate (Z.to_nat (UDX_MTU * Socket.BATCH_SIZE)) Byte.x00.

Lemma blank_len : len blank = UDX_MTU * Socket.BATCH_SIZE.
Proof. unfold len, blank. rewrite length_replicate. by rewrite Z2Nat.id. Qed.

(** The one message is in the one batch that the layer returns, and ends up in
    the queue of datagrams, as it is not a packet. *)
Lemma socket_receives_over_datagrams_witness :
  exists rx r k' d',
    recv_over blank (mk_SocketSt (bind here) [] (fresh_world 4), one_arrives) = Ret (r, (k', d')) /\
    socket_poll_recv rx (mk_SocketSt (bind here) [] (fresh_world 4)) = Ret (r, k') /\
    map (map msg_data) (rb_batches rx) = [[replicate 22 Byte.x2a]].
Proof.
  destruct (socket_receives_over_datagrams blank (mk_SocketSt (bind here) [] (fresh_world 4)) one_arrives)
    as (rx & r & k' & d' & El & _ & E' & E).
  - reflexivity.
  - exact blank_len.
  - apply (ul_received [Pending] [interrupt_err] [mtu_filled] [one_meta] []).
    + repeat constructor.
    + split_and!; [constructor; [exact mtu_filled_as|constructor]|done|done].
    + constructor; [by vm_compute|constructor].
    + constructor.
  - vm_compute. repeat split; discriminate.
  - exists rx, r, k', d'. split; [exact E|]. split; [exact E'|].
    assert (match layer_batches (Z.to_nat (MAX_LOOP - 1)) (cut (replicate (Z.to_nat Socket.BATCH_SIZE) UDX_MTU) blank)
      (replicate (Z.to_nat Socket.BATCH_SIZE) RecvMeta_default) one_arrives with
      Ret (rx, _) => map (map msg_data) (rb_batches rx) | _ => [] end = [[replicate 22 Byte.x2a]]) as Hm
      by (vm_compute; reflexivity).
    rewrite El in Hm. exact Hm.
Defined.
