(* ===== verification/Mutex.v ===== *)
(** The mutex of the crate: [src/src/mutex.rs].

    Both variants wrap [parking_lot::Mutex], which gives the data to one guard
    at a time: a lock is a call that returns when no guard is alive.  The
    tracking variant also keeps a list of its last owners.  A critical section
    is the time from [lock] to the drop of the guard; sections of one mutex do
    not overlap, so a use of the mutex is a sequence of them. *)

From S2P Require Import Prelude.

Local Open Scope Z_scope.

Definition MAX_LOCK_OWNERS : Z := 20.

(** [Instant::duration_since] and [elapsed]: zero for a later instant. *)
Definition duration_since (later earlier : Z) : Z := Z.max 0 (later - earlier).

Module tracking.
Section tracking.
Context {T : Type}.

Record Inner := mk_Inner {
  last_lock_owner : list (string * Z);    (* newest first *)
  value : T;
}.

#[local] Instance Inner_eta : Eta Inner := fun i => mk_Inner (last_lock_owner i) (value i).

Record MutexGuard := mk_MutexGuard {
  start_time : Z;
  purpose : string;
}.

Definition new (v : T) : Inner := mk_Inner [] v.

(** [lock] called at [now], with the lock acquired at [lock_time]: the guard,
    and whether a warning is logged. *)
Definition lock (purpose : string) (now lock_time : Z) : MutexGuard * bool :=
  (mk_MutexGuard lock_time purpose, duration_since lock_time now >? from_millis 2).

Definition deref (i : Inner) : T := value i.
Definition deref_mut (f : T -> T) (i : Inner) : Inner := i <| value ::= f |>.

(** [VecDeque::pop_back]. *)
Definition pop_back {A} (l : list A) : list A := take (length l - 1) l.

(** [Drop for MutexGuard] at time [now]: the inner state and whether a warning
    is logged. *)
Definition drop_guard (g : MutexGuard) (now : Z) (i : Inner) : Inner * bool :=
  let owners := if len (last_lock_owner i) =? MAX_LOCK_OWNERS then pop_back (last_lock_owner i) else last_lock_owner i in
  let duration := duration_since now (start_time g) in
  (i <| last_lock_owner := (purpose g, duration) :: owners |>, duration >? from_millis 2).

End tracking.
Arguments Inner : clear implicits.
End tracking.

Module non_tracking.
Section non_tracking.
Context {T : Type}.

Record Mutex := mk_Mutex { inner : T }.

Definition new (v : T) : Mutex := mk_Mutex v.
Definition lock (_purpose : string) (m : Mutex) : Mutex := m.
Definition deref (m : Mutex) : T := inner m.
Definition deref_mut (f : T -> T) (m : Mutex) : Mutex := mk_Mutex (f (inner m)).

End non_tracking.
Arguments Mutex : clear implicits.
End non_tracking.

(** ** Properties *)

Section use.
Context {T : Type}.

(** A critical section: its purpose, when it was asked for, entered and left,
    and what it does to the data. *)
Record critical := mk_critical {
  c_purpose : string;
  c_asked : Z;
  c_entered : Z;
  c_left : Z;
  c_body : T -> T;
}.

Definition run_tracking (c : critical) (i : tracking.Inner T) : tracking.Inner T :=
  let '(g, _) := tracking.lock (c_purpose c) (c_asked c) (c_entered c) in
  fst (tracking.drop_guard g (c_left c) (tracking.deref_mut (c_body c) i)).

Definition run_plain (c : critical) (m : non_tracking.Mutex T) : non_tracking.Mutex T :=
  non_tracking.deref_mut (c_body c) (non_tracking.lock (c_purpose c) m).

(** The record a section leaves. *)
Definition owner (c : critical) : string * Z := (c_purpose c, duration_since (c_left c) (c_entered c)).

Lemma push_owner (x : string * Z) (l : list (string * Z)) :
  x :: (let l' := take 20 l in if len l' =? MAX_LOCK_OWNERS then tracking.pop_back l' else l') = take 20 (x :: l).
Proof.
  cbn zeta. cbn [take]. f_equal. unfold tracking.pop_back, MAX_LOCK_OWNERS, len. rewrite length_take.
  destruct (Z.eqb_spec (Z.of_nat (Nat.min 20 (length l))) 20) as [E|E].
  - rewrite take_take. f_equal. lia.
  - rewrite !take_ge; [done|lia..].
Qed.

Lemma run_tracking_owners (cs : list critical) i l :
  tracking.last_lock_owner i = take 20 l ->
  tracking.last_lock_owner (foldl (fun i c => run_tracking c i) i cs) = take 20 (rev (map owner cs) ++ l).
Proof.
  revert i l. induction cs as [|c cs IH]; intros i l E; [done|]. cbn [foldl map rev].
  rewrite <- app_assoc. apply IH. cbn. rewrite E. apply (push_owner (owner c) l).
Qed.

(** The tracking mutex is the plain mutex with a bounded memory.  After any
    sequence of critical sections it holds the same data as the plain mutex,
    and the list of owners is exactly the last twenty sections, newest first,
    each with the time it held the lock. *)
Theorem tracking_mutex_refines v (cs : list critical) :
  let i := foldl (fun i c => run_tracking c i) (tracking.new v) cs in
  tracking.deref i = non_tracking.deref (foldl (fun m c => run_plain c m) (non_tracking.new v) cs) /\
  tracking.last_lock_owner i = take 20 (rev (map owner cs)) /\
  len (tracking.last_lock_owner i) <= MAX_LOCK_OWNERS.
Proof.
  intros i. assert (tracking.last_lock_owner i = take 20 (rev (map owner cs))) as Ho.
  { rewrite <- (app_nil_r (rev (map owner cs))). by apply run_tracking_owners. }
  split_and!; [|done|].
  - unfold i. change v with (non_tracking.inner (non_tracking.new v)) at 1.
    generalize (non_tracking.new v) as m. unfold tracking.new. generalize (@nil (string * Z)) as l. clear.
    induction cs as [|c cs IH]; intros l m; [done|]. cbn [foldl]. exact (IH _ (run_plain c m)).
  - rewrite Ho. unfold len, MAX_LOCK_OWNERS. rewrite length_take. lia.
Qed.

End use.
