(* ===== verification/Handles.v ===== *)
(** The public handles: [UdxStream] and [UdxSocket] of [src/src/stream.rs] and
    [src/src/socket.rs].

    A handle is an [Arc<Mutex<..>>].  Each of its methods locks the mutex for a
    purpose, runs the method of the inner struct, and drops the guard.  No
    method locks a second mutex while it holds a guard, so sections of the two
    mutexes interleave freely and cannot deadlock.  The mutex is an interface
    with the two variants of [Mutex] as instances; what the methods do is shown
    against its laws. *)

From S2P Require Import Prelude Constants Errors UdpProto Packet Runtime Stream StreamInv StreamCtrl.
From S2P Require Import StreamSend StreamTimer StreamAck StreamRecv StreamDriver StreamSpec Socket Mutex.

Local Open Scope Z_scope.

(** ** The mutex as the handles use it *)

(** When a section was asked for, entered and left. *)
Record times := mk_times {
  t_asked : Z;
  t_entered : Z;
  t_left : Z;
}.

Class MutexApi (M : Type -> Type) := {
  mutex_new : forall {T}, T -> M T;
  mutex_value : forall {T}, M T -> T;
  with_guard : forall {T A}, string -> times -> (T -> outcome (A * T)) -> M T -> outcome (A * M T);
}.

(** The same result, up to a relation between the values. *)
Definition matches {A B} (R : A -> B -> Prop) (o : outcome A) (o' : outcome B) : Prop :=
  match o, o' with
  | Ret a, Ret b => R a b
  | Panic e, Panic e' => e = e'
  | NoFuel, NoFuel => True
  | _, _ => False
  end.

(** A section runs its body on the value and stores what it leaves. *)
Class MutexLaws (M : Type -> Type) `{MutexApi M} : Prop := {
  value_new {T} (v : T) : mutex_value (mutex_new v) = v;
  guard_runs {T A} purpose ts (f : T -> outcome (A * T)) m :
    matches (fun r r' => fst r' = fst r /\ mutex_value (snd r') = snd r) (f (mutex_value m)) (with_guard purpose ts f m);
}.

#[export] Instance tracking_api : MutexApi tracking.Inner := {
  mutex_new T := @tracking.new T;
  mutex_value T := @tracking.deref T;
  with_guard T A purpose ts f m :=
    let '(g, _) := tracking.lock purpose (t_asked ts) (t_entered ts) in
    '(a, v) ← f (tracking.deref m);
    Ret (a, fst (tracking.drop_guard g (t_left ts) (tracking.deref_mut (fun _ => v) m)));
}.

#[export] Instance non_tracking_api : MutexApi non_tracking.Mutex := {
  mutex_new T := @non_tracking.new T;
  mutex_value T := @non_tracking.deref T;
  with_guard T A purpose ts f m :=
    let m := non_tracking.lock purpose m in
    '(a, v) ← f (non_tracking.deref m);
    Ret (a, non_tracking.deref_mut (fun _ => v) m);
}.

#[export] Instance tracking_laws : MutexLaws tracking.Inner.
Proof. split; [done|]. intros T A purpose ts f m. cbn. by destruct (f _) as [[a v]| |]. Qed.

#[export] Instance non_tracking_laws : MutexLaws non_tracking.Mutex.
Proof. split; [done|]. intros T A purpose ts f m. cbn. by destruct (f _) as [[a v]| |]. Qed.

(** The entry a section leaves in the log of a tracking mutex. *)
Definition log_entry (reason : string) (ts : times) : list (string * Z) :=
  [(reason, duration_since (t_left ts) (t_entered ts))].

(** ** Locking and delegating

    The state [S] of an operation is the inner struct [T], which the mutex
    holds, and the rest [W], which it does not. *)
Section guarded.
Context {M : Type -> Type} `{MutexApi M} {S T W : Type}.
Context (pack : T -> W -> S) (inner_of : S -> T) (rest_of : S -> W).

Definition locked {A} (reason : string) (ts : times) (m : Act S A) : Act (M T * W) A := fun h =>
  '((a, w), m') ← with_guard reason ts
    (fun t => '(a, s) ← m (pack t (snd h)); Ret ((a, rest_of s), inner_of s)) (fst h);
  Ret (a, (m', w)).

(** The handle stands for the state of the operation. *)
Definition stands_for (s : S) (h : M T * W) : Prop :=
  inner_of s = mutex_value (fst h) /\ rest_of s = snd h.

Definition faithful {A} (m : Act S A) (m' : Act (M T * W) A) : Prop :=
  forall s h, stands_for s h -> matches (fun r r' => fst r' = fst r /\ stands_for (snd r) (snd r')) (m s) (m' h).

Context `{!MutexLaws M}.
Hypothesis pack_inner : forall s, pack (inner_of s) (rest_of s) = s.

Lemma locked_faithful {A} reason ts (m : Act S A) : faithful m (locked reason ts m).
Proof.
  intros s [mx w] [Es Ew]. cbn in Es, Ew. unfold locked. cbn [fst snd].
  pose proof (guard_runs reason ts (fun t => '(a, s) ← m (pack t w); Ret ((a, rest_of s), inner_of s)) mx) as G.
  rewrite <- Es in G. subst w. rewrite pack_inner in G.
  destruct (m s) as [[a s']| |]; cbn in G |- *; destruct (with_guard _ _ _ _) as [[[a' w'] mx']| |]; try done.
  cbn in *. destruct G as [[= -> ->] G]. by split.
Qed.

Lemma faithful_ret {A} (a : A) : faithful (mret a) (mret a).
Proof. intros s h Hs. by split. Qed.

Lemma faithful_bind {A B} (m : Act S A) m' (f : A -> Act S B) f' :
  faithful m m' -> (forall a, faithful (f a) (f' a)) -> faithful (m ≫= f) (m' ≫= f').
Proof.
  intros Hm Hf s h Hs. specialize (Hm s h Hs). unfold mbind, act_bind.
  destruct (m s) as [[a s']| |], (m' h) as [[a' h']| |]; try done. cbn in Hm. destruct Hm as [-> Hs']. by apply Hf.
Qed.

End guarded.

(** ** [UdxStream] *)
Section stream_handle.
Context `{Profile} {AI : AtomicInstant} {M : Type -> Type} `{MutexApi M} {B : Type} `{ReadBuf B}.

(** The inner struct behind its mutex, and the world outside of it. *)
Definition UdxStream : Type := M UdxStreamInner * World.

(** [UdxStream(Arc::new(Mutex::new(stream)))]. *)
Definition UdxStream_new (s : UdxStreamInner) (w : World) : UdxStream := (mutex_new s, w).

Definition UdxStream_lock {A} (reason : string) (ts : times) (m : Act StreamSt A) : Act UdxStream A :=
  locked mk_StreamSt inner world reason ts m.

Definition UdxStream_close (ts : times) (tx : Oneshot) : Act UdxStream unit :=
  UdxStream_lock "UdxStream::close" ts (close tx).

(** [closed] locks under the name of [close]. *)
Definition UdxStream_closed (ts : times) : Act UdxStream bool :=
  UdxStream_lock "UdxStream::close" ts (self closed).

Definition UdxStream_remote_addr (ts : times) : Act UdxStream SocketAddr :=
  UdxStream_lock "UdxStream::remote_addr" ts (self remote_addr).

Definition UdxStream_stats (ts : times) : Act UdxStream StreamStats :=
  UdxStream_lock "UdxStream::stats" ts (self stats).

Definition UdxStream_poll_read (ts : times) (cx : Waker) (buf : B)
  : Act UdxStream (poll (result unit io_error) * B) :=
  UdxStream_lock "UdxStream::poll_read" ts (poll_read cx buf).

Definition UdxStream_poll_write (ts : times) (cx : Waker) (buf : list byte)
  : Act UdxStream (poll (result Z io_error)) :=
  UdxStream_lock "UdxStream::poll_write" ts (poll_write cx buf).

(** Flushing and shutting down a handle do not even lock. *)
Definition UdxStream_poll_flush : Act UdxStream (poll (result unit io_error)) := mret (Ready (Ok tt)).

Definition UdxStream_poll_shutdown : Act UdxStream (poll (result unit io_error)) := mret (Ready (Ok tt)).

Definition UdxStream_drop (ts : times) (strong_count : Z) : Act UdxStream unit :=
  if strong_count <=? 2 then UdxStream_lock "UdxStream::drop" ts (terminate close_graceful) else mret tt.

(** [StreamDriver::poll]; its own wake-up comes after the guard is dropped. *)
Definition StreamDriver_poll (ts : times) (cx : Waker) (rx : RecvScript) (timer_ready : bool)
  : Act UdxStream (poll unit) :=
  UdxStream_lock "UdxStream::poll_drive" ts (driver_poll cx rx timer_ready).

(** [Debug for UdxStream]: the value that is formatted. *)
Definition UdxStream_debug (ts : times) : Act UdxStream UdxStreamInner :=
  UdxStream_lock "UdxStream::debug" ts (self (fun s => s)).

(** A use of the handle, and what it returns. *)
Inductive stream_call :=
  | SClose (ts : times) (tx : Oneshot)
  | SClosed (ts : times)
  | SRemoteAddr (ts : times)
  | SStats (ts : times)
  | SDebug (ts : times)
  | SPollRead (ts : times) (cx : Waker) (buf : B)
  | SPollWrite (ts : times) (cx : Waker) (buf : list byte)
  | SPollFlush
  | SPollShutdown
  | SDrop (ts : times) (strong_count : Z)
  | SPollDrive (ts : times) (cx : Waker) (rx : RecvScript) (timer_ready : bool).

Inductive stream_answer :=
  | AUnit
  | ABool (b : bool)
  | AAddr (a : SocketAddr)
  | AStats (s : StreamStats)
  | ADebug (s : UdxStreamInner)
  | ARead (r : poll (result unit io_error)) (buf : B)
  | AWrite (r : poll (result Z io_error))
  | AFlush (r : poll (result unit io_error))
  | ADrive (r : poll unit).

Definition through_handle (c : stream_call) : Act UdxStream stream_answer :=
  match c with
  | SClose ts tx => _ ← UdxStream_close ts tx; mret AUnit
  | SClosed ts => b ← UdxStream_closed ts; mret (ABool b)
  | SRemoteAddr ts => a ← UdxStream_remote_addr ts; mret (AAddr a)
  | SStats ts => s ← UdxStream_stats ts; mret (AStats s)
  | SDebug ts => s ← UdxStream_debug ts; mret (ADebug s)
  | SPollRead ts cx buf => '(r, buf) ← UdxStream_poll_read ts cx buf; mret (ARead r buf)
  | SPollWrite ts cx buf => r ← UdxStream_poll_write ts cx buf; mret (AWrite r)
  | SPollFlush => r ← UdxStream_poll_flush; mret (AFlush r)
  | SPollShutdown => r ← UdxStream_poll_shutdown; mret (AFlush r)
  | SDrop ts n => _ ← UdxStream_drop ts n; mret AUnit
  | SPollDrive ts cx rx timer_ready => r ← StreamDriver_poll ts cx rx timer_ready; mret (ADrive r)
  end.

(** The same call without a mutex. *)
Definition on_inner (c : stream_call) : Act StreamSt stream_answer :=
  match c with
  | SClose _ tx => _ ← close tx; mret AUnit
  | SClosed _ => b ← self closed; mret (ABool b)
  | SRemoteAddr _ => a ← self remote_addr; mret (AAddr a)
  | SStats _ => s ← self stats; mret (AStats s)
  | SDebug _ => s ← self (fun s => s); mret (ADebug s)
  | SPollRead _ cx buf => '(r, buf) ← poll_read cx buf; mret (ARead r buf)
  | SPollWrite _ cx buf => r ← poll_write cx buf; mret (AWrite r)
  | SPollFlush => r ← poll_flush; mret (AFlush r)
  | SPollShutdown => r ← poll_shutdown; mret (AFlush r)
  | SDrop _ n => _ ← drop_stream n; mret AUnit
  | SPollDrive _ cx rx timer_ready => r ← driver_poll cx rx timer_ready; mret (ADrive r)
  end.

(** The entry a call leaves in the log of a tracking mutex. *)
Definition stream_log (c : stream_call) : list (string * Z) :=
  match c with
  | SClose ts _ | SClosed ts => log_entry "UdxStream::close" ts
  | SRemoteAddr ts => log_entry "UdxStream::remote_addr" ts
  | SStats ts => log_entry "UdxStream::stats" ts
  | SDebug ts => log_entry "UdxStream::debug" ts
  | SPollRead ts _ _ => log_entry "UdxStream::poll_read" ts
  | SPollWrite ts _ _ => log_entry "UdxStream::poll_write" ts
  | SPollFlush | SPollShutdown => []
  | SDrop ts n => if n <=? 2 then log_entry "UdxStream::drop" ts else []
  | SPollDrive ts _ _ _ => log_entry "UdxStream::poll_drive" ts
  end.

Context `{!MutexLaws M}.

Lemma stream_call_faithful c :
  faithful inner world (on_inner c) (through_handle c).
Proof.
  assert (forall A reason ts (m : Act StreamSt A), faithful inner world m (UdxStream_lock reason ts m)) as L.
  { intros. apply (locked_faithful mk_StreamSt inner world). by intros []. }
  destruct c; cbn [on_inner through_handle]; (apply faithful_bind; [|intros; try case_match; apply faithful_ret]);
    try apply L; try apply faithful_ret.
  unfold drop_stream, UdxStream_drop. destruct (_ <=? _); [apply L|apply faithful_ret].
Qed.

End stream_handle.

(** ** [UdxSocket] *)
Section socket_handle.
Context `{Profile} {AI : AtomicInstant} {M : Type -> Type} `{MutexApi M}.

Definition UdxSocket : Type := M UdxSocketInner * (list Chan * World).

Definition socket_of (s : UdxSocketInner) (r : list Chan * World) : SocketSt := mk_SocketSt s (fst r) (snd r).
Definition outside (k : SocketSt) : list Chan * World := (chans k, sworld k).

(** [UdxSocket::bind] after the system calls have succeeded. *)
Definition UdxSocket_bind (local_addr : SocketAddr) (w : World) : UdxSocket := (mutex_new (bind local_addr), ([], w)).

Definition UdxSocket_lock {A} (reason : string) (ts : times) (m : Act SocketSt A) : Act UdxSocket A :=
  locked socket_of sock outside reason ts m.

Definition UdxSocket_local_addr (ts : times) : Act UdxSocket SocketAddr :=
  UdxSocket_lock "UdxSocket::local_addr" ts (sself k_local_addr).

Definition UdxSocket_connect (ts : times) (dest : SocketAddr) (local_id remote_id : Z)
  : Act UdxSocket (UdxStreamInner * nat) :=
  UdxSocket_lock "UdxSocket::connect" ts (socket_connect dest local_id remote_id).

Definition UdxSocket_stats (ts : times) : Act UdxSocket SocketStats :=
  UdxSocket_lock "UdxSocket::stats" ts (sself k_stats).

Definition UdxSocket_send (ts : times) (dest : SocketAddr) (buf : list byte) : Act UdxSocket unit :=
  UdxSocket_lock "UdxSocket::send" ts (socket_send dest buf).

(** [RecvFuture::poll]; [recv] itself only makes the future. *)
Definition RecvFuture_poll (ts : times) (cx : Waker)
  : Act UdxSocket (poll (result (SocketAddr * list byte) io_error)) :=
  UdxSocket_lock "UdxSocket::recv" ts (recv_poll cx).

Definition UdxSocket_drop (ts : times) (strong_count : Z) : Act UdxSocket unit :=
  if strong_count =? 2 then UdxSocket_lock "UdxSocket::drop" ts (drop_socket strong_count) else mret tt.

Definition SocketDriver_poll (ts : times) (cx : Waker) (rx : RecvBatches) (timer_ready : bool) (ss : SendScript)
  : Act UdxSocket (poll (result unit io_error)) :=
  UdxSocket_lock "UdxSocket::poll_drive" ts (socket_driver_poll cx rx timer_ready ss).

Inductive socket_call :=
  | KLocalAddr (ts : times)
  | KConnect (ts : times) (dest : SocketAddr) (local_id remote_id : Z)
  | KStats (ts : times)
  | KSend (ts : times) (dest : SocketAddr) (buf : list byte)
  | KRecv (ts : times) (cx : Waker)
  | KDrop (ts : times) (strong_count : Z)
  | KPollDrive (ts : times) (cx : Waker) (rx : RecvBatches) (timer_ready : bool) (ss : SendScript).

Inductive socket_answer :=
  | KAUnit
  | KAAddr (a : SocketAddr)
  | KAStream (s : UdxStreamInner) (chan : nat)
  | KAStats (s : SocketStats)
  | KARecv (r : poll (result (SocketAddr * list byte) io_error))
  | KADrive (r : poll (result unit io_error)).

Definition through_socket_handle (c : socket_call) : Act UdxSocket socket_answer :=
  match c with
  | KLocalAddr ts => a ← UdxSocket_local_addr ts; mret (KAAddr a)
  | KConnect ts dest l r => '(s, c) ← UdxSocket_connect ts dest l r; mret (KAStream s c)
  | KStats ts => s ← UdxSocket_stats ts; mret (KAStats s)
  | KSend ts dest buf => _ ← UdxSocket_send ts dest buf; mret KAUnit
  | KRecv ts cx => r ← RecvFuture_poll ts cx; mret (KARecv r)
  | KDrop ts n => _ ← UdxSocket_drop ts n; mret KAUnit
  | KPollDrive ts cx rx timer_ready ss => r ← SocketDriver_poll ts cx rx timer_ready ss; mret (KADrive r)
  end.

Definition on_socket_inner (c : socket_call) : Act SocketSt socket_answer :=
  match c with
  | KLocalAddr _ => a ← sself k_local_addr; mret (KAAddr a)
  | KConnect _ dest l r => '(s, c) ← socket_connect dest l r; mret (KAStream s c)
  | KStats _ => s ← sself k_stats; mret (KAStats s)
  | KSend _ dest buf => _ ← socket_send dest buf; mret KAUnit
  | KRecv _ cx => r ← recv_poll cx; mret (KARecv r)
  | KDrop _ n => _ ← drop_socket n; mret KAUnit
  | KPollDrive _ cx rx timer_ready ss => r ← socket_driver_poll cx rx timer_ready ss; mret (KADrive r)
  end.

Definition socket_log (c : socket_call) : list (string * Z) :=
  match c with
  | KLocalAddr ts => log_entry "UdxSocket::local_addr" ts
  | KConnect ts _ _ _ => log_entry "UdxSocket::connect" ts
  | KStats ts => log_entry "UdxSocket::stats" ts
  | KSend ts _ _ => log_entry "UdxSocket::send" ts
  | KRecv ts _ => log_entry "UdxSocket::recv" ts
  | KDrop ts n => if n =? 2 then log_entry "UdxSocket::drop" ts else []
  | KPollDrive ts _ _ _ _ => log_entry "UdxSocket::poll_drive" ts
  end.

Context `{!MutexLaws M}.

Lemma socket_call_faithful c : faithful sock outside (on_socket_inner c) (through_socket_handle c).
Proof.
  assert (forall A reason ts (m : Act SocketSt A), faithful sock outside m (UdxSocket_lock reason ts m)) as L.
  { intros. apply (locked_faithful socket_of sock outside). by intros []. }
  destruct c; cbn [on_socket_inner through_socket_handle];
    (apply faithful_bind; [|intros; try case_match; apply faithful_ret]); try apply L.
  unfold UdxSocket_drop. destruct (_ =? 2) eqn:E; [apply L|]. unfold drop_socket. rewrite E. apply faithful_ret.
Qed.

End socket_handle.

(** ** Sequences of calls *)

Fixpoint run_calls {C St A} (call : C -> Act St A) (cs : list C) : Act St (list A) :=
  match cs with
  | [] => mret []
  | c :: cs => a ← call c; rest ← run_calls call cs; mret (a :: rest)
  end.

Lemma run_calls_faithful {M : Type -> Type} `{MutexApi M} {S T W C A : Type} (inner_of : S -> T) (rest_of : S -> W)
    (f : C -> Act S A) (f' : C -> Act (M T * W) A) cs :
  (forall c, faithful inner_of rest_of (f c) (f' c)) ->
  faithful inner_of rest_of (run_calls f cs) (run_calls f' cs).
Proof.
  intros Hf. induction cs as [|c cs IH]; cbn [run_calls]; [apply faithful_ret|].
  apply faithful_bind; [apply Hf|]. intros a. apply faithful_bind; [apply IH|]. intros. apply faithful_ret.
Qed.

(** A tracking mutex logs the section. *)
Definition logs {T W A} (m : Act (tracking.Inner T * W) A) (log : list (string * Z)) : Prop :=
  forall h a h' l, tracking.last_lock_owner (fst h) = take 20 l -> m h = Ret (a, h') ->
    tracking.last_lock_owner (fst h') = take 20 (rev log ++ l).

Lemma locked_logs {S T W A} (pack : T -> W -> S) inner_of rest_of reason ts (m : Act S A) :
  logs (locked pack inner_of rest_of reason ts m) (log_entry reason ts).
Proof.
  intros [mx w] a h' l Hl. unfold locked. cbn [fst snd] in *. cbn.
  destruct (m (pack _ w)) as [[a' s]| |]; try done. cbn. intros [= <- <-]. cbn. rewrite Hl.
  apply (push_owner (reason, duration_since (t_left ts) (t_entered ts)) l).
Qed.

Lemma logs_ret {T W A} (a : A) : logs (T := T) (W := W) (mret a) [].
Proof. by intros h a' h' l Hl [= <- <-]. Qed.

Lemma logs_bind {T W A A'} (m : Act (tracking.Inner T * W) A) (f : A -> Act _ A') l l' :
  logs m l -> (forall a, logs (f a) l') -> logs (m ≫= f) (l ++ l').
Proof.
  intros Hm Hf h a h' l0 Hl E. apply bind_ret_inv in E as (a1 & h1 & E1 & E2).
  rewrite rev_app_distr, <- app_assoc. eapply Hf; [|exact E2]. by eapply Hm.
Qed.

Lemma run_calls_logs {T W C A} (f : C -> Act (tracking.Inner T * W) A) (log : C -> list (string * Z)) cs :
  (forall c, logs (f c) (log c)) -> logs (run_calls f cs) (concat (map log cs)).
Proof.
  intros Hf. induction cs as [|c cs IH]; cbn [run_calls map concat]; [apply logs_ret|].
  apply logs_bind; [apply Hf|]. intros a. rewrite <- (app_nil_r (concat _)). apply logs_bind; [apply IH|].
  intros. apply logs_ret.
Qed.

Section theorem.
Context `{Profile} {AI : AtomicInstant} {B : Type} `{ReadBuf B}.

Lemma logs_answer {T W A A'} (m : Act (tracking.Inner T * W) A) (f : A -> A') log :
  logs m log -> logs (a ← m; mret (f a)) log.
Proof. intros Hm. rewrite <- (app_nil_r log). apply logs_bind; [done|]. intros. apply logs_ret. Qed.

Lemma stream_call_logs (c : stream_call (B := B)) : logs (through_handle (M := tracking.Inner) c) (stream_log c).
Proof.
  destruct c; cbn [through_handle stream_log]; try (apply logs_answer; apply locked_logs || apply logs_ret).
  - rewrite <- (app_nil_r (log_entry _ _)). apply logs_bind; [apply locked_logs|]. intros []. apply logs_ret.
  - apply logs_answer. unfold UdxStream_drop. destruct (_ <=? _); [apply locked_logs|apply logs_ret].
Qed.

Lemma socket_call_logs c : logs (through_socket_handle (M := tracking.Inner) c) (socket_log c).
Proof.
  destruct c; cbn [through_socket_handle socket_log]; try (apply logs_answer; apply locked_logs).
  - rewrite <- (app_nil_r (log_entry _ _)). apply logs_bind; [apply locked_logs|]. intros []. apply logs_ret.
  - apply logs_answer. unfold UdxSocket_drop. destruct (_ =? 2); [apply locked_logs|apply logs_ret].
Qed.

(** The results are those of the inner methods, and so is the state. *)
Definition transparent {M : Type -> Type} `{MutexApi M} {S T W A} (inner_of : S -> T) (rest_of : S -> W)
    (o : outcome (A * S)) (o' : outcome (A * (M T * W))) : Prop :=
  matches (fun r r' => fst r' = fst r /\ stands_for inner_of rest_of (snd r) (snd r')) o o'.

(** The handles add nothing but the mutex. Whatever sequence of calls is made
    on a stream or on a socket, with either variant of the mutex, the results
    (panics included) and the final state are those of the methods of the inner
    struct; and with lock tracking the mutex ends with the purposes and the
    holding times of the last twenty calls that lock, newest first. *)
Lemma handles_transparent (cs : list (stream_call (B := B))) s w (ks : list socket_call) local kw :
  (let direct := run_calls on_inner cs (mk_StreamSt s w) in
   transparent inner world direct (run_calls (through_handle (M := non_tracking.Mutex)) cs (UdxStream_new s w)) /\
   transparent inner world direct (run_calls (through_handle (M := tracking.Inner)) cs (UdxStream_new s w)) /\
   match run_calls (through_handle (M := tracking.Inner)) cs (UdxStream_new s w) with
   | Ret (_, h) => tracking.last_lock_owner (fst h) = take 20 (rev (concat (map stream_log cs)))
   | _ => True
   end) /\
  (let direct := run_calls on_socket_inner ks (mk_SocketSt (bind local) [] kw) in
   transparent sock outside direct (run_calls (through_socket_handle (M := non_tracking.Mutex)) ks (UdxSocket_bind local kw)) /\
   transparent sock outside direct (run_calls (through_socket_handle (M := tracking.Inner)) ks (UdxSocket_bind local kw)) /\
   match run_calls (through_socket_handle (M := tracking.Inner)) ks (UdxSocket_bind local kw) with
   | Ret (_, h) => tracking.last_lock_owner (fst h) = take 20 (rev (concat (map socket_log ks)))
   | _ => True
   end).
Proof.
  split; cbn zeta; split_and!.
  1,2: apply run_calls_faithful; [apply stream_call_faithful|done].
  2,3: apply run_calls_faithful; [apply socket_call_faithful|done].
  - destruct (run_calls _ _ _) as [[a h]| |] eqn:E; [|done|done]. rewrite <- (app_nil_r (rev _)).
    eapply (run_calls_logs _ stream_log); [apply stream_call_logs| |exact E]. done.
  - destruct (run_calls _ _ _) as [[a h]| |] eqn:E; [|done|done]. rewrite <- (app_nil_r (rev _)).
    eapply (run_calls_logs _ socket_log); [apply socket_call_logs| |exact E]. done.
Qed.

End theorem.

(** ** The stream behind its handle is safe *)

Section safe.
Context `{P : Profile} {AI : AtomicInstant} {AIL : AtomicInstantLaws AI}.
Context {B : Type} {RB : ReadBuf B} {RBL : ReadBufLaws B}.

(** The operation of the stream that a call performs; the others only look. *)
Definition call_op (c : stream_call (B := B)) : list (stream_op (B := B)) :=
  match c with
  | SClose _ tx => [OpClose tx]
  | SPollRead _ cx buf => [OpRead cx buf]
  | SPollWrite _ cx buf => [OpWrite cx buf]
  | SDrop _ n => [OpDrop n]
  | SPollDrive _ cx rx timer_ready => [OpPoll cx rx timer_ready]
  | SClosed _ | SRemoteAddr _ | SStats _ | SDebug _ | SPollFlush | SPollShutdown => []
  end.

Lemma on_inner_op c st st' :
  run_ops (call_op c) st = Ret (tt, st') -> exists a, on_inner c st = Ret (a, st').
Proof.
  assert (forall A (m : Act StreamSt A), (_ ← (_ ← m; mret tt); mret tt) st = Ret (tt, st') ->
    exists a, m st = Ret (a, st')) as L.
  { intros A m. unfold mbind, act_bind. destruct (m st) as [[a s1]| |]; [|done|done]. intros [= ->]. by exists a. }
  assert (forall A (m : Act StreamSt A), (_ ← m; mret tt) st = Ret (tt, st') ->
    exists a, m st = Ret (a, st')) as L1.
  { intros A m. unfold mbind, act_bind. destruct (m st) as [[a s1]| |]; [|done|done]. intros [= ->]. by exists a. }
  destruct c; cbn [call_op run_ops run_op on_inner]; intros E;
    first [apply L in E as [a Ea] | apply L1 in E as [a Ea] | injection E as <-; by eexists];
    unfold mbind, act_bind; rewrite Ea; by try (destruct a); eexists.
Qed.

Lemma run_ops_app (ops ops' : list (stream_op (B := B))) st st' :
  run_ops (ops ++ ops') st = Ret (tt, st') ->
  exists st1, run_ops ops st = Ret (tt, st1) /\ run_ops ops' st1 = Ret (tt, st').
Proof.
  revert st. induction ops as [|op ops IH]; intros st E; [by exists st|]. cbn [app run_ops] in *.
  apply bind_ret_inv in E as ([] & st1 & E1 & E2). destruct (IH st1 E2) as (st2 & E3 & E4).
  exists st2. split; [|done]. unfold mbind, act_bind. by rewrite E1.
Qed.

Lemma on_inner_ops cs st st' :
  run_ops (concat (map call_op cs)) st = Ret (tt, st') -> exists l, run_calls on_inner cs st = Ret (l, st').
Proof.
  revert st. induction cs as [|c cs IH]; intros st E; cbn [map concat run_calls] in *; [injection E as <-; by eexists|].
  destruct (run_ops_app _ _ _ _ E) as (st1 & E1 & E2). destruct (on_inner_op c st st1 E1) as [a Ea].
  destruct (IH st1 E2) as [l El]. exists (a :: l). unfold mbind, act_bind. by rewrite Ea, El.
Qed.

(** C35: a stream behind its public handle.  Start a stream with [connect] and make
    any sequence of calls on the handle: reads, writes, flushes, shutdowns,
    closes, queries, formatting, drops and driver polls with arbitrary packets.
    While fewer than 2^32 packets and 2^64 bytes pass through it, every call
    returns without a panic or an overflow and the invariant of the stream holds
    for what the mutex guards.  With lock tracking switched on, every call gives
    the same answer and leaves the same state, and the mutex knows the purposes
    and the holding times of the last twenty calls that lock, newest first. *)
Theorem stream_handle_safe now dest remote_id local_id w (cs : list (stream_call (B := B))) :
  let ops := concat (map call_op cs) in
  0 <= remote_id < u32_modulus -> (forall n, 0 <= w_clock w n <= CLOCK_BOUND) ->
  1 <= w_max_gso_segments w -> w_tx_open w = true -> Forall op_valid ops ->
  total op_packets ops <= U32_MAX -> total op_bytes ops < usize_modulus ->
  let s := connect now dest remote_id local_id in
  exists answers (plain : UdxStream (M := non_tracking.Mutex)) (tracked : UdxStream (M := tracking.Inner)) sent,
    run_calls through_handle cs (UdxStream_new s w) = Ret (answers, plain) /\
    run_calls through_handle cs (UdxStream_new s w) = Ret (answers, tracked) /\
    StreamInv sent (mk_StreamSt (non_tracking.deref (fst plain)) (snd plain)) /\
    tracking.deref (fst tracked) = non_tracking.deref (fst plain) /\ snd tracked = snd plain /\
    tracking.last_lock_owner (fst tracked) = take 20 (rev (concat (map stream_log cs))).
Proof.
  intros ops Hid Hclk Hgso Hopen Hv Hn Hb s.
  pose proof (connect_StreamInv now dest remote_id local_id w Hid Hclk Hgso) as HI.
  pose proof (total_nonneg _ ops op_packets_nonneg). pose proof (total_nonneg _ ops op_bytes_nonneg).
  pose proof (connect_Room (total op_packets ops) (total op_bytes ops) now dest remote_id local_id w) as HR.
  destruct (wp_elim _ _ _ (run_ops_wp ops [] _ HI Hv (HR ltac:(lia) ltac:(lia)) Hopen))
    as ([] & st' & E & [sent HI'] & _).
  destruct (on_inner_ops cs _ _ E) as [answers Ea].
  destruct (handles_transparent cs s w [] dest w) as [(T1 & T2 & Hlog) _]. cbn zeta in T1, T2.
  fold s in Ea. rewrite Ea in T1, T2. unfold transparent, matches in T1, T2.
  destruct (run_calls (through_handle (M := non_tracking.Mutex)) cs _) as [[a1 plain]| |]; try done.
  destruct (run_calls (through_handle (M := tracking.Inner)) cs _) as [[a2 tracked]| |]; try done.
  cbn [fst snd] in T1, T2. destruct T1 as [-> [V1 W1]], T2 as [-> [V2 W2]]. cbn in V1, W1, V2, W2.
  exists answers, plain, tracked, ([] ++ sent). split_and!; [done|done| |congruence|congruence|done].
  rewrite <- V1, <- W1. by destruct st'.
Qed.

End safe.

(** ** A handle at work *)

#[local] Existing Instance option_instant.
#[local] Existing Instance option_instant_laws.
#[local] Instance handle_profile : Profile := mk_Profile true true.

Definition at_times (a b : Z) : times := mk_times a a b.

(** Two bytes are written and sent, the stream is formatted and closed. *)
Definition demo_calls : list (stream_call (B := list byte * Z)) :=
  [SPollWrite (at_times 0 5) 1%nat [Byte.x68; Byte.x69]; SPollFlush; SPollDrive (at_times 6 9) 2%nat (mk_RecvScript [] false) false;
   SDebug (at_times 10 12); SClose (at_times 20 27) 3%nat].

Lemma stream_handle_safe_witness :
  exists answers (tracked : UdxStream (M := tracking.Inner)),
    run_calls through_handle demo_calls (UdxStream_new (connect 0 demo_addr 7 9) (fresh_world 4)) = Ret (answers, tracked) /\
    tracking.last_lock_owner (fst tracked) =
      [("UdxStream::close", 7); ("UdxStream::debug", 2); ("UdxStream::poll_drive", 3); ("UdxStream::poll_write", 5)]%string.
Proof.
  destruct (stream_handle_safe 0 demo_addr 7 9 (fresh_world 4) demo_calls) as (answers & _ & tracked & _ & _ & E & _ & _ & _ & Hlog).
  - unfold u32_modulus. lia.
  - apply fresh_clock.
  - cbn. lia.
  - reflexivity.
  - repeat constructor.
  - vm_compute. discriminate.
  - vm_compute. reflexivity.
  - exists answers, tracked. split; [exact E|]. rewrite Hlog. reflexivity.
Defined.
